(** * A limit order book matching engine: model and verified properties

    Shallow embedding of [src/order.cpp], [src/price_level.cpp] and
    [src/order_book.cpp] (with the declarations of [include/]).

    Conventions of the embedding.
    - [std::uint64_t] values are integers of [Z] in [0, 2^64); every
      arithmetic operation of the source is followed by its wrap-around
      [u64].
    - A price is a [double] in the source.  The modelled functions only
      ever compare prices (with each other and with [0.0]); the ordered
      set of non-NaN doubles is modelled by [Z] (price ticks), [0]
      standing for [0.0].  The definitions that follow have no NaN: they
      are the engine for as long as no NaN is passed to it.  The module
      [Ieee] further down embeds the same code with NaN among the
      prices; [run_lift] shows that on numbers it runs as the
      definitions that follow do, and the statements in which NaN
      matters are made about it.
    - [std::shared_ptr<Order>] is a nullable address into a heap of
      [Order] objects; [std::make_shared] allocates at the end of the
      heap, and objects are never reclaimed (a released object is simply
      unreachable).  The index and the price-level queues hold such
      addresses, so that a fill or a cancel through one pointer is seen
      through every other pointer to the same object.
    - Exceptions ([std::invalid_argument], [std::logic_error]) are the
      [Err] results of an error monad; following an address that is not
      allocated, or a null pointer, is the error [bad_pointer].
    - [while] loops whose termination is not structural take a fuel
      argument that the enclosing function supplies; running out of it
      is the error [out_of_fuel], which is proved not to happen.
    - The system clock is a function from the number of readings taken so
      far to the value read.
    - The mutex is not modelled: every operation runs to completion under
      the exclusive lock.
    - [get_spread], which subtracts two doubles, and [print_book], which
      writes to the standard output, are not modelled. *)

From stdpp Require Import base numbers option list gmap sorting.

Local Open Scope Z_scope.

(** ** Machine integers *)

Definition u64 (z : Z) : Z := z mod 2 ^ 64.

Definition max_u64 : Z := 2 ^ 64 - 1.

(** ** Enumerations of [order.h] *)

Inductive Side := BUY | SELL.
Inductive OrderType := MARKET | LIMIT.
Inductive OrderStatus := NEW | PARTIALLY_FILLED | FILLED | CANCELLED.

Definition Side_eqb (a b : Side) : bool :=
  match a, b with BUY, BUY | SELL, SELL => true | _, _ => false end.

Definition OrderType_eqb (a b : OrderType) : bool :=
  match a, b with MARKET, MARKET | LIMIT, LIMIT => true | _, _ => false end.

Definition OrderStatus_eqb (a b : OrderStatus) : bool :=
  match a, b with
  | NEW, NEW | PARTIALLY_FILLED, PARTIALLY_FILLED
  | FILLED, FILLED | CANCELLED, CANCELLED => true
  | _, _ => false
  end.

(** ** Errors *)

Inductive error :=
| invalid_argument   (* std::invalid_argument *)
| logic_error        (* std::logic_error *)
| bad_pointer        (* null or dangling pointer followed *)
| out_of_fuel.       (* a loop did not finish within its fuel *)

Inductive result (A : Type) :=
| Ok (a : A)
| Err (e : error).
Arguments Ok {A} a.
Arguments Err {A} e.

Definition bind {A B} (r : result A) (k : A -> result B) : result B :=
  match r with
  | Ok a => k a
  | Err e => Err e
  end.

Notation "'do' x <- e ;; k" := (bind e (fun x => k))
  (at level 10, x name, e at level 99, k at level 200, only parsing).
Notation "'do' ' p <- e ;; k" := (bind e (fun x => match x with p => k end))
  (at level 10, p pattern, e at level 99, k at level 200, only parsing).

(** ** Order ([order.h], [order.cpp]) *)

Module Order.

Record t := mk {
  order_id_ : Z;
  timestamp_ : Z;
  price_ : Z;
  quantity_ : Z;
  filled_qty_ : Z;
  side_ : Side;
  type_ : OrderType;
  status_ : OrderStatus
}.

Definition get_id (o : t) : Z := order_id_ o.
Definition get_price (o : t) : Z := price_ o.
Definition get_quantity (o : t) : Z := quantity_ o.
Definition get_filled_qty (o : t) : Z := filled_qty_ o.
Definition get_remaining_qty (o : t) : Z := u64 (quantity_ o - filled_qty_ o).
Definition get_side (o : t) : Side := side_ o.
Definition get_type (o : t) : OrderType := type_ o.
Definition get_status (o : t) : OrderStatus := status_ o.

(** The constructor; [ts] is the clock reading taken by
    [get_current_timestamp]. *)
Definition make (ts id price qty : Z) (side : Side) (type : OrderType)
  : result t :=
  if qty =? 0 then Err invalid_argument
  else if price <? 0 then Err invalid_argument
  else if OrderType_eqb type LIMIT && (price <=? 0) then Err invalid_argument
  else Ok (mk id ts price qty 0 side type NEW).

Definition set_fill (o : t) (filled : Z) (status : OrderStatus) : t :=
  mk (order_id_ o) (timestamp_ o) (price_ o) (quantity_ o) filled
     (side_ o) (type_ o) status.

Definition fill (o : t) (qty : Z) : result t :=
  if qty =? 0 then Ok o
  else if u64 (filled_qty_ o + qty) >? quantity_ o then Err invalid_argument
  else if OrderStatus_eqb (status_ o) CANCELLED
          || OrderStatus_eqb (status_ o) FILLED then Err logic_error
  else
    let filled := u64 (filled_qty_ o + qty) in
    if filled =? quantity_ o then Ok (set_fill o filled FILLED)
    else Ok (set_fill o filled PARTIALLY_FILLED).

Definition cancel (o : t) : t :=
  if OrderStatus_eqb (status_ o) NEW
     || OrderStatus_eqb (status_ o) PARTIALLY_FILLED
  then set_fill o (filled_qty_ o) CANCELLED
  else o.

Definition is_fully_filled (o : t) : bool := filled_qty_ o =? quantity_ o.

End Order.

(** ** The heap of [Order] objects *)

Abbreviation ptr := (option nat).

Abbreviation heap := (list Order.t).

Definition deref (h : heap) (p : ptr) : result Order.t :=
  match p with
  | None => Err bad_pointer
  | Some a =>
      match h !! a with
      | Some o => Ok o
      | None => Err bad_pointer
      end
  end.

Definition store (h : heap) (a : nat) (o : Order.t) : heap := <[a := o]> h.

(** ** Trade ([trade.h]) *)

Module Trade.

Record t := mk {
  trade_id : Z;
  buy_order_id : Z;
  sell_order_id : Z;
  price : Z;
  quantity : Z;
  timestamp : Z
}.

End Trade.

(** ** PriceLevel ([price_level.h], [price_level.cpp]) *)

Module PriceLevel.

(** [orders_] is the [std::queue]: front at the head, [push] at the
    end. *)
Record t := mk {
  price_ : Z;
  total_quantity_ : Z;
  orders_ : list ptr
}.

Definition default : t := mk 0 0 [].
Definition make (price : Z) : t := mk price 0 [].

Definition empty (lv : t) : bool :=
  match orders_ lv with [] => true | _ => false end.
Definition get_price (lv : t) : Z := price_ lv.
Definition get_total_quantity (lv : t) : Z := total_quantity_ lv.
Definition get_order_count (lv : t) : nat := length (orders_ lv).

Definition add_order (h : heap) (lv : t) (order : ptr) : result t :=
  match order with
  | None => Ok lv
  | Some _ =>
      do o <- deref h order ;;
      Ok (mk (price_ lv)
             (u64 (total_quantity_ lv + Order.get_remaining_qty o))
             (orders_ lv ++ [order]))
  end.

(** The [while] loop of [remove_order]: [orders] is what is left of
    [orders_], and [total], [temp_queue], [found] are the loop's
    variables. *)
Fixpoint remove_loop (h : heap) (order_id : Z) (orders : list ptr)
    (total : Z) (temp_queue : list ptr) (found : bool)
  : result (Z * list ptr * bool) :=
  match orders with
  | [] => Ok (total, temp_queue, found)
  | order :: orders' =>
      match order with
      | None => remove_loop h order_id orders' total temp_queue found
      | Some _ =>
          do o <- deref h order ;;
          if Order.get_id o =? order_id then
            remove_loop h order_id orders'
              (u64 (total - Order.get_remaining_qty o)) temp_queue true
          else
            remove_loop h order_id orders' total (temp_queue ++ [order]) found
      end
  end.

Definition remove_order (h : heap) (lv : t) (order_id : Z)
  : result (bool * t) :=
  if empty lv then Ok (false, lv)
  else
    do '(total, temp_queue, found) <-
       remove_loop h order_id (orders_ lv) (total_quantity_ lv) [] false ;;
    Ok (found, mk (price_ lv) total temp_queue).

Definition get_front_order (lv : t) : ptr :=
  match orders_ lv with
  | [] => None
  | order :: _ => order
  end.

Definition pop_front_order (h : heap) (lv : t) : result t :=
  match orders_ lv with
  | [] => Ok lv
  | order :: orders' =>
      match order with
      | None => Ok (mk (price_ lv) (total_quantity_ lv) orders')
      | Some _ =>
          do o <- deref h order ;;
          Ok (mk (price_ lv)
                 (u64 (total_quantity_ lv - Order.get_remaining_qty o))
                 orders')
      end
  end.

Definition update_quantity (lv : t) (old_remaining new_remaining : Z) : t :=
  if old_remaining >=? new_remaining then
    mk (price_ lv)
       (u64 (total_quantity_ lv - (old_remaining - new_remaining)))
       (orders_ lv)
  else
    mk (price_ lv)
       (u64 (total_quantity_ lv + (new_remaining - old_remaining)))
       (orders_ lv).

End PriceLevel.

(** ** The price ladders: [std::map<double, PriceLevel, Compare>]

    A ladder is the list of the map's entries in iteration order, so that
    [begin()] is the head.  [before a b] is the map's [Compare]: two keys
    are the same key when neither is before the other. *)

Abbreviation ladder := (list (Z * PriceLevel.t)).

Definition less (a b : Z) : bool := a <? b.
Definition greater (a b : Z) : bool := a >? b.

Section Ladder.

Variable before : Z -> Z -> bool.

Fixpoint map_find (k : Z) (m : ladder) : option PriceLevel.t :=
  match m with
  | [] => None
  | (k', v) :: m' =>
      if before k' k then map_find k m'
      else if before k k' then None
      else Some v
  end.

(** [m[k] = v] *)
Fixpoint map_assign (k : Z) (v : PriceLevel.t) (m : ladder) : ladder :=
  match m with
  | [] => [(k, v)]
  | (k', v') :: m' =>
      if before k' k then (k', v') :: map_assign k v m'
      else if before k k' then (k, v) :: m
      else (k', v) :: m'
  end.

(** The value read through [m[k]]: an absent key is default-constructed. *)
Definition map_subscript (k : Z) (m : ladder) : PriceLevel.t :=
  match map_find k m with
  | Some v => v
  | None => PriceLevel.default
  end.

(** [m.erase(it)] for the iterator [it = m.find(k)]. *)
Fixpoint map_erase (k : Z) (m : ladder) : ladder :=
  match m with
  | [] => []
  | (k', v) :: m' =>
      if before k' k then (k', v) :: map_erase k m'
      else if before k k' then m
      else m'
  end.

End Ladder.

(** ** OrderBook ([order_book.h], [order_book.cpp]) *)

Module OrderBook.

(** The seven data members of the class, followed by the two
    components of its environment: the heap of [Order] objects and the
    number of clock readings taken so far. *)
Record t := mk {
  bids_ : ladder;
  asks_ : ladder;
  order_map_ : gmap Z ptr;
  next_order_id_ : Z;
  next_trade_id_ : Z;
  total_trades_ : Z;
  total_volume_ : Z;
  heap_ : heap;
  clock_reads_ : nat
}.

Definition set_bids (st : t) (m : ladder) : t :=
  mk m (asks_ st) (order_map_ st) (next_order_id_ st) (next_trade_id_ st)
     (total_trades_ st) (total_volume_ st) (heap_ st) (clock_reads_ st).
Definition set_asks (st : t) (m : ladder) : t :=
  mk (bids_ st) m (order_map_ st) (next_order_id_ st) (next_trade_id_ st)
     (total_trades_ st) (total_volume_ st) (heap_ st) (clock_reads_ st).
Definition set_order_map (st : t) (m : gmap Z ptr) : t :=
  mk (bids_ st) (asks_ st) m (next_order_id_ st) (next_trade_id_ st)
     (total_trades_ st) (total_volume_ st) (heap_ st) (clock_reads_ st).
Definition set_next_order_id (st : t) (n : Z) : t :=
  mk (bids_ st) (asks_ st) (order_map_ st) n (next_trade_id_ st)
     (total_trades_ st) (total_volume_ st) (heap_ st) (clock_reads_ st).
Definition set_next_trade_id (st : t) (n : Z) : t :=
  mk (bids_ st) (asks_ st) (order_map_ st) (next_order_id_ st) n
     (total_trades_ st) (total_volume_ st) (heap_ st) (clock_reads_ st).
Definition set_total_trades (st : t) (n : Z) : t :=
  mk (bids_ st) (asks_ st) (order_map_ st) (next_order_id_ st)
     (next_trade_id_ st) n (total_volume_ st) (heap_ st) (clock_reads_ st).
Definition set_total_volume (st : t) (n : Z) : t :=
  mk (bids_ st) (asks_ st) (order_map_ st) (next_order_id_ st)
     (next_trade_id_ st) (total_trades_ st) n (heap_ st) (clock_reads_ st).
Definition set_heap (st : t) (h : heap) : t :=
  mk (bids_ st) (asks_ st) (order_map_ st) (next_order_id_ st)
     (next_trade_id_ st) (total_trades_ st) (total_volume_ st) h
     (clock_reads_ st).
Definition set_clock_reads (st : t) (n : nat) : t :=
  mk (bids_ st) (asks_ st) (order_map_ st) (next_order_id_ st)
     (next_trade_id_ st) (total_trades_ st) (total_volume_ st) (heap_ st) n.

(** The constructor, on an empty heap. *)
Definition init : t := mk [] [] ∅ 1 1 0 0 [] 0%nat.

Section Engine.

Variable clock : nat -> Z.

Definition get_timestamp (st : t) : Z * t :=
  (u64 (clock (clock_reads_ st)),
   set_clock_reads st (S (clock_reads_ st))).

(** [std::make_shared<Order>(next_order_id_++, price, qty, side, type)] *)
Definition make_shared_Order (price qty : Z) (side : Side)
    (type : OrderType) (st : t) : result (ptr * t) :=
  let id := next_order_id_ st in
  let st := set_next_order_id st (u64 (id + 1)) in
  let '(ts, st) := get_timestamp st in
  do o <- Order.make ts id price qty side type ;;
  Ok (Some (length (heap_ st)), set_heap st (heap_ st ++ [o])).

(** One iteration of the [while] loop of [process_matches_at_level],
    entered with the loop condition true. *)
Definition match_one (incoming_order : ptr) (level : PriceLevel.t)
    (trade_price : Z) (trades : list Trade.t) (st : t)
  : result (PriceLevel.t * list Trade.t * t) :=
  let resting_order := PriceLevel.get_front_order level in
  match resting_order with
  | None =>
      do level <- PriceLevel.pop_front_order (heap_ st) level ;;
      Ok (level, trades, st)
  | Some r =>
      do inc <- deref (heap_ st) incoming_order ;;
      do rest <- deref (heap_ st) resting_order ;;
      let trade_qty :=
        Z.min (Order.get_remaining_qty inc) (Order.get_remaining_qty rest) in
      let '(trade_timestamp, st) := get_timestamp st in
      let trade :=
        Trade.mk (next_trade_id_ st)
          (if Side_eqb (Order.get_side inc) BUY
           then Order.get_id inc else Order.get_id rest)
          (if Side_eqb (Order.get_side inc) SELL
           then Order.get_id inc else Order.get_id rest)
          trade_price trade_qty trade_timestamp in
      let st := set_next_trade_id st (u64 (next_trade_id_ st + 1)) in
      let old_resting_remaining := Order.get_remaining_qty rest in
      do inc' <- Order.fill inc trade_qty ;;
      let st :=
        match incoming_order with
        | Some i => set_heap st (store (heap_ st) i inc')
        | None => st
        end in
      do rest <- deref (heap_ st) resting_order ;;
      do rest' <- Order.fill rest trade_qty ;;
      let st := set_heap st (store (heap_ st) r rest') in
      do rest <- deref (heap_ st) resting_order ;;
      let level :=
        PriceLevel.update_quantity level old_resting_remaining
          (Order.get_remaining_qty rest) in
      let trades := trades ++ [trade] in
      if Order.is_fully_filled rest then
        do level <- PriceLevel.pop_front_order (heap_ st) level ;;
        Ok (level, trades,
            set_order_map st (delete (Order.get_id rest) (order_map_ st)))
      else Ok (level, trades, st)
  end.

Fixpoint process_matches_loop (fuel : nat) (incoming_order : ptr)
    (level : PriceLevel.t) (trade_price : Z) (trades : list Trade.t)
    (st : t) : result (PriceLevel.t * list Trade.t * t) :=
  if PriceLevel.empty level then Ok (level, trades, st)
  else
    do inc <- deref (heap_ st) incoming_order ;;
    if Order.get_remaining_qty inc >? 0 then
      match fuel with
      | O => Err out_of_fuel
      | S fuel' =>
          do '(level, trades, st) <-
             match_one incoming_order level trade_price trades st ;;
          process_matches_loop fuel' incoming_order level trade_price
            trades st
      end
    else Ok (level, trades, st).

(** [level] is passed by reference in the source: the updated level is
    returned, and the caller puts it back where it came from. *)
Definition process_matches_at_level (incoming_order : ptr)
    (level : PriceLevel.t) (trade_price : Z) (trades : list Trade.t)
    (st : t) : result (PriceLevel.t * list Trade.t * t) :=
  process_matches_loop (S (length (PriceLevel.orders_ level)))
    incoming_order level trade_price trades st.

(** The two [while] loops of [match_order]; [opposite] is [asks_] for
    an incoming buy and [bids_] for an incoming sell. *)
Definition crosses (side : Side) (price best : Z) : bool :=
  match side with
  | BUY => price >=? best
  | SELL => price <=? best
  end.

Definition opposite (side : Side) (st : t) : ladder :=
  match side with
  | BUY => asks_ st
  | SELL => bids_ st
  end.

Definition set_opposite (side : Side) (st : t) (m : ladder) : t :=
  match side with
  | BUY => set_asks st m
  | SELL => set_bids st m
  end.

Fixpoint match_loop (fuel : nat) (side : Side) (incoming_order : ptr)
    (trades : list Trade.t) (st : t) : result (list Trade.t * t) :=
  match opposite side st with
  | [] => Ok (trades, st)
  | (best_price, best_level) :: others =>
      do inc <- deref (heap_ st) incoming_order ;;
      if Order.get_remaining_qty inc >? 0 then
        if OrderType_eqb (Order.get_type inc) MARKET
           || crosses side (Order.get_price inc) best_price
        then
          match fuel with
          | O => Err out_of_fuel
          | S fuel' =>
              do '(best_level, trades, st) <-
                 process_matches_at_level incoming_order best_level
                   best_price trades st ;;
              let st :=
                if PriceLevel.empty best_level
                then set_opposite side st others
                else set_opposite side st ((best_price, best_level) :: others)
              in
              match_loop fuel' side incoming_order trades st
          end
        else Ok (trades, st)
      else Ok (trades, st)
  end.

Definition match_order (incoming_order : ptr) (st : t)
  : result (list Trade.t * t) :=
  match incoming_order with
  | None => Ok ([], st)
  | Some _ =>
      do inc <- deref (heap_ st) incoming_order ;;
      match_loop (S (length (opposite (Order.get_side inc) st)))
        (Order.get_side inc) incoming_order [] st
  end.

(** The statistics update that ends [add_order] and
    [add_market_order]. *)
Definition update_statistics (trades : list Trade.t) (st : t) : t :=
  let st :=
    set_total_trades st
      (u64 (total_trades_ st + Z.of_nat (length trades))) in
  fold_left
    (fun st trade =>
       set_total_volume st (u64 (total_volume_ st + Trade.quantity trade)))
    trades st.

(** Resting an order on its own side: lines 39-50 of
    [order_book.cpp]. *)
Definition rest_order (before : Z -> Z -> bool) (price : Z) (order : ptr)
    (h : heap) (m : ladder) : result ladder :=
  let m :=
    match map_find before price m with
    | None => map_assign before price (PriceLevel.make price) m
    | Some _ => m
    end in
  do level <- PriceLevel.add_order h (map_subscript before price m) order ;;
  Ok (map_assign before price level m).

(** The body of [add_order]; its local variable [trades] is returned
    along with the order id, for the statements about the trades that an
    [add_order] produces. *)
Definition add_order_body (price quantity : Z) (side : Side)
    (type : OrderType) (st : t) : result (Z * list Trade.t * t) :=
  if quantity =? 0 then Ok (0, [], st)
  else if price <? 0 then Ok (0, [], st)
  else if OrderType_eqb type LIMIT && (price <=? 0) then Ok (0, [], st)
  else
    do '(order, st) <- make_shared_Order price quantity side type st ;;
    do o <- deref (heap_ st) order ;;
    let order_id := Order.get_id o in
    do '(trades, st) <- match_order order st ;;
    do o <- deref (heap_ st) order ;;
    do st <-
      (if (Order.get_remaining_qty o >? 0)
          && OrderType_eqb type LIMIT
          && negb (OrderStatus_eqb (Order.get_status o) CANCELLED)
       then
         let st := set_order_map st (<[order_id := order]> (order_map_ st)) in
         match side with
         | BUY =>
             do m <- rest_order greater price order (heap_ st) (bids_ st) ;;
             Ok (set_bids st m)
         | SELL =>
             do m <- rest_order less price order (heap_ st) (asks_ st) ;;
             Ok (set_asks st m)
         end
       else Ok st) ;;
    Ok (order_id, trades, update_statistics trades st).

Definition add_order (price quantity : Z) (side : Side) (type : OrderType)
    (st : t) : result (Z * t) :=
  do '(order_id, _, st) <- add_order_body price quantity side type st ;;
  Ok (order_id, st).

Definition add_market_order (quantity : Z) (side : Side) (st : t)
  : result (list Trade.t * t) :=
  if quantity =? 0 then Ok ([], st)
  else
    do '(order, st) <- make_shared_Order 0 quantity side MARKET st ;;
    do '(trades, st) <- match_order order st ;;
    Ok (trades, update_statistics trades st).

(** The removal of a cancelled order from its ladder: lines 95-112 of
    [order_book.cpp]. *)
Definition unrest_order (before : Z -> Z -> bool) (price order_id : Z)
    (h : heap) (m : ladder) : result (bool * ladder) :=
  match map_find before price m with
  | None => Ok (false, m)
  | Some level =>
      do '(removed, level) <- PriceLevel.remove_order h level order_id ;;
      if PriceLevel.empty level
      then Ok (removed, map_erase before price m)
      else Ok (removed, map_assign before price level m)
  end.

Definition cancel_order (order_id : Z) (st : t) : result (bool * t) :=
  match order_map_ st !! order_id with
  | None => Ok (false, st)
  | Some order =>
      do o <- deref (heap_ st) order ;;
      let o := Order.cancel o in
      let st :=
        match order with
        | Some a => set_heap st (store (heap_ st) a o)
        | None => st
        end in
      do '(removed, st) <-
        match Order.get_side o with
        | BUY =>
            do '(removed, m) <-
               unrest_order greater (Order.get_price o) order_id
                 (heap_ st) (bids_ st) ;;
            Ok (removed, set_bids st m)
        | SELL =>
            do '(removed, m) <-
               unrest_order less (Order.get_price o) order_id
                 (heap_ st) (asks_ st) ;;
            Ok (removed, set_asks st m)
        end ;;
      Ok (removed, set_order_map st (delete order_id (order_map_ st)))
  end.

Definition get_best_bid (st : t) : option Z :=
  match bids_ st with
  | [] => None
  | (k, _) :: _ => Some k
  end.

Definition get_best_ask (st : t) : option Z :=
  match asks_ st with
  | [] => None
  | (k, _) :: _ => Some k
  end.

(** [can_match]: a private member that no other member calls. *)
Definition can_match (order : Order.t) (st : t) : bool :=
  if OrderType_eqb (Order.get_type order) MARKET then true
  else if Side_eqb (Order.get_side order) BUY
          && negb (match asks_ st with [] => true | _ => false end)
  then
    match asks_ st with
    | (k, _) :: _ => Order.get_price order >=? k
    | [] => false
    end
  else if Side_eqb (Order.get_side order) SELL
          && negb (match bids_ st with [] => true | _ => false end)
  then
    match bids_ st with
    | (k, _) :: _ => Order.get_price order <=? k
    | [] => false
    end
  else false.

(** [level] is a [std::size_t]; [std::advance(it, level)] from [begin()]
    reaches the entry of index [level]. *)
Definition get_bid_depth_at_level (level : nat) (st : t) : Z :=
  if (length (bids_ st) <=? level)%nat then 0
  else
    match bids_ st !! level with
    | Some (_, lv) => PriceLevel.get_total_quantity lv
    | None => 0
    end.

Definition get_ask_depth_at_level (level : nat) (st : t) : Z :=
  if (length (asks_ st) <=? level)%nat then 0
  else
    match asks_ st !! level with
    | Some (_, lv) => PriceLevel.get_total_quantity lv
    | None => 0
    end.

Definition get_total_orders (st : t) : nat := size (order_map_ st).
Definition get_total_trades (st : t) : Z := total_trades_ st.
Definition get_total_volume (st : t) : Z := total_volume_ st.

Definition clear (st : t) : t :=
  mk [] [] ∅ (next_order_id_ st) (next_trade_id_ st) 0 0
     (heap_ st) (clock_reads_ st).

End Engine.

End OrderBook.

(** * The invariants of the book *)

Definition in_u64 (z : Z) : Prop := 0 <= z < 2 ^ 64.

Definition other (s : Side) : Side :=
  match s with BUY => SELL | SELL => BUY end.

(** The ladder of a side, and the order of its keys. *)
Definition own (s : Side) (st : OrderBook.t) : ladder :=
  match s with
  | BUY => OrderBook.bids_ st
  | SELL => OrderBook.asks_ st
  end.

Definition before_of (s : Side) : Z -> Z -> bool :=
  match s with BUY => greater | SELL => less end.

(** A working order: something is left to fill, and it was neither filled
    nor cancelled. *)
Definition live (o : Order.t) : Prop :=
  0 <= Order.filled_qty_ o < Order.quantity_ o
  /\ Order.quantity_ o < 2 ^ 64
  /\ (Order.status_ o = NEW \/ Order.status_ o = PARTIALLY_FILLED).

(** [p] points to a working order of side [s] and price [k]. *)
Definition rests_at (h : heap) (s : Side) (k : Z) (p : ptr) : Prop :=
  exists a o, p = Some a /\ h !! a = Some o /\ live o
              /\ Order.side_ o = s /\ Order.price_ o = k.

Definition remaining_at (h : heap) (p : ptr) : Z :=
  match deref h p with
  | Ok o => Order.get_remaining_qty o
  | Err _ => 0
  end.

(** The sum of [remaining_qty] over a queue, as an integer. *)
Fixpoint sum_remaining (h : heap) (q : list ptr) : Z :=
  match q with
  | [] => 0
  | p :: q' => remaining_at h p + sum_remaining h q'
  end.

Definition level_ok (h : heap) (s : Side) (kl : Z * PriceLevel.t) : Prop :=
  PriceLevel.price_ kl.2 = kl.1
  /\ Forall (rests_at h s kl.1) (PriceLevel.orders_ kl.2)
  /\ PriceLevel.total_quantity_ kl.2
     = u64 (sum_remaining h (PriceLevel.orders_ kl.2)).

Definition keys_sorted (before : Z -> Z -> bool) (m : ladder) : Prop :=
  StronglySorted (fun x y => before x.1 y.1 = true) m.

(** The pointers queued in a ladder, best level first, oldest first
    within a level. *)
Fixpoint resting (m : ladder) : list ptr :=
  match m with
  | [] => []
  | (_, lv) :: m' => PriceLevel.orders_ lv ++ resting m'
  end.

Definition uncrossed (st : OrderBook.t) : Prop :=
  forall b a,
    OrderBook.get_best_bid st = Some b ->
    OrderBook.get_best_ask st = Some a ->
    b < a.

Definition keys (m : ladder) : list Z := m.*1.

(** A price [x] of side [s] that does not cross a price [y] of the other
    side. *)
Definition apart (s : Side) (x y : Z) : Prop :=
  match s with
  | BUY => x < y
  | SELL => y < x
  end.

(** Two heaps that hold the same objects behind the pointers of a list. *)
Definition agree_on (ps : list ptr) (h h' : heap) : Prop :=
  forall a, Some a ∈ ps -> h' !! a = h !! a.

(** The invariant of the book, told from side [s]: [own] is the ladder of
    [s] and [opp] the ladder of the other side.
    - every queued pointer leads to a working order of the side and price
      of its level, and the level's aggregate is the sum of what remains
      of its orders, modulo 2^64;
    - the keys of a ladder are strictly sorted by its comparator;
    - no price of one side crosses a price of the other;
    - no order is queued twice;
    - an entry of the index leads to a queued order with the entry's id. *)
Record book_ok (s : Side) (h : heap) (own opp : ladder)
    (index : gmap Z ptr) : Prop := mk_book_ok {
  ok_own : Forall (level_ok h s) own;
  ok_opp : Forall (level_ok h (other s)) opp;
  ok_own_sorted : keys_sorted (before_of s) own;
  ok_opp_sorted : keys_sorted (before_of (other s)) opp;
  ok_apart : forall x y, x ∈ keys own -> y ∈ keys opp -> apart s x y;
  ok_nodup : NoDup (resting own ++ resting opp);
  ok_index :
    forall id p,
      index !! id = Some p ->
      p ∈ resting own ++ resting opp
      /\ exists a o, p = Some a /\ h !! a = Some o /\ Order.order_id_ o = id
}.

Definition wf (st : OrderBook.t) : Prop :=
  book_ok BUY (OrderBook.heap_ st) (OrderBook.bids_ st) (OrderBook.asks_ st)
    (OrderBook.order_map_ st).

(** An incoming order while it is matched. *)
Definition incoming_ok (o : Order.t) : Prop :=
  0 <= Order.filled_qty_ o <= Order.quantity_ o
  /\ Order.quantity_ o < 2 ^ 64
  /\ (Order.filled_qty_ o < Order.quantity_ o ->
      Order.status_ o = NEW \/ Order.status_ o = PARTIALLY_FILLED)
  /\ Order.status_ o <> CANCELLED.

(** An order after a fill of [q]. *)
Definition filled_by (o : Order.t) (q : Z) : Order.t :=
  Order.set_fill o (Order.filled_qty_ o + q)
    (if Order.filled_qty_ o + q =? Order.quantity_ o
     then FILLED else PARTIALLY_FILLED).

(** * Price levels *)

Definition level_consistent (h : heap) (lv : PriceLevel.t) : Prop :=
  PriceLevel.total_quantity_ lv
  = u64 (sum_remaining h (PriceLevel.orders_ lv)).

Definition valid_ptr (h : heap) (p : ptr) : Prop :=
  exists o, deref h p = Ok o.

Definition has_id (h : heap) (order_id : Z) (p : ptr) : bool :=
  match deref h p with
  | Ok o => Order.get_id o =? order_id
  | Err _ => false
  end.

(** Removal as the specification words it: the first entry with the id
    goes, the others stay in order. *)
Fixpoint remove_first (h : heap) (order_id : Z) (q : list ptr) : list ptr :=
  match q with
  | [] => []
  | p :: q' =>
      if has_id h order_id p then q' else p :: remove_first h order_id q'
  end.

(** * Runs of the engine *)

Inductive op :=
| AddOrder (price quantity : Z) (side : Side) (type : OrderType)
| AddMarketOrder (quantity : Z) (side : Side)
| CancelOrder (order_id : Z)
| Clear.

(** The arguments of type [std::uint64_t] are 64-bit values. *)
Definition valid_op (o : op) : Prop :=
  match o with
  | AddOrder _ quantity _ _ => in_u64 quantity
  | AddMarketOrder quantity _ => in_u64 quantity
  | CancelOrder order_id => in_u64 order_id
  | Clear => True
  end.

Inductive event :=
| Issued (order_id : Z)
| Traded (trade : Trade.t)
| Cleared.

(** The ids of the [Order] objects constructed between two states: the
    heap only grows, at its end. *)
Definition issued_between (st st' : OrderBook.t) : list Z :=
  map Order.get_id (drop (length (OrderBook.heap_ st)) (OrderBook.heap_ st')).

Definition step (clock : nat -> Z) (o : op) (st : OrderBook.t)
  : result (list event * OrderBook.t) :=
  match o with
  | AddOrder price quantity side type =>
      do '(_, trades, st') <-
         OrderBook.add_order_body clock price quantity side type st ;;
      Ok (map Issued (issued_between st st') ++ map Traded trades, st')
  | AddMarketOrder quantity side =>
      do '(trades, st') <- OrderBook.add_market_order clock quantity side st ;;
      Ok (map Issued (issued_between st st') ++ map Traded trades, st')
  | CancelOrder order_id =>
      do '(_, st') <- OrderBook.cancel_order order_id st ;;
      Ok ([], st')
  | Clear => Ok ([Cleared], OrderBook.clear st)
  end.

Fixpoint run (clock : nat -> Z) (ops : list op) (st : OrderBook.t)
  : result (list event * OrderBook.t) :=
  match ops with
  | [] => Ok ([], st)
  | o :: ops' =>
      do '(evs, st) <- step clock o st ;;
      do '(evs', st) <- run clock ops' st ;;
      Ok (evs ++ evs', st)
  end.

Definition reachable (clock : nat -> Z) (st : OrderBook.t) : Prop :=
  exists ops evs,
    Forall valid_op ops /\ run clock ops OrderBook.init = Ok (evs, st).

Fixpoint issued_ids (evs : list event) : list Z :=
  match evs with
  | [] => []
  | Issued id :: evs' => id :: issued_ids evs'
  | _ :: evs' => issued_ids evs'
  end.

Fixpoint traded (evs : list event) : list Trade.t :=
  match evs with
  | [] => []
  | Traded t :: evs' => t :: traded evs'
  | _ :: evs' => traded evs'
  end.

(** The trades of a log that come after its last [Cleared]; [acc] is what
    was traded before the log and since the last clear. *)
Fixpoint since_clear (acc : list Trade.t) (evs : list event) : list Trade.t :=
  match evs with
  | [] => acc
  | Cleared :: evs' => since_clear [] evs'
  | Traded t :: evs' => since_clear (acc ++ [t]) evs'
  | Issued _ :: evs' => since_clear acc evs'
  end.

Definition volume (trades : list Trade.t) : Z :=
  foldr (fun t acc => Trade.quantity t + acc) 0 trades.

(** * One match, in closed form

    What one iteration of the loop of [process_matches_at_level] does
    when the incoming order [oi], at address [i], meets the resting order
    [orr], at address [r], at the front of the level [level] of key [k]:
    the quantity traded, the trade, the heap, the level and the state
    that result. *)

Definition match_qty (oi orr : Order.t) : Z :=
  Z.min (Order.get_remaining_qty oi) (Order.get_remaining_qty orr).

Definition match_full (oi orr : Order.t) : bool :=
  Order.filled_qty_ orr + match_qty oi orr =? Order.quantity_ orr.

Definition match_trade (clock : nat -> Z) (st : OrderBook.t)
    (oi orr : Order.t) (k : Z) : Trade.t :=
  Trade.mk (OrderBook.next_trade_id_ st)
    (if Side_eqb (Order.side_ oi) BUY
     then Order.order_id_ oi else Order.order_id_ orr)
    (if Side_eqb (Order.side_ oi) SELL
     then Order.order_id_ oi else Order.order_id_ orr)
    k (match_qty oi orr) (u64 (clock (OrderBook.clock_reads_ st))).

Definition match_heap (h : heap) (i : nat) (oi : Order.t) (r : nat)
    (orr : Order.t) : heap :=
  store (store h i (filled_by oi (match_qty oi orr))) r
    (filled_by orr (match_qty oi orr)).

Definition match_level (level : PriceLevel.t) (oi orr : Order.t)
    (r : nat) (q' : list ptr) : PriceLevel.t :=
  PriceLevel.mk (PriceLevel.price_ level)
    (u64 (PriceLevel.total_quantity_ level - match_qty oi orr))
    (if match_full oi orr then q' else Some r :: q').

Definition match_state (st : OrderBook.t) (i : nat) (oi : Order.t) (r : nat)
    (orr : Order.t) : OrderBook.t :=
  OrderBook.mk (OrderBook.bids_ st) (OrderBook.asks_ st)
    (if match_full oi orr
     then delete (Order.order_id_ orr) (OrderBook.order_map_ st)
     else OrderBook.order_map_ st)
    (OrderBook.next_order_id_ st)
    (u64 (OrderBook.next_trade_id_ st + 1))
    (OrderBook.total_trades_ st) (OrderBook.total_volume_ st)
    (match_heap (OrderBook.heap_ st) i oi r orr)
    (S (OrderBook.clock_reads_ st)).

(** The book while the order at address [i], of side [s], is matched:
    [own] is the ladder of [s] and [opp] the ladder the order is matched
    against.  The incoming order is not queued anywhere. *)
Record matching (s : Side) (i : nat) (h : heap) (own opp : ladder)
    (index : gmap Z ptr) : Prop := mk_matching {
  mt_book : book_ok s h own opp index;
  mt_fresh : Some i ∉ resting own ++ resting opp;
  mt_incoming :
    exists oi, h !! i = Some oi /\ incoming_ok oi /\ Order.side_ oi = s
}.

(** How the loop of [match_order] ends: nothing is left to match against,
    or nothing is left of the incoming order, or the incoming limit does
    not cross the best opposite price. *)
Definition match_done (s : Side) (i : nat) (st : OrderBook.t) : Prop :=
  exists oi,
    OrderBook.heap_ st !! i = Some oi
    /\ (OrderBook.opposite s st = []
        \/ Order.get_remaining_qty oi = 0
        \/ exists k lv others,
             OrderBook.opposite s st = (k, lv) :: others
             /\ Order.type_ oi = LIMIT
             /\ OrderBook.crosses s (Order.price_ oi) k = false).

(** * The matching algorithm of the specification

    The resting orders of a ladder in the order in which they are to be
    matched, each with the key of its level. *)

Fixpoint level_view (h : heap) (k : Z) (q : list ptr)
  : list (Z * Order.t) :=
  match q with
  | [] => []
  | p :: q' =>
      match deref h p with
      | Ok o => (k, o) :: level_view h k q'
      | Err _ => level_view h k q'
      end
  end.

Fixpoint book_view (h : heap) (m : ladder) : list (Z * Order.t) :=
  match m with
  | [] => []
  | (k, lv) :: m' => level_view h k (PriceLevel.orders_ lv) ++ book_view h m'
  end.

(** The trades that the specification prescribes for an incoming order
    (its side, type, limit price, id and what remains of it) against the
    resting orders [book]: as long as something remains and the order is
    a market order or its limit crosses the level, it trades the smaller
    of the two remaining quantities at the price of the level, the buyer
    and the seller being told by the side.  A trade is given as
    (buy order id, sell order id, price, quantity). *)
Fixpoint expected_fills (side : Side) (type : OrderType)
    (limit incoming_id remaining : Z) (book : list (Z * Order.t))
  : list (Z * Z * Z * Z) :=
  match book with
  | [] => []
  | (k, resting_order) :: book' =>
      if (remaining >? 0)
         && (OrderType_eqb type MARKET || OrderBook.crosses side limit k)
      then
        let q := Z.min remaining (Order.get_remaining_qty resting_order) in
        (match side with
         | BUY => incoming_id
         | SELL => Order.get_id resting_order
         end,
         match side with
         | BUY => Order.get_id resting_order
         | SELL => incoming_id
         end,
         k, q)
        :: expected_fills side type limit incoming_id (remaining - q) book'
      else []
  end.

Definition trade_view (t : Trade.t) : Z * Z * Z * Z :=
  (Trade.buy_order_id t, Trade.sell_order_id t, Trade.price t,
   Trade.quantity t).

(** The [j]-th trade filled the order behind the [j]-th pointer. *)
Definition fills_aligned (h0 h : heap) (ptrs : list ptr)
    (trades : list Trade.t) : Prop :=
  forall j t,
    trades !! j = Some t ->
    exists a o0 o,
      ptrs !! j = Some (Some a) /\ h0 !! a = Some o0 /\ h !! a = Some o
      /\ Order.filled_qty_ o = Order.filled_qty_ o0 + Trade.quantity t.

(** Two versions of one order: only [filled_qty_] and [status_] differ. *)
Definition same_order (o o' : Order.t) : Prop :=
  Order.order_id_ o' = Order.order_id_ o
  /\ Order.timestamp_ o' = Order.timestamp_ o
  /\ Order.price_ o' = Order.price_ o
  /\ Order.quantity_ o' = Order.quantity_ o
  /\ Order.side_ o' = Order.side_ o
  /\ Order.type_ o' = Order.type_ o.

(** What holds of the trades [trades] produced so far and of the state
    [st] while the order at address [i], which was [oi0] in the state
    [st0] in which [match_order] was entered, is matched. *)
Record matched (clock : nat -> Z) (s : Side) (i : nat) (oi0 : Order.t)
    (st0 : OrderBook.t) (trades : list Trade.t) (st : OrderBook.t)
  : Prop := mk_matched {
  md_matching :
    matching s i (OrderBook.heap_ st) (own s st) (OrderBook.opposite s st)
      (OrderBook.order_map_ st);
  md_own : own s st = own s st0;
  md_next_order_id :
    OrderBook.next_order_id_ st = OrderBook.next_order_id_ st0;
  md_total_trades : OrderBook.total_trades_ st = OrderBook.total_trades_ st0;
  md_total_volume : OrderBook.total_volume_ st = OrderBook.total_volume_ st0;
  md_heap_length :
    length (OrderBook.heap_ st) = length (OrderBook.heap_ st0);
  md_next_trade_id :
    OrderBook.next_trade_id_ st
    = u64 (OrderBook.next_trade_id_ st0 + Z.of_nat (length trades));
  md_clock_reads :
    OrderBook.clock_reads_ st
    = (OrderBook.clock_reads_ st0 + length trades)%nat;
  md_trade_ids :
    forall j t,
      trades !! j = Some t ->
      Trade.trade_id t = u64 (OrderBook.next_trade_id_ st0 + Z.of_nat j)
      /\ Trade.timestamp t
         = u64 (clock (OrderBook.clock_reads_ st0 + j)%nat);
  md_index : OrderBook.order_map_ st ⊆ OrderBook.order_map_ st0;
  md_incoming :
    exists oi,
      OrderBook.heap_ st !! i = Some oi
      /\ same_order oi0 oi
      /\ Order.filled_qty_ oi = Order.filled_qty_ oi0 + volume trades
      /\ map trade_view trades
         ++ expected_fills s (Order.type_ oi0) (Order.price_ oi0)
              (Order.order_id_ oi0) (Order.get_remaining_qty oi)
              (book_view (OrderBook.heap_ st) (OrderBook.opposite s st))
         = expected_fills s (Order.type_ oi0) (Order.price_ oi0)
             (Order.order_id_ oi0) (Order.get_remaining_qty oi0)
             (book_view (OrderBook.heap_ st0) (OrderBook.opposite s st0))
      /\ (0 < Order.get_remaining_qty oi ->
          resting (OrderBook.opposite s st)
          = drop (length trades) (resting (OrderBook.opposite s st0))
          /\ agree_on (resting (OrderBook.opposite s st))
               (OrderBook.heap_ st0) (OrderBook.heap_ st));
  md_touched :
    fills_aligned (OrderBook.heap_ st0) (OrderBook.heap_ st)
      (resting (OrderBook.opposite s st0)) trades;
  md_frame :
    forall a,
      a <> i -> Some a ∉ resting (OrderBook.opposite s st0) ->
      OrderBook.heap_ st !! a = OrderBook.heap_ st0 !! a
}.

Definition counters_ok (st : OrderBook.t) : Prop :=
  in_u64 (OrderBook.next_order_id_ st)
  /\ in_u64 (OrderBook.next_trade_id_ st)
  /\ in_u64 (OrderBook.total_trades_ st)
  /\ in_u64 (OrderBook.total_volume_ st).

(** * [add_order], step by step *)

(** The order that an accepted add constructs, and the state once it is
    allocated. *)
Definition new_order (clock : nat -> Z) (price quantity : Z) (side : Side)
    (type : OrderType) (st : OrderBook.t) : Order.t :=
  Order.mk (OrderBook.next_order_id_ st)
    (u64 (clock (OrderBook.clock_reads_ st))) price quantity 0 side type NEW.

Definition allocated (clock : nat -> Z) (price quantity : Z) (side : Side)
    (type : OrderType) (st : OrderBook.t) : OrderBook.t :=
  OrderBook.mk (OrderBook.bids_ st) (OrderBook.asks_ st)
    (OrderBook.order_map_ st) (u64 (OrderBook.next_order_id_ st + 1))
    (OrderBook.next_trade_id_ st) (OrderBook.total_trades_ st)
    (OrderBook.total_volume_ st)
    (OrderBook.heap_ st ++ [new_order clock price quantity side type st])
    (S (OrderBook.clock_reads_ st)).

Definition set_own (s : Side) (st : OrderBook.t) (m : ladder) : OrderBook.t :=
  match s with
  | BUY => OrderBook.set_bids st m
  | SELL => OrderBook.set_asks st m
  end.

(** The parameters that [add_order] rejects. *)
Definition rejected (price quantity : Z) (type : OrderType) : Prop :=
  quantity = 0 \/ price < 0 \/ (type = LIMIT /\ price <= 0).

(** * [cancel_order], step by step *)

Definition cancelled (o : Order.t) : Order.t :=
  Order.set_fill o (Order.filled_qty_ o) CANCELLED.

(** A level once the entries with the id are removed from it. *)
Definition level_without (h : heap) (order_id : Z) (lv : PriceLevel.t)
  : PriceLevel.t :=
  PriceLevel.mk (PriceLevel.price_ lv)
    (if existsb (has_id h order_id) (PriceLevel.orders_ lv)
     then u64 (PriceLevel.total_quantity_ lv
               - sum_remaining h
                   (filter (fun p => has_id h order_id p = true)
                      (PriceLevel.orders_ lv)))
     else PriceLevel.total_quantity_ lv)
    (filter (fun p => has_id h order_id p = false) (PriceLevel.orders_ lv)).

(** A ladder once the entries with the id are removed from its level of
    key [k], the level going with them when nothing is left in it. *)
Definition ladder_without (before : Z -> Z -> bool) (h : heap)
    (order_id k : Z) (m : ladder) : ladder :=
  match map_find before k m with
  | None => m
  | Some lv =>
      if PriceLevel.empty (level_without h order_id lv)
      then map_erase before k m
      else map_assign before k (level_without h order_id lv) m
  end.

(** The state after the cancellation of the order [o], at address [a],
    that the index has under [order_id]. *)
Definition cancel_state (st : OrderBook.t) (order_id : Z) (a : nat)
    (o : Order.t) : OrderBook.t :=
  OrderBook.set_order_map
    (set_own (Order.side_ o)
       (OrderBook.set_heap st (store (OrderBook.heap_ st) a (cancelled o)))
       (ladder_without (before_of (Order.side_ o))
          (store (OrderBook.heap_ st) a (cancelled o)) order_id
          (Order.price_ o) (own (Order.side_ o) st)))
    (delete order_id (OrderBook.order_map_ st)).

(** * Issuance of ids *)

(** The operations that construct an order, and so consume an order
    id. *)
Definition consumes_id (o : op) : bool :=
  match o with
  | AddOrder price quantity _ type =>
      negb ((quantity =? 0) || (price <? 0)
            || (OrderType_eqb type LIMIT && (price <=? 0)))
  | AddMarketOrder quantity _ => negb (quantity =? 0)
  | CancelOrder _ => false
  | Clear => false
  end.

Definition is_clear (o : op) : bool :=
  match o with Clear => true | _ => false end.

(** The [n] consecutive 64-bit values that start at [first]. *)
Definition consecutive (first : Z) (n : nat) : list Z :=
  map (fun j => u64 (first + Z.of_nat j)) (seq 0 n).

Definition strictly_increasing (l : list Z) : Prop :=
  forall i j x y,
    (i < j)%nat -> l !! i = Some x -> l !! j = Some y -> x < y.

Definition state_after (clock : nat -> Z) (ops : list op) : OrderBook.t :=
  match run clock ops OrderBook.init with
  | Ok (_, st) => st
  | Err _ => OrderBook.init
  end.

Definition events_of (clock : nat -> Z) (ops : list op) : list event :=
  match run clock ops OrderBook.init with
  | Ok (evs, _) => evs
  | Err _ => []
  end.

(** * Properties as the specification words them, and examples *)

(** Aggregate consistency read over the integers: the aggregate of every
    level is the sum of what remains of its orders. *)
Definition aggregate_exact (st : OrderBook.t) : Prop :=
  forall kl,
    kl ∈ OrderBook.bids_ st ++ OrderBook.asks_ st ->
    PriceLevel.total_quantity_ kl.2
    = sum_remaining (OrderBook.heap_ st) (PriceLevel.orders_ kl.2).

(** A clock that always reads 0. *)
Definition clock0 : nat -> Z := fun _ => 0.

(** A resting sell and a resting buy that do not cross. *)
Definition two_sided_ops : list op :=
  [AddOrder 100 200 SELL LIMIT; AddOrder 99 100 BUY LIMIT].

(** Two buys of 2^63 at one price. *)
Definition heavy_level_ops : list op :=
  [AddOrder 100 (2 ^ 63) BUY LIMIT; AddOrder 100 (2 ^ 63) BUY LIMIT].

(** Two sells of 2^63 and the two buys that take them. *)
Definition heavy_trade_ops : list op :=
  [AddOrder 100 (2 ^ 63) SELL LIMIT; AddOrder 100 (2 ^ 63) SELL LIMIT;
   AddOrder 100 (2 ^ 63) BUY LIMIT; AddOrder 100 (2 ^ 63) BUY LIMIT].

(** [n] market orders on an empty book: each is given an id and finds
    nothing to trade with. *)
Definition idle_ops (n : nat) : list op := replicate n (AddMarketOrder 1 BUY).

(** A level that queues two orders of one id. *)
Definition twin_heap : heap :=
  [Order.mk 7 0 100 10 0 BUY LIMIT NEW; Order.mk 7 0 100 20 0 BUY LIMIT NEW].

Definition twin_level : PriceLevel.t :=
  PriceLevel.mk 100 30 [Some 0%nat; Some 1%nat].

(** Two orders of different ids, and a level that queues the first. *)
Definition pair_heap : heap :=
  [Order.mk 7 0 100 10 0 BUY LIMIT NEW; Order.mk 8 0 100 20 0 BUY LIMIT NEW].

Definition pair_level : PriceLevel.t := PriceLevel.mk 100 10 [Some 0%nat].

(** The [n] consecutive integers that start at [first]. *)
Definition integers_from (first : Z) (n : nat) : list Z :=
  map (fun j => first + Z.of_nat j) (seq 0 n).

(** As many adds as there are order ids but 0. *)
Definition all_ids : nat := Z.to_nat (2 ^ 64 - 1).

(** * Calls on one order, and on one level *)

Inductive order_call :=
| CallFill (qty : Z)
| CallCancel.

(** [fill] throws before it writes to the order: after an exception the
    order is as it was. *)
Definition call_order (o : Order.t) (c : order_call) : Order.t :=
  match c with
  | CallFill qty =>
      match Order.fill o qty with
      | Ok o' => o'
      | Err _ => o
      end
  | CallCancel => Order.cancel o
  end.

Definition terminal (o : Order.t) : Prop :=
  Order.status_ o = FILLED \/ Order.status_ o = CANCELLED.

(** What the class keeps of an order between two calls. *)
Definition order_ok (o : Order.t) : Prop :=
  0 <= Order.filled_qty_ o <= Order.quantity_ o
  /\ 0 < Order.quantity_ o < 2 ^ 64
  /\ (Order.status_ o = FILLED <-> Order.filled_qty_ o = Order.quantity_ o)
  /\ (Order.status_ o = NEW -> Order.filled_qty_ o = 0).

(** [add_order] for each pointer of a list, in order. *)
Fixpoint add_orders (h : heap) (lv : PriceLevel.t) (ps : list ptr)
  : result PriceLevel.t :=
  match ps with
  | [] => Ok lv
  | p :: ps' =>
      do lv' <- PriceLevel.add_order h lv p ;;
      add_orders h lv' ps'
  end.

(** * More of the book *)

Definition no_empty_level (st : OrderBook.t) : Prop :=
  Forall (fun kl => PriceLevel.empty kl.2 = false)
    (OrderBook.bids_ st ++ OrderBook.asks_ st).

(** The better of two prices for a side. *)
Definition better (s : Side) (x y : Z) : Z :=
  match s with
  | BUY => Z.max x y
  | SELL => Z.min x y
  end.

Definition get_best (s : Side) (st : OrderBook.t) : option Z :=
  match s with
  | BUY => OrderBook.get_best_bid st
  | SELL => OrderBook.get_best_ask st
  end.

(** The trades of a log that come after its last [Cleared], counted. *)
Definition trades_since_clear (evs : list event) : Z :=
  Z.of_nat (length (since_clear [] evs)).

(** Prices in the order in which a side takes them: ascending for a
    buyer, descending for a seller. *)
Definition not_better (s : Side) (x y : Z) : Prop :=
  match s with
  | BUY => x <= y
  | SELL => y <= x
  end.

(** A book with a gap between its best bid and its best ask. *)
Definition gap_ops : list op :=
  [AddOrder 100 200 SELL LIMIT; AddOrder 97 100 BUY LIMIT].

(** Every queued order is in the index under its id, an id from 1 to
    below [N]. *)
Definition indexed_upto (N : Z) (h : heap) (own opp : ladder)
    (index : gmap Z ptr) : Prop :=
  forall p,
    p ∈ resting own ++ resting opp ->
    exists a o,
      p = Some a /\ h !! a = Some o
      /\ index !! Order.order_id_ o = Some (Some a)
      /\ 1 <= Order.order_id_ o < N.

Definition indexed (st : OrderBook.t) : Prop :=
  indexed_upto (OrderBook.next_order_id_ st) (OrderBook.heap_ st)
    (OrderBook.bids_ st) (OrderBook.asks_ st) (OrderBook.order_map_ st).

(** * The engine on [double] prices, NaN included

    The same code as above, embedded once more with prices in which NaN
    can be told from the numbers.  Nothing in the source keeps NaN out: a
    comparison with NaN is false, so that NaN passes the guards
    [price < 0.0] and [price <= 0.0] of [add_order] and of the [Order]
    constructor.  The numbers (the infinities among them, the two zeros
    taken as one) are, as above, the integers in their order.  On numbers
    the two embeddings run alike, step for step ([run_lift] below): the
    statements proved of the first are statements about this one for as
    long as no NaN is passed to [add_order]. *)

Module Ieee.

Inductive double :=
| Num (z : Z)
| NaN.

Definition zero : double := Num 0.

(** [a < b], [a <= b], [a > b], [a >= b] *)
Definition ltb (a b : double) : bool :=
  match a, b with Num x, Num y => x <? y | _, _ => false end.
Definition leb (a b : double) : bool :=
  match a, b with Num x, Num y => x <=? y | _, _ => false end.
Definition gtb (a b : double) : bool :=
  match a, b with Num x, Num y => x >? y | _, _ => false end.
Definition geb (a b : double) : bool :=
  match a, b with Num x, Num y => x >=? y | _, _ => false end.

(** ** Order *)

Module Order.

Record t := mk {
  order_id_ : Z;
  timestamp_ : Z;
  price_ : double;
  quantity_ : Z;
  filled_qty_ : Z;
  side_ : Side;
  type_ : OrderType;
  status_ : OrderStatus
}.

Definition get_id (o : t) : Z := order_id_ o.
Definition get_price (o : t) : double := price_ o.
Definition get_quantity (o : t) : Z := quantity_ o.
Definition get_filled_qty (o : t) : Z := filled_qty_ o.
Definition get_remaining_qty (o : t) : Z := u64 (quantity_ o - filled_qty_ o).
Definition get_side (o : t) : Side := side_ o.
Definition get_type (o : t) : OrderType := type_ o.
Definition get_status (o : t) : OrderStatus := status_ o.

(** The constructor; [ts] is the clock reading taken by
    [get_current_timestamp]. *)
Definition make (ts id : Z) (price : double) (qty : Z) (side : Side)
    (type : OrderType) : result t :=
  if qty =? 0 then Err invalid_argument
  else if ltb price zero then Err invalid_argument
  else if OrderType_eqb type LIMIT && leb price zero then Err invalid_argument
  else Ok (mk id ts price qty 0 side type NEW).

Definition set_fill (o : t) (filled : Z) (status : OrderStatus) : t :=
  mk (order_id_ o) (timestamp_ o) (price_ o) (quantity_ o) filled
     (side_ o) (type_ o) status.

Definition fill (o : t) (qty : Z) : result t :=
  if qty =? 0 then Ok o
  else if u64 (filled_qty_ o + qty) >? quantity_ o then Err invalid_argument
  else if OrderStatus_eqb (status_ o) CANCELLED
          || OrderStatus_eqb (status_ o) FILLED then Err logic_error
  else
    let filled := u64 (filled_qty_ o + qty) in
    if filled =? quantity_ o then Ok (set_fill o filled FILLED)
    else Ok (set_fill o filled PARTIALLY_FILLED).

Definition cancel (o : t) : t :=
  if OrderStatus_eqb (status_ o) NEW
     || OrderStatus_eqb (status_ o) PARTIALLY_FILLED
  then set_fill o (filled_qty_ o) CANCELLED
  else o.

Definition is_fully_filled (o : t) : bool := filled_qty_ o =? quantity_ o.

End Order.

(** ** The heap of [Order] objects *)

Abbreviation ptr := (option nat).

Abbreviation heap := (list Order.t).

Definition deref (h : heap) (p : ptr) : result Order.t :=
  match p with
  | None => Err bad_pointer
  | Some a =>
      match h !! a with
      | Some o => Ok o
      | None => Err bad_pointer
      end
  end.

Definition store (h : heap) (a : nat) (o : Order.t) : heap := <[a := o]> h.

(** ** Trade *)

Module Trade.

Record t := mk {
  trade_id : Z;
  buy_order_id : Z;
  sell_order_id : Z;
  price : double;
  quantity : Z;
  timestamp : Z
}.

End Trade.

(** ** PriceLevel *)

Module PriceLevel.

(** [orders_] is the [std::queue]: front at the head, [push] at the
    end. *)
Record t := mk {
  price_ : double;
  total_quantity_ : Z;
  orders_ : list ptr
}.

Definition default : t := mk zero 0 [].
Definition make (price : double) : t := mk price 0 [].

Definition empty (lv : t) : bool :=
  match orders_ lv with [] => true | _ => false end.
Definition get_price (lv : t) : double := price_ lv.
Definition get_total_quantity (lv : t) : Z := total_quantity_ lv.
Definition get_order_count (lv : t) : nat := length (orders_ lv).

Definition add_order (h : heap) (lv : t) (order : ptr) : result t :=
  match order with
  | None => Ok lv
  | Some _ =>
      do o <- deref h order ;;
      Ok (mk (price_ lv)
             (u64 (total_quantity_ lv + Order.get_remaining_qty o))
             (orders_ lv ++ [order]))
  end.

(** The [while] loop of [remove_order]: [orders] is what is left of
    [orders_], and [total], [temp_queue], [found] are the loop's
    variables. *)
Fixpoint remove_loop (h : heap) (order_id : Z) (orders : list ptr)
    (total : Z) (temp_queue : list ptr) (found : bool)
  : result (Z * list ptr * bool) :=
  match orders with
  | [] => Ok (total, temp_queue, found)
  | order :: orders' =>
      match order with
      | None => remove_loop h order_id orders' total temp_queue found
      | Some _ =>
          do o <- deref h order ;;
          if Order.get_id o =? order_id then
            remove_loop h order_id orders'
              (u64 (total - Order.get_remaining_qty o)) temp_queue true
          else
            remove_loop h order_id orders' total (temp_queue ++ [order]) found
      end
  end.

Definition remove_order (h : heap) (lv : t) (order_id : Z)
  : result (bool * t) :=
  if empty lv then Ok (false, lv)
  else
    do '(total, temp_queue, found) <-
       remove_loop h order_id (orders_ lv) (total_quantity_ lv) [] false ;;
    Ok (found, mk (price_ lv) total temp_queue).

Definition get_front_order (lv : t) : ptr :=
  match orders_ lv with
  | [] => None
  | order :: _ => order
  end.

Definition pop_front_order (h : heap) (lv : t) : result t :=
  match orders_ lv with
  | [] => Ok lv
  | order :: orders' =>
      match order with
      | None => Ok (mk (price_ lv) (total_quantity_ lv) orders')
      | Some _ =>
          do o <- deref h order ;;
          Ok (mk (price_ lv)
                 (u64 (total_quantity_ lv - Order.get_remaining_qty o))
                 orders')
      end
  end.

Definition update_quantity (lv : t) (old_remaining new_remaining : Z) : t :=
  if old_remaining >=? new_remaining then
    mk (price_ lv)
       (u64 (total_quantity_ lv - (old_remaining - new_remaining)))
       (orders_ lv)
  else
    mk (price_ lv)
       (u64 (total_quantity_ lv + (new_remaining - old_remaining)))
       (orders_ lv).

End PriceLevel.

(** ** The price ladders

    A ladder is the list of the map's entries in iteration order.
    [std::less<double>] and [std::greater<double>] are false when one of
    their arguments is NaN, so that NaN is neither before nor after any
    key: [find] and [operator[]], which go down to the first entry that
    is not before the key and take it when the key is not before it
    either, then stop at [begin()], and on a ladder whose single key is
    NaN they stop at that entry for every key.  (A NaN key is only ever
    inserted into an empty ladder, and no key is inserted beside it, so
    that the entries that are not before a key always form the end of the
    ladder, as they do in the tree of the standard library.) *)

Abbreviation ladder := (list (double * PriceLevel.t)).

Definition less (a b : double) : bool := ltb a b.
Definition greater (a b : double) : bool := gtb a b.

Section Ladder.

Variable before : double -> double -> bool.

Fixpoint map_find (k : double) (m : ladder) : option PriceLevel.t :=
  match m with
  | [] => None
  | (k', v) :: m' =>
      if before k' k then map_find k m'
      else if before k k' then None
      else Some v
  end.

(** [m[k] = v] *)
Fixpoint map_assign (k : double) (v : PriceLevel.t) (m : ladder) : ladder :=
  match m with
  | [] => [(k, v)]
  | (k', v') :: m' =>
      if before k' k then (k', v') :: map_assign k v m'
      else if before k k' then (k, v) :: m
      else (k', v) :: m'
  end.

(** The value read through [m[k]]: an absent key is default-constructed. *)
Definition map_subscript (k : double) (m : ladder) : PriceLevel.t :=
  match map_find k m with
  | Some v => v
  | None => PriceLevel.default
  end.

(** [m.erase(it)] for the iterator [it = m.find(k)]. *)
Fixpoint map_erase (k : double) (m : ladder) : ladder :=
  match m with
  | [] => []
  | (k', v) :: m' =>
      if before k' k then (k', v) :: map_erase k m'
      else if before k k' then m
      else m'
  end.

End Ladder.

(** ** OrderBook *)

Module OrderBook.

(** The seven data members of the class, followed by the two
    components of its environment: the heap of [Order] objects and the
    number of clock readings taken so far. *)
Record t := mk {
  bids_ : ladder;
  asks_ : ladder;
  order_map_ : gmap Z ptr;
  next_order_id_ : Z;
  next_trade_id_ : Z;
  total_trades_ : Z;
  total_volume_ : Z;
  heap_ : heap;
  clock_reads_ : nat
}.

Definition set_bids (st : t) (m : ladder) : t :=
  mk m (asks_ st) (order_map_ st) (next_order_id_ st) (next_trade_id_ st)
     (total_trades_ st) (total_volume_ st) (heap_ st) (clock_reads_ st).
Definition set_asks (st : t) (m : ladder) : t :=
  mk (bids_ st) m (order_map_ st) (next_order_id_ st) (next_trade_id_ st)
     (total_trades_ st) (total_volume_ st) (heap_ st) (clock_reads_ st).
Definition set_order_map (st : t) (m : gmap Z ptr) : t :=
  mk (bids_ st) (asks_ st) m (next_order_id_ st) (next_trade_id_ st)
     (total_trades_ st) (total_volume_ st) (heap_ st) (clock_reads_ st).
Definition set_next_order_id (st : t) (n : Z) : t :=
  mk (bids_ st) (asks_ st) (order_map_ st) n (next_trade_id_ st)
     (total_trades_ st) (total_volume_ st) (heap_ st) (clock_reads_ st).
Definition set_next_trade_id (st : t) (n : Z) : t :=
  mk (bids_ st) (asks_ st) (order_map_ st) (next_order_id_ st) n
     (total_trades_ st) (total_volume_ st) (heap_ st) (clock_reads_ st).
Definition set_total_trades (st : t) (n : Z) : t :=
  mk (bids_ st) (asks_ st) (order_map_ st) (next_order_id_ st)
     (next_trade_id_ st) n (total_volume_ st) (heap_ st) (clock_reads_ st).
Definition set_total_volume (st : t) (n : Z) : t :=
  mk (bids_ st) (asks_ st) (order_map_ st) (next_order_id_ st)
     (next_trade_id_ st) (total_trades_ st) n (heap_ st) (clock_reads_ st).
Definition set_heap (st : t) (h : heap) : t :=
  mk (bids_ st) (asks_ st) (order_map_ st) (next_order_id_ st)
     (next_trade_id_ st) (total_trades_ st) (total_volume_ st) h
     (clock_reads_ st).
Definition set_clock_reads (st : t) (n : nat) : t :=
  mk (bids_ st) (asks_ st) (order_map_ st) (next_order_id_ st)
     (next_trade_id_ st) (total_trades_ st) (total_volume_ st) (heap_ st) n.

(** The constructor, on an empty heap. *)
Definition init : t := mk [] [] ∅ 1 1 0 0 [] 0%nat.

Section Engine.

Variable clock : nat -> Z.

Definition get_timestamp (st : t) : Z * t :=
  (u64 (clock (clock_reads_ st)),
   set_clock_reads st (S (clock_reads_ st))).

(** [std::make_shared<Order>(next_order_id_++, price, qty, side, type)] *)
Definition make_shared_Order (price : double) (qty : Z) (side : Side)
    (type : OrderType) (st : t) : result (ptr * t) :=
  let id := next_order_id_ st in
  let st := set_next_order_id st (u64 (id + 1)) in
  let '(ts, st) := get_timestamp st in
  do o <- Order.make ts id price qty side type ;;
  Ok (Some (length (heap_ st)), set_heap st (heap_ st ++ [o])).

(** One iteration of the [while] loop of [process_matches_at_level],
    entered with the loop condition true. *)
Definition match_one (incoming_order : ptr) (level : PriceLevel.t)
    (trade_price : double) (trades : list Trade.t) (st : t)
  : result (PriceLevel.t * list Trade.t * t) :=
  let resting_order := PriceLevel.get_front_order level in
  match resting_order with
  | None =>
      do level <- PriceLevel.pop_front_order (heap_ st) level ;;
      Ok (level, trades, st)
  | Some r =>
      do inc <- deref (heap_ st) incoming_order ;;
      do rest <- deref (heap_ st) resting_order ;;
      let trade_qty :=
        Z.min (Order.get_remaining_qty inc) (Order.get_remaining_qty rest) in
      let '(trade_timestamp, st) := get_timestamp st in
      let trade :=
        Trade.mk (next_trade_id_ st)
          (if Side_eqb (Order.get_side inc) BUY
           then Order.get_id inc else Order.get_id rest)
          (if Side_eqb (Order.get_side inc) SELL
           then Order.get_id inc else Order.get_id rest)
          trade_price trade_qty trade_timestamp in
      let st := set_next_trade_id st (u64 (next_trade_id_ st + 1)) in
      let old_resting_remaining := Order.get_remaining_qty rest in
      do inc' <- Order.fill inc trade_qty ;;
      let st :=
        match incoming_order with
        | Some i => set_heap st (store (heap_ st) i inc')
        | None => st
        end in
      do rest <- deref (heap_ st) resting_order ;;
      do rest' <- Order.fill rest trade_qty ;;
      let st := set_heap st (store (heap_ st) r rest') in
      do rest <- deref (heap_ st) resting_order ;;
      let level :=
        PriceLevel.update_quantity level old_resting_remaining
          (Order.get_remaining_qty rest) in
      let trades := trades ++ [trade] in
      if Order.is_fully_filled rest then
        do level <- PriceLevel.pop_front_order (heap_ st) level ;;
        Ok (level, trades,
            set_order_map st (delete (Order.get_id rest) (order_map_ st)))
      else Ok (level, trades, st)
  end.

Fixpoint process_matches_loop (fuel : nat) (incoming_order : ptr)
    (level : PriceLevel.t) (trade_price : double) (trades : list Trade.t)
    (st : t) : result (PriceLevel.t * list Trade.t * t) :=
  if PriceLevel.empty level then Ok (level, trades, st)
  else
    do inc <- deref (heap_ st) incoming_order ;;
    if Order.get_remaining_qty inc >? 0 then
      match fuel with
      | O => Err out_of_fuel
      | S fuel' =>
          do '(level, trades, st) <-
             match_one incoming_order level trade_price trades st ;;
          process_matches_loop fuel' incoming_order level trade_price
            trades st
      end
    else Ok (level, trades, st).

(** [level] is passed by reference in the source: the updated level is
    returned, and the caller puts it back where it came from. *)
Definition process_matches_at_level (incoming_order : ptr)
    (level : PriceLevel.t) (trade_price : double) (trades : list Trade.t)
    (st : t) : result (PriceLevel.t * list Trade.t * t) :=
  process_matches_loop (S (length (PriceLevel.orders_ level)))
    incoming_order level trade_price trades st.

(** The two [while] loops of [match_order]; [opposite] is [asks_] for
    an incoming buy and [bids_] for an incoming sell. *)
Definition crosses (side : Side) (price best : double) : bool :=
  match side with
  | BUY => geb price best
  | SELL => leb price best
  end.

Definition opposite (side : Side) (st : t) : ladder :=
  match side with
  | BUY => asks_ st
  | SELL => bids_ st
  end.

Definition set_opposite (side : Side) (st : t) (m : ladder) : t :=
  match side with
  | BUY => set_asks st m
  | SELL => set_bids st m
  end.

Fixpoint match_loop (fuel : nat) (side : Side) (incoming_order : ptr)
    (trades : list Trade.t) (st : t) : result (list Trade.t * t) :=
  match opposite side st with
  | [] => Ok (trades, st)
  | (best_price, best_level) :: others =>
      do inc <- deref (heap_ st) incoming_order ;;
      if Order.get_remaining_qty inc >? 0 then
        if OrderType_eqb (Order.get_type inc) MARKET
           || crosses side (Order.get_price inc) best_price
        then
          match fuel with
          | O => Err out_of_fuel
          | S fuel' =>
              do '(best_level, trades, st) <-
                 process_matches_at_level incoming_order best_level
                   best_price trades st ;;
              let st :=
                if PriceLevel.empty best_level
                then set_opposite side st others
                else set_opposite side st ((best_price, best_level) :: others)
              in
              match_loop fuel' side incoming_order trades st
          end
        else Ok (trades, st)
      else Ok (trades, st)
  end.

Definition match_order (incoming_order : ptr) (st : t)
  : result (list Trade.t * t) :=
  match incoming_order with
  | None => Ok ([], st)
  | Some _ =>
      do inc <- deref (heap_ st) incoming_order ;;
      match_loop (S (length (opposite (Order.get_side inc) st)))
        (Order.get_side inc) incoming_order [] st
  end.

(** The statistics update that ends [add_order] and
    [add_market_order]. *)
Definition update_statistics (trades : list Trade.t) (st : t) : t :=
  let st :=
    set_total_trades st
      (u64 (total_trades_ st + Z.of_nat (length trades))) in
  fold_left
    (fun st trade =>
       set_total_volume st (u64 (total_volume_ st + Trade.quantity trade)))
    trades st.

(** Resting an order on its own side: lines 39-50 of
    [order_book.cpp]. *)
Definition rest_order (before : double -> double -> bool) (price : double)
    (order : ptr) (h : heap) (m : ladder) : result ladder :=
  let m :=
    match map_find before price m with
    | None => map_assign before price (PriceLevel.make price) m
    | Some _ => m
    end in
  do level <- PriceLevel.add_order h (map_subscript before price m) order ;;
  Ok (map_assign before price level m).

(** The body of [add_order]; its local variable [trades] is returned
    along with the order id, for the statements about the trades that an
    [add_order] produces. *)
Definition add_order_body (price : double) (quantity : Z) (side : Side)
    (type : OrderType) (st : t) : result (Z * list Trade.t * t) :=
  if quantity =? 0 then Ok (0, [], st)
  else if ltb price zero then Ok (0, [], st)
  else if OrderType_eqb type LIMIT && leb price zero then Ok (0, [], st)
  else
    do '(order, st) <- make_shared_Order price quantity side type st ;;
    do o <- deref (heap_ st) order ;;
    let order_id := Order.get_id o in
    do '(trades, st) <- match_order order st ;;
    do o <- deref (heap_ st) order ;;
    do st <-
      (if (Order.get_remaining_qty o >? 0)
          && OrderType_eqb type LIMIT
          && negb (OrderStatus_eqb (Order.get_status o) CANCELLED)
       then
         let st := set_order_map st (<[order_id := order]> (order_map_ st)) in
         match side with
         | BUY =>
             do m <- rest_order greater price order (heap_ st) (bids_ st) ;;
             Ok (set_bids st m)
         | SELL =>
             do m <- rest_order less price order (heap_ st) (asks_ st) ;;
             Ok (set_asks st m)
         end
       else Ok st) ;;
    Ok (order_id, trades, update_statistics trades st).

Definition add_order (price : double) (quantity : Z) (side : Side)
    (type : OrderType) (st : t) : result (Z * t) :=
  do '(order_id, _, st) <- add_order_body price quantity side type st ;;
  Ok (order_id, st).

Definition add_market_order (quantity : Z) (side : Side) (st : t)
  : result (list Trade.t * t) :=
  if quantity =? 0 then Ok ([], st)
  else
    do '(order, st) <- make_shared_Order zero quantity side MARKET st ;;
    do '(trades, st) <- match_order order st ;;
    Ok (trades, update_statistics trades st).

(** The removal of a cancelled order from its ladder: lines 95-112 of
    [order_book.cpp]. *)
Definition unrest_order (before : double -> double -> bool) (price : double)
    (order_id : Z) (h : heap) (m : ladder) : result (bool * ladder) :=
  match map_find before price m with
  | None => Ok (false, m)
  | Some level =>
      do '(removed, level) <- PriceLevel.remove_order h level order_id ;;
      if PriceLevel.empty level
      then Ok (removed, map_erase before price m)
      else Ok (removed, map_assign before price level m)
  end.

Definition cancel_order (order_id : Z) (st : t) : result (bool * t) :=
  match order_map_ st !! order_id with
  | None => Ok (false, st)
  | Some order =>
      do o <- deref (heap_ st) order ;;
      let o := Order.cancel o in
      let st :=
        match order with
        | Some a => set_heap st (store (heap_ st) a o)
        | None => st
        end in
      do '(removed, st) <-
        match Order.get_side o with
        | BUY =>
            do '(removed, m) <-
               unrest_order greater (Order.get_price o) order_id
                 (heap_ st) (bids_ st) ;;
            Ok (removed, set_bids st m)
        | SELL =>
            do '(removed, m) <-
               unrest_order less (Order.get_price o) order_id
                 (heap_ st) (asks_ st) ;;
            Ok (removed, set_asks st m)
        end ;;
      Ok (removed, set_order_map st (delete order_id (order_map_ st)))
  end.

Definition get_best_bid (st : t) : option double :=
  match bids_ st with
  | [] => None
  | (k, _) :: _ => Some k
  end.

Definition get_best_ask (st : t) : option double :=
  match asks_ st with
  | [] => None
  | (k, _) :: _ => Some k
  end.

(** [can_match]: a private member that no other member calls. *)
Definition can_match (order : Order.t) (st : t) : bool :=
  if OrderType_eqb (Order.get_type order) MARKET then true
  else if Side_eqb (Order.get_side order) BUY
          && negb (match asks_ st with [] => true | _ => false end)
  then
    match asks_ st with
    | (k, _) :: _ => geb (Order.get_price order) k
    | [] => false
    end
  else if Side_eqb (Order.get_side order) SELL
          && negb (match bids_ st with [] => true | _ => false end)
  then
    match bids_ st with
    | (k, _) :: _ => leb (Order.get_price order) k
    | [] => false
    end
  else false.

(** [level] is a [std::size_t]; [std::advance(it, level)] from [begin()]
    reaches the entry of index [level]. *)
Definition get_bid_depth_at_level (level : nat) (st : t) : Z :=
  if (length (bids_ st) <=? level)%nat then 0
  else
    match bids_ st !! level with
    | Some (_, lv) => PriceLevel.get_total_quantity lv
    | None => 0
    end.

Definition get_ask_depth_at_level (level : nat) (st : t) : Z :=
  if (length (asks_ st) <=? level)%nat then 0
  else
    match asks_ st !! level with
    | Some (_, lv) => PriceLevel.get_total_quantity lv
    | None => 0
    end.

Definition get_total_orders (st : t) : nat := size (order_map_ st).
Definition get_total_trades (st : t) : Z := total_trades_ st.
Definition get_total_volume (st : t) : Z := total_volume_ st.

Definition clear (st : t) : t :=
  mk [] [] ∅ (next_order_id_ st) (next_trade_id_ st) 0 0
     (heap_ st) (clock_reads_ st).

End Engine.

End OrderBook.

(** ** Runs of the engine, and what is read off a state *)

Definition own (s : Side) (st : OrderBook.t) : ladder :=
  match s with
  | BUY => OrderBook.bids_ st
  | SELL => OrderBook.asks_ st
  end.

Definition before_of (s : Side) : double -> double -> bool :=
  match s with BUY => greater | SELL => less end.

Definition get_best (s : Side) (st : OrderBook.t) : option double :=
  match s with
  | BUY => OrderBook.get_best_bid st
  | SELL => OrderBook.get_best_ask st
  end.

Definition keys (m : ladder) : list double := m.*1.

(** The pointers queued in a ladder, best level first, oldest first
    within a level. *)
Fixpoint resting (m : ladder) : list ptr :=
  match m with
  | [] => []
  | (_, lv) :: m' => PriceLevel.orders_ lv ++ resting m'
  end.

Definition remaining_at (h : heap) (p : ptr) : Z :=
  match deref h p with
  | Ok o => Order.get_remaining_qty o
  | Err _ => 0
  end.

Fixpoint sum_remaining (h : heap) (q : list ptr) : Z :=
  match q with
  | [] => 0
  | p :: q' => remaining_at h p + sum_remaining h q'
  end.

Definition has_id (h : heap) (order_id : Z) (p : ptr) : bool :=
  match deref h p with
  | Ok o => Order.get_id o =? order_id
  | Err _ => false
  end.

Definition cancelled (o : Order.t) : Order.t :=
  Order.set_fill o (Order.filled_qty_ o) CANCELLED.

(** A level once the entries with the id are removed from it. *)
Definition level_without (h : heap) (order_id : Z) (lv : PriceLevel.t)
  : PriceLevel.t :=
  PriceLevel.mk (PriceLevel.price_ lv)
    (if existsb (has_id h order_id) (PriceLevel.orders_ lv)
     then u64 (PriceLevel.total_quantity_ lv
               - sum_remaining h
                   (filter (fun p => has_id h order_id p = true)
                      (PriceLevel.orders_ lv)))
     else PriceLevel.total_quantity_ lv)
    (filter (fun p => has_id h order_id p = false) (PriceLevel.orders_ lv)).

(** The parameters that [add_order] rejects. *)
Definition rejected (price : double) (quantity : Z) (type : OrderType)
  : Prop :=
  quantity = 0 \/ ltb price zero = true
  \/ (type = LIMIT /\ leb price zero = true).

Definition uncrossed (st : OrderBook.t) : Prop :=
  forall b a,
    OrderBook.get_best_bid st = Some b ->
    OrderBook.get_best_ask st = Some a ->
    ltb b a = true.

Inductive op :=
| AddOrder (price : double) (quantity : Z) (side : Side) (type : OrderType)
| AddMarketOrder (quantity : Z) (side : Side)
| CancelOrder (order_id : Z)
| Clear.

(** The arguments of type [std::uint64_t] are 64-bit values. *)
Definition valid_op (o : op) : Prop :=
  match o with
  | AddOrder _ quantity _ _ => in_u64 quantity
  | AddMarketOrder quantity _ => in_u64 quantity
  | CancelOrder order_id => in_u64 order_id
  | Clear => True
  end.

(** The calls that pass no NaN. *)
Definition without_nan (o : op) : Prop :=
  match o with
  | AddOrder price _ _ _ => price <> NaN
  | _ => True
  end.

Inductive event :=
| Issued (order_id : Z)
| Traded (trade : Trade.t)
| Cleared.

Definition issued_between (st st' : OrderBook.t) : list Z :=
  map Order.get_id (drop (length (OrderBook.heap_ st)) (OrderBook.heap_ st')).

Definition step (clock : nat -> Z) (o : op) (st : OrderBook.t)
  : result (list event * OrderBook.t) :=
  match o with
  | AddOrder price quantity side type =>
      do '(_, trades, st') <-
         OrderBook.add_order_body clock price quantity side type st ;;
      Ok (map Issued (issued_between st st') ++ map Traded trades, st')
  | AddMarketOrder quantity side =>
      do '(trades, st') <- OrderBook.add_market_order clock quantity side st ;;
      Ok (map Issued (issued_between st st') ++ map Traded trades, st')
  | CancelOrder order_id =>
      do '(_, st') <- OrderBook.cancel_order order_id st ;;
      Ok ([], st')
  | Clear => Ok ([Cleared], OrderBook.clear st)
  end.

Fixpoint run (clock : nat -> Z) (ops : list op) (st : OrderBook.t)
  : result (list event * OrderBook.t) :=
  match ops with
  | [] => Ok ([], st)
  | o :: ops' =>
      do '(evs, st) <- step clock o st ;;
      do '(evs', st) <- run clock ops' st ;;
      Ok (evs ++ evs', st)
  end.

(** The states that a new engine reaches when it is passed no NaN. *)
Definition reachable (clock : nat -> Z) (st : OrderBook.t) : Prop :=
  exists ops evs,
    Forall valid_op ops /\ Forall without_nan ops
    /\ run clock ops OrderBook.init = Ok (evs, st).

Fixpoint issued_ids (evs : list event) : list Z :=
  match evs with
  | [] => []
  | Issued id :: evs' => id :: issued_ids evs'
  | _ :: evs' => issued_ids evs'
  end.

Definition state_after (clock : nat -> Z) (ops : list op) : OrderBook.t :=
  match run clock ops OrderBook.init with
  | Ok (_, st) => st
  | Err _ => OrderBook.init
  end.

(** A resting sell and a resting buy that do not cross. *)
Definition two_sided_ops : list op :=
  [AddOrder (Num 100) 200 SELL LIMIT; AddOrder (Num 99) 100 BUY LIMIT].

(** A buy at NaN, a buy at 105, and a sell at 100 after them. *)
Definition nan_bid_ops : list op :=
  [AddOrder NaN 10 BUY LIMIT; AddOrder (Num 105) 10 BUY LIMIT;
   AddOrder (Num 100) 5 SELL LIMIT].

(** A buy at NaN that joins the level of 101, a better bid after it, and
    the cancellation of the buy at NaN. *)
Definition nan_joins_ops : list op :=
  [AddOrder (Num 101) 10 BUY LIMIT; AddOrder NaN 5 BUY LIMIT;
   AddOrder (Num 102) 1 BUY LIMIT].

End Ieee.

(** * From integer prices to [double] prices

    An order, a trade, a level, a ladder, a state, a call and an event of
    the engine on integer prices, read as those of the engine on [double]
    prices: the price [z] is the number [Num z], and nothing else
    changes. *)

Definition lift_order (o : Order.t) : Ieee.Order.t :=
  Ieee.Order.mk (Order.order_id_ o) (Order.timestamp_ o)
    (Ieee.Num (Order.price_ o)) (Order.quantity_ o) (Order.filled_qty_ o)
    (Order.side_ o) (Order.type_ o) (Order.status_ o).

Definition lift_heap (h : heap) : Ieee.heap := lift_order <$> h.

Definition lift_trade (t : Trade.t) : Ieee.Trade.t :=
  Ieee.Trade.mk (Trade.trade_id t) (Trade.buy_order_id t)
    (Trade.sell_order_id t) (Ieee.Num (Trade.price t)) (Trade.quantity t)
    (Trade.timestamp t).

Definition lift_level (lv : PriceLevel.t) : Ieee.PriceLevel.t :=
  Ieee.PriceLevel.mk (Ieee.Num (PriceLevel.price_ lv))
    (PriceLevel.total_quantity_ lv) (PriceLevel.orders_ lv).

Definition lift_entry (kl : Z * PriceLevel.t)
  : Ieee.double * Ieee.PriceLevel.t :=
  (Ieee.Num kl.1, lift_level kl.2).

Definition lift_ladder (m : ladder) : Ieee.ladder := lift_entry <$> m.

Definition lift_state (st : OrderBook.t) : Ieee.OrderBook.t :=
  Ieee.OrderBook.mk (lift_ladder (OrderBook.bids_ st))
    (lift_ladder (OrderBook.asks_ st)) (OrderBook.order_map_ st)
    (OrderBook.next_order_id_ st) (OrderBook.next_trade_id_ st)
    (OrderBook.total_trades_ st) (OrderBook.total_volume_ st)
    (lift_heap (OrderBook.heap_ st)) (OrderBook.clock_reads_ st).

(** What [match_one] and the loop around it return. *)
Definition lift_matched (r : PriceLevel.t * list Trade.t * OrderBook.t)
  : Ieee.PriceLevel.t * list Ieee.Trade.t * Ieee.OrderBook.t :=
  (lift_level r.1.1, lift_trade <$> r.1.2, lift_state r.2).

(** What [match_order] and the loop in it return. *)
Definition lift_traded (r : list Trade.t * OrderBook.t)
  : list Ieee.Trade.t * Ieee.OrderBook.t :=
  (lift_trade <$> r.1, lift_state r.2).

(** What [add_order] returns, with its trades. *)
Definition lift_added (r : Z * list Trade.t * OrderBook.t)
  : Z * list Ieee.Trade.t * Ieee.OrderBook.t :=
  (r.1.1, lift_trade <$> r.1.2, lift_state r.2).

Definition lift_op (o : op) : Ieee.op :=
  match o with
  | AddOrder price quantity side type =>
      Ieee.AddOrder (Ieee.Num price) quantity side type
  | AddMarketOrder quantity side => Ieee.AddMarketOrder quantity side
  | CancelOrder order_id => Ieee.CancelOrder order_id
  | Clear => Ieee.Clear
  end.

Definition lift_event (e : event) : Ieee.event :=
  match e with
  | Issued order_id => Ieee.Issued order_id
  | Traded trade => Ieee.Traded (lift_trade trade)
  | Cleared => Ieee.Cleared
  end.

Definition lift_log (r : list event * OrderBook.t)
  : list Ieee.event * Ieee.OrderBook.t :=
  (lift_event <$> r.1, lift_state r.2).

Definition result_map {A B} (f : A -> B) (r : result A) : result B :=
  match r with
  | Ok a => Ok (f a)
  | Err e => Err e
  end.

(** * Wrap-around arithmetic *)

Lemma u64_range z : in_u64 (u64 z).
Proof. unfold in_u64, u64. apply Z.mod_pos_bound. lia. Qed.

Lemma u64_small z : in_u64 z -> u64 z = z.
Proof. unfold in_u64, u64. intros H. apply Z.mod_small. lia. Qed.

Lemma u64_idemp z : u64 (u64 z) = u64 z.
Proof. apply u64_small, u64_range. Qed.

Lemma u64_add_l a b : u64 (u64 a + b) = u64 (a + b).
Proof. unfold u64. apply Zplus_mod_idemp_l. Qed.

Lemma u64_add_r a b : u64 (a + u64 b) = u64 (a + b).
Proof. unfold u64. apply Zplus_mod_idemp_r. Qed.

Lemma u64_sub_l a b : u64 (u64 a - b) = u64 (a - b).
Proof. unfold u64. apply Zminus_mod_idemp_l. Qed.

Lemma u64_sub_r a b : u64 (a - u64 b) = u64 (a - b).
Proof. unfold u64. apply Zminus_mod_idemp_r. Qed.

Lemma u64_succ_ne z : in_u64 z -> u64 (z + 1) <> z.
Proof.
  unfold in_u64. intros Hz He.
  destruct (Z.eq_dec z (2 ^ 64 - 1)) as [->|Hn].
  - vm_compute in He. discriminate.
  - rewrite u64_small in He by (unfold in_u64; lia). lia.
Qed.

(** * The error monad *)

Lemma bind_Ok {A B} (r : result A) (k : A -> result B) b :
  bind r k = Ok b -> exists a, r = Ok a /\ k a = Ok b.
Proof. destruct r as [a|e]; simpl; [eauto | discriminate]. Qed.

Ltac inv_bind H :=
  let a := fresh "a" in
  let Ha := fresh "Ha" in
  apply bind_Ok in H; destruct H as (a & Ha & H).

(** * Enumerations *)

Lemma Side_eqb_eq a b : Side_eqb a b = true <-> a = b.
Proof. destruct a, b; simpl; split; congruence. Qed.

Lemma OrderType_eqb_eq a b : OrderType_eqb a b = true <-> a = b.
Proof. destruct a, b; simpl; split; congruence. Qed.

Lemma OrderStatus_eqb_eq a b : OrderStatus_eqb a b = true <-> a = b.
Proof. destruct a, b; simpl; split; congruence. Qed.

Lemma other_involutive s : other (other s) = s.
Proof. by destruct s. Qed.

Lemma other_ne s : other s <> s.
Proof. by destruct s. Qed.

Lemma opposite_own s st : OrderBook.opposite s st = own (other s) st.
Proof. by destruct s. Qed.

(** * Orders *)

Lemma live_remaining o :
  live o ->
  Order.get_remaining_qty o = Order.quantity_ o - Order.filled_qty_ o
  /\ 0 < Order.get_remaining_qty o.
Proof.
  intros (Hf & Hq & _). unfold Order.get_remaining_qty.
  rewrite u64_small by (unfold in_u64; lia). lia.
Qed.

(** What [fill] does to an order that can take the quantity. *)
Lemma fill_within o qty :
  0 <= Order.filled_qty_ o -> Order.quantity_ o < 2 ^ 64 ->
  0 < qty <= Order.quantity_ o - Order.filled_qty_ o ->
  Order.status_ o = NEW \/ Order.status_ o = PARTIALLY_FILLED ->
  Order.fill o qty
  = Ok (Order.set_fill o (Order.filled_qty_ o + qty)
          (if Order.filled_qty_ o + qty =? Order.quantity_ o
           then FILLED else PARTIALLY_FILLED)).
Proof.
  intros Hf Hq Hqty Hst. unfold Order.fill.
  destruct (qty =? 0) eqn:E0; [lia|].
  rewrite (u64_small (Order.filled_qty_ o + qty)) by (unfold in_u64; lia).
  destruct (Order.filled_qty_ o + qty >? Order.quantity_ o) eqn:E1; [lia|].
  replace (OrderStatus_eqb (Order.status_ o) CANCELLED
           || OrderStatus_eqb (Order.status_ o) FILLED) with false
    by (destruct Hst as [-> | ->]; reflexivity).
  by destruct (Order.filled_qty_ o + qty =? Order.quantity_ o).
Qed.

Lemma cancel_live o :
  Order.status_ o = NEW \/ Order.status_ o = PARTIALLY_FILLED ->
  Order.cancel o = Order.set_fill o (Order.filled_qty_ o) CANCELLED.
Proof. unfold Order.cancel. by intros [-> | ->]. Qed.

(** * The heap *)

Lemma deref_Some h a o : h !! a = Some o -> deref h (Some a) = Ok o.
Proof. unfold deref. by intros ->. Qed.

Lemma deref_Ok h p o :
  deref h p = Ok o -> exists a, p = Some a /\ h !! a = Some o.
Proof.
  unfold deref. destruct p as [a|]; [|discriminate].
  destruct (h !! a) eqn:E; [|discriminate]. intros [= ->]. eauto.
Qed.

Lemma store_lookup_eq (h : heap) a o :
  (a < length h)%nat -> store h a o !! a = Some o.
Proof. intros. unfold store. by apply list_lookup_insert_eq. Qed.

Lemma store_lookup_ne (h : heap) a b o :
  a <> b -> store h a o !! b = h !! b.
Proof. intros. unfold store. by apply list_lookup_insert_ne. Qed.

Lemma store_length (h : heap) a o : length (store h a o) = length h.
Proof. apply length_insert. Qed.


(** * Frame lemmas: what a heap update leaves alone *)

Lemma agree_on_refl ps h : agree_on ps h h.
Proof. by intros a _. Qed.

Lemma agree_on_app ps qs h h' :
  agree_on (ps ++ qs) h h' <-> agree_on ps h h' /\ agree_on qs h h'.
Proof.
  unfold agree_on. split.
  - intros H. split; intros a Ha; apply H, elem_of_app; auto.
  - intros [H1 H2] a [Ha | Ha]%elem_of_app; auto.
Qed.

Lemma agree_on_cons p ps h h' :
  agree_on (p :: ps) h h' -> agree_on ps h h'.
Proof. intros H a Ha. apply H. by right. Qed.

Lemma agree_on_trans ps h1 h2 h3 :
  agree_on ps h1 h2 -> agree_on ps h2 h3 -> agree_on ps h1 h3.
Proof. intros H1 H2 a Ha. rewrite H2, H1; done. Qed.

Lemma agree_on_store ps h a o :
  Some a ∉ ps -> agree_on ps h (store h a o).
Proof.
  intros Hn b Hb. apply store_lookup_ne. intros ->. done.
Qed.

Lemma remaining_at_agree p ps h h' :
  p ∈ ps -> agree_on ps h h' -> remaining_at h' p = remaining_at h p.
Proof.
  intros Hp Ha. unfold remaining_at, deref.
  destruct p as [a|]; [|done]. by rewrite (Ha a Hp).
Qed.

Lemma sum_remaining_agree q h h' :
  agree_on q h h' -> sum_remaining h' q = sum_remaining h q.
Proof.
  induction q as [|p q IH]; intros Ha; simpl; [done|].
  rewrite IH by eauto using agree_on_cons.
  f_equal. apply (remaining_at_agree p (p :: q)); [left | done].
Qed.

Lemma sum_remaining_app h q1 q2 :
  sum_remaining h (q1 ++ q2) = sum_remaining h q1 + sum_remaining h q2.
Proof. induction q1 as [|p q1 IH]; simpl; lia. Qed.

Lemma rests_at_agree ps h h' s k p :
  p ∈ ps -> agree_on ps h h' -> rests_at h s k p -> rests_at h' s k p.
Proof.
  intros Hp Ha (a & o & -> & Ho & H). exists a, o.
  split; [done|]. split; [|done]. by rewrite (Ha a Hp).
Qed.

Lemma level_ok_agree h h' s kl :
  agree_on (PriceLevel.orders_ kl.2) h h' ->
  level_ok h s kl -> level_ok h' s kl.
Proof.
  intros Ha (Hp & Hq & Ht). split; [done|]. split.
  - rewrite Forall_forall in Hq |- *. intros p Hin.
    eapply rests_at_agree; eauto.
  - by rewrite (sum_remaining_agree _ h h').
Qed.

Lemma resting_app m1 m2 : resting (m1 ++ m2) = resting m1 ++ resting m2.
Proof.
  induction m1 as [|[k lv] m1 IH]; simpl; [done|].
  by rewrite IH, app_assoc.
Qed.

Lemma elem_of_resting p m :
  p ∈ resting m <-> exists kl, kl ∈ m /\ p ∈ PriceLevel.orders_ kl.2.
Proof.
  induction m as [|[k lv] m IH]; simpl.
  - split; [by intros ?%elem_of_nil | by intros (? & ?%elem_of_nil & _)].
  - rewrite elem_of_app, IH. split.
    + intros [H | (kl & Hkl & H)].
      * exists (k, lv). split; [left | done].
      * exists kl. split; [by right | done].
    + intros (kl & [-> | Hkl]%elem_of_cons & H); [by left | right; eauto].
Qed.

Lemma ladder_ok_agree h h' s m :
  agree_on (resting m) h h' ->
  Forall (level_ok h s) m -> Forall (level_ok h' s) m.
Proof.
  intros Ha. rewrite !Forall_forall. intros H kl Hkl.
  apply (level_ok_agree h); [|by apply H].
  intros a Hin. apply Ha, elem_of_resting. eauto.
Qed.

(** * The comparators of the two ladders *)

Lemma before_of_irrefl s k : before_of s k k = false.
Proof. destruct s; unfold before_of, greater, less; lia. Qed.

Lemma before_of_trans s a b c :
  before_of s a b = true -> before_of s b c = true -> before_of s a c = true.
Proof. destruct s; unfold before_of, greater, less; lia. Qed.

Lemma before_of_total s a b :
  before_of s a b = false -> before_of s b a = false -> a = b.
Proof. destruct s; unfold before_of, greater, less; lia. Qed.

Lemma before_of_asym s a b :
  before_of s a b = true -> before_of s b a = false.
Proof. destruct s; unfold before_of, greater, less; lia. Qed.

(** Towards the other side, prices of side [s] come in the order
    opposite to that of the ladder of [s]. *)
Lemma apart_before s x x' y :
  apart s x y -> before_of s x x' = true -> apart s x' y.
Proof. destruct s; unfold apart, before_of, greater, less; lia. Qed.

Lemma apart_after s x y y' :
  apart s x y -> before_of (other s) y y' = true -> apart s x y'.
Proof. destruct s; unfold apart, before_of, greater, less; simpl; lia. Qed.

Lemma apart_other s x y : apart (other s) y x <-> apart s x y.
Proof. by destruct s. Qed.

Lemma crosses_apart s price best :
  OrderBook.crosses s price best = false <-> apart s price best.
Proof. destruct s; unfold OrderBook.crosses, apart; lia. Qed.

(** * Finding, assigning and erasing in a ladder *)

Section LadderLemmas.

Variable s : Side.

Local Abbreviation before := (before_of s).

(** The three operations walk down to the same place: past the entries
    that are before the key. *)
Lemma ladder_split k m :
  exists m1 m2,
    Forall (fun x => before x.1 k = true) m1
    /\ ((map_find before k m = None
         /\ m = m1 ++ m2
         /\ (forall v, map_assign before k v m = m1 ++ (k, v) :: m2)
         /\ map_erase before k m = m
         /\ match m2 with [] => True | x :: _ => before k x.1 = true end)
        \/ (exists lv,
              map_find before k m = Some lv
              /\ m = m1 ++ (k, lv) :: m2
              /\ (forall v, map_assign before k v m = m1 ++ (k, v) :: m2)
              /\ map_erase before k m = m1 ++ m2)).
Proof.
  induction m as [|[k' v'] m IH].
  - exists [], []. split; [constructor|]. left. simpl. done.
  - simpl. destruct (before k' k) eqn:E1.
    + destruct IH as (m1 & m2 & Hm1 & IH). exists ((k', v') :: m1), m2.
      split; [by constructor|].
      destruct IH as [(Hf & -> & Ha & He & Hh) | (lv & Hf & -> & Ha & He)].
      * left. repeat split; try done.
        -- intros v. by rewrite Ha.
        -- by rewrite He.
      * right. exists lv. repeat split; try done.
        -- intros v. by rewrite Ha.
        -- by rewrite He.
    + destruct (before k k') eqn:E2.
      * exists [], ((k', v') :: m). split; [constructor|]. left. done.
      * assert (k = k') as <- by eauto using before_of_total.
        exists [], m. split; [constructor|]. right. exists v'. done.
Qed.

Lemma keys_sorted_cons_inv kl m :
  keys_sorted before (kl :: m) ->
  Forall (fun x => before kl.1 x.1 = true) m /\ keys_sorted before m.
Proof. unfold keys_sorted. by rewrite StronglySorted_cons. Qed.

Lemma keys_sorted_mid m1 k v m2 :
  keys_sorted before (m1 ++ (k, v) :: m2) <->
  keys_sorted before m1 /\ keys_sorted before m2
  /\ Forall (fun x => before x.1 k = true) m1
  /\ Forall (fun x => before k x.1 = true) m2
  /\ (forall x y, x ∈ m1 -> y ∈ m2 -> before x.1 y.1 = true).
Proof.
  unfold keys_sorted.
  rewrite StronglySorted_app, StronglySorted_cons, !Forall_forall.
  split.
  - intros (H1 & H2 & H3 & H4). repeat split; try done.
    + intros x Hx. apply (H1 x (k, v)); [done | left].
    + intros x y Hx Hy. apply H1; [done | by right].
  - intros (H1 & H2 & H3 & H4 & H5). repeat split; try done.
    intros x y Hx [-> | Hy]%elem_of_cons; [by apply H3 | by apply H5].
Qed.

Lemma keys_sorted_app_inv m1 m2 :
  keys_sorted before (m1 ++ m2) ->
  keys_sorted before m1 /\ keys_sorted before m2
  /\ (forall x y, x ∈ m1 -> y ∈ m2 -> before x.1 y.1 = true).
Proof.
  unfold keys_sorted. rewrite StronglySorted_app.
  intros (H1 & H2 & H3). auto.
Qed.

Lemma map_assign_sorted k v m :
  keys_sorted before m -> keys_sorted before (map_assign before k v m).
Proof.
  intros Hs. destruct (ladder_split k m) as (m1 & m2 & Hm1 & H).
  destruct H as [(_ & -> & Ha & _ & Hh) | (lv & _ & -> & Ha & _)];
    rewrite Ha.
  - apply keys_sorted_app_inv in Hs as (H1 & H2 & H3).
    apply keys_sorted_mid. repeat split; try done.
    destruct m2 as [|x m2]; [constructor|].
    apply keys_sorted_cons_inv in H2 as (H2 & _).
    constructor; [done|].
    eapply Forall_impl; [exact H2|]. simpl. intros y Hy.
    eauto using before_of_trans.
  - apply keys_sorted_mid in Hs. by apply keys_sorted_mid.
Qed.

Lemma map_erase_sorted k m :
  keys_sorted before m -> keys_sorted before (map_erase before k m).
Proof.
  intros Hs. destruct (ladder_split k m) as (m1 & m2 & Hm1 & H).
  destruct H as [(_ & _ & _ & -> & _) | (lv & _ & -> & _ & ->)]; [done|].
  apply keys_sorted_mid in Hs as (H1 & H2 & _ & _ & H5).
  unfold keys_sorted. by apply StronglySorted_app.
Qed.

(** In a sorted ladder a key occurs once, and [map_find] finds it. *)
Lemma map_find_elem_of k lv m :
  keys_sorted before m -> (k, lv) ∈ m -> map_find before k m = Some lv.
Proof.
  intros Hs Hin. destruct (ladder_split k m) as (m1 & m2 & Hm1 & H).
  assert (Hirr : forall x, x ∈ m1 -> x.1 <> k).
  { intros x Hx Heq. rewrite Forall_forall in Hm1.
    specialize (Hm1 _ Hx). simpl in Hm1.
    by rewrite Heq, before_of_irrefl in Hm1. }
  destruct H as [(_ & -> & _ & _ & Hh) | (lv' & Hf & -> & _ & _)].
  - apply keys_sorted_app_inv in Hs as (_ & H2 & _).
    apply elem_of_app in Hin as [Hin | Hin]; [by destruct (Hirr _ Hin)|].
    destruct m2 as [|x m2]; [by apply elem_of_nil in Hin|].
    apply keys_sorted_cons_inv in H2 as (H2 & _).
    apply elem_of_cons in Hin as [Heq | Hin].
    + subst x. simpl in Hh. by rewrite before_of_irrefl in Hh.
    + rewrite Forall_forall in H2. specialize (H2 _ Hin). simpl in H2.
      pose proof (before_of_trans _ _ _ _ Hh H2) as Hkk.
      by rewrite before_of_irrefl in Hkk.
  - rewrite Hf. f_equal.
    apply keys_sorted_mid in Hs as (_ & _ & _ & H4 & _).
    apply elem_of_app in Hin as [Hin | Hin]; [by destruct (Hirr _ Hin)|].
    apply elem_of_cons in Hin as [[= ->] | Hin]; [done|].
    rewrite Forall_forall in H4. specialize (H4 _ Hin). simpl in H4.
    by rewrite before_of_irrefl in H4.
Qed.

Lemma map_find_Some k lv m :
  map_find before k m = Some lv -> (k, lv) ∈ m.
Proof.
  intros Hf. destruct (ladder_split k m) as (m1 & m2 & _ & H).
  destruct H as [(Hn & _) | (lv' & Hf' & -> & _)]; [congruence|].
  assert (lv' = lv) as -> by congruence.
  apply elem_of_app. right. left.
Qed.

End LadderLemmas.

(** * Price levels *)

Lemma PriceLevel_empty_nil lv :
  PriceLevel.empty lv = true <-> PriceLevel.orders_ lv = [].
Proof. unfold PriceLevel.empty. by destruct (PriceLevel.orders_ lv). Qed.

Lemma add_order_valid h lv a o :
  h !! a = Some o ->
  PriceLevel.add_order h lv (Some a)
  = Ok (PriceLevel.mk (PriceLevel.price_ lv)
          (u64 (PriceLevel.total_quantity_ lv + Order.get_remaining_qty o))
          (PriceLevel.orders_ lv ++ [Some a])).
Proof. intros Ho. unfold PriceLevel.add_order. by rewrite (deref_Some _ _ _ Ho). Qed.

Lemma pop_front_order_valid h lv a o q :
  PriceLevel.orders_ lv = Some a :: q -> h !! a = Some o ->
  PriceLevel.pop_front_order h lv
  = Ok (PriceLevel.mk (PriceLevel.price_ lv)
          (u64 (PriceLevel.total_quantity_ lv - Order.get_remaining_qty o)) q).
Proof.
  intros Hq Ho. unfold PriceLevel.pop_front_order.
  by rewrite Hq, (deref_Some _ _ _ Ho).
Qed.

Lemma remaining_at_valid h a o :
  h !! a = Some o -> remaining_at h (Some a) = Order.get_remaining_qty o.
Proof. intros Ho. unfold remaining_at. by rewrite (deref_Some _ _ _ Ho). Qed.

(** ** The loop of [remove_order] *)

Lemma filter_existsb_false {A} (f : A -> bool) (l : list A) :
  existsb f l = false -> filter (fun x => f x = true) l = [].
Proof.
  induction l as [|x l IH]; simpl; [done|].
  intros [Hx Hl]%orb_false_iff.
  rewrite filter_cons_False by (rewrite Hx; discriminate). auto.
Qed.

Lemma filter_existsb_true {A} (f : A -> bool) (l : list A) :
  existsb f l = false -> filter (fun x => f x = false) l = l.
Proof.
  induction l as [|x l IH]; simpl; [done|].
  intros [Hx Hl]%orb_false_iff.
  rewrite filter_cons_True by done. f_equal. auto.
Qed.

Lemma remove_loop_spec h order_id orders :
  Forall (valid_ptr h) orders ->
  forall total temp_queue found,
    PriceLevel.remove_loop h order_id orders total temp_queue found
    = Ok (if existsb (has_id h order_id) orders
          then u64 (total - sum_remaining h
                              (filter (fun p => has_id h order_id p = true)
                                 orders))
          else total,
          temp_queue ++ filter (fun p => has_id h order_id p = false) orders,
          found || existsb (has_id h order_id) orders).
Proof.
  induction 1 as [|p orders (o & Hp) Hall IH]; intros total temp found.
  - simpl. by rewrite app_nil_r, orb_false_r.
  - destruct (deref_Ok _ _ _ Hp) as (a & -> & Ha).
    assert (Hid : has_id h order_id (Some a) = (Order.get_id o =? order_id))
      by (unfold has_id; by rewrite Hp).
    cbn [PriceLevel.remove_loop existsb]. rewrite Hp. cbn [bind].
    rewrite Hid. destruct (Order.get_id o =? order_id) eqn:E.
    + rewrite IH. cbn [orb].
      rewrite filter_cons_True by done.
      rewrite filter_cons_False by (rewrite Hid; discriminate).
      rewrite orb_true_r. cbn [sum_remaining].
      rewrite (remaining_at_valid _ _ _ Ha). f_equal. f_equal. f_equal.
      destruct (existsb (has_id h order_id) orders) eqn:Ex.
      * rewrite u64_sub_l. f_equal. lia.
      * assert (filter (fun p => has_id h order_id p = true) orders = [])
          as ->; [|simpl; f_equal; lia].
        by apply filter_existsb_false.
    + rewrite IH. cbn [orb].
      rewrite filter_cons_False by (rewrite Hid; discriminate).
      rewrite filter_cons_True by done.
      by rewrite <- app_assoc.
Qed.

Lemma remove_order_spec h lv order_id :
  Forall (valid_ptr h) (PriceLevel.orders_ lv) ->
  PriceLevel.remove_order h lv order_id
  = Ok (existsb (has_id h order_id) (PriceLevel.orders_ lv),
        PriceLevel.mk (PriceLevel.price_ lv)
          (if existsb (has_id h order_id) (PriceLevel.orders_ lv)
           then u64 (PriceLevel.total_quantity_ lv
                     - sum_remaining h
                         (filter (fun p => has_id h order_id p = true)
                            (PriceLevel.orders_ lv)))
           else PriceLevel.total_quantity_ lv)
          (filter (fun p => has_id h order_id p = false)
             (PriceLevel.orders_ lv))).
Proof.
  intros Hv. unfold PriceLevel.remove_order.
  destruct (PriceLevel.empty lv) eqn:E.
  - apply PriceLevel_empty_nil in E. rewrite E. simpl.
    destruct lv; simpl in *; by subst.
  - by rewrite (remove_loop_spec _ _ _ Hv).
Qed.

Lemma sum_remaining_filter h (f : ptr -> bool) q :
  sum_remaining h q
  = sum_remaining h (filter (fun p => f p = true) q)
    + sum_remaining h (filter (fun p => f p = false) q).
Proof.
  induction q as [|p q IH]; simpl; [done|].
  destruct (f p) eqn:E.
  - rewrite filter_cons_True by done.
    rewrite filter_cons_False by (rewrite E; discriminate). simpl. lia.
  - rewrite filter_cons_False by (rewrite E; discriminate).
    rewrite filter_cons_True by done. simpl. lia.
Qed.

(** ** The aggregate follows the queue *)

Lemma add_order_consistent h lv p lv' :
  level_consistent h lv ->
  PriceLevel.add_order h lv p = Ok lv' ->
  level_consistent h lv'.
Proof.
  unfold level_consistent, PriceLevel.add_order. intros Hc.
  destruct p as [a|]; [|by intros [= <-]].
  intros H. inv_bind H. injection H as <-. simpl.
  rewrite Hc, sum_remaining_app, u64_add_l. simpl.
  unfold remaining_at. rewrite Ha. f_equal. lia.
Qed.

Lemma remove_order_consistent h lv order_id found lv' :
  Forall (valid_ptr h) (PriceLevel.orders_ lv) ->
  level_consistent h lv ->
  PriceLevel.remove_order h lv order_id = Ok (found, lv') ->
  level_consistent h lv'.
Proof.
  unfold level_consistent. intros Hv Hc.
  rewrite (remove_order_spec _ _ _ Hv). intros [= <- <-]. simpl.
  destruct (existsb _ _) eqn:Ex.
  - rewrite Hc, u64_sub_l. f_equal.
    rewrite (sum_remaining_filter h (has_id h order_id)
               (PriceLevel.orders_ lv)) at 1. lia.
  - by rewrite filter_existsb_true.
Qed.

Lemma pop_front_order_consistent h lv lv' :
  level_consistent h lv ->
  PriceLevel.pop_front_order h lv = Ok lv' ->
  level_consistent h lv'.
Proof.
  unfold level_consistent, PriceLevel.pop_front_order. intros Hc.
  destruct (PriceLevel.orders_ lv) as [|[a|] q] eqn:E.
  - intros [= <-]. by rewrite E.
  - intros H. inv_bind H. injection H as <-. simpl.
    rewrite Hc, u64_sub_l. simpl. unfold remaining_at. rewrite Ha.
    f_equal. lia.
  - intros [= <-]. simpl. rewrite Hc. simpl. unfold remaining_at. simpl.
    f_equal.
Qed.

(** The in-place fill of the front order, from [o] to [o'], followed by
    [update_quantity]. *)
Lemma update_quantity_consistent h lv r q o o' :
  PriceLevel.orders_ lv = Some r :: q ->
  Some r ∉ q ->
  h !! r = Some o ->
  level_consistent h lv ->
  level_consistent (store h r o')
    (PriceLevel.update_quantity lv (Order.get_remaining_qty o)
       (Order.get_remaining_qty o')).
Proof.
  unfold level_consistent. intros Hq Hn Ho Hc.
  assert (Hlen : (r < length h)%nat) by (eapply lookup_lt_Some; eauto).
  assert (Hsum : sum_remaining (store h r o') (PriceLevel.orders_ lv)
                 = sum_remaining h (PriceLevel.orders_ lv)
                   - Order.get_remaining_qty o + Order.get_remaining_qty o').
  { rewrite Hq. simpl.
    rewrite (sum_remaining_agree q h) by (by apply agree_on_store).
    rewrite (remaining_at_valid _ _ _ Ho).
    rewrite (remaining_at_valid (store h r o') r o')
      by (by apply store_lookup_eq). lia. }
  unfold PriceLevel.update_quantity.
  destruct (_ >=? _); simpl; rewrite Hsum, Hc;
    [rewrite u64_sub_l | rewrite u64_add_l]; f_equal; lia.
Qed.

(** * One iteration of the matching loop *)

Lemma match_qty_live oi orr :
  live oi -> live orr ->
  0 < match_qty oi orr
  /\ match_qty oi orr <= Order.quantity_ oi - Order.filled_qty_ oi
  /\ match_qty oi orr <= Order.quantity_ orr - Order.filled_qty_ orr
  /\ (match_qty oi orr = Order.quantity_ oi - Order.filled_qty_ oi
      \/ match_qty oi orr = Order.quantity_ orr - Order.filled_qty_ orr).
Proof.
  intros [Hi1 Hi2]%live_remaining [Hr1 Hr2]%live_remaining.
  unfold match_qty. rewrite <- Hi1, <- Hr1. lia.
Qed.

Lemma filled_by_remaining o q :
  0 <= Order.filled_qty_ o -> Order.quantity_ o < 2 ^ 64 ->
  0 <= q <= Order.quantity_ o - Order.filled_qty_ o ->
  Order.get_remaining_qty (filled_by o q)
  = Order.quantity_ o - Order.filled_qty_ o - q.
Proof.
  intros. unfold Order.get_remaining_qty, filled_by. simpl.
  rewrite u64_small by (unfold in_u64; lia). lia.
Qed.

Section MatchOne.

Variable clock : nat -> Z.

Lemma match_one_spec i oi r orr level q' k trades st :
  PriceLevel.orders_ level = Some r :: q' ->
  OrderBook.heap_ st !! i = Some oi ->
  OrderBook.heap_ st !! r = Some orr ->
  i <> r -> live oi -> live orr ->
  OrderBook.match_one clock (Some i) level k trades st
  = Ok (match_level level oi orr r q',
        trades ++ [match_trade clock st oi orr k],
        match_state st i oi r orr).
Proof.
  intros Hq Hi Hr Hne Hli Hlr.
  destruct (match_qty_live _ _ Hli Hlr) as (Hq0 & Hqi & Hqr & _).
  pose proof Hli as (Hfi & Hqi' & Hsi).
  pose proof Hlr as (Hfr & Hqr' & Hsr).
  assert (Hleni : (i < length (OrderBook.heap_ st))%nat)
    by (eapply lookup_lt_Some; eauto).
  assert (Hlenr : (r < length (OrderBook.heap_ st))%nat)
    by (eapply lookup_lt_Some; eauto).
  unfold OrderBook.match_one, PriceLevel.get_front_order. rewrite Hq.
  rewrite (deref_Some _ _ _ Hi), (deref_Some _ _ _ Hr). cbn [bind].
  unfold OrderBook.get_timestamp. cbn [OrderBook.heap_ OrderBook.set_heap
    OrderBook.set_next_trade_id OrderBook.set_clock_reads
    OrderBook.next_trade_id_ OrderBook.clock_reads_].
  fold (match_qty oi orr).
  rewrite (fill_within oi) by (done || lia). cbn [bind].
  cbn [OrderBook.heap_ OrderBook.set_heap].
  rewrite (deref_Some _ r orr) by (by rewrite store_lookup_ne).
  cbn [bind]. rewrite (fill_within orr) by (done || lia). cbn [bind].
  fold (filled_by oi (match_qty oi orr)).
  fold (filled_by orr (match_qty oi orr)).
  fold (match_heap (OrderBook.heap_ st) i oi r orr).
  assert (Hr' : match_heap (OrderBook.heap_ st) i oi r orr !! r
                = Some (filled_by orr (match_qty oi orr))).
  { unfold match_heap. apply store_lookup_eq. by rewrite store_length. }
  rewrite (deref_Some _ _ _ Hr'). cbn [bind].
  rewrite (filled_by_remaining orr) by lia.
  rewrite (proj1 (live_remaining _ Hlr)).
  unfold PriceLevel.update_quantity.
  destruct (_ >=? _) eqn:Ege; [|lia].
  unfold Order.is_fully_filled. cbn [filled_by Order.set_fill Order.filled_qty_
    Order.quantity_]. fold (match_full oi orr).
  replace (Order.quantity_ orr - Order.filled_qty_ orr
           - (Order.quantity_ orr - Order.filled_qty_ orr - match_qty oi orr))
    with (match_qty oi orr) by lia.
  unfold match_level, match_state. destruct (match_full oi orr) eqn:Efull.
  - erewrite pop_front_order_valid; [|by rewrite Hq | exact Hr'].
    cbn [bind PriceLevel.price_ PriceLevel.total_quantity_].
    rewrite (filled_by_remaining orr) by lia.
    unfold match_full in Efull.
    replace (Order.quantity_ orr - Order.filled_qty_ orr - match_qty oi orr)
      with 0 by lia.
    rewrite Z.sub_0_r, u64_idemp. reflexivity.
  - rewrite Hq. reflexivity.
Qed.

End MatchOne.

(** * The invariant of the book across one match *)

Lemma match_heap_incoming h i oi r orr :
  (i < length h)%nat -> i <> r ->
  match_heap h i oi r orr !! i = Some (filled_by oi (match_qty oi orr)).
Proof.
  intros Hlen Hne. unfold match_heap.
  rewrite store_lookup_ne by done. by apply store_lookup_eq.
Qed.

Lemma match_heap_resting h i oi r orr :
  (r < length h)%nat ->
  match_heap h i oi r orr !! r = Some (filled_by orr (match_qty oi orr)).
Proof.
  intros Hlen. unfold match_heap. apply store_lookup_eq.
  by rewrite store_length.
Qed.

Lemma match_heap_other h i oi r orr a :
  a <> i -> a <> r -> match_heap h i oi r orr !! a = h !! a.
Proof.
  intros Hi Hr. unfold match_heap. by rewrite !store_lookup_ne.
Qed.

Lemma match_heap_length h i oi r orr :
  length (match_heap h i oi r orr) = length h.
Proof. unfold match_heap. by rewrite !store_length. Qed.

Lemma match_heap_agree ps h i oi r orr :
  Some i ∉ ps -> Some r ∉ ps -> agree_on ps h (match_heap h i oi r orr).
Proof.
  intros Hi Hr a Ha. apply match_heap_other; intros ->; done.
Qed.

Lemma keys_sorted_same_keys before (m m' : ladder) :
  m.*1 = m'.*1 -> keys_sorted before m -> keys_sorted before m'.
Proof.
  unfold keys_sorted. revert m'.
  induction m as [|x m IH]; intros [|x' m'] Hk;
    [by intros _; constructor | discriminate | discriminate |].
  rewrite !fmap_cons in Hk. injection Hk as Hx Hm.
  rewrite !StronglySorted_cons.
  intros [Hall Hs]. split; [|by apply IH].
  rewrite Forall_forall in Hall |- *. intros y' Hy'.
  assert (y'.1 ∈ m.*1) as (y & Hy1 & Hy)%list_elem_of_fmap
    by (rewrite Hm; by apply list_elem_of_fmap_2).
  rewrite <- Hx, Hy1. by apply Hall.
Qed.

Lemma live_incoming o :
  incoming_ok o -> 0 < Order.get_remaining_qty o -> live o.
Proof.
  intros (Hf & Hq & Hs & _) Hrem. unfold Order.get_remaining_qty in Hrem.
  rewrite u64_small in Hrem by (unfold in_u64; lia).
  split; [lia|]. split; [done|]. apply Hs. lia.
Qed.

Lemma filled_by_incoming_ok oi orr :
  live oi -> live orr -> incoming_ok (filled_by oi (match_qty oi orr)).
Proof.
  intros Hli Hlr. destruct (match_qty_live _ _ Hli Hlr) as (H0 & Hi & _).
  destruct Hli as (Hf & Hq & _). unfold incoming_ok, filled_by. simpl.
  split_and!; try lia.
  - intros Hlt. destruct (_ =? _) eqn:E; [lia | by right].
  - by destruct (_ =? _).
Qed.

Lemma filled_by_live oi orr :
  live oi -> live orr -> match_full oi orr = false ->
  live (filled_by orr (match_qty oi orr)).
Proof.
  intros Hli Hlr Hfull. destruct (match_qty_live _ _ Hli Hlr) as (H0 & _ & Hr & _).
  destruct Hlr as (Hf & Hq & _). unfold match_full in Hfull.
  unfold live, filled_by. simpl. rewrite Hfull.
  split_and!; try lia. by right.
Qed.

Lemma match_full_qty oi orr :
  live oi -> live orr -> match_full oi orr = true ->
  match_qty oi orr = Order.get_remaining_qty orr.
Proof.
  intros Hli Hlr Hfull. unfold match_full in Hfull.
  rewrite (proj1 (live_remaining _ Hlr)). lia.
Qed.

(** A match that leaves the resting order on the book has exhausted the
    incoming order. *)
Lemma match_partial_exhausts oi orr :
  live oi -> live orr -> match_full oi orr = false ->
  Order.get_remaining_qty (filled_by oi (match_qty oi orr)) = 0.
Proof.
  intros Hli Hlr Hfull.
  destruct (match_qty_live _ _ Hli Hlr) as (H0 & Hi & Hr & Hor).
  unfold match_full in Hfull. pose proof Hli as (Hf & Hq & _).
  rewrite filled_by_remaining by lia. lia.
Qed.

Lemma matching_front s i h own k level others index p q' :
  matching s i h own ((k, level) :: others) index ->
  PriceLevel.orders_ level = p :: q' ->
  exists r orr,
    (p = Some r) /\ (h !! r = Some orr) /\ live orr /\ (i <> r)
    /\ (Order.side_ orr = other s) /\ (Order.price_ orr = k)
    /\ (Some r ∉ q') /\ (Some r ∉ resting own) /\ (Some r ∉ resting others).
Proof.
  intros [Hb Hfresh _] Hq.
  pose proof (ok_opp _ _ _ _ _ Hb) as Hopp.
  apply Forall_cons in Hopp as [(_ & Hrest & _) _]. simpl in Hrest.
  rewrite Hq in Hrest. apply Forall_cons in Hrest as [Hp _].
  destruct Hp as (r & orr & -> & Hr & Hlive & Hside & Hprice).
  pose proof (ok_nodup _ _ _ _ _ Hb) as Hnd. simpl in Hnd, Hfresh.
  rewrite Hq in Hnd, Hfresh.
  apply NoDup_app in Hnd as (_ & Hdisj & Hnd). simpl in Hnd.
  apply NoDup_cons in Hnd as (Hnotin & _).
  exists r, orr. split_and!; try done.
  - intros ->. apply Hfresh. apply elem_of_app. right. left.
  - intros Hin. apply Hnotin, elem_of_app. by left.
  - intros Hin. apply (Hdisj _ Hin). left.
  - intros Hin. apply Hnotin, elem_of_app. by right.
Qed.

Lemma matching_step s i h own k level others index r q' oi orr :
  matching s i h own ((k, level) :: others) index ->
  PriceLevel.orders_ level = Some r :: q' ->
  h !! i = Some oi -> h !! r = Some orr -> live oi ->
  matching s i (match_heap h i oi r orr) own
    ((k, match_level level oi orr r q') :: others)
    (if match_full oi orr
     then delete (Order.order_id_ orr) index else index).
Proof.
  intros Hm Hq Hi Hr Hli.
  destruct (matching_front _ _ _ _ _ _ _ _ _ _ Hm Hq)
    as (r' & orr' & [= <-] & Hr' & Hlr & Hne & Hside & Hprice
        & Hrq & Hrown & Hrothers).
  assert (orr' = orr) as -> by congruence. clear Hr'.
  destruct Hm as [Hb Hfresh (oi' & Hoi' & _ & Hs)].
  assert (oi' = oi) as -> by congruence. clear Hoi'.
  assert (Hleni : (i < length h)%nat) by (eapply lookup_lt_Some; eauto).
  assert (Hlenr : (r < length h)%nat) by (eapply lookup_lt_Some; eauto).
  simpl in Hfresh. rewrite Hq in Hfresh.
  assert (Hiown : Some i ∉ resting own)
    by (intros ?; apply Hfresh, elem_of_app; by left).
  assert (Hiq : Some i ∉ q').
  { intros ?. apply Hfresh. apply elem_of_app. right.
    apply elem_of_app. left. by right. }
  assert (Hiothers : Some i ∉ resting others).
  { intros ?. apply Hfresh. apply elem_of_app. right.
    apply elem_of_app. by right. }
  set (h' := match_heap h i oi r orr).
  assert (Hsub : forall p,
             p ∈ resting ((k, match_level level oi orr r q') :: others) ->
             p ∈ resting ((k, level) :: others)).
  { intros p. simpl. rewrite Hq, !elem_of_app.
    intros [Hp | Hp]; [left | by right].
    destruct (match_full oi orr); [by right | done]. }
  destruct Hb as [Hown Hopp Hso Hsp Hap Hnd Hidx].
  apply Forall_cons in Hopp as [(Hlp & Hlq & Hlt) Hothers].
  simpl in Hlp, Hlq, Hlt. rewrite Hq in Hlq, Hlt.
  apply Forall_cons in Hlq as [_ Hlq].
  assert (Hq'ok : Forall (rests_at h' (other s) k) q').
  { rewrite Forall_forall in Hlq |- *. intros p Hp.
    apply (rests_at_agree q' h); [done | by apply match_heap_agree | auto]. }
  assert (Hsumq' : sum_remaining h' q' = sum_remaining h q')
    by (by apply sum_remaining_agree, match_heap_agree).
  destruct (match_qty_live _ _ Hli Hlr) as (Hq0 & Hqi & Hqr & _).
  split; [split|..].
  - apply (ladder_ok_agree h); [by apply match_heap_agree | done].
  - apply Forall_cons. split.
    + split; [done|]. unfold match_level. simpl.
      destruct (match_full oi orr) eqn:Efull.
      * split; [done|]. rewrite Hsumq', Hlt. simpl.
        rewrite (remaining_at_valid _ _ _ Hr), u64_sub_l.
        rewrite (match_full_qty _ _ Hli Hlr Efull). f_equal. lia.
      * split.
        -- constructor; [|done].
           exists r, (filled_by orr (match_qty oi orr)).
           split_and!;
             [done | by apply match_heap_resting | by apply filled_by_live
             | done | done].
        -- simpl. rewrite Hsumq', Hlt. simpl.
           rewrite (remaining_at_valid _ _ _ Hr), u64_sub_l.
           rewrite (remaining_at_valid h' r (filled_by orr (match_qty oi orr)))
             by (by apply match_heap_resting).
           destruct Hlr as (Hfr & Hqr' & _).
           rewrite filled_by_remaining by lia.
           unfold Order.get_remaining_qty.
           rewrite (u64_small (Order.quantity_ orr - Order.filled_qty_ orr))
             by (unfold in_u64; lia).
           f_equal. lia.
    + apply (ladder_ok_agree h); [by apply match_heap_agree | done].
  - done.
  - eapply keys_sorted_same_keys; [|exact Hsp]. done.
  - done.
  - eapply sublist_NoDup; [exact Hnd|].
    apply sublist_app; [done|]. simpl. rewrite Hq.
    apply sublist_app; [|done]. unfold match_level. simpl.
    destruct (match_full oi orr); [by apply sublist_cons | done].
  - intros id p Hlook.
    assert (Hlook' : index !! id = Some p
                     /\ (match_full oi orr = true -> id <> Order.order_id_ orr)).
    { destruct (match_full oi orr); [|done].
      apply lookup_delete_Some in Hlook as [Hne' Hlook]. done. }
    destruct Hlook' as [Hold Hid].
    destruct (Hidx _ _ Hold) as (Hin & a & o & -> & Ha & Hido).
    simpl in Hin. rewrite Hq in Hin.
    assert (Hai : a <> i) by (intros ->; by apply Hfresh).
    destruct (decide (a = r)) as [-> | Har].
    + assert (o = orr) as -> by congruence. split.
      * apply elem_of_app in Hin as [Hin | Hin]; [by destruct Hrown|].
        apply elem_of_app. right. simpl. unfold match_level. simpl.
        destruct (match_full oi orr) eqn:Efull; [by destruct Hid | ].
        apply elem_of_app. left. left.
      * exists r, (filled_by orr (match_qty oi orr)).
        split_and!; [done | by apply match_heap_resting | done].
    + split.
      * apply elem_of_app in Hin as [Hin | Hin];
          apply elem_of_app; [by left | right].
        simpl.
        apply elem_of_app in Hin as [Hin | Hin];
          apply elem_of_app; [left | by right].
        apply elem_of_cons in Hin as [[= ->] | Hin]; [done|].
        unfold match_level. simpl.
        destruct (match_full oi orr); [done | by right].
      * exists a, o. split_and!; [done | | done].
        unfold h'. by rewrite match_heap_other.
  - intros Hin. apply Hfresh. rewrite <- Hq.
    apply elem_of_app in Hin as [Hin | Hin]; apply elem_of_app;
      [by left | right]. by apply Hsub.
  - exists (filled_by oi (match_qty oi orr)). split.
    + by apply match_heap_incoming.
    + split; [by apply filled_by_incoming_ok | done].
Qed.

(** * The two loops of the matching walk *)

Lemma incoming_remaining o :
  incoming_ok o ->
  Order.get_remaining_qty o = Order.quantity_ o - Order.filled_qty_ o
  /\ 0 <= Order.get_remaining_qty o.
Proof.
  intros (Hf & Hq & _). unfold Order.get_remaining_qty.
  rewrite u64_small by (unfold in_u64; lia). lia.
Qed.

Section Loops.

Variable clock : nat -> Z.
Variable s : Side.
Variable i : nat.

(** ** The loop of [process_matches_at_level]

    A property [P] of the level, the trades and the state that entails
    the invariant of the book and that every match preserves holds when
    the loop ends; the loop ends within its fuel, on an empty level or on
    an exhausted incoming order. *)
Section Inner.

Variables (own others : ladder) (k : Z).
Variable P : PriceLevel.t -> list Trade.t -> OrderBook.t -> Prop.

Hypothesis P_matching :
  forall level trades st,
    P level trades st ->
    matching s i (OrderBook.heap_ st) own ((k, level) :: others)
      (OrderBook.order_map_ st).

Hypothesis P_match :
  forall level trades st r q' oi orr,
    P level trades st ->
    PriceLevel.orders_ level = Some r :: q' ->
    OrderBook.heap_ st !! i = Some oi ->
    OrderBook.heap_ st !! r = Some orr ->
    live oi -> live orr -> i <> r ->
    Order.side_ orr = other s -> Order.price_ orr = k ->
    P (match_level level oi orr r q')
      (trades ++ [match_trade clock st oi orr k])
      (match_state st i oi r orr).

Lemma process_matches_loop_rule fuel level trades st :
  P level trades st ->
  (length (PriceLevel.orders_ level) < fuel)%nat ->
  exists level' trades' st',
    OrderBook.process_matches_loop clock fuel (Some i) level k trades st
    = Ok (level', trades', st')
    /\ P level' trades' st'
    /\ (PriceLevel.orders_ level' = []
        \/ exists oi, OrderBook.heap_ st' !! i = Some oi
                      /\ Order.get_remaining_qty oi = 0).
Proof.
  revert level trades st.
  induction fuel as [|fuel IH]; intros level trades st HP Hlen; [lia|].
  cbn [OrderBook.process_matches_loop].
  destruct (PriceLevel.empty level) eqn:Eempty.
  { apply PriceLevel_empty_nil in Eempty. eauto 10. }
  pose proof (P_matching _ _ _ HP) as Hm.
  destruct (mt_incoming _ _ _ _ _ _ Hm) as (oi & Hi & Hoi & Hsi).
  rewrite (deref_Some _ _ _ Hi). cbn [bind].
  destruct (incoming_remaining _ Hoi) as [_ Hrem0].
  destruct (Order.get_remaining_qty oi >? 0) eqn:Erem;
    [|exists level, trades, st; split_and!; [done | done | right];
      exists oi; split; [done | lia]].
  assert (Hli : live oi) by (apply live_incoming; [done | lia]).
  destruct (PriceLevel.orders_ level) as [|p q'] eqn:Hq;
    [by unfold PriceLevel.empty in Eempty; rewrite Hq in Eempty|].
  destruct (matching_front _ _ _ _ _ _ _ _ _ _ Hm Hq)
    as (r & orr & -> & Hr & Hlr & Hne & Hside & Hprice & _).
  rewrite (match_one_spec clock i oi r orr level q' k trades st)
    by done.
  cbn [bind].
  pose proof (P_match _ _ _ _ _ _ _ HP Hq Hi Hr Hli Hlr Hne Hside Hprice)
    as HP'.
  destruct (match_full oi orr) eqn:Efull.
  - apply IH; [done|]. unfold match_level. simpl. rewrite Efull.
    simpl in Hlen. lia.
  - (* the incoming order is exhausted: the loop ends at its next test *)
    assert (Hi' : OrderBook.heap_ (match_state st i oi r orr) !! i
                  = Some (filled_by oi (match_qty oi orr))).
    { simpl. apply match_heap_incoming; [|done].
      eapply lookup_lt_Some; eauto. }
    pose proof (match_partial_exhausts _ _ Hli Hlr Efull) as Hex.
    exists (match_level level oi orr r q'),
      (trades ++ [match_trade clock st oi orr k]),
      (match_state st i oi r orr).
    split_and!; [|done | right; eauto].
    assert (Hne' : PriceLevel.empty (match_level level oi orr r q') = false)
      by (unfold PriceLevel.empty, match_level; simpl; by rewrite Efull).
    destruct fuel as [|fuel']; cbn [OrderBook.process_matches_loop];
      rewrite Hne', (deref_Some _ _ _ Hi'); cbn [bind]; by rewrite Hex.
Qed.

End Inner.

(** ** The loop of [match_order] *)

Lemma set_opposite_id st : OrderBook.set_opposite s st (OrderBook.opposite s st) = st.
Proof. by destruct s, st. Qed.

Lemma opposite_set_opposite st m :
  OrderBook.opposite s (OrderBook.set_opposite s st m) = m.
Proof. by destruct s. Qed.

Lemma own_set_opposite st m : own s (OrderBook.set_opposite s st m) = own s st.
Proof. by destruct s. Qed.

Lemma set_opposite_twice st m m' :
  OrderBook.set_opposite s (OrderBook.set_opposite s st m) m'
  = OrderBook.set_opposite s st m'.
Proof. by destruct s. Qed.

Lemma heap_set_opposite st m :
  OrderBook.heap_ (OrderBook.set_opposite s st m) = OrderBook.heap_ st.
Proof. by destruct s. Qed.

Lemma order_map_set_opposite st m :
  OrderBook.order_map_ (OrderBook.set_opposite s st m)
  = OrderBook.order_map_ st.
Proof. by destruct s. Qed.

Lemma match_state_set_opposite st m m' r oi orr :
  OrderBook.set_opposite s
    (match_state (OrderBook.set_opposite s st m) i oi r orr) m'
  = OrderBook.set_opposite s (match_state st i oi r orr) m'.
Proof. by destruct s. Qed.

Lemma match_trade_set_opposite st m oi orr k :
  match_trade clock (OrderBook.set_opposite s st m) oi orr k
  = match_trade clock st oi orr k.
Proof. by destruct s. Qed.

Lemma own_match_state s' st r oi orr :
  own s' (match_state st i oi r orr) = own s' st.
Proof. by destruct s'. Qed.

Section Outer.

Variable Q : list Trade.t -> OrderBook.t -> Prop.

Hypothesis Q_matching :
  forall trades st,
    Q trades st ->
    matching s i (OrderBook.heap_ st) (own s st) (OrderBook.opposite s st)
      (OrderBook.order_map_ st).

Hypothesis Q_match :
  forall trades st k level others r q' oi orr,
    Q trades st ->
    OrderBook.opposite s st = (k, level) :: others ->
    PriceLevel.orders_ level = Some r :: q' ->
    OrderBook.heap_ st !! i = Some oi ->
    OrderBook.heap_ st !! r = Some orr ->
    live oi -> live orr -> i <> r ->
    Order.side_ orr = other s -> Order.price_ orr = k ->
    Order.type_ oi = MARKET
    \/ OrderBook.crosses s (Order.price_ oi) k = true ->
    Q (trades ++ [match_trade clock st oi orr k])
      (OrderBook.set_opposite s (match_state st i oi r orr)
         ((k, match_level level oi orr r q') :: others)).

Hypothesis Q_erase :
  forall trades st k level others,
    Q trades st ->
    OrderBook.opposite s st = (k, level) :: others ->
    PriceLevel.orders_ level = [] ->
    Q trades (OrderBook.set_opposite s st others).

Lemma match_loop_rule fuel trades st :
  Q trades st ->
  (length (OrderBook.opposite s st) < fuel)%nat ->
  exists trades' st',
    OrderBook.match_loop clock fuel s (Some i) trades st = Ok (trades', st')
    /\ Q trades' st' /\ match_done s i st'.
Proof.
  revert trades st.
  induction fuel as [|fuel IH]; intros trades st HQ Hlen; [lia|].
  pose proof (Q_matching _ _ HQ) as Hm.
  destruct (mt_incoming _ _ _ _ _ _ Hm) as (oi & Hi & Hoi & Hsi).
  cbn [OrderBook.match_loop].
  destruct (OrderBook.opposite s st) as [|[k level] others] eqn:Hopp.
  { exists trades, st. split_and!; [done | done |]. exists oi. auto. }
  rewrite (deref_Some _ _ _ Hi). cbn [bind].
  destruct (Order.get_remaining_qty oi >? 0) eqn:Erem;
    [|exists trades, st; split_and!; [done | done |]; exists oi;
      split; [done|]; right; left;
      destruct (incoming_remaining _ Hoi); lia].
  destruct (OrderType_eqb (Order.get_type oi) MARKET
            || OrderBook.crosses s (Order.get_price oi) k) eqn:Ecross.
  2:{ apply orb_false_iff in Ecross as [Ety Ecr].
      exists trades, st. split_and!; [done | done |]. exists oi.
      split; [done|]. right. right. exists k, level, others.
      split_and!; [done | | done].
      unfold Order.get_type in Ety. by destruct (Order.type_ oi). }
  assert (Hcross : Order.type_ oi = MARKET
                   \/ OrderBook.crosses s (Order.price_ oi) k = true).
  { apply orb_true_iff in Ecross as [Ety | Ecr]; [left | by right].
    by apply OrderType_eqb_eq in Ety. }
  unfold OrderBook.process_matches_at_level.
  set (P := fun level' trades' st' =>
              Q trades' (OrderBook.set_opposite s st' ((k, level') :: others))
              /\ own s st' = own s st
              /\ exists oi', OrderBook.heap_ st' !! i = Some oi'
                             /\ Order.type_ oi' = Order.type_ oi
                             /\ Order.price_ oi' = Order.price_ oi).
  destruct (process_matches_loop_rule (own s st) others k P) with
    (fuel := S (length (PriceLevel.orders_ level))) (level := level)
    (trades := trades) (st := st)
    as (level' & trades' & st' & Hrun & (HQ' & Hown' & Hty') & Hexit).
  - (* P entails the invariant *)
    intros lv tr st0 (HQ0 & Hown0 & _).
    pose proof (Q_matching _ _ HQ0) as Hm0.
    by rewrite heap_set_opposite, own_set_opposite, opposite_set_opposite,
      order_map_set_opposite, Hown0 in Hm0.
  - (* P is preserved by a match *)
    intros lv tr st0 r q' oi0 orr (HQ0 & Hown0 & oi' & Hoi' & Hty & Hpr)
      Hq Hi0 Hr Hli Hlr Hne Hside Hprice.
    assert (oi' = oi0) as -> by congruence.
    split_and!.
    + rewrite <- (match_state_set_opposite st0 ((k, lv) :: others)).
      rewrite <- (match_trade_set_opposite st0 ((k, lv) :: others)).
      apply (Q_match tr _ k lv others r q' oi0 orr); try done.
      * by rewrite opposite_set_opposite.
      * by rewrite heap_set_opposite.
      * by rewrite heap_set_opposite.
      * by rewrite Hty, Hpr.
    + by rewrite own_match_state.
    + exists (filled_by oi0 (match_qty oi0 orr)). split_and!; [|done..].
      simpl. apply match_heap_incoming; [|done].
      eapply lookup_lt_Some; eauto.
  - (* P holds on entry *)
    unfold P. rewrite <- Hopp, set_opposite_id. split_and!; [done..|].
    exists oi. done.
  - lia.
  - rewrite Hrun. cbn [bind].
    destruct (PriceLevel.empty level') eqn:Eempty.
    + apply PriceLevel_empty_nil in Eempty. apply IH.
      * rewrite <- (set_opposite_twice st' ((k, level') :: others)).
        apply (Q_erase _ _ k level' others); [done | | done].
        by rewrite opposite_set_opposite.
      * rewrite opposite_set_opposite. simpl in Hlen. lia.
    + destruct Hexit as [Hnil | (oi' & Hoi' & Hrem')];
        [by apply PriceLevel_empty_nil in Hnil; congruence|].
      exists trades', (OrderBook.set_opposite s st' ((k, level') :: others)).
      split_and!; [| done |].
      * destruct fuel as [|fuel']; cbn [OrderBook.match_loop];
          rewrite opposite_set_opposite, heap_set_opposite,
            (deref_Some _ _ _ Hoi'); cbn [bind]; by rewrite Hrem'.
      * exists oi'. rewrite heap_set_opposite. auto.
Qed.

End Outer.

End Loops.

(** * What the matching walk maintains *)

Lemma volume_app t1 t2 : volume (t1 ++ t2) = volume t1 + volume t2.
Proof. unfold volume. induction t1 as [|t t1 IH]; simpl; lia. Qed.

Lemma volume_snoc trades t : volume (trades ++ [t]) = volume trades + Trade.quantity t.
Proof. rewrite volume_app. unfold volume. simpl. lia. Qed.

Lemma expected_fills_exhausted s ty limit id remaining book :
  remaining <= 0 -> expected_fills s ty limit id remaining book = [].
Proof.
  intros Hr. destruct book as [|[k o] book]; simpl; [done|].
  destruct (remaining >? 0) eqn:E; [lia | done].
Qed.

Lemma expected_fills_apart s limit id remaining book :
  Forall (fun ko => OrderBook.crosses s limit ko.1 = false) book ->
  expected_fills s LIMIT limit id remaining book = [].
Proof.
  intros Hall. destruct book as [|[k o] book]; simpl; [done|].
  apply Forall_cons in Hall as [Hk _]. simpl in Hk. rewrite Hk.
  by rewrite andb_false_r.
Qed.

Lemma level_view_agree h h' k q :
  agree_on q h h' -> level_view h' k q = level_view h k q.
Proof.
  induction q as [|p q IH]; intros Ha; simpl; [done|].
  rewrite IH by eauto using agree_on_cons.
  assert (deref h' p = deref h p) as ->; [|done].
  unfold deref. destruct p as [a|]; [|done].
  rewrite (Ha a); [done | left].
Qed.

Lemma book_view_agree h h' m :
  agree_on (resting m) h h' -> book_view h' m = book_view h m.
Proof.
  induction m as [|[k lv] m IH]; simpl; [done|].
  intros [H1 H2]%agree_on_app.
  by rewrite IH, (level_view_agree h h').
Qed.

Lemma level_view_keys h k q : Forall (fun ko => ko.1 = k) (level_view h k q).
Proof.
  induction q as [|p q IH]; simpl; [constructor|].
  destruct (deref h p); [by constructor | done].
Qed.

Lemma matching_erase_head s i h own k level others index :
  matching s i h own ((k, level) :: others) index ->
  PriceLevel.orders_ level = [] ->
  matching s i h own others index.
Proof.
  intros [[Hown Hopp Hso Hsp Hap Hnd Hidx] Hfresh Hinc] Hq.
  simpl in Hnd, Hfresh, Hidx. rewrite Hq in Hnd, Hfresh, Hidx.
  split; [split|..]; try done.
  - by apply Forall_cons in Hopp as [_ ?].
  - by apply (keys_sorted_cons_inv (other s)) in Hsp as [_ ?].
  - intros x y Hx Hy. apply Hap; [done|]. unfold keys. simpl. by right.
Qed.

Section Matched.

Variable clock : nat -> Z.
Variable s : Side.
Variable i : nat.
Variable oi0 : Order.t.
Variable st0 : OrderBook.t.

Hypothesis fresh0 : Some i ∉ resting (OrderBook.opposite s st0).
Hypothesis nodup0 : NoDup (resting (OrderBook.opposite s st0)).

Lemma matched_erase trades st k level others :
  matched clock s i oi0 st0 trades st ->
  OrderBook.opposite s st = (k, level) :: others ->
  PriceLevel.orders_ level = [] ->
  matched clock s i oi0 st0 trades (OrderBook.set_opposite s st others).
Proof.
  intros [Hm Hown Hno Htt Htv Hlen Hnt Hcr Hids Hidx Hinc Htouch Hframe]
    Hopp Hq.
  assert (Hrest : resting others = resting (OrderBook.opposite s st))
    by (rewrite Hopp; simpl; by rewrite Hq).
  assert (Hview : book_view (OrderBook.heap_ st) others
                  = book_view (OrderBook.heap_ st) (OrderBook.opposite s st))
    by (rewrite Hopp; simpl; by rewrite Hq).
  split; rewrite ?heap_set_opposite, ?own_set_opposite,
    ?opposite_set_opposite, ?order_map_set_opposite; try done.
  - rewrite Hopp in Hm. by eapply matching_erase_head.
  - by destruct s.
  - by destruct s.
  - by destruct s.
  - by destruct s.
  - by destruct s.
  - by rewrite Hrest, Hview.
Qed.

Lemma matched_match trades st k level others r q' oi orr :
  matched clock s i oi0 st0 trades st ->
  OrderBook.opposite s st = (k, level) :: others ->
  PriceLevel.orders_ level = Some r :: q' ->
  OrderBook.heap_ st !! i = Some oi ->
  OrderBook.heap_ st !! r = Some orr ->
  live oi -> live orr -> i <> r ->
  Order.side_ orr = other s -> Order.price_ orr = k ->
  Order.type_ oi = MARKET \/ OrderBook.crosses s (Order.price_ oi) k = true ->
  matched clock s i oi0 st0 (trades ++ [match_trade clock st oi orr k])
    (OrderBook.set_opposite s (match_state st i oi r orr)
       ((k, match_level level oi orr r q') :: others)).
Proof.
  intros [Hm Hown Hno Htt Htv Hlen Hnt Hcr Hids Hidx Hinc Htouch Hframe]
    Hopp Hq Hi Hr Hli Hlr Hne Hside Hprice Hcross.
  destruct Hinc as (oi' & Hoi' & Hsame & Hfilled & Hfills & Hunt).
  assert (oi' = oi) as -> by congruence. clear Hoi'.
  rewrite Hopp in Hm.
  destruct (matching_front _ _ _ _ _ _ _ _ _ _ Hm Hq)
    as (r' & orr' & [= <-] & _ & _ & _ & _ & _ & Hrq & Hrown & Hrothers).
  destruct (mt_incoming _ _ _ _ _ _ Hm) as (oi' & Hoi' & _ & Hsi).
  assert (oi' = oi) as -> by congruence. clear Hoi'.
  pose proof (mt_fresh _ _ _ _ _ _ Hm) as Hfresh.
  simpl in Hfresh. rewrite Hq in Hfresh.
  assert (Hiq : Some i ∉ q').
  { intros ?. apply Hfresh. apply elem_of_app. right.
    apply elem_of_app. left. by right. }
  assert (Hiothers : Some i ∉ resting others).
  { intros ?. apply Hfresh. apply elem_of_app. right.
    apply elem_of_app. by right. }
  destruct (live_remaining _ Hli) as [Hremi Hposi].
  destruct (live_remaining _ Hlr) as [Hremr Hposr].
  destruct (match_qty_live _ _ Hli Hlr) as (Hq0 & Hqi & Hqr & Hqor).
  destruct (Hunt Hposi) as [Hdrop Hagree].
  assert (Hview : book_view (OrderBook.heap_ st) (OrderBook.opposite s st)
                  = (k, orr) :: (level_view (OrderBook.heap_ st) k q'
                                 ++ book_view (OrderBook.heap_ st) others)).
  { rewrite Hopp. cbn [book_view]. rewrite Hq. cbn [level_view].
    by rewrite (deref_Some _ _ _ Hr). }
  rewrite Hview in Hfills. cbn [expected_fills] in Hfills.
  rewrite Hopp in Hdrop, Hagree. simpl in Hdrop, Hagree.
  rewrite Hq in Hdrop, Hagree. simpl in Hdrop, Hagree.
  set (n := length trades) in *.
  assert (Hrn : resting (OrderBook.opposite s st0) !! n = Some (Some r)).
  { pose proof (lookup_drop (resting (OrderBook.opposite s st0)) n 0) as Hl.
    rewrite Nat.add_0_r, <- Hdrop in Hl. exact (eq_sym Hl). }
  assert (Hr0 : OrderBook.heap_ st0 !! r = Some orr)
    by (rewrite <- Hr; symmetry; apply Hagree; left).
  assert (Hrin : Some r ∈ resting (OrderBook.opposite s st0))
    by (eapply list_elem_of_lookup_2; eauto).
  assert (Hleni : (i < length (OrderBook.heap_ st))%nat)
    by (eapply lookup_lt_Some; eauto).
  assert (Hlenr : (r < length (OrderBook.heap_ st))%nat)
    by (eapply lookup_lt_Some; eauto).
  assert (Htail : q' ++ resting others
                  = drop (S n) (resting (OrderBook.opposite s st0))).
  { rewrite (drop_S _ _ _ Hrn) in Hdrop. by injection Hdrop. }
  assert (Hremi' : Order.get_remaining_qty (filled_by oi (match_qty oi orr))
                   = Order.get_remaining_qty oi - match_qty oi orr).
  { destruct Hli as (? & ? & _). rewrite filled_by_remaining; lia. }
  split; rewrite ?heap_set_opposite, ?own_set_opposite,
    ?opposite_set_opposite, ?order_map_set_opposite, ?own_match_state.
  - apply matching_step; done.
  - done.
  - by destruct s.
  - by destruct s.
  - by destruct s.
  - destruct s; simpl; by rewrite match_heap_length.
  - replace (OrderBook.next_trade_id_ _)
      with (u64 (OrderBook.next_trade_id_ st + 1)) by (by destruct s).
    rewrite Hnt, u64_add_l, length_app. f_equal. simpl. lia.
  - replace (OrderBook.clock_reads_ _)
      with (S (OrderBook.clock_reads_ st)) by (by destruct s).
    rewrite Hcr, length_app. simpl. lia.
  - intros j t [Hj | [Hge Hj]]%lookup_app_Some; [by apply Hids|].
    apply list_lookup_singleton_Some in Hj as [Hj0 <-].
    assert (j = n) as -> by (fold n in Hge; lia).
    unfold match_trade. simpl. by rewrite Hnt, Hcr.
  - simpl. destruct (match_full oi orr); [|done].
    etrans; [apply delete_subseteq | done].
  - exists (filled_by oi (match_qty oi orr)). split_and!.
    + simpl. by apply match_heap_incoming.
    + destruct Hsame as (? & ? & ? & ? & ? & ?).
      unfold same_order, filled_by. simpl. done.
    + rewrite volume_snoc. unfold filled_by. simpl. lia.
    + rewrite <- Hfills, map_app, <- app_assoc. f_equal.
      destruct Hsame as (Hid & _ & Hpr & _ & _ & Hty).
      assert (Hc : (Order.get_remaining_qty oi >? 0)
                   && (OrderType_eqb (Order.type_ oi0) MARKET
                       || OrderBook.crosses s (Order.price_ oi0) k) = true).
      { apply andb_true_iff. split; [lia|]. apply orb_true_iff.
        rewrite <- Hty, <- Hpr.
        destruct Hcross as [-> | ->]; [by left | by right]. }
      rewrite Hc. simpl. f_equal.
      * unfold trade_view, match_trade. simpl. rewrite Hsi, Hid.
        by destruct s.
      * rewrite Hremi'. fold (match_qty oi orr).
        destruct (match_full oi orr) eqn:Efull.
        -- rewrite (level_view_agree (OrderBook.heap_ st))
             by (by apply match_heap_agree).
           rewrite (book_view_agree (OrderBook.heap_ st))
             by (by apply match_heap_agree).
           done.
        -- pose proof (match_partial_exhausts _ _ Hli Hlr Efull) as Hex.
           rewrite Hremi' in Hex.
           rewrite !expected_fills_exhausted by lia. done.
    + rewrite Hremi'. intros Hpos.
      destruct (match_full oi orr) eqn:Efull.
      2:{ pose proof (match_partial_exhausts _ _ Hli Hlr Efull) as Hex.
          rewrite Hremi' in Hex. lia. }
      simpl. unfold match_level. simpl. rewrite Efull, length_app.
      simpl. rewrite Nat.add_1_r. split; [done|].
      intros a Ha. simpl.
      assert (Ha' : Some a ∈ Some r :: q' ++ resting others) by (by right).
      rewrite match_heap_other.
      * by apply Hagree.
      * intros ->. apply elem_of_app in Ha as [Ha | Ha]; done.
      * intros ->. apply elem_of_app in Ha as [Ha | Ha]; done.
  - intros j t [Hj | [Hge Hj]]%lookup_app_Some.
    + destruct (Htouch j t Hj) as (a & o0 & o & Hp & H0 & Ho & Hf).
      exists a, o0, o. split_and!; try done. simpl.
      rewrite match_heap_other; [done | |].
      * intros ->. apply fresh0. eapply list_elem_of_lookup_2; eauto.
      * intros ->. apply lookup_lt_Some in Hj. fold n in Hj.
        pose proof (NoDup_lookup _ _ _ _ nodup0 Hp Hrn). lia.
    + apply list_lookup_singleton_Some in Hj as [Hj0 <-].
      assert (j = n) as -> by (fold n in Hge; lia).
      exists r, orr, (filled_by orr (match_qty oi orr)).
      split_and!; try done.
      simpl. by apply match_heap_resting.
  - intros a Hai Hnotin. simpl. rewrite match_heap_other; [by apply Hframe | done |].
    by intros ->.
Qed.

End Matched.

(** * [match_order] *)

Lemma matched_start clock s i oi0 st0 :
  matching s i (OrderBook.heap_ st0) (own s st0) (OrderBook.opposite s st0)
    (OrderBook.order_map_ st0) ->
  OrderBook.heap_ st0 !! i = Some oi0 ->
  in_u64 (OrderBook.next_trade_id_ st0) ->
  matched clock s i oi0 st0 [] st0.
Proof.
  intros Hm Hi Htid. split; try done.
  - simpl. by rewrite Z.add_0_r, u64_small.
  - exists oi0. split_and!; try done.
    unfold volume. simpl. lia.
Qed.

Lemma match_order_spec clock s i oi0 st0 :
  matching s i (OrderBook.heap_ st0) (own s st0) (OrderBook.opposite s st0)
    (OrderBook.order_map_ st0) ->
  OrderBook.heap_ st0 !! i = Some oi0 ->
  in_u64 (OrderBook.next_trade_id_ st0) ->
  exists trades st,
    OrderBook.match_order clock (Some i) st0 = Ok (trades, st)
    /\ matched clock s i oi0 st0 trades st
    /\ match_done s i st.
Proof.
  intros Hm Hi Htid. unfold OrderBook.match_order.
  rewrite (deref_Some _ _ _ Hi). cbn [bind].
  destruct (mt_incoming _ _ _ _ _ _ Hm) as (oi' & Hoi' & _ & Hs).
  assert (oi' = oi0) as -> by congruence. unfold Order.get_side. rewrite Hs.
  assert (Hfresh : Some i ∉ resting (OrderBook.opposite s st0)).
  { intros Hin. apply (mt_fresh _ _ _ _ _ _ Hm), elem_of_app. by right. }
  assert (Hnd : NoDup (resting (OrderBook.opposite s st0))).
  { pose proof (ok_nodup _ _ _ _ _ (mt_book _ _ _ _ _ _ Hm)) as H.
    by apply NoDup_app in H as (_ & _ & ?). }
  apply (match_loop_rule clock s i (matched clock s i oi0 st0)).
  - intros trades st. apply md_matching.
  - intros. by apply matched_match.
  - intros. by eapply matched_erase.
  - by apply matched_start.
  - lia.
Qed.

(** * The invariant of the book, told from either side *)

Lemma book_ok_flip s h own opp index :
  book_ok s h own opp index -> book_ok (other s) h opp own index.
Proof.
  intros [Hown Hopp Hso Hsp Hap Hnd Hidx]. split; try done.
  - by rewrite other_involutive.
  - by rewrite other_involutive.
  - intros x y Hx Hy. apply apart_other. auto.
  - revert Hnd. apply NoDup_Permutation_proper, app_Permutation_comm.
  - intros id p Hp. destruct (Hidx _ _ Hp) as [Hin Hex]. split; [|done].
    apply elem_of_app. apply elem_of_app in Hin. tauto.
Qed.

Lemma wf_book_ok s st :
  wf st <->
  book_ok s (OrderBook.heap_ st) (own s st) (OrderBook.opposite s st)
    (OrderBook.order_map_ st).
Proof.
  unfold wf. destruct s; simpl; [done|].
  split; intros H; by apply book_ok_flip in H.
Qed.

Lemma book_ok_agree s h h' own opp index :
  agree_on (resting own ++ resting opp) h h' ->
  book_ok s h own opp index -> book_ok s h' own opp index.
Proof.
  intros [Ha1 Ha2]%agree_on_app [Hown Hopp Hso Hsp Hap Hnd Hidx].
  split; try done.
  - by apply (ladder_ok_agree h).
  - by apply (ladder_ok_agree h).
  - intros id p Hp. destruct (Hidx _ _ Hp) as (Hin & a & o & -> & Ho & Hid).
    split; [done|]. exists a, o. split_and!; [done | | done].
    rewrite <- Ho. apply elem_of_app in Hin as [Hin | Hin]; auto.
Qed.

(** Every queued pointer is allocated. *)
Lemma book_ok_valid s h own opp index a :
  book_ok s h own opp index ->
  Some a ∈ resting own ++ resting opp -> (a < length h)%nat.
Proof.
  intros Hb Hin.
  assert (exists s' k, rests_at h s' k (Some a)) as (s' & k & Hr).
  { apply elem_of_app in Hin as [Hin | Hin];
      apply elem_of_resting in Hin as (kl & Hkl & Hin).
    - pose proof (ok_own _ _ _ _ _ Hb) as H. rewrite Forall_forall in H.
      destruct (H _ Hkl) as (_ & Hq & _). rewrite Forall_forall in Hq. eauto.
    - pose proof (ok_opp _ _ _ _ _ Hb) as H. rewrite Forall_forall in H.
      destruct (H _ Hkl) as (_ & Hq & _). rewrite Forall_forall in Hq. eauto. }
  destruct Hr as (a' & o & [= <-] & Ho & _). by eapply lookup_lt_Some.
Qed.

Lemma book_ok_alloc s h own opp index o :
  book_ok s h own opp index -> book_ok s (h ++ [o]) own opp index.
Proof.
  intros Hb. apply (book_ok_agree s h); [|done].
  intros a Ha. apply lookup_app_l. by eapply book_ok_valid.
Qed.

(** * Resting an order *)

Section Rest.

Variable s : Side.

Local Abbreviation before := (before_of s).

Lemma map_find_mid k v ma mb :
  Forall (fun x => before x.1 k = true) ma ->
  map_find before k (ma ++ (k, v) :: mb) = Some v.
Proof.
  induction 1 as [|[k' v'] ma Hk _ IH]; simpl.
  - by rewrite before_of_irrefl.
  - simpl in Hk. by rewrite Hk.
Qed.

Lemma map_assign_mid k v v' ma mb :
  Forall (fun x => before x.1 k = true) ma ->
  map_assign before k v' (ma ++ (k, v) :: mb) = ma ++ (k, v') :: mb.
Proof.
  induction 1 as [|[k' v''] ma Hk _ IH]; simpl.
  - by rewrite before_of_irrefl.
  - simpl in Hk. by rewrite Hk, IH.
Qed.

Lemma map_erase_mid k v ma mb :
  Forall (fun x => before x.1 k = true) ma ->
  map_erase before k (ma ++ (k, v) :: mb) = ma ++ mb.
Proof.
  induction 1 as [|[k' v''] ma Hk _ IH]; simpl.
  - by rewrite before_of_irrefl.
  - simpl in Hk. by rewrite Hk, IH.
Qed.

(** The level in which an order rests: the level of its price, or a new
    one. *)
Lemma rest_order_spec price i h oi own :
  h !! i = Some oi ->
  exists ma mb lv0,
    Forall (fun x => before x.1 price = true) ma
    /\ ((map_find before price own = None /\ own = ma ++ mb
         /\ lv0 = PriceLevel.make price
         /\ match mb with
            | [] => True
            | x :: _ => before price x.1 = true
            end)
        \/ (map_find before price own = Some lv0
            /\ own = ma ++ (price, lv0) :: mb))
    /\ OrderBook.rest_order before price (Some i) h own
       = Ok (ma ++ (price,
                    PriceLevel.mk (PriceLevel.price_ lv0)
                      (u64 (PriceLevel.total_quantity_ lv0
                            + Order.get_remaining_qty oi))
                      (PriceLevel.orders_ lv0 ++ [Some i])) :: mb).
Proof.
  intros Hi. unfold OrderBook.rest_order.
  destruct (ladder_split s price own) as (ma & mb & Hma & H).
  destruct H as [(Hf & Hown & Ha & _ & Hh) | (lv & Hf & Hown & Ha & _)].
  - exists ma, mb, (PriceLevel.make price). split; [done|]. split; [by left|].
    rewrite Hf, Ha. unfold map_subscript. rewrite map_find_mid by done.
    rewrite (add_order_valid _ _ _ _ Hi). cbn [bind].
    by rewrite map_assign_mid.
  - exists ma, mb, lv. split; [done|]. split; [by right|].
    rewrite Hf. unfold map_subscript. rewrite Hf.
    rewrite (add_order_valid _ _ _ _ Hi). cbn [bind]. by rewrite Ha.
Qed.

Lemma book_ok_rest h own opp index i oi own' :
  book_ok s h own opp index ->
  Some i ∉ resting own ++ resting opp ->
  h !! i = Some oi -> live oi -> Order.side_ oi = s ->
  (forall y, y ∈ keys opp -> apart s (Order.price_ oi) y) ->
  OrderBook.rest_order before (Order.price_ oi) (Some i) h own = Ok own' ->
  book_ok s h own' opp (<[Order.order_id_ oi := Some i]> index)
  /\ resting own' ≡ₚ resting own ++ [Some i].
Proof.
  intros [Hown Hopp Hso Hsp Hap Hnd Hidx] Hfresh Hi Hlive Hside Hapart.
  destruct (rest_order_spec (Order.price_ oi) i h oi own Hi)
    as (ma & mb & lv0 & Hma & Hcase & ->).
  intros [= <-].
  set (lv' := PriceLevel.mk _ _ _).
  assert (Hlv0 : level_ok h s (Order.price_ oi, lv0)
                 /\ resting own
                    = resting ma ++ PriceLevel.orders_ lv0 ++ resting mb
                 /\ Forall (level_ok h s) ma /\ Forall (level_ok h s) mb
                 /\ keys_sorted before (ma ++ (Order.price_ oi, lv') :: mb)
                 /\ forall x, x ∈ keys (ma ++ (Order.price_ oi, lv') :: mb) ->
                              x = Order.price_ oi \/ x ∈ keys own).
  { destruct Hcase as [(Hf & -> & -> & Hh) | (Hf & ->)].
    - apply Forall_app in Hown as [H1 H2]. repeat apply conj; try done.
      + by rewrite resting_app.
      + apply keys_sorted_app_inv in Hso as (Hs1 & Hs2 & Hs3).
        apply keys_sorted_mid. split_and!; try done.
        destruct mb as [|x mb]; [constructor|].
        apply (keys_sorted_cons_inv s) in Hs2 as (Hs2 & _).
        constructor; [done|].
        eapply Forall_impl; [exact Hs2|]. simpl. intros y Hy.
        eauto using before_of_trans.
      + intros x. unfold keys. rewrite !fmap_app, fmap_cons, !elem_of_app.
        rewrite elem_of_cons. simpl. tauto.
    - apply Forall_app in Hown as [H1 H2].
      apply Forall_cons in H2 as [H2 H3].
      repeat apply conj; try done; try apply H2.
      + by rewrite resting_app.
      + apply keys_sorted_mid in Hso. by apply keys_sorted_mid.
      + intros x. unfold keys.
        rewrite !fmap_app, !fmap_cons, !elem_of_app, !elem_of_cons. simpl.
        tauto. }
  destruct Hlv0 as ((Hp0 & Hq0 & Ht0) & Hrest & Hma_ok & Hmb_ok & Hsorted
                    & Hkeys).
  simpl in Hp0, Hq0, Ht0.
  assert (Hperm : resting (ma ++ (Order.price_ oi, lv') :: mb)
                  ≡ₚ resting own ++ [Some i]).
  { rewrite resting_app, Hrest. simpl. rewrite <- !app_assoc.
    apply Permutation_app_head. apply Permutation_app_head.
    apply app_Permutation_comm. }
  split; [|done]. split; try done.
  - apply Forall_app. split; [done|]. apply Forall_cons. split; [|done].
    split_and!; simpl; [done | |].
    + apply Forall_app. split; [done|]. constructor; [|constructor].
      exists i, oi. done.
    + rewrite sum_remaining_app, Ht0, u64_add_l. simpl.
      rewrite (remaining_at_valid _ _ _ Hi). f_equal. lia.
  - intros x y Hx Hy. destruct (Hkeys _ Hx) as [-> | Hx']; auto.
  - rewrite Hperm.
    assert (resting own ++ [Some i] ≡ₚ Some i :: resting own) as ->
      by (symmetry; apply Permutation_cons_append).
    simpl. apply NoDup_cons. split; [done | done].
  - intros id p Hlook.
    apply lookup_insert_Some in Hlook as [[<- <-] | [Hne Hlook]].
    + split; [|by eauto].
      apply elem_of_app. left. rewrite Hperm. apply elem_of_app. right. left.
    + destruct (Hidx _ _ Hlook) as [Hin Hex]. split; [|done].
      apply elem_of_app in Hin as [Hin | Hin]; apply elem_of_app;
        [left | by right].
      rewrite Hperm. apply elem_of_app. by left.
Qed.

End Rest.

(** * [add_order] and [add_market_order] *)

Lemma rejected_dec price quantity type :
  rejected price quantity type
  \/ (quantity <> 0 /\ 0 <= price /\ (type = LIMIT -> 0 < price)).
Proof.
  unfold rejected.
  destruct (Z.eq_dec quantity 0); [by left; left|].
  destruct (Z_lt_dec price 0); [by left; right; left|].
  destruct type.
  - right. split_and!; [done | lia | done].
  - destruct (Z_le_dec price 0); [by left; right; right|].
    right. split_and!; [done | lia | lia].
Qed.

Lemma not_rejected price quantity type :
  ~ rejected price quantity type <->
  quantity <> 0 /\ 0 <= price /\ (type = LIMIT -> 0 < price).
Proof.
  split.
  - intros H. by destruct (rejected_dec price quantity type).
  - unfold rejected. intros (H1 & H2 & H3) [? | [? | [-> ?]]]; try lia.
    specialize (H3 eq_refl). lia.
Qed.

Lemma fold_volume trades v :
  in_u64 v ->
  fold_left (fun v t => u64 (v + Trade.quantity t)) trades v
  = u64 (v + volume trades).
Proof.
  revert v. induction trades as [|t trades IH]; intros v Hv; simpl.
  - unfold volume. simpl. by rewrite Z.add_0_r, u64_small.
  - rewrite IH by apply u64_range. rewrite u64_add_l.
    unfold volume. simpl. f_equal. lia.
Qed.

Section AddOrder.

Variable clock : nat -> Z.

Lemma update_statistics_spec trades st :
  OrderBook.update_statistics trades st
  = OrderBook.mk (OrderBook.bids_ st) (OrderBook.asks_ st)
      (OrderBook.order_map_ st) (OrderBook.next_order_id_ st)
      (OrderBook.next_trade_id_ st)
      (u64 (OrderBook.total_trades_ st + Z.of_nat (length trades)))
      (fold_left (fun v t => u64 (v + Trade.quantity t)) trades
         (OrderBook.total_volume_ st))
      (OrderBook.heap_ st) (OrderBook.clock_reads_ st).
Proof.
  unfold OrderBook.update_statistics.
  generalize (u64 (OrderBook.total_trades_ st + Z.of_nat (length trades))).
  intros n. destruct st as [b a m no nt tt tv h c]. simpl.
  unfold OrderBook.set_total_trades. simpl.
  revert tv. induction trades as [|t trades IH]; intros tv; simpl; [done|].
  unfold OrderBook.set_total_volume at 2. simpl. apply IH.
Qed.

Lemma make_shared_Order_spec price quantity side type st :
  ~ rejected price quantity type ->
  OrderBook.make_shared_Order clock price quantity side type st
  = Ok (Some (length (OrderBook.heap_ st)),
        allocated clock price quantity side type st).
Proof.
  intros (Hq & Hp & Ht)%not_rejected.
  unfold OrderBook.make_shared_Order, OrderBook.get_timestamp, Order.make.
  simpl. destruct (quantity =? 0) eqn:E1; [lia|].
  destruct (price <? 0) eqn:E2; [lia|].
  destruct (OrderType_eqb type LIMIT && (price <=? 0)) eqn:E3.
  { apply andb_true_iff in E3 as [E3 E4].
    apply OrderType_eqb_eq in E3. specialize (Ht E3). lia. }
  reflexivity.
Qed.

Lemma allocated_matching price quantity side type st :
  wf st -> in_u64 quantity -> quantity <> 0 ->
  matching side (length (OrderBook.heap_ st))
    (OrderBook.heap_ (allocated clock price quantity side type st))
    (own side st) (OrderBook.opposite side st) (OrderBook.order_map_ st).
Proof.
  intros Hwf Hq Hq0. apply (wf_book_ok side) in Hwf. split.
  - simpl. by apply book_ok_alloc.
  - intros Hin. pose proof (book_ok_valid _ _ _ _ _ _ Hwf Hin). lia.
  - exists (new_order clock price quantity side type st). split_and!.
    + simpl. by apply list_lookup_middle.
    + unfold incoming_ok, new_order, in_u64 in *. simpl.
      split_and!; try lia; [by left | done].
    + done.
Qed.

(** The best opposite price that an unfilled limit does not cross keeps
    it apart from every opposite price. *)
Lemma match_done_apart side i st oi :
  keys_sorted (before_of (other side)) (OrderBook.opposite side st) ->
  match_done side i st ->
  OrderBook.heap_ st !! i = Some oi ->
  0 < Order.get_remaining_qty oi ->
  forall y, y ∈ keys (OrderBook.opposite side st) ->
            apart side (Order.price_ oi) y.
Proof.
  intros Hsorted (oi' & Hoi' & Hdone) Hi Hrem y Hy.
  assert (oi' = oi) as -> by congruence.
  destruct Hdone as [Hnil | [Hzero | (k & lv & others & Hopp & _ & Hcr)]].
  - rewrite Hnil in Hy. by apply elem_of_nil in Hy.
  - lia.
  - apply crosses_apart in Hcr. rewrite Hopp in Hy, Hsorted.
    apply (keys_sorted_cons_inv (other side)) in Hsorted as [Hall _].
    unfold keys in Hy. rewrite fmap_cons in Hy.
    apply elem_of_cons in Hy as [-> | Hy]; [done|].
    apply list_elem_of_fmap in Hy as (x & -> & Hx).
    rewrite Forall_forall in Hall. specialize (Hall _ Hx). simpl in Hall.
    by eapply apart_after.
Qed.

Lemma own_set_own side st m : own side (set_own side st m) = m.
Proof. by destruct side. Qed.

Lemma opposite_set_own side st m :
  OrderBook.opposite side (set_own side st m) = OrderBook.opposite side st.
Proof. by destruct side. Qed.

Lemma add_order_body_spec price quantity side type st :
  wf st -> counters_ok st -> in_u64 quantity ->
  ~ rejected price quantity type ->
  exists trades st2 oi st3,
    OrderBook.match_order clock (Some (length (OrderBook.heap_ st)))
      (allocated clock price quantity side type st) = Ok (trades, st2)
    /\ matched clock side (length (OrderBook.heap_ st))
         (new_order clock price quantity side type st)
         (allocated clock price quantity side type st) trades st2
    /\ match_done side (length (OrderBook.heap_ st)) st2
    /\ OrderBook.heap_ st2 !! length (OrderBook.heap_ st) = Some oi
    /\ ((type = LIMIT /\ 0 < Order.get_remaining_qty oi
         /\ exists own',
              OrderBook.rest_order (before_of side) price
                (Some (length (OrderBook.heap_ st))) (OrderBook.heap_ st2)
                (own side st2) = Ok own'
              /\ st3 = set_own side
                         (OrderBook.set_order_map st2
                            (<[OrderBook.next_order_id_ st
                               := Some (length (OrderBook.heap_ st))]>
                               (OrderBook.order_map_ st2))) own')
        \/ ((type = MARKET \/ Order.get_remaining_qty oi = 0) /\ st3 = st2))
    /\ wf st3
    /\ OrderBook.add_order_body clock price quantity side type st
       = Ok (OrderBook.next_order_id_ st, trades,
             OrderBook.update_statistics trades st3).
Proof.
  intros Hwf Hc Hq Hnr.
  pose proof Hnr as (Hq0 & Hp & Ht)%not_rejected.
  set (i := length (OrderBook.heap_ st)).
  set (oi0 := new_order clock price quantity side type st).
  set (st0 := allocated clock price quantity side type st).
  assert (Hi0 : OrderBook.heap_ st0 !! i = Some oi0)
    by (simpl; by apply list_lookup_middle).
  destruct (match_order_spec clock side i oi0 st0)
    as (trades & st2 & Hmatch & Hmd & Hdone).
  { replace (own side st0) with (own side st) by (by destruct side).
    replace (OrderBook.opposite side st0) with (OrderBook.opposite side st)
      by (by destruct side).
    exact (allocated_matching price quantity side type st Hwf Hq Hq0). }
  { done. }
  { apply Hc. }
  exists trades, st2.
  destruct (md_incoming _ _ _ _ _ _ _ Hmd)
    as (oi & Hi & Hsame & _).
  pose proof (md_matching _ _ _ _ _ _ _ Hmd) as Hm.
  destruct (mt_incoming _ _ _ _ _ _ Hm) as (oi' & Hoi' & Hinc & Hside).
  assert (oi' = oi) as -> by congruence. clear Hoi'.
  destruct Hsame as (Hid & _ & Hpr & _ & _ & Hty).
  simpl in Hid, Hpr, Hty.
  destruct (incoming_remaining _ Hinc) as [_ Hrem0].
  exists oi.
  assert (Hbody : forall st3,
    (if (Order.get_remaining_qty oi >? 0) && OrderType_eqb type LIMIT
        && negb (OrderStatus_eqb (Order.get_status oi) CANCELLED)
     then
       match side with
       | BUY =>
           do m <- OrderBook.rest_order greater price (Some i)
                     (OrderBook.heap_ st2) (OrderBook.bids_ st2) ;;
           Ok (OrderBook.set_bids
                 (OrderBook.set_order_map st2
                    (<[OrderBook.next_order_id_ st := Some i]>
                       (OrderBook.order_map_ st2))) m)
       | SELL =>
           do m <- OrderBook.rest_order less price (Some i)
                     (OrderBook.heap_ st2) (OrderBook.asks_ st2) ;;
           Ok (OrderBook.set_asks
                 (OrderBook.set_order_map st2
                    (<[OrderBook.next_order_id_ st := Some i]>
                       (OrderBook.order_map_ st2))) m)
       end
     else Ok st2) = Ok st3 ->
    OrderBook.add_order_body clock price quantity side type st
    = Ok (OrderBook.next_order_id_ st, trades,
          OrderBook.update_statistics trades st3)).
  { intros st3 H3. unfold OrderBook.add_order_body.
    destruct (quantity =? 0) eqn:E1; [lia|].
    destruct (price <? 0) eqn:E2; [lia|].
    destruct (OrderType_eqb type LIMIT && (price <=? 0)) eqn:E3.
    { apply andb_true_iff in E3 as [E3 E4].
      apply OrderType_eqb_eq in E3. specialize (Ht E3). lia. }
    rewrite make_shared_Order_spec by done. cbn [bind].
    fold i st0. rewrite (deref_Some _ _ _ Hi0). cbn [bind].
    rewrite Hmatch. cbn [bind]. rewrite (deref_Some _ _ _ Hi).
    cbn [bind]. cbn [OrderBook.heap_ OrderBook.set_order_map
      OrderBook.bids_ OrderBook.asks_ OrderBook.order_map_].
    replace (Order.get_id oi0) with (OrderBook.next_order_id_ st) by done.
    rewrite H3. done. }
  assert (Hnc : negb (OrderStatus_eqb (Order.get_status oi) CANCELLED) = true).
  { destruct Hinc as (_ & _ & _ & Hnc). unfold Order.get_status.
    by destruct (Order.status_ oi). }
  rewrite Hnc, andb_true_r in Hbody.
  assert (Hwf2 : wf st2)
    by (apply (wf_book_ok side); apply (mt_book _ _ _ _ _ _ Hm)).
  destruct (Order.get_remaining_qty oi >? 0) eqn:Erem;
    [destruct type|]; simpl in Hbody.
  - (* a market order *)
    exists st2. split_and!; try done.
    + right. split; [by left | done].
    + by apply Hbody.
  - (* a limit order with something left *)
    assert (Hlive : live oi) by (apply live_incoming; [done | lia]).
    assert (Hi' : OrderBook.heap_ st2 !! i = Some oi) by done.
    destruct (rest_order_spec side price i (OrderBook.heap_ st2) oi
                (own side st2) Hi')
      as (ma & mb & lv0 & _ & _ & Hrest).
    set (own' := ma ++ _ :: mb) in Hrest.
    exists (set_own side
              (OrderBook.set_order_map st2
                 (<[OrderBook.next_order_id_ st := Some i]>
                    (OrderBook.order_map_ st2))) own').
    split_and!; try done.
    + left. split_and!; [done | lia |]. exists own'. done.
    + apply (wf_book_ok side).
      rewrite own_set_own, opposite_set_own.
      replace (OrderBook.heap_ (set_own side _ own'))
        with (OrderBook.heap_ st2) by (by destruct side).
      replace (OrderBook.order_map_ (set_own side _ own'))
        with (<[Order.order_id_ oi := Some i]> (OrderBook.order_map_ st2))
        by (rewrite Hid; by destruct side).
      rewrite <- Hpr in Hrest.
      eapply (book_ok_rest side); try done.
      * apply (mt_book _ _ _ _ _ _ Hm).
      * apply (mt_fresh _ _ _ _ _ _ Hm).
      * apply (match_done_apart side i st2); try done; [|lia].
        apply (ok_opp_sorted _ _ _ _ _ (mt_book _ _ _ _ _ _ Hm)).
    + apply Hbody. destruct side; simpl in Hrest |- *; by rewrite Hrest.
  - (* nothing is left *)
    exists st2. split_and!; try done.
    + right. split; [right; lia | done].
    + by apply Hbody.
Qed.

End AddOrder.

(** * [cancel_order] *)

Lemma unrest_order_spec before h m k order_id lv :
  map_find before k m = Some lv ->
  Forall (valid_ptr h) (PriceLevel.orders_ lv) ->
  OrderBook.unrest_order before k order_id h m
  = Ok (existsb (has_id h order_id) (PriceLevel.orders_ lv),
        ladder_without before h order_id k m).
Proof.
  intros Hf Hv. unfold OrderBook.unrest_order, ladder_without. rewrite Hf.
  rewrite (remove_order_spec _ _ _ Hv). cbn [bind].
  fold (level_without h order_id lv).
  by destruct (PriceLevel.empty (level_without h order_id lv)).
Qed.

Lemma remaining_at_store h a o o' p :
  h !! a = Some o ->
  Order.get_remaining_qty o' = Order.get_remaining_qty o ->
  remaining_at (store h a o') p = remaining_at h p.
Proof.
  intros Ho Hrem. destruct p as [b|]; [|done].
  destruct (decide (b = a)) as [-> | Hne].
  - rewrite (remaining_at_valid _ _ _ Ho).
    rewrite (remaining_at_valid (store h a o') a o'); [done|].
    apply store_lookup_eq. by eapply lookup_lt_Some.
  - unfold remaining_at, deref. by rewrite store_lookup_ne.
Qed.

Lemma sum_remaining_store h a o o' q :
  h !! a = Some o ->
  Order.get_remaining_qty o' = Order.get_remaining_qty o ->
  sum_remaining (store h a o') q = sum_remaining h q.
Proof.
  intros Ho Hrem. induction q as [|p q IH]; simpl; [done|].
  by rewrite IH, (remaining_at_store h a o).
Qed.

Lemma has_id_store h a o o' order_id p :
  h !! a = Some o ->
  Order.order_id_ o' = Order.order_id_ o ->
  has_id (store h a o') order_id p = has_id h order_id p.
Proof.
  intros Ho Hid. destruct p as [b|]; [|done]. unfold has_id, deref.
  destruct (decide (b = a)) as [-> | Hne].
  - rewrite Ho, store_lookup_eq by (by eapply lookup_lt_Some).
    unfold Order.get_id. by rewrite Hid.
  - by rewrite store_lookup_ne.
Qed.

Lemma rests_at_valid h s k p : rests_at h s k p -> valid_ptr h p.
Proof.
  intros (a & o & -> & Ho & _). exists o. by apply deref_Some.
Qed.

Lemma keys_without s h order_id k m x :
  x ∈ keys (ladder_without (before_of s) h order_id k m) -> x ∈ keys m.
Proof.
  unfold ladder_without. destruct (ladder_split s k m) as (ma & mb & _ & H).
  destruct H as [(-> & _) | (lv & -> & -> & Ha & ->)]; [done|].
  unfold keys. destruct (PriceLevel.empty _).
  - rewrite !fmap_app, fmap_cons, !elem_of_app, elem_of_cons. tauto.
  - rewrite Ha, !fmap_app, !fmap_cons, !elem_of_app, !elem_of_cons. simpl.
    tauto.
Qed.

Lemma without_sorted s h order_id k m :
  keys_sorted (before_of s) m ->
  keys_sorted (before_of s) (ladder_without (before_of s) h order_id k m).
Proof.
  intros Hs. unfold ladder_without.
  destruct (map_find (before_of s) k m); [|done].
  destruct (PriceLevel.empty _);
    [by apply map_erase_sorted | by apply map_assign_sorted].
Qed.

(** The pointers that stay queued in the ladder. *)
Lemma resting_without s h order_id k m :
  keys_sorted (before_of s) m ->
  resting (ladder_without (before_of s) h order_id k m)
  = flat_map (fun kl =>
                if decide (kl.1 = k)
                then filter (fun p => has_id h order_id p = false)
                       (PriceLevel.orders_ kl.2)
                else PriceLevel.orders_ kl.2) m.
Proof.
  intros Hs. unfold ladder_without.
  destruct (ladder_split s k m) as (ma & mb & Hma & H).
  assert (Hsame : forall m' : ladder,
             Forall (fun x => x.1 <> k) m' ->
             flat_map (fun kl =>
                if decide (kl.1 = k)
                then filter (fun p => has_id h order_id p = false)
                       (PriceLevel.orders_ kl.2)
                else PriceLevel.orders_ kl.2) m' = resting m').
  { induction 1 as [|[k' lv'] m' Hk _ IH]; simpl; [done|].
    simpl in Hk. rewrite decide_False by done. by rewrite IH. }
  assert (Hma' : Forall (fun x : Z * PriceLevel.t => x.1 <> k) ma).
  { eapply Forall_impl; [exact Hma|]. simpl. intros x Hx Heq.
    by rewrite Heq, before_of_irrefl in Hx. }
  destruct H as [(-> & -> & _ & _ & Hh) | (lv & -> & -> & Ha & ->)].
  - rewrite Hsame; [done|]. apply Forall_app. split; [done|].
    apply keys_sorted_app_inv in Hs as (_ & Hs2 & _).
    destruct mb as [|x mb]; [constructor|].
    apply (keys_sorted_cons_inv s) in Hs2 as [Hall _].
    assert (Hx : x.1 <> k)
      by (intros Heq; rewrite Heq, before_of_irrefl in Hh; done).
    constructor; [done|].
    eapply Forall_impl; [exact Hall|]. simpl. intros y Hy Heq.
    rewrite Heq in Hy.
    pose proof (before_of_trans _ _ _ _ Hh Hy) as Hkk.
    by rewrite before_of_irrefl in Hkk.
  - apply keys_sorted_mid in Hs as (_ & _ & _ & Hmb & _).
    assert (Hmb' : Forall (fun x : Z * PriceLevel.t => x.1 <> k) mb).
    { eapply Forall_impl; [exact Hmb|]. simpl. intros x Hx Heq.
      by rewrite Heq, before_of_irrefl in Hx. }
    rewrite flat_map_app. simpl. rewrite decide_True by done.
    rewrite !Hsame by done.
    destruct (PriceLevel.empty _) eqn:E.
    + apply PriceLevel_empty_nil in E. simpl in E. rewrite E.
      by rewrite resting_app.
    + by rewrite Ha, resting_app.
Qed.

Lemma level_without_consistent h order_id lv :
  Forall (valid_ptr h) (PriceLevel.orders_ lv) ->
  level_consistent h lv ->
  level_consistent h (level_without h order_id lv).
Proof.
  intros Hv Hc.
  eapply (remove_order_consistent h lv order_id); [done | done |].
  by rewrite remove_order_spec.
Qed.

Lemma book_ok_cancel s h own opp index a o :
  book_ok s h own opp index ->
  index !! Order.order_id_ o = Some (Some a) ->
  h !! a = Some o -> Order.side_ o = s ->
  (exists lv,
     map_find (before_of s) (Order.price_ o) own = Some lv
     /\ Some a ∈ PriceLevel.orders_ lv
     /\ Forall (valid_ptr (store h a (cancelled o))) (PriceLevel.orders_ lv)
     /\ existsb (has_id (store h a (cancelled o)) (Order.order_id_ o))
          (PriceLevel.orders_ lv) = true)
  /\ live o
  /\ book_ok s (store h a (cancelled o))
       (ladder_without (before_of s) (store h a (cancelled o))
          (Order.order_id_ o) (Order.price_ o) own)
       opp (delete (Order.order_id_ o) index).
Proof.
  intros [Hown Hopp Hso Hsp Hap Hnd Hidx] Hlook Ho Hside.
  assert (Hnd0 := Hnd).
  set (id := Order.order_id_ o) in *.
  set (h' := store h a (cancelled o)).
  assert (Hlen : (a < length h)%nat) by (by eapply lookup_lt_Some).
  assert (Ha' : h' !! a = Some (cancelled o)) by (by apply store_lookup_eq).
  destruct (Hidx _ _ Hlook) as (Hin & _).
  (* the order is queued on its own side, at the level of its price *)
  assert (Hinown : Some a ∈ resting own).
  { apply elem_of_app in Hin as [Hin | Hin]; [done|]. exfalso.
    apply elem_of_resting in Hin as (kl & Hkl & Hin).
    rewrite Forall_forall in Hopp. destruct (Hopp _ Hkl) as (_ & Hq & _).
    rewrite Forall_forall in Hq.
    destruct (Hq _ Hin) as (a' & o' & [= <-] & Ho' & _ & Hs' & _).
    assert (o' = o) as -> by congruence.
    rewrite Hside in Hs'. by destruct s. }
  assert (Hnotopp : Some a ∉ resting opp).
  { intros Hin'. apply NoDup_app in Hnd as (_ & Hd & _). by apply (Hd (Some a)). }
  apply elem_of_resting in Hinown as ([k lv] & Hkl & Hinlv). simpl in Hinlv.
  pose proof Hown as Hown'. rewrite Forall_forall in Hown'.
  destruct (Hown' _ Hkl) as (Hlvp & Hlvq & Hlvt). simpl in Hlvp, Hlvq, Hlvt.
  pose proof Hlvq as Hlvq'. rewrite Forall_forall in Hlvq'.
  destruct (Hlvq' _ Hinlv) as (a' & o' & [= <-] & Ho' & Hlive & _ & Hprice).
  assert (o' = o) as -> by congruence. clear Ho'.
  assert (k = Order.price_ o) as -> by done. clear Hprice.
  pose proof (map_find_elem_of s _ _ _ Hso Hkl) as Hfind.
  assert (Hrem : Order.get_remaining_qty (cancelled o)
                 = Order.get_remaining_qty o) by done.
  assert (Hidc : Order.order_id_ (cancelled o) = Order.order_id_ o) by done.
  assert (Hvalid : Forall (valid_ptr h') (PriceLevel.orders_ lv)).
  { rewrite Forall_forall. intros p Hp.
    destruct (Hlvq' _ Hp) as (b & ob & -> & Hb & _).
    destruct (decide (b = a)) as [-> | Hne].
    - exists (cancelled o). by apply deref_Some.
    - exists ob. apply deref_Some. unfold h'. by rewrite store_lookup_ne. }
  assert (Hhas : has_id h' id (Some a) = true).
  { unfold has_id. rewrite (deref_Some _ _ _ Ha'). unfold Order.get_id.
    rewrite Hidc. apply Z.eqb_refl. }
  split; [|split; [done|]].
  { exists lv. split; [done|]. split; [done|]. split; [done|].
    apply existsb_exists. exists (Some a). split; [|done].
    by apply list_elem_of_In. }
  (* the ladder, around the level *)
  destruct (ladder_split s (Order.price_ o) own) as (ma & mb & Hma & H).
  destruct H as [(Hnone & _) | (lv' & Hf' & Hown_eq & Hassign & Herase)];
    [congruence|].
  assert (lv' = lv) as -> by congruence. clear Hf'.
  rewrite Hown_eq in Hnd, Hown, Hso.
  rewrite resting_app in Hnd. simpl in Hnd.
  apply Forall_app in Hown as [Hma_ok Hrest_ok].
  apply Forall_cons in Hrest_ok as [_ Hmb_ok].
  assert (Hnd' := Hnd).
  rewrite <- !app_assoc in Hnd'.
  apply NoDup_app in Hnd' as (_ & Hd1 & Hnd').
  apply NoDup_app in Hnd' as (Hndlv & Hd2 & _).
  assert (Hnotma : Some a ∉ resting ma).
  { intros Hin'. apply (Hd1 _ Hin'). apply elem_of_app. by left. }
  assert (Hnotmb : Some a ∉ resting mb).
  { intros Hin'. apply (Hd2 _ Hinlv). apply elem_of_app. by left. }
  set (lvw := level_without h' id lv).
  assert (Hlvw : level_ok h' s (Order.price_ o, lvw)).
  { split_and!; simpl.
    - done.
    - apply Forall_forall. intros p [Hp1 Hp2]%list_elem_of_filter.
      apply (rests_at_agree [p] h); [left | | by apply Hlvq'].
      intros b Hb. apply list_elem_of_singleton in Hb. subst p.
      unfold h'. apply store_lookup_ne. intros ->. congruence.
    - apply level_without_consistent; [done|].
      unfold level_consistent, h'. by rewrite (sum_remaining_store h a o). }
  assert (Hagree_ma : agree_on (resting ma) h h')
    by (by apply agree_on_store).
  assert (Hagree_mb : agree_on (resting mb) h h')
    by (by apply agree_on_store).
  assert (Hown'_eq :
    ladder_without (before_of s) h' id (Order.price_ o) own
    = if PriceLevel.empty lvw then ma ++ mb
      else ma ++ (Order.price_ o, lvw) :: mb).
  { unfold ladder_without. rewrite Hfind. fold lvw.
    by rewrite Herase, Hassign. }
  assert (Hsub : resting (ladder_without (before_of s) h' id
                            (Order.price_ o) own)
                 `sublist_of` resting own).
  { rewrite Hown'_eq, Hown_eq. rewrite resting_app. simpl.
    destruct (PriceLevel.empty lvw) eqn:E.
    - rewrite resting_app. apply sublist_app; [done|].
      by apply sublist_inserts_l.
    - rewrite resting_app. simpl. apply sublist_app; [done|].
      apply sublist_app; [|done]. apply sublist_filter. }
  rewrite <- Hown_eq in Hso.
  split.
  - rewrite Hown'_eq. destruct (PriceLevel.empty lvw).
    + apply Forall_app. split; by apply (ladder_ok_agree h).
    + apply Forall_app. split; [by apply (ladder_ok_agree h)|].
      apply Forall_cons. split; [done | by apply (ladder_ok_agree h)].
  - apply (ladder_ok_agree h); [by apply agree_on_store | done].
  - by apply without_sorted.
  - done.
  - intros x y Hx Hy. apply Hap; [|done]. by eapply keys_without.
  - eapply sublist_NoDup; [exact Hnd0|]. by apply sublist_app.
  - intros id' p [Hne Hl]%lookup_delete_Some.
    destruct (Hidx _ _ Hl) as (Hin' & b & ob & -> & Hb & Hidb).
    assert (Hba : b <> a)
      by (intros ->; apply Hne; unfold id; congruence).
    assert (Hb' : h' !! b = Some ob)
      by (unfold h'; by rewrite store_lookup_ne).
    split; [|by eauto].
    apply elem_of_app in Hin' as [Hin' | Hin']; apply elem_of_app;
      [left | by right].
    rewrite Hown'_eq. rewrite Hown_eq, resting_app in Hin'. simpl in Hin'.
    apply elem_of_app in Hin' as [Hin' | Hin'].
    { destruct (PriceLevel.empty lvw); rewrite resting_app;
        apply elem_of_app; by left. }
    apply elem_of_app in Hin' as [Hin' | Hin'].
    2:{ destruct (PriceLevel.empty lvw); rewrite resting_app;
          apply elem_of_app; right; [done|].
        simpl. apply elem_of_app. by right. }
    assert (Hkept : Some b ∈ PriceLevel.orders_ lvw).
    { simpl. apply list_elem_of_filter. split; [|done].
      unfold has_id. rewrite (deref_Some _ _ _ Hb'). unfold Order.get_id.
      rewrite Hidb. lia. }
    destruct (PriceLevel.empty lvw) eqn:E.
    + apply PriceLevel_empty_nil in E. rewrite E in Hkept.
      by apply elem_of_nil in Hkept.
    + rewrite resting_app. apply elem_of_app. right. simpl.
      apply elem_of_app. by left.
Qed.

(** * The operations keep the invariants *)

Lemma cancel_order_absent order_id st :
  OrderBook.order_map_ st !! order_id = None ->
  OrderBook.cancel_order order_id st = Ok (false, st).
Proof. intros H. unfold OrderBook.cancel_order. by rewrite H. Qed.

Lemma cancel_order_spec order_id st p :
  wf st ->
  OrderBook.order_map_ st !! order_id = Some p ->
  exists a o,
    p = Some a /\ OrderBook.heap_ st !! a = Some o /\ live o
    /\ Order.order_id_ o = order_id
    /\ Some a ∈ resting (own (Order.side_ o) st)
    /\ OrderBook.cancel_order order_id st
       = Ok (true, cancel_state st order_id a o)
    /\ wf (cancel_state st order_id a o).
Proof.
  intros Hwf Hlook.
  destruct (ok_index _ _ _ _ _ Hwf _ _ Hlook)
    as (_ & a & o & -> & Ho & Hid).
  subst order_id.
  apply (wf_book_ok (Order.side_ o)) in Hwf.
  destruct (book_ok_cancel _ _ _ _ _ _ _ Hwf Hlook Ho eq_refl)
    as ((lv & Hfind & Hin & Hvalid & Hfound) & Hlive & Hok).
  exists a, o. split_and!; try done.
  - apply elem_of_resting. exists (Order.price_ o, lv).
    split; [by eapply map_find_Some | done].
  - unfold OrderBook.cancel_order. rewrite Hlook.
    rewrite (deref_Some _ _ _ Ho). cbn [bind].
    rewrite (cancel_live o) by apply Hlive.
    fold (cancelled o). unfold cancel_state.
    replace (Order.get_side (cancelled o)) with (Order.side_ o) by done.
    replace (Order.get_price (cancelled o)) with (Order.price_ o) by done.
    destruct (Order.side_ o) eqn:Es; simpl in Hfind |- *;
      rewrite (unrest_order_spec _ _ _ _ _ lv) by done;
      cbn [bind]; by rewrite Hfound.
  - apply (wf_book_ok (Order.side_ o)). unfold cancel_state.
    by destruct (Order.side_ o).
Qed.

Lemma cancel_state_counters st order_id a o :
  counters_ok st -> counters_ok (cancel_state st order_id a o).
Proof. unfold cancel_state, counters_ok. by destruct (Order.side_ o). Qed.

Lemma wf_init : wf OrderBook.init.
Proof.
  split; simpl; try (by constructor);
    try (intros x y Hx; by apply elem_of_nil in Hx);
    intros id p Hp; by rewrite lookup_empty in Hp.
Qed.

Lemma counters_init : counters_ok OrderBook.init.
Proof. unfold counters_ok, in_u64. simpl. lia. Qed.

Lemma wf_clear st : wf (OrderBook.clear st).
Proof.
  split; simpl; try (by constructor);
    try (intros x y Hx; by apply elem_of_nil in Hx);
    intros id p Hp; by rewrite lookup_empty in Hp.
Qed.

Lemma counters_clear st : counters_ok st -> counters_ok (OrderBook.clear st).
Proof. unfold counters_ok, in_u64. simpl. intros (? & ? & _). lia. Qed.

Section Steps.

Variable clock : nat -> Z.

Lemma update_statistics_wf trades st :
  wf st -> wf (OrderBook.update_statistics trades st).
Proof. by rewrite update_statistics_spec. Qed.

Lemma update_statistics_counters trades st :
  in_u64 (OrderBook.next_order_id_ st) ->
  in_u64 (OrderBook.next_trade_id_ st) ->
  in_u64 (OrderBook.total_volume_ st) ->
  counters_ok (OrderBook.update_statistics trades st).
Proof.
  intros H1 H2 H3. rewrite update_statistics_spec. unfold counters_ok.
  simpl. split_and!; try done; [apply u64_range|].
  rewrite fold_volume by done. apply u64_range.
Qed.

(** The counters after the matching walk. *)
Lemma matched_counters s i oi0 price quantity type st trades st2 :
  counters_ok st ->
  matched clock s i oi0 (allocated clock price quantity s type st) trades st2 ->
  in_u64 (OrderBook.next_order_id_ st2)
  /\ in_u64 (OrderBook.next_trade_id_ st2)
  /\ in_u64 (OrderBook.total_volume_ st2).
Proof.
  intros (_ & _ & _ & Hv) Hmd.
  rewrite (md_next_order_id _ _ _ _ _ _ _ Hmd),
    (md_next_trade_id _ _ _ _ _ _ _ Hmd), (md_total_volume _ _ _ _ _ _ _ Hmd).
  simpl. split_and!; [apply u64_range.. | done].
Qed.

Lemma add_order_body_keeps price quantity side type st :
  wf st -> counters_ok st -> in_u64 quantity ->
  exists id trades st',
    OrderBook.add_order_body clock price quantity side type st
    = Ok (id, trades, st')
    /\ wf st' /\ counters_ok st'.
Proof.
  intros Hwf Hc Hq.
  destruct (rejected_dec price quantity type) as [Hr | Hnr].
  - exists 0, [], st. split_and!; try done.
    unfold OrderBook.add_order_body.
    destruct Hr as [-> | [Hp | [-> Hp]]]; [done | |].
    + destruct (quantity =? 0); [done|].
      by destruct (price <? 0) eqn:E; [|lia].
    + destruct (quantity =? 0); [done|].
      destruct (price <? 0); [done|]. simpl.
      by destruct (price <=? 0) eqn:E; [|lia].
  - apply not_rejected in Hnr.
    destruct (add_order_body_spec clock price quantity side type st)
      as (trades & st2 & oi & st3 & _ & Hmd & _ & _ & Hcase & Hwf3 & Hrun);
      try done.
    eexists _, trades, _. split; [exact Hrun|].
    split; [by apply update_statistics_wf|].
    destruct (matched_counters _ _ _ _ _ _ _ _ _ Hc Hmd) as (H1 & H2 & H3).
    destruct Hcase as [(_ & _ & own' & _ & ->) | (_ & ->)].
    + apply update_statistics_counters; by destruct side.
    + by apply update_statistics_counters.
Qed.

End Steps.

(** * Market orders, and the steps of a run *)

Section Market.

Variable clock : nat -> Z.

Lemma add_market_order_spec quantity side st :
  wf st -> counters_ok st -> in_u64 quantity -> quantity <> 0 ->
  exists trades st2,
    OrderBook.match_order clock (Some (length (OrderBook.heap_ st)))
      (allocated clock 0 quantity side MARKET st) = Ok (trades, st2)
    /\ matched clock side (length (OrderBook.heap_ st))
         (new_order clock 0 quantity side MARKET st)
         (allocated clock 0 quantity side MARKET st) trades st2
    /\ match_done side (length (OrderBook.heap_ st)) st2
    /\ wf st2
    /\ OrderBook.add_market_order clock quantity side st
       = Ok (trades, OrderBook.update_statistics trades st2)
    /\ OrderBook.add_order_body clock 0 quantity side MARKET st
       = Ok (OrderBook.next_order_id_ st, trades,
             OrderBook.update_statistics trades st2).
Proof.
  intros Hwf Hc Hq Hq0.
  assert (Hnr : ~ rejected 0 quantity MARKET).
  { apply not_rejected. split_and!; [done | lia | done]. }
  destruct (add_order_body_spec clock 0 quantity side MARKET st)
    as (trades & st2 & oi & st3 & Hmatch & Hmd & Hdone & _ & Hcase & Hwf3
        & Hrun); try done.
  assert (st3 = st2) as ->.
  { by destruct Hcase as [(? & _) | (_ & ->)]. }
  exists trades, st2. split_and!; try done.
  unfold OrderBook.add_market_order.
  destruct (quantity =? 0) eqn:E; [lia|].
  rewrite make_shared_Order_spec by done. cbn [bind].
  by rewrite Hmatch.
Qed.

Lemma add_market_order_keeps quantity side st :
  wf st -> counters_ok st -> in_u64 quantity ->
  exists trades st',
    OrderBook.add_market_order clock quantity side st = Ok (trades, st')
    /\ wf st' /\ counters_ok st'.
Proof.
  intros Hwf Hc Hq. destruct (Z.eq_dec quantity 0) as [-> | Hq0].
  - exists [], st. done.
  - destruct (add_market_order_spec quantity side st)
      as (trades & st2 & _ & Hmd & _ & Hwf2 & Hrun & _); try done.
    exists trades, (OrderBook.update_statistics trades st2).
    split; [done|]. split; [by apply update_statistics_wf|].
    destruct (matched_counters _ _ _ _ _ _ _ _ _ _ Hc Hmd) as (H1 & H2 & H3).
    by apply update_statistics_counters.
Qed.

Lemma cancel_order_keeps order_id st :
  wf st -> counters_ok st ->
  exists removed st',
    OrderBook.cancel_order order_id st = Ok (removed, st')
    /\ wf st' /\ counters_ok st'.
Proof.
  intros Hwf Hc.
  destruct (OrderBook.order_map_ st !! order_id) as [p|] eqn:Hl.
  - destruct (cancel_order_spec _ _ _ Hwf Hl)
      as (a & o & _ & _ & _ & _ & _ & Hrun & Hwf').
    eexists _, _. split; [exact Hrun|]. split; [done|].
    by apply cancel_state_counters.
  - exists false, st. split; [by apply cancel_order_absent | done].
Qed.

Lemma step_keeps o st :
  wf st -> counters_ok st -> valid_op o ->
  exists evs st', step clock o st = Ok (evs, st') /\ wf st' /\ counters_ok st'.
Proof.
  intros Hwf Hc Hv. destruct o as [price quantity side type | quantity side
                                   | order_id |]; simpl in Hv |- *.
  - destruct (add_order_body_keeps clock price quantity side type st)
      as (id & trades & st' & -> & ? & ?); try done.
    cbn [bind]. eauto.
  - destruct (add_market_order_keeps quantity side st)
      as (trades & st' & -> & ? & ?); try done.
    cbn [bind]. eauto.
  - destruct (cancel_order_keeps order_id st)
      as (removed & st' & -> & ? & ?); try done.
    cbn [bind]. eauto.
  - eexists _, _. split; [done|].
    split; [apply wf_clear | by apply counters_clear].
Qed.

Lemma run_keeps ops st :
  wf st -> counters_ok st -> Forall valid_op ops ->
  exists evs st', run clock ops st = Ok (evs, st') /\ wf st' /\ counters_ok st'.
Proof.
  intros Hwf Hc Hv. revert st Hwf Hc.
  induction Hv as [|o ops Ho _ IH]; intros st Hwf Hc; simpl.
  - eauto.
  - destruct (step_keeps o st) as (evs & st1 & -> & Hwf1 & Hc1); try done.
    cbn [bind].
    destruct (IH st1) as (evs' & st2 & -> & Hwf2 & Hc2); try done.
    cbn [bind]. eauto.
Qed.

Lemma reachable_inv st : reachable clock st -> wf st /\ counters_ok st.
Proof.
  intros (ops & evs & Hv & Hrun).
  destruct (run_keeps ops OrderBook.init wf_init counters_init Hv)
    as (evs' & st' & Hrun' & Hwf & Hc).
  rewrite Hrun in Hrun'. by injection Hrun' as _ <-.
Qed.

End Market.

(** * What a step issues *)

Lemma issued_ids_app e1 e2 : issued_ids (e1 ++ e2) = issued_ids e1 ++ issued_ids e2.
Proof.
  induction e1 as [|[id|t|] e1 IH]; simpl; [done | by rewrite IH | done..].
Qed.

Lemma traded_app e1 e2 : traded (e1 ++ e2) = traded e1 ++ traded e2.
Proof.
  induction e1 as [|[id|t|] e1 IH]; simpl; [done | done | by rewrite IH | done].
Qed.

Lemma issued_ids_Issued ids : issued_ids (map Issued ids) = ids.
Proof. induction ids as [|id ids IH]; simpl; [done | by rewrite IH]. Qed.

Lemma issued_ids_Traded trades : issued_ids (map Traded trades) = [].
Proof. induction trades as [|t trades IH]; simpl; done. Qed.

Lemma traded_Issued ids : traded (map Issued ids) = [].
Proof. induction ids as [|id ids IH]; simpl; done. Qed.

Lemma traded_Traded trades : traded (map Traded trades) = trades.
Proof. induction trades as [|t trades IH]; simpl; [done | by rewrite IH]. Qed.

Lemma since_clear_app acc e1 e2 :
  since_clear acc (e1 ++ e2) = since_clear (since_clear acc e1) e2.
Proof.
  revert acc. induction e1 as [|[id|t|] e1 IH]; intros acc; simpl; auto.
Qed.

Lemma since_clear_Issued acc ids : since_clear acc (map Issued ids) = acc.
Proof. induction ids as [|id ids IH]; simpl; done. Qed.

Lemma since_clear_Traded acc trades :
  since_clear acc (map Traded trades) = acc ++ trades.
Proof.
  revert acc. induction trades as [|t trades IH]; intros acc; simpl.
  - by rewrite app_nil_r.
  - rewrite IH, <- app_assoc. done.
Qed.

Lemma drop_last_one {A} (l : list A) n x :
  length l = S n -> l !! n = Some x -> drop n l = [x].
Proof.
  intros Hlen Hx. rewrite (drop_S _ _ _ Hx).
  by rewrite drop_ge by lia.
Qed.

Lemma consumes_id_rejected price quantity side type :
  consumes_id (AddOrder price quantity side type) = true
  <-> ~ rejected price quantity type.
Proof.
  rewrite not_rejected. simpl. split.
  - intros H. apply negb_true_iff in H.
    apply orb_false_iff in H as [H1 H3].
    apply orb_false_iff in H1 as [H1 H2].
    split_and!; [lia | lia |]. intros ->. simpl in H3. lia.
  - intros (H1 & H2 & H3). apply negb_true_iff.
    destruct (quantity =? 0) eqn:E1; [lia|].
    destruct (price <? 0) eqn:E2; [lia|]. simpl.
    destruct type; [done|]. simpl. specialize (H3 eq_refl). lia.
Qed.

Lemma cancel_state_frame st order_id a o :
  OrderBook.next_order_id_ (cancel_state st order_id a o)
  = OrderBook.next_order_id_ st
  /\ OrderBook.next_trade_id_ (cancel_state st order_id a o)
     = OrderBook.next_trade_id_ st
  /\ OrderBook.total_volume_ (cancel_state st order_id a o)
     = OrderBook.total_volume_ st
  /\ OrderBook.total_trades_ (cancel_state st order_id a o)
     = OrderBook.total_trades_ st.
Proof. unfold cancel_state. by destruct (Order.side_ o). Qed.

Section StepFacts.

Variable clock : nat -> Z.

(** An accepted add: what the state and the heap are afterwards. *)
Lemma accepted_add price quantity side type st :
  wf st -> counters_ok st -> in_u64 quantity ->
  ~ rejected price quantity type ->
  exists trades st',
    OrderBook.add_order_body clock price quantity side type st
    = Ok (OrderBook.next_order_id_ st, trades, st')
    /\ issued_between st st' = [OrderBook.next_order_id_ st]
    /\ OrderBook.next_order_id_ st' = u64 (OrderBook.next_order_id_ st + 1)
    /\ (forall j t,
          trades !! j = Some t ->
          Trade.trade_id t = u64 (OrderBook.next_trade_id_ st + Z.of_nat j))
    /\ OrderBook.next_trade_id_ st'
       = u64 (OrderBook.next_trade_id_ st + Z.of_nat (length trades))
    /\ OrderBook.total_volume_ st'
       = u64 (OrderBook.total_volume_ st + volume trades)
    /\ OrderBook.total_trades_ st'
       = u64 (OrderBook.total_trades_ st + Z.of_nat (length trades)).
Proof.
  intros Hwf Hc Hq Hnr.
  destruct (add_order_body_spec clock price quantity side type st)
    as (trades & st2 & oi & st3 & _ & Hmd & _ & Hi & Hcase & _ & Hrun);
    try done.
  exists trades, (OrderBook.update_statistics trades st3).
  split; [done|].
  destruct Hmd as [Hm Hown Hno Htt Htv Hlen Hnt Hcr Hids Hix Hinc _ _].
  destruct Hinc as (oi' & Hoi' & (Hid & _) & _).
  assert (oi' = oi) as -> by congruence. simpl in Hid, Hlen.
  rewrite length_app in Hlen. simpl in Hlen.
  assert (H3 : OrderBook.heap_ st3 = OrderBook.heap_ st2
               /\ OrderBook.next_order_id_ st3 = OrderBook.next_order_id_ st2
               /\ OrderBook.next_trade_id_ st3 = OrderBook.next_trade_id_ st2
               /\ OrderBook.total_volume_ st3 = OrderBook.total_volume_ st2
               /\ OrderBook.total_trades_ st3 = OrderBook.total_trades_ st2).
  { destruct Hcase as [(_ & _ & own' & _ & ->) | (_ & ->)]; [|done].
    by destruct side. }
  destruct H3 as (Hh3 & Hn3 & Ht3 & Hv3 & Htt3).
  rewrite update_statistics_spec. simpl.
  rewrite Hn3, Ht3, Hv3, Htt3, Hno, Hnt, Htv, Htt. simpl.
  split_and!; try done.
  - unfold issued_between. simpl. rewrite Hh3. erewrite drop_last_one; [|lia | exact Hi].
    simpl. unfold Order.get_id. by rewrite Hid.
  - intros j t Hj. by apply Hids.
  - apply fold_volume, Hc.
Qed.

Lemma step_facts o st evs st' :
  wf st -> counters_ok st -> valid_op o ->
  step clock o st = Ok (evs, st') ->
  issued_ids evs
  = (if consumes_id o then [OrderBook.next_order_id_ st] else [])
  /\ OrderBook.next_order_id_ st'
     = (if consumes_id o then u64 (OrderBook.next_order_id_ st + 1)
        else OrderBook.next_order_id_ st)
  /\ (forall j t,
        traded evs !! j = Some t ->
        Trade.trade_id t = u64 (OrderBook.next_trade_id_ st + Z.of_nat j))
  /\ OrderBook.next_trade_id_ st'
     = u64 (OrderBook.next_trade_id_ st + Z.of_nat (length (traded evs)))
  /\ OrderBook.total_volume_ st'
     = (if is_clear o then 0
        else u64 (OrderBook.total_volume_ st + volume (traded evs)))
  /\ (forall acc,
        since_clear acc evs
        = if is_clear o then [] else acc ++ traded evs).
Proof.
  intros Hwf Hc Hv Hstep.
  assert (Hsame : forall o', consumes_id o' = false -> is_clear o' = false ->
            st' = st -> evs = [] ->
            consumes_id o' = consumes_id o -> is_clear o' = is_clear o ->
            issued_ids evs
            = (if consumes_id o then [OrderBook.next_order_id_ st] else [])
            /\ OrderBook.next_order_id_ st'
               = (if consumes_id o then u64 (OrderBook.next_order_id_ st + 1)
                  else OrderBook.next_order_id_ st)
            /\ (forall j t,
                  traded evs !! j = Some t ->
                  Trade.trade_id t
                  = u64 (OrderBook.next_trade_id_ st + Z.of_nat j))
            /\ OrderBook.next_trade_id_ st'
               = u64 (OrderBook.next_trade_id_ st
                      + Z.of_nat (length (traded evs)))
            /\ OrderBook.total_volume_ st'
               = (if is_clear o then 0
                  else u64 (OrderBook.total_volume_ st + volume (traded evs)))
            /\ (forall acc,
                  since_clear acc evs
                  = if is_clear o then [] else acc ++ traded evs)).
  { intros o' H1 H2 -> -> <- <-. rewrite H1, H2. simpl.
    destruct Hc as (_ & Ht & _ & Hvol). unfold volume. simpl.
    rewrite !Z.add_0_r, !u64_small by done.
    split_and!; try done. intros acc. by rewrite app_nil_r. }
  destruct o as [price quantity side type | quantity side | order_id |];
    simpl in Hv, Hstep.
  - destruct (rejected_dec price quantity type) as [Hr | Hnr].
    + assert (Hc0 : consumes_id (AddOrder price quantity side type) = false).
      { apply not_true_iff_false. rewrite consumes_id_rejected. tauto. }
      assert (Hrun : OrderBook.add_order_body clock price quantity side type st
                     = Ok (0, [], st)).
      { unfold OrderBook.add_order_body.
        destruct Hr as [-> | [Hp | [-> Hp]]]; [done | |].
        - destruct (quantity =? 0); [done|].
          by destruct (price <? 0) eqn:E; [|lia].
        - destruct (quantity =? 0); [done|].
          destruct (price <? 0); [done|]. simpl.
          by destruct (price <=? 0) eqn:E; [|lia]. }
      rewrite Hrun in Hstep. cbn [bind] in Hstep.
      injection Hstep as <- <-.
      apply (Hsame (AddOrder price quantity side type)); try done.
      unfold issued_between. by rewrite drop_all.
    + apply not_rejected in Hnr.
      destruct (accepted_add price quantity side type st)
        as (trades & st1 & Hrun & Hissued & Hno & Hids & Hnt & Hvol & _);
        try done.
      rewrite Hrun in Hstep. cbn [bind] in Hstep.
      injection Hstep as <- <-.
      rewrite (proj2 (consumes_id_rejected price quantity side type) Hnr).
      rewrite issued_ids_app, traded_app, issued_ids_Issued,
        issued_ids_Traded, traded_Issued, traded_Traded, Hissued.
      simpl. split_and!; try done.
      intros acc. apply since_clear_Traded.
  - destruct (Z.eq_dec quantity 0) as [-> | Hq0].
    + simpl in Hstep. injection Hstep as <- <-.
      apply (Hsame (AddMarketOrder 0 side)); try done.
      unfold issued_between. by rewrite drop_all.
    + destruct (add_market_order_spec clock quantity side st)
        as (trades & st2 & _ & _ & _ & _ & Hrun & Hbody); try done.
      assert (Hnr : ~ rejected 0 quantity MARKET).
      { apply not_rejected. split_and!; [done | lia | done]. }
      destruct (accepted_add 0 quantity side MARKET st)
        as (trades' & st1 & Hrun' & Hissued & Hno & Hids & Hnt & Hvol & _);
        try done.
      rewrite Hbody in Hrun'. injection Hrun' as <- <-.
      rewrite Hrun in Hstep. cbn [bind] in Hstep.
      injection Hstep as <- <-.
      replace (consumes_id (AddMarketOrder quantity side)) with true
        by (simpl; destruct (quantity =? 0) eqn:E; [lia | done]).
      rewrite issued_ids_app, traded_app, issued_ids_Issued,
        issued_ids_Traded, traded_Issued, traded_Traded, Hissued.
      simpl. split_and!; try done.
      intros acc. apply since_clear_Traded.
  - destruct (OrderBook.order_map_ st !! order_id) as [p|] eqn:Hl.
    + destruct (cancel_order_spec _ _ _ Hwf Hl)
        as (a & o & _ & _ & _ & _ & _ & Hrun & _).
      rewrite Hrun in Hstep. cbn [bind] in Hstep.
      injection Hstep as <- <-.
      destruct (cancel_state_frame st order_id a o) as (E1 & E2 & E3 & _).
      rewrite E1, E2, E3.
      destruct Hc as (_ & Ht & _ & Hvol). unfold volume. simpl.
      rewrite !Z.add_0_r, !u64_small by done.
      split_and!; try done. intros acc. by rewrite app_nil_r.
    + rewrite (cancel_order_absent _ _ Hl) in Hstep. cbn [bind] in Hstep.
      injection Hstep as <- <-.
      by apply (Hsame (CancelOrder order_id)).
  - injection Hstep as <- <-. simpl.
    destruct Hc as (_ & Ht & _). rewrite Z.add_0_r, u64_small by done.
    done.
Qed.

End StepFacts.

(** * What a run issues *)

Lemma consecutive_lookup first n j :
  (j < n)%nat -> consecutive first n !! j = Some (u64 (first + Z.of_nat j)).
Proof.
  intros Hj. unfold consecutive. rewrite list_lookup_fmap.
  by rewrite lookup_seq_lt.
Qed.

Lemma consecutive_length first n : length (consecutive first n) = n.
Proof. unfold consecutive. by rewrite length_map, length_seq. Qed.

Lemma consecutive_app first a b :
  consecutive first (a + b)
  = consecutive first a ++ consecutive (u64 (first + Z.of_nat a)) b.
Proof.
  apply list_eq. intros j.
  destruct (decide (j < a)%nat) as [Hlt | Hge].
  - rewrite lookup_app_l by (by rewrite consecutive_length).
    by rewrite !consecutive_lookup by lia.
  - rewrite lookup_app_r by (rewrite consecutive_length; lia).
    rewrite consecutive_length.
    destruct (decide (j < a + b)%nat) as [Hlt' | Hge'].
    + rewrite !consecutive_lookup by lia.
      rewrite u64_add_l. do 2 f_equal. lia.
    + rewrite !(proj2 (lookup_ge_None _ _));
        [done | rewrite consecutive_length; lia..].
Qed.

Lemma consecutive_intro first (l : list Z) :
  (forall j x, l !! j = Some x -> x = u64 (first + Z.of_nat j)) ->
  l = consecutive first (length l).
Proof.
  intros H. apply list_eq. intros j.
  destruct (l !! j) as [x|] eqn:E.
  - rewrite consecutive_lookup by (by eapply lookup_lt_Some).
    f_equal. by apply H.
  - symmetry. apply lookup_ge_None. rewrite consecutive_length.
    by apply lookup_ge_None.
Qed.

(** Consecutive values that do not reach 2^64 increase strictly. *)
Lemma consecutive_increasing first n :
  0 <= first -> first + Z.of_nat n <= 2 ^ 64 ->
  strictly_increasing (consecutive first n).
Proof.
  intros H0 Hn i j x y Hij Hi Hj.
  assert (j < n)%nat.
  { apply lookup_lt_Some in Hj. by rewrite consecutive_length in Hj. }
  rewrite consecutive_lookup in Hi, Hj by lia.
  injection Hi as <-. injection Hj as <-.
  rewrite !u64_small by (unfold in_u64; lia). lia.
Qed.

Section RunFacts.

Variable clock : nat -> Z.

Lemma run_facts ops st evs st' :
  wf st -> counters_ok st -> Forall valid_op ops ->
  run clock ops st = Ok (evs, st') ->
  issued_ids evs
  = consecutive (OrderBook.next_order_id_ st) (length (issued_ids evs))
  /\ OrderBook.next_order_id_ st'
     = u64 (OrderBook.next_order_id_ st
            + Z.of_nat (length (issued_ids evs)))
  /\ map Trade.trade_id (traded evs)
     = consecutive (OrderBook.next_trade_id_ st) (length (traded evs))
  /\ OrderBook.next_trade_id_ st'
     = u64 (OrderBook.next_trade_id_ st + Z.of_nat (length (traded evs)))
  /\ (forall acc,
        OrderBook.total_volume_ st = u64 (volume acc) ->
        OrderBook.total_volume_ st' = u64 (volume (since_clear acc evs))).
Proof.
  intros Hwf Hc Hv. revert st evs st' Hwf Hc.
  induction Hv as [|o ops Ho _ IH]; intros st evs st' Hwf Hc Hrun;
    simpl in Hrun.
  - injection Hrun as <- <-. simpl.
    destruct Hc as (Hn & Ht & _). rewrite !Z.add_0_r, !u64_small by done.
    done.
  - destruct (step_keeps clock o st Hwf Hc Ho)
      as (evs1 & st1 & Hstep & Hwf1 & Hc1).
    rewrite Hstep in Hrun. cbn [bind] in Hrun.
    destruct (run clock ops st1) as [[evs2 st2]|] eqn:Hrun2;
      [|discriminate].
    cbn [bind] in Hrun. injection Hrun as <- <-.
    destruct (step_facts clock o st evs1 st1 Hwf Hc Ho Hstep)
      as (Hi1 & Hn1 & Ht1 & Hnt1 & Hv1 & Hs1).
    destruct (IH st1 evs2 st2 Hwf1 Hc1 Hrun2)
      as (Hi2 & Hn2 & Ht2 & Hnt2 & Hv2).
    assert (Hlen1 : OrderBook.next_order_id_ st1
                    = u64 (OrderBook.next_order_id_ st
                           + Z.of_nat (length (issued_ids evs1)))).
    { rewrite Hn1, Hi1. destruct (consumes_id o); simpl; [done|].
      destruct Hc as (Hn & _). by rewrite Z.add_0_r, u64_small. }
    rewrite issued_ids_app, traded_app, !length_app, map_app.
    rewrite !consecutive_app, <- Hlen1, <- Hnt1, <- Hi2, <- Ht2.
    split_and!.
    + f_equal. rewrite Hi1. destruct (consumes_id o); simpl; [|done].
      unfold consecutive. simpl. destruct Hc as (Hn & _).
      by rewrite Z.add_0_r, u64_small.
    + rewrite Hn2, Hlen1, u64_add_l. f_equal. lia.
    + f_equal. rewrite <- (length_map Trade.trade_id).
      apply consecutive_intro. intros j x Hj.
      rewrite list_lookup_fmap in Hj.
      destruct (traded evs1 !! j) as [t|] eqn:E; [|done].
      injection Hj as <-. by apply Ht1.
    + rewrite Hnt2, Hnt1, u64_add_l. f_equal. lia.
    + intros acc Hacc. rewrite since_clear_app. apply Hv2.
      rewrite Hs1, Hv1. destruct (is_clear o); [done|].
      rewrite Hacc, u64_add_l, volume_app. done.
Qed.

Lemma reachable_state_after ops :
  Forall valid_op ops ->
  run clock ops OrderBook.init
  = Ok (events_of clock ops, state_after clock ops)
  /\ reachable clock (state_after clock ops).
Proof.
  intros Hv.
  destruct (run_keeps clock ops OrderBook.init wf_init counters_init Hv)
    as (evs & st & Hrun & _).
  unfold state_after, events_of, reachable. rewrite Hrun.
  split; [done|]. eauto.
Qed.

End RunFacts.

(** * The trades of a matching walk *)

Lemma level_view_rests h s k q :
  Forall (rests_at h s k) q ->
  Forall (fun ko => Order.side_ ko.2 = s /\ Order.price_ ko.2 = ko.1
                    /\ ko.1 = k /\ live ko.2)
    (level_view h k q).
Proof.
  induction 1 as [|p q (a & o & -> & Ho & Hl & Hs & Hp) _ IH]; simpl;
    [constructor|].
  rewrite Ho. by constructor.
Qed.

Lemma book_view_rests h s m :
  Forall (level_ok h s) m ->
  Forall (fun ko => Order.side_ ko.2 = s /\ Order.price_ ko.2 = ko.1
                    /\ ko.1 ∈ keys m /\ live ko.2)
    (book_view h m).
Proof.
  induction 1 as [|[k lv] m (_ & Hq & _) _ IH]; simpl; [constructor|].
  apply Forall_app. split.
  - eapply Forall_impl; [apply (level_view_rests _ _ _ _ Hq)|].
    simpl. intros ko (H1 & H2 & H3 & H4). split_and!; [done | done | | done].
    rewrite H3. left.
  - eapply Forall_impl; [exact IH|].
    simpl. intros ko (H1 & H2 & H3 & H4). split_and!; [done | done | | done].
    by right.
Qed.

(** When the matching walk is over, the specification prescribes no
    further trade. *)
Lemma match_done_fills s i st oi id :
  book_ok s (OrderBook.heap_ st) (own s st) (OrderBook.opposite s st)
    (OrderBook.order_map_ st) ->
  match_done s i st ->
  OrderBook.heap_ st !! i = Some oi ->
  incoming_ok oi ->
  expected_fills s (Order.type_ oi) (Order.price_ oi) id
    (Order.get_remaining_qty oi)
    (book_view (OrderBook.heap_ st) (OrderBook.opposite s st)) = [].
Proof.
  intros Hb (oi' & Hoi' & Hdone) Hi Hinc.
  assert (oi' = oi) as -> by congruence.
  destruct Hdone as [Hnil | [Hzero | (k & lv & others & Hopp & Hty & Hcr)]].
  - by rewrite Hnil.
  - apply expected_fills_exhausted. lia.
  - rewrite Hty. apply expected_fills_apart.
    pose proof (book_view_rests _ _ _ (ok_opp _ _ _ _ _ Hb)) as Hview.
    pose proof (ok_opp_sorted _ _ _ _ _ Hb) as Hsorted.
    rewrite Hopp in Hsorted.
    apply (keys_sorted_cons_inv (other s)) in Hsorted as [Hall _].
    eapply Forall_impl; [exact Hview|]. simpl.
    intros ko (_ & _ & Hin & _). apply crosses_apart.
    apply crosses_apart in Hcr. rewrite Hopp in Hin.
    unfold keys in Hin. rewrite fmap_cons in Hin.
    apply elem_of_cons in Hin as [-> | Hin]; [done|].
    apply list_elem_of_fmap in Hin as (x & -> & Hx).
    rewrite Forall_forall in Hall. specialize (Hall _ Hx). simpl in Hall.
    by eapply apart_after.
Qed.

Lemma book_view_alloc s h own opp index o :
  book_ok s h own opp index -> book_view (h ++ [o]) opp = book_view h opp.
Proof.
  intros Hb. apply book_view_agree. intros a Ha. apply lookup_app_l.
  eapply book_ok_valid; [exact Hb|]. apply elem_of_app. by right.
Qed.

Section Trades.

Variable clock : nat -> Z.

(** The trades of an accepted add, its incoming order and the orders it
    met. *)
Lemma accepted_add_trades price quantity side type st :
  wf st -> counters_ok st -> in_u64 quantity ->
  ~ rejected price quantity type ->
  exists trades st' oi,
    OrderBook.add_order_body clock price quantity side type st
    = Ok (OrderBook.next_order_id_ st, trades, st')
    /\ map trade_view trades
       = expected_fills side type price (OrderBook.next_order_id_ st)
           quantity
           (book_view (OrderBook.heap_ st) (OrderBook.opposite side st))
    /\ fills_aligned (OrderBook.heap_ st) (OrderBook.heap_ st')
         (resting (OrderBook.opposite side st)) trades
    /\ OrderBook.heap_ st' !! length (OrderBook.heap_ st) = Some oi
    /\ same_order (new_order clock price quantity side type st) oi
    /\ Order.filled_qty_ oi = volume trades
    /\ incoming_ok oi.
Proof.
  intros Hwf Hc Hq Hnr.
  destruct (add_order_body_spec clock price quantity side type st)
    as (trades & st2 & oi & st3 & _ & Hmd & Hdone & Hi & Hcase & _ & Hrun);
    try done.
  exists trades, (OrderBook.update_statistics trades st3), oi.
  split; [done|].
  assert (Hh3 : OrderBook.heap_ st3 = OrderBook.heap_ st2).
  { destruct Hcase as [(_ & _ & own' & _ & ->) | (_ & ->)]; [|done].
    by destruct side. }
  rewrite update_statistics_spec. simpl. rewrite Hh3.
  pose proof (md_matching _ _ _ _ _ _ _ Hmd) as Hm.
  destruct (mt_incoming _ _ _ _ _ _ Hm) as (oi' & Hoi' & Hinc & _).
  assert (oi' = oi) as -> by congruence. clear Hoi'.
  destruct (md_incoming _ _ _ _ _ _ _ Hmd)
    as (oi' & Hoi' & Hsame & Hfilled & Hfills & _).
  assert (oi' = oi) as -> by congruence. clear Hoi'.
  pose proof (md_touched _ _ _ _ _ _ _ Hmd) as Htouch.
  pose proof Hwf as Hb. apply (wf_book_ok side) in Hb.
  split_and!; try done.
  - pose proof (match_done_fills side _ st2 oi (OrderBook.next_order_id_ st)
                  (mt_book _ _ _ _ _ _ Hm) Hdone Hi Hinc) as Hend.
    destruct Hsame as (_ & _ & Hpr & _ & _ & Hty).
    simpl in Hfills, Hpr, Hty. rewrite Hty, Hpr in Hend.
    rewrite Hend, app_nil_r in Hfills. rewrite Hfills.
    replace (OrderBook.opposite side
               (allocated clock price quantity side type st))
      with (OrderBook.opposite side st) by (by destruct side).
    rewrite (book_view_alloc _ _ _ _ _ _ Hb).
    unfold Order.get_remaining_qty. simpl.
    by rewrite Z.sub_0_r, u64_small.
  - intros j t Hj. destruct (Htouch j t Hj) as (a & o0 & o & Hp & H0 & Ho & Hf).
    replace (OrderBook.opposite side
               (allocated clock price quantity side type st))
      with (OrderBook.opposite side st) in Hp by (by destruct side).
    exists a, o0, o. split_and!; try done.
    simpl in H0. rewrite lookup_app_l in H0; [done|].
    eapply book_ok_valid; [exact Hb|]. apply elem_of_app. right.
    eapply list_elem_of_lookup_2; eauto.
Qed.

End Trades.

(** * Where the incoming order ends up *)

Section Residual.

Variable clock : nat -> Z.

Lemma resting_sides s st :
  resting (OrderBook.bids_ st) ++ resting (OrderBook.asks_ st)
  ≡ₚ resting (own s st) ++ resting (OrderBook.opposite s st).
Proof. destruct s; simpl; [done | apply app_Permutation_comm]. Qed.

Lemma accepted_add_residual price quantity side type st :
  wf st -> counters_ok st -> in_u64 quantity ->
  ~ rejected price quantity type ->
  exists trades st' oi,
    OrderBook.add_order_body clock price quantity side type st
    = Ok (OrderBook.next_order_id_ st, trades, st')
    /\ OrderBook.heap_ st' !! length (OrderBook.heap_ st) = Some oi
    /\ Order.price_ oi = price /\ Order.side_ oi = side
    /\ Order.type_ oi = type /\ Order.status_ oi <> CANCELLED
    /\ 0 <= Order.get_remaining_qty oi
    /\ (type = MARKET \/ Order.get_remaining_qty oi = 0 ->
        (Some (length (OrderBook.heap_ st))
           ∉ resting (OrderBook.bids_ st') ++ resting (OrderBook.asks_ st'))
        /\ (forall id, OrderBook.order_map_ st' !! id
                       <> Some (Some (length (OrderBook.heap_ st))))
        /\ OrderBook.order_map_ st' ⊆ OrderBook.order_map_ st
        /\ own side st' = own side st)
    /\ (type = LIMIT -> 0 < Order.get_remaining_qty oi ->
        OrderBook.order_map_ st' !! OrderBook.next_order_id_ st
        = Some (Some (length (OrderBook.heap_ st)))
        /\ exists lv,
             map_find (before_of side) price (own side st') = Some lv
             /\ PriceLevel.price_ lv = price
             /\ PriceLevel.orders_ lv
                = match map_find (before_of side) price (own side st) with
                  | Some lv0 => PriceLevel.orders_ lv0
                  | None => []
                  end ++ [Some (length (OrderBook.heap_ st))]).
Proof.
  intros Hwf Hc Hq Hnr.
  destruct (add_order_body_spec clock price quantity side type st)
    as (trades & st2 & oi & st3 & _ & Hmd & Hdone & Hi & Hcase & Hwf3 & Hrun);
    try done.
  set (i := length (OrderBook.heap_ st)) in *.
  exists trades, (OrderBook.update_statistics trades st3), oi.
  split; [done|].
  pose proof (md_matching _ _ _ _ _ _ _ Hmd) as Hm.
  destruct (mt_incoming _ _ _ _ _ _ Hm) as (oi' & Hoi' & Hinc & Hside).
  assert (oi' = oi) as -> by congruence. clear Hoi'.
  destruct (md_incoming _ _ _ _ _ _ _ Hmd)
    as (oi' & Hoi' & (_ & _ & Hpr & _ & _ & Hty) & _).
  assert (oi' = oi) as -> by congruence. clear Hoi'. simpl in Hpr, Hty.
  destruct (incoming_remaining _ Hinc) as [_ Hrem0].
  pose proof (md_own _ _ _ _ _ _ _ Hmd) as Hown.
  replace (own side (allocated clock price quantity side type st))
    with (own side st) in Hown by (by destruct side).
  rewrite update_statistics_spec. simpl.
  assert (Hh3 : OrderBook.heap_ st3 = OrderBook.heap_ st2).
  { destruct Hcase as [(_ & _ & own' & _ & ->) | (_ & ->)]; [|done].
    by destruct side. }
  rewrite Hh3.
  split_and!; try done.
  - by destruct Hinc as (_ & _ & _ & ?).
  - intros Hnorest.
    assert (st3 = st2) as ->.
    { destruct Hcase as [(-> & Hpos & _) | (_ & ->)]; [|done].
      destruct Hnorest; [done | lia]. }
    pose proof (mt_fresh _ _ _ _ _ _ Hm) as Hfresh.
    split_and!.
    + intros Hin. apply Hfresh. by rewrite <- (resting_sides side).
    + intros id Hl.
      destruct (ok_index _ _ _ _ _ (mt_book _ _ _ _ _ _ Hm) _ _ Hl)
        as (Hin & _). done.
    + apply (md_index _ _ _ _ _ _ _ Hmd).
    + replace (own side _) with (own side st2) by (by destruct side). done.
  - intros -> Hpos.
    destruct Hcase as [(_ & _ & own' & Hrest & ->) | ([? | ?] & _)];
      [|done | lia].
    split.
    + replace (OrderBook.order_map_ (set_own side _ own'))
        with (<[OrderBook.next_order_id_ st := Some i]>
                (OrderBook.order_map_ st2)) by (by destruct side).
      apply lookup_insert_eq.
    + replace (own side _) with own' by (by destruct side).
      destruct (rest_order_spec side price i (OrderBook.heap_ st2) oi
                  (own side st2) Hi)
        as (ma & mb & lv0 & Hma & Hcase & Hrest').
      rewrite Hrest' in Hrest. injection Hrest as <-.
      eexists. split; [by apply map_find_mid|]. simpl.
      rewrite <- Hown.
      destruct Hcase as [(-> & _ & -> & _) | (Hf & Heq)]; [done|].
      rewrite Hf. split; [|done].
      pose proof (ok_own _ _ _ _ _ (mt_book _ _ _ _ _ _ Hm)) as Hlv.
      rewrite Heq in Hlv. apply Forall_app in Hlv as [_ Hlv].
      apply Forall_cons in Hlv as [(Hp & _) _]. done.
Qed.

End Residual.

(** * Runs that only consume ids *)

Section IdleRun.

Variable clock : nat -> Z.

Lemma run_replicate_issued o n st evs st' :
  wf st -> counters_ok st -> valid_op o -> consumes_id o = true ->
  run clock (replicate n o) st = Ok (evs, st') ->
  length (issued_ids evs) = n.
Proof.
  intros Hwf Hc Hv Hcons. revert st evs st' Hwf Hc.
  induction n as [|n IH]; intros st evs st' Hwf Hc Hrun; simpl in Hrun.
  - by injection Hrun as <- <-.
  - destruct (step_keeps clock o st Hwf Hc Hv)
      as (evs1 & st1 & Hstep & Hwf1 & Hc1).
    rewrite Hstep in Hrun. cbn [bind] in Hrun.
    destruct (run clock (replicate n o) st1) as [[evs2 st2]|] eqn:Hrun2;
      [|discriminate].
    cbn [bind] in Hrun. injection Hrun as <- <-.
    destruct (step_facts clock o st evs1 st1 Hwf Hc Hv Hstep) as (Hi1 & _).
    rewrite Hcons in Hi1.
    rewrite issued_ids_app, length_app, Hi1, (IH st1 evs2 st2); done.
Qed.

(** The ids that [n] market orders on an empty book are given. *)
Lemma idle_run_ids n :
  issued_ids (events_of clock (replicate n (AddMarketOrder 1 BUY)))
  = consecutive 1 n
  /\ OrderBook.next_order_id_
       (state_after clock (replicate n (AddMarketOrder 1 BUY)))
     = u64 (1 + Z.of_nat n)
  /\ reachable clock (state_after clock (replicate n (AddMarketOrder 1 BUY))).
Proof.
  assert (Hv1 : valid_op (AddMarketOrder 1 BUY))
    by (unfold valid_op, in_u64; lia).
  assert (Hv : Forall valid_op (replicate n (AddMarketOrder 1 BUY)))
    by (by apply Forall_replicate).
  destruct (reachable_state_after clock _ Hv) as [Hrun Hreach].
  destruct (run_facts clock _ _ _ _ wf_init counters_init Hv Hrun)
    as (Hids & Hnext & _).
  rewrite (run_replicate_issued _ _ _ _ _ wf_init counters_init
             Hv1 eq_refl Hrun)
    in Hids, Hnext.
  done.
Qed.

End IdleRun.

(** * The trades of an add, one by one *)

(** The [j]-th prescribed fill is against the [j]-th resting order, at
    the key of its level, for the smaller of what then remains of the
    incoming order and of what remains of the resting order. *)
Lemma expected_fills_lookup side type limit id book :
  forall trades remaining j t,
    map trade_view trades
    = expected_fills side type limit id remaining book ->
    trades !! j = Some t ->
    exists k o,
      book !! j = Some (k, o)
      /\ Trade.buy_order_id t
         = match side with BUY => id | SELL => Order.get_id o end
      /\ Trade.sell_order_id t
         = match side with BUY => Order.get_id o | SELL => id end
      /\ Trade.price t = k
      /\ Trade.quantity t
         = Z.min (remaining - volume (take j trades))
             (Order.get_remaining_qty o).
Proof.
  induction book as [|[k o] book IH]; intros trades remaining j t Hmap Hj.
  - destruct trades; [by rewrite lookup_nil in Hj | discriminate].
  - cbn [expected_fills] in Hmap.
    destruct ((remaining >? 0)
              && (OrderType_eqb type MARKET || OrderBook.crosses side limit k)).
    + destruct trades as [|t0 trades]; [discriminate|].
      rewrite fmap_cons in Hmap. injection Hmap as Hb0 Hs0 Hp0 Hq0 Hmap.
      destruct j as [|j].
      * injection Hj as <-. exists k, o.
        split_and!; try done. simpl. by rewrite Z.sub_0_r.
      * destruct (IH _ _ _ _ Hmap Hj) as (k' & o' & Hb & H1 & H2 & H3 & H4).
        exists k', o'. split_and!; try done.
        rewrite H4. cbn [take volume foldr]. fold (volume (take j trades)).
        rewrite Hq0. f_equal. lia.
    + destruct trades; [by rewrite lookup_nil in Hj | discriminate].
Qed.

(** The view of a ladder lists the orders behind its queued pointers, in
    the order of the pointers. *)
Lemma level_view_zip h s k lv :
  Forall (rests_at h s k) (PriceLevel.orders_ lv) ->
  Forall2 (fun p ko => exists a,
             p = Some a /\ h !! a = Some ko.2 /\ ko.1 = k
             /\ p ∈ PriceLevel.orders_ lv /\ live ko.2
             /\ Order.side_ ko.2 = s /\ Order.price_ ko.2 = k)
    (PriceLevel.orders_ lv) (level_view h k (PriceLevel.orders_ lv)).
Proof.
  generalize (PriceLevel.orders_ lv). intros q.
  induction 1 as [|p q (a & o & -> & Ho & Hl & Hs & Hp) _ IH]; simpl;
    [constructor|].
  rewrite Ho. constructor.
  - exists a. split_and!; try done. left.
  - eapply Forall2_impl; [exact IH|]. simpl.
    intros p ko (a' & -> & H1 & H2 & H3 & H4 & H5 & H6). exists a'.
    split_and!; try done. by right.
Qed.

Lemma book_view_zip h s m :
  Forall (level_ok h s) m ->
  Forall2 (fun p ko => exists a lv,
             p = Some a /\ h !! a = Some ko.2
             /\ (ko.1, lv) ∈ m /\ PriceLevel.price_ lv = ko.1
             /\ p ∈ PriceLevel.orders_ lv /\ live ko.2
             /\ Order.side_ ko.2 = s /\ Order.price_ ko.2 = ko.1)
    (resting m) (book_view h m).
Proof.
  induction 1 as [|[k lv] m (Hprice & Hq & _) _ IH]; simpl; [constructor|].
  simpl in Hprice, Hq. apply Forall2_app.
  - eapply Forall2_impl; [apply (level_view_zip _ _ _ _ Hq)|]. simpl.
    intros p ko (a & -> & H1 & -> & H3 & H4 & H5 & H6). exists a, lv.
    split_and!; try done. left.
  - eapply Forall2_impl; [exact IH|]. simpl.
    intros p ko (a & lv' & -> & H1 & H2 & H3 & H4 & H5 & H6 & H7).
    exists a, lv'. split_and!; try done. by right.
Qed.

Section EachTrade.
Variable clock : nat -> Z.

(** Every trade of an accepted add, told from the state before the
    add. *)
Lemma accepted_add_each_trade price quantity side type st id trades st' :
  wf st -> counters_ok st -> in_u64 quantity ->
  ~ rejected price quantity type ->
  OrderBook.add_order_body clock price quantity side type st
  = Ok (id, trades, st') ->
  forall j t,
    trades !! j = Some t ->
    exists a o0 o lv,
      resting (OrderBook.opposite side st) !! j = Some (Some a)
      /\ OrderBook.heap_ st !! a = Some o0
      /\ (Trade.price t, lv) ∈ OrderBook.opposite side st
      /\ PriceLevel.price_ lv = Trade.price t
      /\ Some a ∈ PriceLevel.orders_ lv
      /\ Order.side_ o0 = other side
      /\ Order.price_ o0 = Trade.price t
      /\ Trade.quantity t
         = Z.min (quantity - volume (take j trades))
             (Order.get_remaining_qty o0)
      /\ Trade.buy_order_id t
         = match side with BUY => id | SELL => Order.get_id o0 end
      /\ Trade.sell_order_id t
         = match side with BUY => Order.get_id o0 | SELL => id end
      /\ OrderBook.heap_ st' !! a = Some o
      /\ Order.filled_qty_ o = Order.filled_qty_ o0 + Trade.quantity t.
Proof.
  intros Hwf Hc Hq Hnr Hrun j t Hj.
  destruct (accepted_add_trades clock price quantity side type st)
    as (trades' & st1 & oi & Hrun' & Hfills & Haligned & _); try done.
  rewrite Hrun in Hrun'. injection Hrun' as -> -> ->.
  destruct (expected_fills_lookup _ _ _ _ _ _ _ _ _ Hfills Hj)
    as (k & o0 & Hb & Hbuy & Hsell & Hprice & Hqty).
  pose proof Hwf as Hbook. apply (wf_book_ok side) in Hbook.
  pose proof (book_view_zip _ _ _ (ok_opp _ _ _ _ _ Hbook)) as Hzip.
  destruct (Forall2_lookup_r _ _ _ _ _ Hzip Hb)
    as (p & Hp & a & lv & -> & Ha & Hin & Hlv & Hmem & _ & Hside & Hpr).
  simpl in Ha, Hin, Hlv, Hside, Hpr.
  destruct (Haligned _ _ Hj) as (a' & o0' & o & Hp' & Ha' & Ho & Hfilled).
  rewrite Hp in Hp'. injection Hp' as <-.
  rewrite Ha in Ha'. injection Ha' as <-.
  exists a, o0, o, lv. rewrite Hprice. by split_and!.
Qed.

(** A market order through [add_market_order] is the same add as through
    [add_order] at price 0. *)
Lemma market_as_add quantity side st id trades st' :
  wf st -> counters_ok st -> in_u64 quantity -> quantity <> 0 ->
  OrderBook.add_order_body clock 0 quantity side MARKET st
  = Ok (id, trades, st') ->
  OrderBook.add_market_order clock quantity side st = Ok (trades, st').
Proof.
  intros Hwf Hc Hq Hq0 Hrun.
  destruct (add_market_order_spec clock quantity side st)
    as (trades' & st2 & _ & _ & _ & _ & Hm & Hbody); try done.
  rewrite Hrun in Hbody. by injection Hbody as -> -> ->.
Qed.

End EachTrade.

(** * The properties of the specification *)

(** C1. Every trade of an add is the trade that the specification
    prescribes against the resting orders of the opposite ladder, taken
    in price-time order.  The [j]-th trade is made with the [j]-th
    resting order of the opposite ladder; its price is the key of the
    level in which that order is queued, whatever the price of the
    incoming order; its quantity is the smaller of what remains of the
    incoming order at that moment (its quantity less what the earlier
    trades filled) and of what remains of the resting order; and the id
    of the incoming order is the buy order id when the incoming order
    buys and the sell order id when it sells, the id of the resting
    order, which is of the other side, being the other one.  A market
    order through [add_market_order] makes the same trades. *)
Theorem trades_are_the_expected_fills clock price quantity side type st :
  reachable clock st -> in_u64 quantity ->
  ~ rejected price quantity type ->
  exists id trades st',
    OrderBook.add_order_body clock price quantity side type st
    = Ok (id, trades, st')
    /\ map trade_view trades
       = expected_fills side type price id quantity
           (book_view (OrderBook.heap_ st) (OrderBook.opposite side st))
    /\ (forall j t,
          trades !! j = Some t ->
          exists a o lv,
            resting (OrderBook.opposite side st) !! j = Some (Some a)
            /\ OrderBook.heap_ st !! a = Some o
            /\ Order.side_ o = other side
            /\ (Trade.price t, lv) ∈ OrderBook.opposite side st
            /\ PriceLevel.price_ lv = Trade.price t
            /\ Some a ∈ PriceLevel.orders_ lv
            /\ Trade.quantity t
               = Z.min (quantity - volume (take j trades))
                   (Order.get_remaining_qty o)
            /\ Trade.buy_order_id t
               = match side with BUY => id | SELL => Order.get_id o end
            /\ Trade.sell_order_id t
               = match side with BUY => Order.get_id o | SELL => id end)
    /\ (type = MARKET -> price = 0 ->
        OrderBook.add_market_order clock quantity side st
        = Ok (trades, st')).
Proof.
  intros [Hwf Hc]%reachable_inv Hq Hnr.
  destruct (accepted_add_trades clock price quantity side type st)
    as (trades & st' & oi & Hrun & Hfills & _); try done.
  exists (OrderBook.next_order_id_ st), trades, st'. split_and!; try done.
  - intros j t Hj.
    destruct (accepted_add_each_trade clock _ _ _ _ _ _ _ _ Hwf Hc Hq Hnr
                Hrun j t Hj)
      as (a & o0 & o & lv & H1 & H2 & H3 & H4 & H5 & H6 & H7 & H8 & H9
          & H10 & _).
    exists a, o0, lv. by split_and!.
  - intros -> ->.
    apply (market_as_add clock _ _ _ (OrderBook.next_order_id_ st));
      try done.
    unfold rejected in Hnr. lia.
Qed.

Lemma trades_are_the_expected_fills_witness :
  exists id trades st',
    OrderBook.add_order_body clock0 101 100 BUY LIMIT
      (state_after clock0 [AddOrder 100 200 SELL LIMIT])
    = Ok (id, trades, st')
    /\ map trade_view trades
       = expected_fills BUY LIMIT 101 id 100
           (book_view
              (OrderBook.heap_
                 (state_after clock0 [AddOrder 100 200 SELL LIMIT]))
              (OrderBook.opposite BUY
                 (state_after clock0 [AddOrder 100 200 SELL LIMIT]))).
Proof.
  assert (Hq : in_u64 100) by (unfold in_u64; lia).
  assert (Hv : Forall valid_op [AddOrder 100 200 SELL LIMIT])
    by (repeat constructor; unfold in_u64; lia).
  assert (Hnr : ~ rejected 101 100 LIMIT) by (unfold rejected; lia).
  destruct (trades_are_the_expected_fills clock0 101 100 BUY LIMIT
              (state_after clock0 [AddOrder 100 200 SELL LIMIT])
              (proj2 (reachable_state_after clock0 _ Hv)) Hq Hnr)
    as (id & trades & st' & Hrun & Hfills & _).
  exists id, trades, st'. split; [exact Hrun | exact Hfills].
Defined.

(** On integer prices the book is never crossed: every sequence of calls
    returns, and in the state that it leads to the best bid is below the
    best ask when both ladders are non-empty. *)
Lemma uncrossed_run clock ops :
  Forall valid_op ops ->
  exists evs st,
    run clock ops OrderBook.init = Ok (evs, st) /\ uncrossed st.
Proof.
  intros Hv.
  destruct (run_keeps clock ops OrderBook.init wf_init counters_init Hv)
    as (evs & st & Hrun & Hwf & _).
  exists evs, st. split; [done|]. intros b a Hb Ha.
  unfold OrderBook.get_best_bid in Hb. unfold OrderBook.get_best_ask in Ha.
  destruct (OrderBook.bids_ st) as [|[kb lb] bids] eqn:Eb; [done|].
  destruct (OrderBook.asks_ st) as [|[ka la] asks] eqn:Ea; [done|].
  injection Hb as <-. injection Ha as <-.
  apply (ok_apart _ _ _ _ _ Hwf kb ka); rewrite ?Eb, ?Ea; left.
Qed.

(** * Aggregates *)

Lemma heavy_level_reachable :
  reachable clock0 (state_after clock0 heavy_level_ops).
Proof.
  apply reachable_state_after. repeat constructor; unfold in_u64; lia.
Qed.

(** Over the integers the aggregate can differ from the sum: two buys of
    2^63 at one price leave a level whose aggregate is 0. *)
Lemma aggregate_wraps :
  reachable clock0 (state_after clock0 heavy_level_ops)
  /\ ~ aggregate_exact (state_after clock0 heavy_level_ops).
Proof.
  split; [apply heavy_level_reachable|]. intros H.
  specialize (H (100, PriceLevel.mk 100 0 [Some 0%nat; Some 1%nat])).
  assert (Hb : OrderBook.bids_ (state_after clock0 heavy_level_ops)
               = [(100, PriceLevel.mk 100 0 [Some 0%nat; Some 1%nat])])
    by (vm_compute; reflexivity).
  rewrite Hb in H. specialize (H ltac:(left)).
  vm_compute in H. discriminate H.
Qed.

(** C4, in the form that the code meets.
    At every point between the operations of the engine,
    the aggregate of every level of either ladder is the sum of what
    remains of the orders of its queue, modulo 2^64; and this relation
    between a level and the heap is kept by [add_order], [remove_order],
    [pop_front_order], and by [update_quantity] when it follows the fill
    in place of the front order. *)
Theorem aggregate_consistency :
  (forall clock ops,
      Forall valid_op ops ->
      exists evs st,
        run clock ops OrderBook.init = Ok (evs, st)
        /\ forall kl,
             kl ∈ OrderBook.bids_ st ++ OrderBook.asks_ st ->
             PriceLevel.total_quantity_ kl.2
             = u64 (sum_remaining (OrderBook.heap_ st)
                      (PriceLevel.orders_ kl.2)))
  /\ (forall h lv p,
        p = None \/ valid_ptr h p ->
        level_consistent h lv ->
        exists lv',
          PriceLevel.add_order h lv p = Ok lv' /\ level_consistent h lv')
  /\ (forall h lv order_id,
        Forall (valid_ptr h) (PriceLevel.orders_ lv) ->
        level_consistent h lv ->
        exists found lv',
          PriceLevel.remove_order h lv order_id = Ok (found, lv')
          /\ level_consistent h lv')
  /\ (forall h lv,
        Forall (valid_ptr h) (PriceLevel.orders_ lv) ->
        level_consistent h lv ->
        exists lv',
          PriceLevel.pop_front_order h lv = Ok lv'
          /\ level_consistent h lv')
  /\ (forall h lv r q o o',
        PriceLevel.orders_ lv = Some r :: q ->
        Some r ∉ q ->
        h !! r = Some o ->
        level_consistent h lv ->
        level_consistent (store h r o')
          (PriceLevel.update_quantity lv (Order.get_remaining_qty o)
             (Order.get_remaining_qty o'))).
Proof.
  split_and!.
  - intros clock ops Hv.
    destruct (run_keeps clock ops OrderBook.init wf_init counters_init Hv)
      as (evs & st & Hrun & Hwf & _).
    exists evs, st. split; [done|]. intros kl Hin.
    apply elem_of_app in Hin as [Hin | Hin].
    + pose proof (ok_own _ _ _ _ _ Hwf) as Hall.
      rewrite Forall_forall in Hall. by destruct (Hall _ Hin) as (_ & _ & ?).
    + pose proof (ok_opp _ _ _ _ _ Hwf) as Hall.
      rewrite Forall_forall in Hall. by destruct (Hall _ Hin) as (_ & _ & ?).
  - intros h lv p Hp Hc.
    assert (Hrun : exists lv', PriceLevel.add_order h lv p = Ok lv').
    { destruct Hp as [-> | (o & Ho)]; [by eexists|].
      destruct (deref_Ok _ _ _ Ho) as (a & -> & Ha).
      eexists. by apply add_order_valid. }
    destruct Hrun as (lv' & Hrun). exists lv'. split; [done|].
    by eapply add_order_consistent.
  - intros h lv order_id Hv Hc. eexists _, _.
    split; [by apply remove_order_spec|].
    eapply remove_order_consistent; [done | done |].
    by apply remove_order_spec.
  - intros h lv Hv Hc.
    assert (Hrun : exists lv', PriceLevel.pop_front_order h lv = Ok lv').
    { destruct (PriceLevel.orders_ lv) as [|p q] eqn:Eq.
      - unfold PriceLevel.pop_front_order. rewrite Eq. by eexists.
      - apply Forall_cons in Hv as [(o & Ho) _].
        destruct (deref_Ok _ _ _ Ho) as (a & -> & Ha).
        eexists. by eapply pop_front_order_valid. }
    destruct Hrun as (lv' & Hrun). exists lv'. split; [done|].
    by eapply pop_front_order_consistent.
  - apply update_quantity_consistent.
Qed.

Lemma aggregate_consistency_witness :
  level_consistent
    (store twin_heap 0 (Order.mk 7 0 100 10 4 BUY LIMIT PARTIALLY_FILLED))
    (PriceLevel.update_quantity twin_level
       (Order.get_remaining_qty (Order.mk 7 0 100 10 0 BUY LIMIT NEW))
       (Order.get_remaining_qty
          (Order.mk 7 0 100 10 4 BUY LIMIT PARTIALLY_FILLED))).
Proof.
  apply (proj2 (proj2 (proj2 (proj2 aggregate_consistency)))
           twin_heap twin_level 0%nat [Some 1%nat]
           (Order.mk 7 0 100 10 0 BUY LIMIT NEW)
           (Order.mk 7 0 100 10 4 BUY LIMIT PARTIALLY_FILLED)).
  - reflexivity.
  - intros Hin. apply list_elem_of_singleton in Hin. discriminate Hin.
  - reflexivity.
  - vm_compute. reflexivity.
Defined.

(** * Removal from a level *)

Lemma filter_none_all {A} (f : A -> bool) (l : list A) :
  filter (fun x => f x = true) l = [] -> filter (fun x => f x = false) l = l.
Proof.
  induction l as [|x l IH]; [done|]. destruct (f x) eqn:E.
  - rewrite filter_cons_True by done. discriminate.
  - rewrite filter_cons_False by (rewrite E; discriminate).
    rewrite filter_cons_True by done. intros H. f_equal. auto.
Qed.

Lemma remove_first_filter h order_id q :
  (length (filter (fun p => has_id h order_id p = true) q) <= 1)%nat ->
  filter (fun p => has_id h order_id p = false) q = remove_first h order_id q.
Proof.
  induction q as [|p q IH]; [done|]. simpl. destruct (has_id h order_id p) eqn:E.
  - rewrite filter_cons_True by done.
    rewrite filter_cons_False by (rewrite E; discriminate). simpl. intros H.
    apply filter_none_all. apply length_zero_iff_nil. lia.
  - rewrite filter_cons_False by (rewrite E; discriminate).
    rewrite filter_cons_True by done. intros H. f_equal. auto.
Qed.

Lemma filter_only h order_id q p :
  (length (filter (fun p => has_id h order_id p = true) q) <= 1)%nat ->
  p ∈ q -> has_id h order_id p = true ->
  filter (fun p => has_id h order_id p = true) q = [p].
Proof.
  intros Hlen Hin Hp.
  assert (Hf : p ∈ filter (fun p => has_id h order_id p = true) q)
    by (by apply list_elem_of_filter).
  destruct (filter _ q) as [|x [|y l]]; simpl in Hlen.
  - by apply elem_of_nil in Hf.
  - apply list_elem_of_singleton in Hf. by subst.
  - lia.
Qed.

Lemma existsb_elem_of {A} (f : A -> bool) (l : list A) :
  existsb f l = true <-> exists x, x ∈ l /\ f x = true.
Proof.
  rewrite existsb_exists. split; intros (x & Hx & Hf); exists x; split;
    try done; by apply list_elem_of_In.
Qed.

(** A level that queues two orders of one id loses both on removal. *)
Lemma remove_order_takes_every_twin :
  PriceLevel.remove_order twin_heap twin_level 7
  = Ok (true, PriceLevel.mk 100 0 [])
  /\ PriceLevel.orders_ (PriceLevel.mk 100 0 [])
     <> remove_first twin_heap 7 (PriceLevel.orders_ twin_level)
  /\ PriceLevel.total_quantity_ (PriceLevel.mk 100 0 [])
     <> PriceLevel.total_quantity_ twin_level - 10.
Proof. split_and!; [by vm_compute | by vm_compute | by vm_compute]. Qed.

(** C9, in the form that the code meets.
    On a level whose queue holds pointers to orders,
    [remove_order] scans the queue once and removes every entry with the
    id, keeping the other entries in their order; it decreases the
    aggregate, modulo 2^64, by the sum of what remains of the removed
    orders; and it returns true if and only if an entry with the id was
    in the queue.  When at most one entry has the id, the queue that is
    left is the queue without its first entry with the id and the
    aggregate is decreased by what remains of that order. *)
Theorem remove_order_removes_the_id h lv order_id :
  Forall (valid_ptr h) (PriceLevel.orders_ lv) ->
  exists found lv',
    PriceLevel.remove_order h lv order_id = Ok (found, lv')
    /\ (found = true <->
        exists p, p ∈ PriceLevel.orders_ lv /\ has_id h order_id p = true)
    /\ PriceLevel.price_ lv' = PriceLevel.price_ lv
    /\ PriceLevel.orders_ lv'
       = filter (fun p => has_id h order_id p = false) (PriceLevel.orders_ lv)
    /\ PriceLevel.total_quantity_ lv'
       = (if found
          then u64 (PriceLevel.total_quantity_ lv
                    - sum_remaining h
                        (filter (fun p => has_id h order_id p = true)
                           (PriceLevel.orders_ lv)))
          else PriceLevel.total_quantity_ lv)
    /\ ((length (filter (fun p => has_id h order_id p = true)
                   (PriceLevel.orders_ lv)) <= 1)%nat ->
        PriceLevel.orders_ lv'
        = remove_first h order_id (PriceLevel.orders_ lv)
        /\ forall p,
             p ∈ PriceLevel.orders_ lv -> has_id h order_id p = true ->
             PriceLevel.total_quantity_ lv'
             = u64 (PriceLevel.total_quantity_ lv - remaining_at h p)).
Proof.
  intros Hv. eexists _, _. split; [by apply remove_order_spec|].
  split_and!; try done.
  - apply existsb_elem_of.
  - intros Hlen. cbn [PriceLevel.orders_ PriceLevel.total_quantity_].
    split; [by apply remove_first_filter|].
    intros p Hin Hp.
    assert (Hex : existsb (has_id h order_id) (PriceLevel.orders_ lv) = true)
      by (apply existsb_elem_of; eauto).
    rewrite Hex, (filter_only _ _ _ _ Hlen Hin Hp). simpl. f_equal. lia.
Qed.

Lemma remove_order_removes_the_id_witness :
  exists found lv',
    PriceLevel.remove_order twin_heap twin_level 7 = Ok (found, lv')
    /\ (found = true <->
        exists p, p ∈ PriceLevel.orders_ twin_level /\ has_id twin_heap 7 p = true)
    /\ PriceLevel.price_ lv' = PriceLevel.price_ twin_level
    /\ PriceLevel.orders_ lv'
       = filter (fun p => has_id twin_heap 7 p = false)
           (PriceLevel.orders_ twin_level)
    /\ PriceLevel.total_quantity_ lv'
       = (if found
          then u64 (PriceLevel.total_quantity_ twin_level
                    - sum_remaining twin_heap
                        (filter (fun p => has_id twin_heap 7 p = true)
                           (PriceLevel.orders_ twin_level)))
          else PriceLevel.total_quantity_ twin_level)
    /\ ((length (filter (fun p => has_id twin_heap 7 p = true)
                   (PriceLevel.orders_ twin_level)) <= 1)%nat ->
        PriceLevel.orders_ lv'
        = remove_first twin_heap 7 (PriceLevel.orders_ twin_level)
        /\ forall p,
             p ∈ PriceLevel.orders_ twin_level -> has_id twin_heap 7 p = true ->
             PriceLevel.total_quantity_ lv'
             = u64 (PriceLevel.total_quantity_ twin_level
                    - remaining_at twin_heap p)).
Proof.
  apply (remove_order_removes_the_id twin_heap twin_level 7).
  repeat constructor; eexists; reflexivity.
Defined.

(** * Volume *)

(** Over the integers the volume counter can differ from the volume
    traded: four orders of 2^63 trade 2^64 in all and leave the counter
    at 0. *)
Lemma total_volume_wraps :
  Forall valid_op heavy_trade_ops
  /\ OrderBook.get_total_volume (state_after clock0 heavy_trade_ops)
     <> volume (since_clear [] (events_of clock0 heavy_trade_ops)).
Proof.
  split; [repeat constructor; unfold in_u64; lia|].
  vm_compute. discriminate.
Qed.

(** C2, in the form that the code meets.
    At every point between operations the volume counter
    is the sum of the quantities of the trades made since the last
    [clear], modulo 2^64.  An accepted add raises the counter by the sum
    of the quantities of its trades, modulo 2^64, each trade being
    counted once; each trade raises [filled_qty] of the resting order
    that it names by exactly its quantity; and [filled_qty] of the
    incoming order, which every trade names on the side of that order,
    ends as the sum of the quantities of the trades.  A market order
    through [add_market_order] is the same add. *)
Theorem fills_are_conserved :
  (forall clock ops,
      Forall valid_op ops ->
      exists evs st,
        run clock ops OrderBook.init = Ok (evs, st)
        /\ OrderBook.get_total_volume st
           = u64 (volume (since_clear [] evs)))
  /\ (forall clock price quantity side type st,
        reachable clock st -> in_u64 quantity ->
        ~ rejected price quantity type ->
        exists id trades st',
          OrderBook.add_order_body clock price quantity side type st
          = Ok (id, trades, st')
          /\ OrderBook.total_volume_ st'
             = u64 (OrderBook.total_volume_ st + volume trades)
          /\ (forall j t,
                trades !! j = Some t ->
                exists a o0 o,
                  resting (OrderBook.opposite side st) !! j = Some (Some a)
                  /\ OrderBook.heap_ st !! a = Some o0
                  /\ OrderBook.heap_ st' !! a = Some o
                  /\ match side with
                     | BUY => Trade.sell_order_id t
                     | SELL => Trade.buy_order_id t
                     end = Order.get_id o0
                  /\ match side with
                     | BUY => Trade.buy_order_id t
                     | SELL => Trade.sell_order_id t
                     end = id
                  /\ Order.filled_qty_ o
                     = Order.filled_qty_ o0 + Trade.quantity t)
          /\ (exists oi,
                OrderBook.heap_ st !! length (OrderBook.heap_ st) = None
                /\ OrderBook.heap_ st' !! length (OrderBook.heap_ st)
                   = Some oi
                /\ Order.get_id oi = id
                /\ Order.filled_qty_ oi = volume trades)
          /\ (type = MARKET -> price = 0 ->
              OrderBook.add_market_order clock quantity side st
              = Ok (trades, st'))).
Proof.
  split.
  - intros clock ops Hv.
    destruct (run_keeps clock ops OrderBook.init wf_init counters_init Hv)
      as (evs & st & Hrun & _).
    exists evs, st. split; [done|].
    destruct (run_facts clock ops OrderBook.init evs st wf_init counters_init
                Hv Hrun) as (_ & _ & _ & _ & Hvol).
    by apply Hvol.
  - intros clock price quantity side type st
      [Hwf Hc]%reachable_inv Hq Hnr.
    destruct (accepted_add_trades clock price quantity side type st)
      as (trades & st' & oi & Hrun & _ & _ & Hoi & Hsame & Hfilled & _);
      try done.
    exists (OrderBook.next_order_id_ st), trades, st'.
    split_and!; try done.
    + destruct (accepted_add clock price quantity side type st)
        as (trades' & st1 & Hrun' & _ & _ & _ & _ & Hvol & _); try done.
      rewrite Hrun in Hrun'. by injection Hrun' as -> ->.
    + intros j t Hj.
      destruct (accepted_add_each_trade clock _ _ _ _ _ _ _ _ Hwf Hc Hq Hnr
                  Hrun j t Hj)
        as (a & o0 & o & lv & H1 & H2 & _ & _ & _ & _ & _ & _ & H9 & H10
            & H11 & H12).
      exists a, o0, o. split_and!; try done; by destruct side.
    + exists oi. split_and!; try done.
      * apply lookup_ge_None. lia.
      * exact (proj1 Hsame).
    + intros -> ->.
      apply (market_as_add clock _ _ _ (OrderBook.next_order_id_ st));
        try done.
      unfold rejected in Hnr. lia.
Qed.

Lemma fills_are_conserved_witness :
  exists evs st,
    run clock0 heavy_trade_ops OrderBook.init = Ok (evs, st)
    /\ OrderBook.get_total_volume st = u64 (volume (since_clear [] evs)).
Proof.
  apply (proj1 fills_are_conserved clock0 heavy_trade_ops).
  repeat constructor; unfold in_u64; lia.
Defined.

(** * What is left of an order after matching *)

(** On integer prices: the order of an accepted add is the one
    constructed at the end of the heap.  When it is a MARKET order (through [add_order], or
    through [add_market_order], which is the same add), or when nothing
    remains of it, no ladder queues it and no entry of the index leads
    to it after the add, whatever remains: the index gains no entry and
    the ladder of its side is as before.  When it is a LIMIT order of
    which something remains after matching (its status is then not
    CANCELLED), the index has it under its id and it is queued last in
    the level of its own price in the ladder of its side, a level that
    is created when the ladder had none at that price. *)
Lemma accepted_add_rests clock price quantity side type st :
  reachable clock st -> in_u64 quantity ->
  ~ rejected price quantity type ->
  exists id trades st' oi,
    OrderBook.add_order_body clock price quantity side type st
    = Ok (id, trades, st')
    /\ OrderBook.heap_ st' !! length (OrderBook.heap_ st) = Some oi
    /\ Order.get_id oi = id
    /\ Order.price_ oi = price /\ Order.side_ oi = side
    /\ Order.type_ oi = type /\ Order.status_ oi <> CANCELLED
    /\ (type = MARKET \/ Order.get_remaining_qty oi = 0 ->
        (Some (length (OrderBook.heap_ st))
           ∉ resting (OrderBook.bids_ st') ++ resting (OrderBook.asks_ st'))
        /\ (forall id', OrderBook.order_map_ st' !! id'
                        <> Some (Some (length (OrderBook.heap_ st))))
        /\ OrderBook.order_map_ st' ⊆ OrderBook.order_map_ st
        /\ own side st' = own side st)
    /\ (type = LIMIT -> 0 < Order.get_remaining_qty oi ->
        OrderBook.order_map_ st' !! id
        = Some (Some (length (OrderBook.heap_ st)))
        /\ exists lv,
             map_find (before_of side) price (own side st') = Some lv
             /\ (price, lv) ∈ own side st'
             /\ PriceLevel.price_ lv = price
             /\ PriceLevel.orders_ lv
                = match map_find (before_of side) price (own side st) with
                  | Some lv0 => PriceLevel.orders_ lv0
                  | None => []
                  end ++ [Some (length (OrderBook.heap_ st))])
    /\ (type = MARKET -> price = 0 ->
        OrderBook.add_market_order clock quantity side st = Ok (trades, st')).
Proof.
  intros [Hwf Hc]%reachable_inv Hq Hnr.
  destruct (accepted_add_residual clock price quantity side type st)
    as (trades & st' & oi & Hrun & Hoi & Hprice & Hside & Htype & Hst & _
        & Hdrop & Hrest); try done.
  destruct (accepted_add_trades clock price quantity side type st)
    as (trades' & st1 & oi' & Hrun' & _ & _ & Hoi' & Hsame & _); try done.
  rewrite Hrun in Hrun'. injection Hrun' as <- <-.
  rewrite Hoi in Hoi'. injection Hoi' as <-.
  exists (OrderBook.next_order_id_ st), trades, st', oi.
  split_and!; try done.
  - exact (proj1 Hsame).
  - intros Hty Hpos. destruct (Hrest Hty Hpos) as (Hidx & lv & Hf & Hlv).
    split; [done|]. exists lv. split; [done|]. split; [|done].
    by eapply map_find_Some.
  - intros -> ->.
    apply (market_as_add clock _ _ _ (OrderBook.next_order_id_ st));
      try done.
    unfold rejected in Hnr. lia.
Qed.

(** * Cancellation *)

Lemma has_id_cancelled h a o :
  h !! a = Some o ->
  has_id (store h a (cancelled o)) (Order.order_id_ o) (Some a) = true.
Proof.
  intros Ho. unfold has_id.
  rewrite (deref_Some _ a (cancelled o))
    by (apply store_lookup_eq; by eapply lookup_lt_Some).
  apply Z.eqb_refl.
Qed.

(** On integer prices: [cancel_order] returns false and leaves the state
    as it is when the id is not in the index.  Otherwise the index leads
    to an order with that id, queued in the level [lv] of its price in
    the ladder of its side, which is [ma ++ (price, lv) :: mb] with no
    other level of that price; [cancel_order] sets the status of that
    order to CANCELLED, removes it from that level, and leaves the
    ladder [ma ++ mb] when the level is left empty and the ladder with
    the level so changed otherwise; the order is then queued nowhere,
    the other ladder is as it was, the id is no longer in the index,
    which has one entry less, and what is returned is what
    [remove_order] of the level reported, which is true.  After either,
    [cancel_order] on the same id returns false and changes nothing. *)
Lemma cancel_order_removes clock order_id st :
  reachable clock st ->
  exists removed st',
    OrderBook.cancel_order order_id st = Ok (removed, st')
    /\ (OrderBook.order_map_ st !! order_id = None ->
        removed = false /\ st' = st)
    /\ (forall p,
          OrderBook.order_map_ st !! order_id = Some p ->
          exists a o lv ma mb,
            p = Some a /\ OrderBook.heap_ st !! a = Some o
            /\ Order.get_id o = order_id
            /\ map_find (before_of (Order.side_ o)) (Order.price_ o)
                 (own (Order.side_ o) st) = Some lv
            /\ Some a ∈ PriceLevel.orders_ lv
            /\ OrderBook.heap_ st'
               = store (OrderBook.heap_ st) a (cancelled o)
            /\ Order.status_ (cancelled o) = CANCELLED
            /\ PriceLevel.remove_order (OrderBook.heap_ st') lv order_id
               = Ok (removed,
                     level_without (OrderBook.heap_ st') order_id lv)
            /\ removed = true
            /\ (Some a
                ∉ PriceLevel.orders_
                    (level_without (OrderBook.heap_ st') order_id lv))
            /\ own (Order.side_ o) st'
               = (if PriceLevel.empty
                       (level_without (OrderBook.heap_ st') order_id lv)
                  then map_erase (before_of (Order.side_ o))
                         (Order.price_ o) (own (Order.side_ o) st)
                  else map_assign (before_of (Order.side_ o))
                         (Order.price_ o)
                         (level_without (OrderBook.heap_ st') order_id lv)
                         (own (Order.side_ o) st))
            /\ own (Order.side_ o) st = ma ++ (Order.price_ o, lv) :: mb
            /\ (Order.price_ o ∉ keys (ma ++ mb))
            /\ own (Order.side_ o) st'
               = (if PriceLevel.empty
                       (level_without (OrderBook.heap_ st') order_id lv)
                  then ma ++ mb
                  else ma
                       ++ (Order.price_ o,
                           level_without (OrderBook.heap_ st') order_id lv)
                       :: mb)
            /\ (Some a
                ∉ resting (OrderBook.bids_ st')
                  ++ resting (OrderBook.asks_ st'))
            /\ OrderBook.opposite (Order.side_ o) st'
               = OrderBook.opposite (Order.side_ o) st
            /\ OrderBook.order_map_ st'
               = delete order_id (OrderBook.order_map_ st)
            /\ S (OrderBook.get_total_orders st')
               = OrderBook.get_total_orders st)
    /\ OrderBook.cancel_order order_id st' = Ok (false, st').
Proof.
  intros [Hwf _]%reachable_inv.
  destruct (OrderBook.order_map_ st !! order_id) as [p|] eqn:Hlook.
  - destruct (cancel_order_spec _ _ _ Hwf Hlook)
      as (a & o & -> & Ho & Hlive & Hid & _ & Hrun & _).
    exists true, (cancel_state st order_id a o).
    assert (Hheap : OrderBook.heap_ (cancel_state st order_id a o)
                    = store (OrderBook.heap_ st) a (cancelled o))
      by (unfold cancel_state; by destruct (Order.side_ o)).
    assert (Hindex : OrderBook.order_map_ (cancel_state st order_id a o)
                     = delete order_id (OrderBook.order_map_ st))
      by (unfold cancel_state; by destruct (Order.side_ o)).
    split_and!; [done | done | |].
    + intros p [= <-]. subst order_id.
      pose proof Hwf as Hb. apply (wf_book_ok (Order.side_ o)) in Hb.
      destruct (book_ok_cancel _ _ _ _ _ _ _ Hb Hlook Ho eq_refl)
        as ((lv & Hfind & Hin & Hvalid & Hfound) & _ & _).
      destruct (ladder_split (Order.side_ o) (Order.price_ o)
                  (own (Order.side_ o) st)) as (ma & mb & Hma & Hsplit).
      destruct Hsplit
        as [(Hnone & _) | (lv' & Hf' & Hown_eq & Hassign & Herase)];
        [congruence|].
      assert (lv' = lv) as -> by congruence. clear Hf'.
      pose proof (ok_own_sorted _ _ _ _ _ Hb) as Hsorted.
      rewrite Hown_eq in Hsorted.
      apply keys_sorted_mid in Hsorted as (_ & _ & Hbefore & Hafter & _).
      pose proof (ok_nodup _ _ _ _ _ Hb) as Hnd.
      rewrite Hown_eq, resting_app in Hnd. cbn [resting] in Hnd.
      assert (Hgone : Some a
                      ∉ PriceLevel.orders_
                          (level_without
                             (store (OrderBook.heap_ st) a (cancelled o))
                             (Order.order_id_ o) lv)).
      { unfold level_without. cbn [PriceLevel.orders_].
        intros [Hn _]%list_elem_of_filter.
        rewrite (has_id_cancelled _ _ _ Ho) in Hn. discriminate. }
      assert (Hown : own (Order.side_ o)
                       (cancel_state st (Order.order_id_ o) a o)
                     = ladder_without (before_of (Order.side_ o))
                         (store (OrderBook.heap_ st) a (cancelled o))
                         (Order.order_id_ o) (Order.price_ o)
                         (own (Order.side_ o) st))
        by (unfold cancel_state; by destruct (Order.side_ o)).
      assert (Hopp : OrderBook.opposite (Order.side_ o)
                       (cancel_state st (Order.order_id_ o) a o)
                     = OrderBook.opposite (Order.side_ o) st)
        by (unfold cancel_state; by destruct (Order.side_ o)).
      exists a, o, lv, ma, mb. rewrite Hheap.
      split_and!; try done.
      * rewrite (remove_order_spec _ _ _ Hvalid). unfold level_without.
        by rewrite Hfound.
      * rewrite Hown. unfold ladder_without. by rewrite Hfind.
      * unfold keys. intros Hk. apply list_elem_of_fmap in Hk as (x & Hx & Hk).
        apply elem_of_app in Hk as [Hk | Hk].
        -- rewrite Forall_forall in Hbefore. specialize (Hbefore _ Hk).
           by rewrite <- Hx, before_of_irrefl in Hbefore.
        -- rewrite Forall_forall in Hafter. specialize (Hafter _ Hk).
           by rewrite <- Hx, before_of_irrefl in Hafter.
      * rewrite Hown. unfold ladder_without. rewrite Hfind.
        by rewrite Herase, Hassign.
      * rewrite (resting_sides (Order.side_ o)), Hopp, Hown.
        unfold ladder_without. rewrite Hfind, Herase, Hassign.
        rewrite <- !app_assoc in Hnd.
        apply NoDup_app in Hnd as (_ & Hd1 & Hnd).
        apply NoDup_app in Hnd as (_ & Hd2 & _).
        assert (Hnotma : Some a ∉ resting ma).
        { intros Hin'. apply (Hd1 _ Hin'). apply elem_of_app. by left. }
        assert (Hnotmb : Some a ∉ resting mb ++ resting
                           (OrderBook.opposite (Order.side_ o) st))
          by (by apply Hd2).
        rewrite not_elem_of_app in Hnotmb. destruct Hnotmb as [Hnotmb Hnotopp].
        destruct (PriceLevel.empty _); rewrite resting_app;
          cbn [resting]; rewrite !not_elem_of_app; by split_and!.
      * unfold OrderBook.get_total_orders.
        rewrite Hindex, map_size_delete, Hlook. simpl.
        assert (size (OrderBook.order_map_ st) <> 0%nat); [|lia].
        intros H0. apply map_size_empty_inv in H0.
        rewrite H0 in Hlook. by rewrite lookup_empty in Hlook.
    + apply cancel_order_absent. rewrite Hindex. apply lookup_delete_eq.
  - exists false, st. rewrite (cancel_order_absent _ _ Hlook).
    by split_and!.
Qed.

(** * Rejection and issuance *)

Lemma add_order_body_rejected clock price quantity side type st :
  rejected price quantity type ->
  OrderBook.add_order_body clock price quantity side type st
  = Ok (0, [], st).
Proof.
  unfold rejected, OrderBook.add_order_body. intros H.
  destruct (quantity =? 0) eqn:E1; [done|].
  destruct (price <? 0) eqn:E2; [done|].
  destruct type; simpl.
  - destruct H as [? | [? | [? _]]]; try lia. discriminate.
  - destruct (price <=? 0) eqn:E3; [done|].
    destruct H as [? | [? | [_ ?]]]; lia.
Qed.

Lemma u64_all_ids : u64 (1 + Z.of_nat all_ids) = 0.
Proof. unfold all_ids. rewrite Z2Nat.id by lia. by vm_compute. Qed.

Lemma wrapped_next_order_id :
  OrderBook.next_order_id_ (state_after clock0 (idle_ops all_ids)) = 0.
Proof.
  unfold idle_ops.
  destruct (idle_run_ids clock0 all_ids) as (_ & -> & _).
  apply u64_all_ids.
Qed.

(** Once 2^64 - 1 ids were issued the next accepted order is given the
    id 0. *)
Lemma accepted_add_returns_zero :
  reachable clock0 (state_after clock0 (idle_ops all_ids))
  /\ ~ rejected 100 1 LIMIT
  /\ exists st',
       OrderBook.add_order clock0 100 1 BUY LIMIT
         (state_after clock0 (idle_ops all_ids))
       = Ok (0, st').
Proof.
  destruct (idle_run_ids clock0 all_ids) as (_ & _ & Hreach).
  assert (Hnr : ~ rejected 100 1 LIMIT) by (unfold rejected; lia).
  split_and!; try done.
  destruct (reachable_inv _ _ Hreach) as [Hwf Hc].
  destruct (accepted_add clock0 100 1 BUY LIMIT _ Hwf Hc)
    as (trades & st' & Hrun & _); [unfold in_u64; lia | done |].
  exists st'. unfold OrderBook.add_order. fold (idle_ops all_ids) in Hrun.
  rewrite Hrun. cbn [bind]. by rewrite wrapped_next_order_id.
Qed.

(** C6, in the form that the code meets.
    [add_order] returns 0, with no trade and the state as
    it was, when [quantity] is 0, or [price < 0], or the type is LIMIT
    and [price <= 0]: it returns (no exception escapes) and no [Order]
    is constructed.  For other parameters it returns the id of the
    engine's counter, constructs one [Order] with that id and changes
    the state, so that a return of 0 with the state unchanged tells a
    rejection exactly; the id returned is 1 plus the number of ids issued
    before, modulo 2^64, and it is at least 1 as long as fewer than
    2^64 - 1 ids were issued before. *)
Theorem rejection_sentinel clock price quantity side type st :
  (rejected price quantity type ->
   OrderBook.add_order_body clock price quantity side type st
   = Ok (0, [], st)
   /\ OrderBook.add_order clock price quantity side type st = Ok (0, st)
   /\ issued_between st st = [])
  /\ (forall ops evs,
        Forall valid_op ops ->
        run clock ops OrderBook.init = Ok (evs, st) ->
        in_u64 quantity ->
        ~ rejected price quantity type ->
        exists trades st',
          OrderBook.add_order_body clock price quantity side type st
          = Ok (OrderBook.next_order_id_ st, trades, st')
          /\ OrderBook.add_order clock price quantity side type st
             = Ok (OrderBook.next_order_id_ st, st')
          /\ st' <> st
          /\ issued_between st st' = [OrderBook.next_order_id_ st]
          /\ OrderBook.next_order_id_ st
             = u64 (1 + Z.of_nat (length (issued_ids evs)))
          /\ (Z.of_nat (length (issued_ids evs)) < 2 ^ 64 - 1 ->
              1 <= OrderBook.next_order_id_ st)).
Proof.
  split.
  - intros Hr. unfold OrderBook.add_order.
    rewrite (add_order_body_rejected _ _ _ _ _ _ Hr).
    split_and!; try done. unfold issued_between. by rewrite drop_all.
  - intros ops evs Hv Hrun Hq Hnr.
    assert (Hreach : reachable clock st) by (by exists ops, evs).
    destruct (reachable_inv _ _ Hreach) as [Hwf Hc].
    destruct (accepted_add clock price quantity side type st Hwf Hc Hq Hnr)
      as (trades & st' & Hbody & Hissued & Hnext & _).
    destruct (run_facts clock ops OrderBook.init evs st wf_init counters_init
                Hv Hrun) as (_ & Hid & _).
    change (OrderBook.next_order_id_ OrderBook.init) with 1 in Hid.
    exists trades, st'. split_and!; try done.
    + unfold OrderBook.add_order. by rewrite Hbody.
    + intros ->. destruct Hc as (Hc & _).
      by apply (u64_succ_ne _ Hc).
    + intros Hn. rewrite Hid. rewrite u64_small; unfold in_u64; lia.
Qed.

Lemma rejection_sentinel_witness :
  OrderBook.add_order_body clock0 0 5 BUY LIMIT OrderBook.init
  = Ok (0, [], OrderBook.init)
  /\ OrderBook.add_order clock0 0 5 BUY LIMIT OrderBook.init
     = Ok (0, OrderBook.init)
  /\ issued_between OrderBook.init OrderBook.init = [].
Proof.
  apply (proj1 (rejection_sentinel clock0 0 5 BUY LIMIT OrderBook.init)).
  unfold rejected. right. right. split; [reflexivity | lia].
Defined.

Lemma idle_ops_valid n : Forall valid_op (idle_ops n).
Proof.
  unfold idle_ops. apply Forall_replicate. unfold valid_op, in_u64. lia.
Qed.

(** The 2^64-th id issued is 0, which is below the first. *)
Lemma issued_ids_turn_over :
  Forall valid_op (idle_ops (S all_ids))
  /\ ~ strictly_increasing
         (issued_ids (events_of clock0 (idle_ops (S all_ids)))).
Proof.
  split; [apply idle_ops_valid|]. unfold idle_ops.
  destruct (idle_run_ids clock0 (S all_ids)) as (-> & _).
  intros H. specialize (H 0%nat all_ids 1 0).
  assert (Hpos : (0 < all_ids)%nat) by (unfold all_ids; lia).
  rewrite !consecutive_lookup in H by lia.
  rewrite u64_all_ids in H. specialize (H Hpos eq_refl eq_refl). lia.
Qed.

(** C8, in the form that the code meets.
    [clear] leaves both ladders and the index empty and
    the counters of trades and of volume at 0, and it leaves
    [next_order_id_] and [next_trade_id_] as they were.  Over a run of
    the engine from its construction, with its calls of [clear], the
    order ids issued are strictly increasing as long as fewer than 2^64
    of them were issued, and so are the trade ids. *)
Theorem clear_keeps_the_id_counters :
  (forall st,
      OrderBook.bids_ (OrderBook.clear st) = []
      /\ OrderBook.asks_ (OrderBook.clear st) = []
      /\ OrderBook.order_map_ (OrderBook.clear st) = ∅
      /\ OrderBook.get_total_trades (OrderBook.clear st) = 0
      /\ OrderBook.get_total_volume (OrderBook.clear st) = 0
      /\ OrderBook.next_order_id_ (OrderBook.clear st)
         = OrderBook.next_order_id_ st
      /\ OrderBook.next_trade_id_ (OrderBook.clear st)
         = OrderBook.next_trade_id_ st)
  /\ (forall clock ops,
        Forall valid_op ops ->
        exists evs st,
          run clock ops OrderBook.init = Ok (evs, st)
          /\ (Z.of_nat (length (issued_ids evs)) < 2 ^ 64 ->
              strictly_increasing (issued_ids evs))
          /\ (Z.of_nat (length (traded evs)) < 2 ^ 64 ->
              strictly_increasing (map Trade.trade_id (traded evs)))).
Proof.
  split; [done|]. intros clock ops Hv.
  destruct (run_keeps clock ops OrderBook.init wf_init counters_init Hv)
    as (evs & st & Hrun & _).
  exists evs, st. split; [done|].
  destruct (run_facts clock ops OrderBook.init evs st wf_init counters_init
              Hv Hrun) as (Hids & _ & Htrades & _).
  change (OrderBook.next_order_id_ OrderBook.init) with 1 in Hids.
  change (OrderBook.next_trade_id_ OrderBook.init) with 1 in Htrades.
  split; intros Hn.
  - rewrite Hids. apply consecutive_increasing; lia.
  - rewrite Htrades. apply consecutive_increasing; lia.
Qed.

Lemma clear_keeps_the_id_counters_witness :
  exists evs st,
    run clock0 (two_sided_ops ++ Clear :: two_sided_ops) OrderBook.init
    = Ok (evs, st)
    /\ (Z.of_nat (length (issued_ids evs)) < 2 ^ 64 ->
        strictly_increasing (issued_ids evs))
    /\ (Z.of_nat (length (traded evs)) < 2 ^ 64 ->
        strictly_increasing (map Trade.trade_id (traded evs))).
Proof.
  apply (proj2 clear_keeps_the_id_counters clock0
           (two_sided_ops ++ Clear :: two_sided_ops)).
  repeat constructor; unfold in_u64; lia.
Defined.

(** The ids issued are not the integers 1, 2, 3, ...: the 2^64-th is 0. *)
Lemma issued_ids_leave_the_integers :
  Forall valid_op (idle_ops (S all_ids))
  /\ issued_ids (events_of clock0 (idle_ops (S all_ids)))
     <> integers_from 1 (S all_ids).
Proof.
  split; [apply idle_ops_valid|]. unfold idle_ops.
  destruct (idle_run_ids clock0 (S all_ids)) as (-> & _).
  intros H. apply (f_equal (fun l => l !! all_ids)) in H.
  rewrite consecutive_lookup in H by lia.
  unfold integers_from in H.
  rewrite list_lookup_fmap, lookup_seq_lt in H by lia.
  cbn [fmap option_fmap option_map] in H. rewrite Nat.add_0_l in H.
  rewrite u64_all_ids in H.
  assert (H' : 0 = 1 + Z.of_nat all_ids) by congruence. lia.
Qed.

(** C10, in the form that the code meets.
    Over a run of the engine from its construction the
    order ids issued are the consecutive 64-bit values from 1 on, that
    is, the [j]-th (from 0) is [1 + j] modulo 2^64, the integer [1 + j]
    as long as [j < 2^64 - 1]; and the trade ids are, likewise, the
    consecutive 64-bit values from 1 on, one for each trade.  Each
    operation that constructs an order (an [add_order] that is not
    rejected, an [add_market_order] of a quantity that is not 0) issues
    the id of the counter and advances the counter by 1 modulo 2^64; any
    other operation (a rejected [add_order], an [add_market_order] of
    quantity 0, [cancel_order], [clear]) issues no id and leaves the
    counter as it is. *)
Theorem ids_are_consecutive clock ops :
  Forall valid_op ops ->
  exists evs st,
    run clock ops OrderBook.init = Ok (evs, st)
    /\ issued_ids evs = consecutive 1 (length (issued_ids evs))
    /\ (forall j id,
          issued_ids evs !! j = Some id -> Z.of_nat j < 2 ^ 64 - 1 ->
          id = 1 + Z.of_nat j)
    /\ OrderBook.next_order_id_ st
       = u64 (1 + Z.of_nat (length (issued_ids evs)))
    /\ map Trade.trade_id (traded evs)
       = consecutive 1 (length (traded evs))
    /\ (forall j t,
          traded evs !! j = Some t -> Z.of_nat j < 2 ^ 64 - 1 ->
          Trade.trade_id t = 1 + Z.of_nat j)
    /\ OrderBook.next_trade_id_ st
       = u64 (1 + Z.of_nat (length (traded evs)))
    /\ (forall o,
          valid_op o ->
          exists evs1 st1,
            step clock o st = Ok (evs1, st1)
            /\ issued_ids evs1
               = (if consumes_id o then [OrderBook.next_order_id_ st]
                  else [])
            /\ OrderBook.next_order_id_ st1
               = (if consumes_id o
                  then u64 (OrderBook.next_order_id_ st + 1)
                  else OrderBook.next_order_id_ st)
            /\ map Trade.trade_id (traded evs1)
               = consecutive (OrderBook.next_trade_id_ st)
                   (length (traded evs1))).
Proof.
  intros Hv.
  destruct (run_keeps clock ops OrderBook.init wf_init counters_init Hv)
    as (evs & st & Hrun & Hwf & Hc).
  exists evs, st. split; [done|].
  destruct (run_facts clock ops OrderBook.init evs st wf_init counters_init
              Hv Hrun) as (Hids & Hnext & Htrades & Hnextt & _).
  change (OrderBook.next_order_id_ OrderBook.init) with 1 in Hids, Hnext.
  change (OrderBook.next_trade_id_ OrderBook.init) with 1 in Htrades, Hnextt.
  split_and!; try done.
  - intros j id Hj Hlt.
    assert (Hlen : (j < length (issued_ids evs))%nat)
      by (by eapply lookup_lt_Some).
    rewrite Hids, consecutive_lookup in Hj by done.
    injection Hj as <-. apply u64_small. unfold in_u64. lia.
  - intros j t Hj Hlt.
    assert (Hj' : map Trade.trade_id (traded evs) !! j
                  = Some (Trade.trade_id t))
      by (by rewrite list_lookup_fmap, Hj).
    assert (Hlen : (j < length (traded evs))%nat)
      by (by eapply lookup_lt_Some).
    rewrite Htrades, consecutive_lookup in Hj' by done.
    injection Hj' as <-. apply u64_small. unfold in_u64. lia.
  - intros o Ho.
    destruct (step_keeps clock o st Hwf Hc Ho) as (evs1 & st1 & Hstep & _).
    exists evs1, st1. split; [done|].
    destruct (step_facts clock o st evs1 st1 Hwf Hc Ho Hstep)
      as (H1 & H2 & _).
    split_and!; try done.
    assert (Hone : run clock [o] st = Ok (evs1 ++ [], st1))
      by (simpl; by rewrite Hstep).
    rewrite app_nil_r in Hone.
    by destruct (run_facts clock [o] st evs1 st1 Hwf Hc
                   ltac:(by constructor) Hone) as (_ & _ & ? & _).
Qed.

Lemma ids_are_consecutive_witness :
  exists evs st,
    run clock0 heavy_trade_ops OrderBook.init = Ok (evs, st)
    /\ issued_ids evs = consecutive 1 (length (issued_ids evs)).
Proof.
  destruct (ids_are_consecutive clock0 heavy_trade_ops)
    as (evs & st & Hrun & Hids & _).
  - repeat constructor; unfold in_u64; lia.
  - exists evs, st. split; [exact Hrun | exact Hids].
Defined.

(** * Further properties: one order *)

Lemma make_order_ok ts id price qty side type o :
  Order.make ts id price qty side type = Ok o -> in_u64 qty ->
  order_ok o
  /\ o = Order.mk id ts price qty 0 side type NEW.
Proof.
  unfold Order.make, in_u64. intros H Hq.
  destruct (qty =? 0) eqn:E0; [discriminate|].
  destruct (price <? 0); [discriminate|].
  destruct (OrderType_eqb type LIMIT && (price <=? 0)); [discriminate|].
  injection H as <-. split; [|done].
  unfold order_ok. simpl. split_and!; try lia; try done.
  split; [discriminate | lia].
Qed.

Lemma fill_Ok o qty o' :
  Order.fill o qty = Ok o' ->
  o' = o
  \/ (qty <> 0
      /\ u64 (Order.filled_qty_ o + qty) <= Order.quantity_ o
      /\ Order.status_ o <> CANCELLED /\ Order.status_ o <> FILLED
      /\ o' = Order.set_fill o (u64 (Order.filled_qty_ o + qty))
                (if u64 (Order.filled_qty_ o + qty) =? Order.quantity_ o
                 then FILLED else PARTIALLY_FILLED)).
Proof.
  unfold Order.fill.
  destruct (qty =? 0) eqn:E0; [intros [= <-]; by left|].
  destruct (u64 (Order.filled_qty_ o + qty) >? Order.quantity_ o) eqn:E1;
    [discriminate|].
  destruct (Order.status_ o) eqn:Es; simpl; try discriminate;
    destruct (u64 (Order.filled_qty_ o + qty) =? Order.quantity_ o) eqn:E2;
    intros [= <-]; right; split_and!; try done; lia.
Qed.

Lemma call_order_ok o c : order_ok o -> order_ok (call_order o c).
Proof.
  intros (Hf & Hq & Hfull & Hnew). destruct c as [qty|]; simpl.
  - destruct (Order.fill o qty) as [o'|e] eqn:E; [|done].
    apply fill_Ok in E as [-> | (Hq0 & Hle & Hc & Hfl & ->)]; [done|].
    pose proof (u64_range (Order.filled_qty_ o + qty)) as Hr.
    unfold in_u64 in Hr. unfold order_ok. simpl.
    destruct (u64 (Order.filled_qty_ o + qty) =? Order.quantity_ o) eqn:E2;
      split_and!; try lia; try done; split; try done; lia.
  - unfold Order.cancel.
    destruct (Order.status_ o) eqn:Es; simpl;
      unfold order_ok; simpl; rewrite ?Es; split_and!; try lia; try done;
      split; try done; intros Heq; apply Hfull in Heq; discriminate.
Qed.

Lemma call_order_same o c : same_order o (call_order o c).
Proof.
  destruct c as [qty|]; simpl.
  - destruct (Order.fill o qty) as [o'|e] eqn:E; [|done].
    by apply fill_Ok in E as [-> | (_ & _ & _ & _ & ->)].
  - unfold Order.cancel.
    by destruct (OrderStatus_eqb (Order.status_ o) NEW
                 || OrderStatus_eqb (Order.status_ o) PARTIALLY_FILLED).
Qed.

Lemma same_order_trans o1 o2 o3 :
  same_order o1 o2 -> same_order o2 o3 -> same_order o1 o3.
Proof. unfold same_order. intros H1 H2. split_and!; by etrans; [apply H2 | apply H1]. Qed.

(** X1. An order constructed by [Order::Order] keeps, through every
    sequence of [fill] and [cancel] calls, whether they throw or not:
    its id, timestamp, price, quantity, side and type;
    [0 <= filled_qty <= quantity]; the status FILLED exactly when
    [filled_qty = quantity], which is when [is_fully_filled] is true; and
    the status NEW only with [filled_qty = 0].  [get_remaining_qty] is
    then the integer [quantity - filled_qty]. *)
Theorem order_keeps_its_invariant ts id price qty side type o0 cs :
  Order.make ts id price qty side type = Ok o0 ->
  in_u64 qty ->
  same_order o0 (fold_left call_order cs o0)
  /\ 0 <= Order.filled_qty_ (fold_left call_order cs o0)
     <= Order.quantity_ (fold_left call_order cs o0)
  /\ (Order.status_ (fold_left call_order cs o0) = FILLED
      <-> Order.filled_qty_ (fold_left call_order cs o0)
          = Order.quantity_ (fold_left call_order cs o0))
  /\ (Order.is_fully_filled (fold_left call_order cs o0) = true
      <-> Order.status_ (fold_left call_order cs o0) = FILLED)
  /\ (Order.status_ (fold_left call_order cs o0) = NEW ->
      Order.filled_qty_ (fold_left call_order cs o0) = 0)
  /\ Order.get_remaining_qty (fold_left call_order cs o0)
     = Order.quantity_ (fold_left call_order cs o0)
       - Order.filled_qty_ (fold_left call_order cs o0).
Proof.
  intros Hmake Hq.
  destruct (make_order_ok _ _ _ _ _ _ _ Hmake Hq) as [Hok _].
  assert (Hall : forall o, order_ok o ->
            order_ok (fold_left call_order cs o)
            /\ same_order o (fold_left call_order cs o)).
  { induction cs as [|c cs IH]; intros o Ho; simpl.
    - split; [done|]. by unfold same_order.
    - destruct (IH (call_order o c) (call_order_ok _ c Ho)) as [H1 H2].
      split; [done|].
      eapply same_order_trans; [apply call_order_same | done]. }
  destruct (Hall o0 Hok) as [(Hf & Hqq & Hfull & Hnew) Hsame].
  split_and!; try done; try lia.
  - unfold Order.is_fully_filled. rewrite Z.eqb_eq. by rewrite Hfull.
  - unfold Order.get_remaining_qty. apply u64_small. unfold in_u64. lia.
Qed.

Lemma order_keeps_its_invariant_witness :
  same_order (Order.mk 7 0 100 10 0 BUY LIMIT NEW)
    (fold_left call_order [CallFill 4; CallFill 20; CallCancel; CallFill 1]
       (Order.mk 7 0 100 10 0 BUY LIMIT NEW))
  /\ 0 <= Order.filled_qty_
            (fold_left call_order [CallFill 4; CallFill 20; CallCancel; CallFill 1]
               (Order.mk 7 0 100 10 0 BUY LIMIT NEW))
     <= Order.quantity_
          (fold_left call_order [CallFill 4; CallFill 20; CallCancel; CallFill 1]
             (Order.mk 7 0 100 10 0 BUY LIMIT NEW)).
Proof.
  destruct (order_keeps_its_invariant 0 7 100 10 BUY LIMIT
              (Order.mk 7 0 100 10 0 BUY LIMIT NEW)
              [CallFill 4; CallFill 20; CallCancel; CallFill 1])
    as (H1 & H2 & _).
  - reflexivity.
  - unfold in_u64. lia.
  - split; [exact H1 | exact H2].
Defined.

(** X2. A FILLED or CANCELLED order is final: [cancel] does nothing to
    it, [fill] of a quantity that is not 0 throws, and whatever sequence
    of [fill] and [cancel] calls follows, the order stays as it is. *)
Theorem terminal_order_is_final o :
  terminal o ->
  Order.cancel o = o
  /\ (forall qty, qty <> 0 -> exists e, Order.fill o qty = Err e)
  /\ forall cs, fold_left call_order cs o = o.
Proof.
  intros Ht.
  assert (Hc : Order.cancel o = o)
    by (unfold Order.cancel; by destruct Ht as [-> | ->]).
  assert (Hf : forall qty, qty <> 0 -> exists e, Order.fill o qty = Err e).
  { intros qty Hq. unfold Order.fill.
    destruct (qty =? 0) eqn:E0; [lia|].
    destruct (u64 (Order.filled_qty_ o + qty) >? Order.quantity_ o);
      [by eexists|].
    destruct Ht as [-> | ->]; by eexists. }
  split_and!; [done | done |].
  induction cs as [|c cs IH]; [done|]. simpl.
  assert (call_order o c = o) as ->; [|done].
  destruct c as [qty|]; simpl; [|done].
  destruct (Z.eq_dec qty 0) as [-> | Hq]; [done|].
  by destruct (Hf qty Hq) as (e & ->).
Qed.

Lemma terminal_order_is_final_witness :
  fold_left call_order [CallFill 3; CallCancel; CallFill 0]
    (Order.mk 7 0 100 10 4 BUY LIMIT CANCELLED)
  = Order.mk 7 0 100 10 4 BUY LIMIT CANCELLED.
Proof.
  apply (terminal_order_is_final (Order.mk 7 0 100 10 4 BUY LIMIT CANCELLED)).
  right. reflexivity.
Defined.

(** X3. The outcomes of [fill] on an order that the class keeps
    ([0 <= filled_qty <= quantity < 2^64], FILLED exactly when nothing
    remains), for a quantity [qty] with [filled_qty + qty < 2^64]:
    [fill(0)] changes nothing, whatever the status; a quantity above what
    remains throws [invalid_argument], and this is what a FILLED order
    answers to every quantity that is not 0; a quantity within what
    remains throws [logic_error] on a CANCELLED order; and on a NEW or
    PARTIALLY_FILLED order it raises [filled_qty] by [qty] and lowers what
    remains by [qty], the status becoming FILLED when nothing remains and
    PARTIALLY_FILLED otherwise. *)
Theorem fill_outcomes o qty :
  order_ok o -> 0 <= qty -> Order.filled_qty_ o + qty < 2 ^ 64 ->
  (qty = 0 -> Order.fill o qty = Ok o)
  /\ (Order.get_remaining_qty o < qty ->
      Order.fill o qty = Err invalid_argument)
  /\ (Order.status_ o = FILLED -> 0 < qty ->
      Order.fill o qty = Err invalid_argument)
  /\ (0 < qty <= Order.get_remaining_qty o ->
      Order.status_ o = CANCELLED ->
      Order.fill o qty = Err logic_error)
  /\ (0 < qty <= Order.get_remaining_qty o ->
      Order.status_ o = NEW \/ Order.status_ o = PARTIALLY_FILLED ->
      exists o',
        Order.fill o qty = Ok o'
        /\ same_order o o'
        /\ Order.filled_qty_ o' = Order.filled_qty_ o + qty
        /\ Order.get_remaining_qty o' = Order.get_remaining_qty o - qty
        /\ Order.status_ o'
           = (if Order.get_remaining_qty o' =? 0
              then FILLED else PARTIALLY_FILLED)).
Proof.
  intros (Hf & Hq & Hfull & Hnew) Hq0 Hnw.
  assert (Hrem : Order.get_remaining_qty o
                 = Order.quantity_ o - Order.filled_qty_ o)
    by (unfold Order.get_remaining_qty; apply u64_small; unfold in_u64; lia).
  assert (Hsum : u64 (Order.filled_qty_ o + qty) = Order.filled_qty_ o + qty)
    by (apply u64_small; unfold in_u64; lia).
  assert (Hover : Order.get_remaining_qty o < qty ->
                  Order.fill o qty = Err invalid_argument).
  { intros Hlt. unfold Order.fill. rewrite Hsum.
    destruct (qty =? 0) eqn:E0; [lia|].
    by destruct (Order.filled_qty_ o + qty >? Order.quantity_ o) eqn:E1;
      [|lia]. }
  split_and!; try done.
  - intros ->. done.
  - intros Hst Hpos. apply Hover. apply Hfull in Hst. lia.
  - intros Hin Hst. unfold Order.fill. rewrite Hsum, Hst.
    destruct (qty =? 0) eqn:E0; [lia|].
    by destruct (Order.filled_qty_ o + qty >? Order.quantity_ o) eqn:E1;
      [lia|].
  - intros Hin Hst.
    rewrite (fill_within o qty) by (try lia; done).
    eexists. split; [done|]. split; [by unfold same_order|].
    split; [done|]. rewrite Hrem. unfold Order.get_remaining_qty. simpl.
    rewrite u64_small by (unfold in_u64; lia).
    split; [lia|].
    destruct (Order.filled_qty_ o + qty =? Order.quantity_ o) eqn:E1;
      destruct (Order.quantity_ o - (Order.filled_qty_ o + qty) =? 0) eqn:E2;
      try done; lia.
Qed.

Lemma fill_outcomes_witness :
  Order.fill (Order.mk 7 0 100 10 10 BUY LIMIT FILLED) 1
  = Err invalid_argument.
Proof.
  assert (Hok : order_ok (Order.mk 7 0 100 10 10 BUY LIMIT FILLED)).
  { unfold order_ok. simpl. split_and!; try lia; try done. }
  assert (H0 : 0 <= 1) by lia.
  assert (Hnw : Order.filled_qty_ (Order.mk 7 0 100 10 10 BUY LIMIT FILLED) + 1
                < 2 ^ 64) by (simpl; lia).
  assert (H1 : 0 < 1) by lia.
  exact (proj1 (proj2 (proj2 (fill_outcomes _ 1 Hok H0 Hnw))) eq_refl H1).
Defined.

(** * Further properties: one price level *)

Lemma add_orders_spec h ps :
  Forall (valid_ptr h) ps ->
  forall lv,
    in_u64 (PriceLevel.total_quantity_ lv) ->
    add_orders h lv ps
    = Ok (PriceLevel.mk (PriceLevel.price_ lv)
            (u64 (PriceLevel.total_quantity_ lv + sum_remaining h ps))
            (PriceLevel.orders_ lv ++ ps)).
Proof.
  induction 1 as [|p ps (o & Ho) _ IH]; intros lv Ht; simpl.
  - rewrite Z.add_0_r, u64_small, app_nil_r by done. by destruct lv.
  - destruct (deref_Ok _ _ _ Ho) as (a & -> & Ha).
    rewrite (add_order_valid _ _ _ _ Ha). cbn [bind].
    rewrite IH by apply u64_range. simpl.
    rewrite (remaining_at_valid _ _ _ Ha), u64_add_l, <- app_assoc.
    simpl. by rewrite Z.add_assoc.
Qed.

(** X4. First in, first out: [add_order] for each of a list of orders,
    on a new level, gives the level that queues them in that order, at
    the price of the level, with their number as its count and the sum of
    what remains of them, modulo 2^64, as its aggregate;
    [get_front_order] is then the first that was added, and
    [pop_front_order] leaves the level that the others alone would have
    given. *)
Theorem level_is_first_in_first_out h price ps :
  Forall (valid_ptr h) ps ->
  exists lv,
    add_orders h (PriceLevel.make price) ps = Ok lv
    /\ PriceLevel.orders_ lv = ps
    /\ PriceLevel.get_price lv = price
    /\ PriceLevel.get_order_count lv = length ps
    /\ PriceLevel.get_total_quantity lv = u64 (sum_remaining h ps)
    /\ PriceLevel.empty lv = (if ps is [] then true else false)
    /\ forall p ps',
         ps = p :: ps' ->
         PriceLevel.get_front_order lv = p
         /\ PriceLevel.pop_front_order h lv
            = add_orders h (PriceLevel.make price) ps'.
Proof.
  intros Hv. eexists. split.
  { apply add_orders_spec; [done|]. unfold in_u64. simpl. lia. }
  simpl. split_and!; try done.
  intros p ps' ->. split; [done|].
  apply Forall_cons in Hv as [(o & Ho) Hv'].
  destruct (deref_Ok _ _ _ Ho) as (a & -> & Ha).
  rewrite (pop_front_order_valid _ _ a o ps') by done.
  rewrite add_orders_spec by (try done; unfold in_u64; simpl; lia).
  simpl. rewrite (remaining_at_valid _ _ _ Ha), u64_sub_l.
  do 3 f_equal. lia.
Qed.

Lemma level_is_first_in_first_out_witness :
  exists lv,
    add_orders twin_heap (PriceLevel.make 100) [Some 1%nat; Some 0%nat]
    = Ok lv
    /\ PriceLevel.orders_ lv = [Some 1%nat; Some 0%nat].
Proof.
  destruct (level_is_first_in_first_out twin_heap 100
              [Some 1%nat; Some 0%nat])
    as (lv & Hrun & Hq & _).
  - repeat constructor; eexists; reflexivity.
  - exists lv. split; [exact Hrun | exact Hq].
Defined.

Lemma filter_has_id_none h order_id (q : list ptr) :
  (forall p, p ∈ q -> has_id h order_id p = false) ->
  existsb (has_id h order_id) q = false
  /\ filter (fun p => has_id h order_id p = false) q = q
  /\ filter (fun p => has_id h order_id p = true) q = [].
Proof.
  intros Hall.
  assert (Hex : existsb (has_id h order_id) q = false).
  { apply not_true_iff_false. intros Hex.
    apply existsb_exists in Hex as (p & Hin & Hp).
    apply list_elem_of_In in Hin. rewrite (Hall p Hin) in Hp. discriminate. }
  split_and!; [done | by apply filter_existsb_true
              | by apply filter_existsb_false].
Qed.

(** X5. [remove_order] for an id that no queued order has returns false
    and leaves the level as it is; and after [add_order] of an order
    with that id it returns true and gives the level back as it was
    before the [add_order]: queue, price and aggregate. *)
Theorem remove_order_undoes_add_order h lv a o :
  Forall (valid_ptr h) (PriceLevel.orders_ lv) ->
  in_u64 (PriceLevel.total_quantity_ lv) ->
  h !! a = Some o ->
  (forall p, p ∈ PriceLevel.orders_ lv ->
             has_id h (Order.get_id o) p = false) ->
  PriceLevel.remove_order h lv (Order.get_id o) = Ok (false, lv)
  /\ exists lv1,
       PriceLevel.add_order h lv (Some a) = Ok lv1
       /\ PriceLevel.remove_order h lv1 (Order.get_id o) = Ok (true, lv).
Proof.
  intros Hv Ht Ha Hnone.
  destruct (filter_has_id_none _ _ _ Hnone) as (Hex & Hkeep & Hdrop).
  assert (Hself : has_id h (Order.get_id o) (Some a) = true).
  { unfold has_id. rewrite (deref_Some _ _ _ Ha). apply Z.eqb_refl. }
  split.
  - rewrite (remove_order_spec _ _ _ Hv), Hex, Hkeep. by destruct lv.
  - eexists. split; [by apply add_order_valid|].
    rewrite remove_order_spec; simpl.
    2:{ apply Forall_app. split; [done|]. repeat constructor.
        exists o. by apply deref_Some. }
    rewrite existsb_app, Hex. simpl. rewrite Hself. simpl.
    rewrite !filter_app, Hkeep, Hdrop.
    rewrite (filter_cons_True _ (Some a) []) by done.
    rewrite (filter_cons_False _ (Some a) [])
      by (rewrite Hself; discriminate).
    rewrite !filter_nil, app_nil_r. simpl.
    rewrite (remaining_at_valid _ _ _ Ha), u64_sub_l.
    replace (PriceLevel.total_quantity_ lv + Order.get_remaining_qty o
             - (Order.get_remaining_qty o + 0))
      with (PriceLevel.total_quantity_ lv) by lia.
    rewrite u64_small by done. by destruct lv.
Qed.

Lemma remove_order_undoes_add_order_witness :
  PriceLevel.remove_order pair_heap pair_level 8 = Ok (false, pair_level)
  /\ exists lv1,
       PriceLevel.add_order pair_heap pair_level (Some 1%nat) = Ok lv1
       /\ PriceLevel.remove_order pair_heap lv1 8 = Ok (true, pair_level).
Proof.
  apply (remove_order_undoes_add_order pair_heap pair_level 1%nat
           (Order.mk 8 0 100 20 0 BUY LIMIT NEW)).
  - repeat constructor. by exists (Order.mk 7 0 100 10 0 BUY LIMIT NEW).
  - unfold in_u64. simpl. lia.
  - reflexivity.
  - intros p Hp. apply list_elem_of_singleton in Hp as ->. reflexivity.
Defined.

(** X6. [update_quantity(old, new)] moves the aggregate by [new - old]
    modulo 2^64, whichever of its two branches is taken, and touches
    neither the price nor the queue; so [update_quantity(new, old)]
    undoes it, and [update_quantity(q, q)] does nothing. *)
Theorem update_quantity_is_a_net_move lv old_remaining new_remaining :
  in_u64 (PriceLevel.total_quantity_ lv) ->
  PriceLevel.update_quantity lv old_remaining new_remaining
  = PriceLevel.mk (PriceLevel.price_ lv)
      (u64 (PriceLevel.total_quantity_ lv + new_remaining - old_remaining))
      (PriceLevel.orders_ lv)
  /\ PriceLevel.update_quantity
       (PriceLevel.update_quantity lv old_remaining new_remaining)
       new_remaining old_remaining
     = lv
  /\ PriceLevel.update_quantity lv old_remaining old_remaining = lv.
Proof.
  intros Ht.
  assert (Hnet : forall lv' a b,
            PriceLevel.update_quantity lv' a b
            = PriceLevel.mk (PriceLevel.price_ lv')
                (u64 (PriceLevel.total_quantity_ lv' + b - a))
                (PriceLevel.orders_ lv')).
  { intros lv' a b. unfold PriceLevel.update_quantity.
    destruct (a >=? b); do 2 f_equal; lia. }
  split_and!.
  - apply Hnet.
  - rewrite !Hnet. simpl. rewrite <- Z.add_sub_assoc, u64_add_l.
    replace (PriceLevel.total_quantity_ lv + new_remaining - old_remaining
             + (old_remaining - new_remaining))
      with (PriceLevel.total_quantity_ lv) by lia.
    rewrite u64_small by done. by destruct lv.
  - rewrite Hnet.
    replace (PriceLevel.total_quantity_ lv + old_remaining - old_remaining)
      with (PriceLevel.total_quantity_ lv) by lia.
    rewrite u64_small by done. by destruct lv.
Qed.

Lemma update_quantity_is_a_net_move_witness :
  PriceLevel.update_quantity
    (PriceLevel.update_quantity twin_level 10 4) 4 10
  = twin_level.
Proof.
  apply (update_quantity_is_a_net_move twin_level 10 4).
  unfold in_u64. simpl. lia.
Defined.

(** * Further properties: the book between two calls *)

Section Runs.

Variable clock : nat -> Z.

(** A property of the log and the state that every call keeps holds
    after every run. *)
Lemma run_fold (P : list event -> OrderBook.t -> Prop) :
  (forall o acc st evs st',
      wf st -> counters_ok st -> valid_op o -> P acc st ->
      step clock o st = Ok (evs, st') -> P (acc ++ evs) st') ->
  forall ops st0 acc evs st',
    wf st0 -> counters_ok st0 -> Forall valid_op ops -> P acc st0 ->
    run clock ops st0 = Ok (evs, st') -> P (acc ++ evs) st'.
Proof.
  intros Hstep ops. induction ops as [|o ops IH];
    intros st0 acc evs st' Hwf Hc Hv HP Hrun; simpl in Hrun.
  - injection Hrun as <- <-. by rewrite app_nil_r.
  - apply Forall_cons in Hv as [Ho Hv].
    destruct (step_keeps clock o st0 Hwf Hc Ho)
      as (evs1 & st1 & Hs & Hwf1 & Hc1).
    rewrite Hs in Hrun. cbn [bind] in Hrun.
    destruct (run clock ops st1) as [[evs2 st2]|] eqn:Hrun2;
      [|discriminate].
    cbn [bind] in Hrun. injection Hrun as <- <-.
    rewrite app_assoc. apply (IH st1); try done.
    by apply (Hstep o acc st0).
Qed.

Lemma run_state (P : OrderBook.t -> Prop) :
  P OrderBook.init ->
  (forall o st evs st',
      wf st -> counters_ok st -> valid_op o -> P st ->
      step clock o st = Ok (evs, st') -> P st') ->
  forall ops,
    Forall valid_op ops ->
    exists evs st,
      run clock ops OrderBook.init = Ok (evs, st)
      /\ wf st /\ counters_ok st /\ P st.
Proof.
  intros Hinit Hstep ops Hv.
  destruct (run_keeps clock ops OrderBook.init wf_init counters_init Hv)
    as (evs & st & Hrun & Hwf & Hc).
  exists evs, st. split_and!; try done.
  apply (run_fold (fun _ st => P st)
           (fun o acc st evs st' => Hstep o st evs st')
           ops OrderBook.init [] evs st wf_init counters_init Hv Hinit Hrun).
Qed.

(** The counter of trades, call by call. *)
Lemma step_total_trades o st evs st' :
  wf st -> counters_ok st -> valid_op o ->
  step clock o st = Ok (evs, st') ->
  OrderBook.total_trades_ st'
  = (if is_clear o then 0
     else u64 (OrderBook.total_trades_ st + Z.of_nat (length (traded evs)))).
Proof.
  intros Hwf Hc Hv Hstep.
  assert (Hsame : st' = st -> evs = [] -> is_clear o = false ->
            OrderBook.total_trades_ st'
            = (if is_clear o then 0
               else u64 (OrderBook.total_trades_ st
                         + Z.of_nat (length (traded evs))))).
  { intros -> -> ->. simpl. destruct Hc as (_ & _ & Ht & _).
    by rewrite Z.add_0_r, u64_small. }
  destruct o as [price quantity side type | quantity side | order_id |];
    simpl in Hv, Hstep.
  - destruct (rejected_dec price quantity type) as [Hr | Hnr].
    + assert (Hrun : OrderBook.add_order_body clock price quantity side type
                       st = Ok (0, [], st)).
      { unfold OrderBook.add_order_body.
        destruct Hr as [-> | [Hp | [-> Hp]]]; [done | |].
        - destruct (quantity =? 0); [done|].
          by destruct (price <? 0) eqn:E; [|lia].
        - destruct (quantity =? 0); [done|].
          destruct (price <? 0); [done|]. simpl.
          by destruct (price <=? 0) eqn:E; [|lia]. }
      rewrite Hrun in Hstep. cbn [bind] in Hstep.
      injection Hstep as <- <-. apply Hsame; try done.
      unfold issued_between. by rewrite drop_all.
    + apply not_rejected in Hnr.
      destruct (accepted_add clock price quantity side type st)
        as (trades & st1 & Hrun & _ & _ & _ & _ & _ & Htt); try done.
      rewrite Hrun in Hstep. cbn [bind] in Hstep.
      injection Hstep as <- <-.
      by rewrite traded_app, traded_Issued, traded_Traded.
  - destruct (Z.eq_dec quantity 0) as [-> | Hq0].
    + simpl in Hstep. injection Hstep as <- <-. apply Hsame; try done.
      unfold issued_between. by rewrite drop_all.
    + destruct (add_market_order_spec clock quantity side st)
        as (trades & st2 & _ & _ & _ & _ & Hrun & Hbody); try done.
      assert (Hnr : ~ rejected 0 quantity MARKET).
      { apply not_rejected. split_and!; [done | lia | done]. }
      destruct (accepted_add clock 0 quantity side MARKET st)
        as (trades' & st1 & Hrun' & _ & _ & _ & _ & _ & Htt); try done.
      rewrite Hbody in Hrun'. injection Hrun' as <- <-.
      rewrite Hrun in Hstep. cbn [bind] in Hstep.
      injection Hstep as <- <-.
      by rewrite traded_app, traded_Issued, traded_Traded.
  - destruct (OrderBook.order_map_ st !! order_id) as [p|] eqn:Hl.
    + destruct (cancel_order_spec _ _ _ Hwf Hl)
        as (a & o & _ & _ & _ & _ & _ & Hrun & _).
      rewrite Hrun in Hstep. cbn [bind] in Hstep.
      injection Hstep as <- <-.
      destruct (cancel_state_frame st order_id a o) as (_ & _ & _ & E4).
      rewrite E4. simpl. destruct Hc as (_ & _ & Ht & _).
      by rewrite Z.add_0_r, u64_small.
    + rewrite (cancel_order_absent _ _ Hl) in Hstep. cbn [bind] in Hstep.
      injection Hstep as <- <-. by apply Hsame.
  - by injection Hstep as <- <-.
Qed.

End Runs.

(** X7. At every point between two calls [get_total_trades] is the
    number of trades made since the last [clear] (since the construction
    when there was none), modulo 2^64. *)
Theorem total_trades_counts_the_trades clock ops :
  Forall valid_op ops ->
  exists evs st,
    run clock ops OrderBook.init = Ok (evs, st)
    /\ OrderBook.get_total_trades st = u64 (trades_since_clear evs).
Proof.
  intros Hv.
  destruct (run_keeps clock ops OrderBook.init wf_init counters_init Hv)
    as (evs & st & Hrun & _).
  exists evs, st. split; [done|].
  refine (run_fold clock
            (fun evs st =>
               OrderBook.get_total_trades st = u64 (trades_since_clear evs))
            _ ops OrderBook.init [] evs st wf_init counters_init Hv _ Hrun);
    [|done].
  clear. intros o acc st evs st' Hwf Hc Ho HP Hstep.
  unfold OrderBook.get_total_trades, trades_since_clear in *.
  rewrite (step_total_trades clock o st evs st' Hwf Hc Ho Hstep).
  destruct (step_facts clock o st evs st' Hwf Hc Ho Hstep)
    as (_ & _ & _ & _ & _ & Hs).
  rewrite since_clear_app, Hs.
  destruct (is_clear o); [done|].
  rewrite HP, u64_add_l, length_app. f_equal. lia.
Qed.

Lemma total_trades_counts_the_trades_witness :
  exists evs st,
    run clock0 heavy_trade_ops OrderBook.init = Ok (evs, st)
    /\ OrderBook.get_total_trades st = u64 (trades_since_clear evs).
Proof.
  apply (total_trades_counts_the_trades clock0 heavy_trade_ops).
  repeat constructor; unfold in_u64; lia.
Defined.

Lemma keys_sorted_lookup before (m : ladder) i j x y :
  keys_sorted before m -> (i < j)%nat ->
  m !! i = Some x -> m !! j = Some y -> before x.1 y.1 = true.
Proof.
  intros Hs. revert i j. induction Hs as [|z m Hs IH Hall];
    intros i j Hij Hi Hj; [by rewrite lookup_nil in Hi|].
  destruct j as [|j]; [lia|]. simpl in Hj.
  destruct i as [|i]; simpl in Hi.
  - injection Hi as ->. rewrite Forall_forall in Hall.
    apply Hall. by eapply list_elem_of_lookup_2.
  - apply (IH i j); [lia | done | done].
Qed.

(** On integer prices, at every point between two calls, every order
    queued in a level of a ladder is an order of the side of the ladder
    and of the price of the level, it is NEW or PARTIALLY_FILLED, and
    something remains of it: a FILLED or CANCELLED order is never in the
    book. No order is queued twice, and every id of the index leads to
    an order of that id that is queued in the level of its price on its
    side. *)
Lemma queued_working_run clock ops :
  Forall valid_op ops ->
  exists evs st,
    run clock ops OrderBook.init = Ok (evs, st)
    /\ (forall s k lv p,
          (k, lv) ∈ own s st -> p ∈ PriceLevel.orders_ lv ->
          PriceLevel.get_price lv = k
          /\ exists a o,
               p = Some a /\ OrderBook.heap_ st !! a = Some o
               /\ Order.get_side o = s /\ Order.get_price o = k
               /\ (Order.get_status o = NEW
                   \/ Order.get_status o = PARTIALLY_FILLED)
               /\ 0 < Order.get_remaining_qty o)
    /\ NoDup (resting (OrderBook.bids_ st) ++ resting (OrderBook.asks_ st))
    /\ (forall id p,
          OrderBook.order_map_ st !! id = Some p ->
          exists a o lv,
            p = Some a /\ OrderBook.heap_ st !! a = Some o
            /\ Order.get_id o = id
            /\ (Order.get_price o, lv) ∈ own (Order.get_side o) st
            /\ p ∈ PriceLevel.orders_ lv).
Proof.
  intros Hv.
  destruct (run_keeps clock ops OrderBook.init wf_init counters_init Hv)
    as (evs & st & Hrun & Hwf & _).
  exists evs, st. split; [done|].
  assert (Hlevels : forall s k lv p,
            (k, lv) ∈ own s st -> p ∈ PriceLevel.orders_ lv ->
            PriceLevel.price_ lv = k
            /\ exists a o,
                 p = Some a /\ OrderBook.heap_ st !! a = Some o
                 /\ live o /\ Order.side_ o = s /\ Order.price_ o = k).
  { intros s k lv p Hin Hp.
    pose proof Hwf as Hb. apply (wf_book_ok s) in Hb.
    pose proof (ok_own _ _ _ _ _ Hb) as Hall.
    rewrite Forall_forall in Hall.
    destruct (Hall _ Hin) as (Hprice & Hq & _). simpl in Hprice, Hq.
    rewrite Forall_forall in Hq. split; [done|].
    destruct (Hq _ Hp) as (a & o & -> & Ho & Hl & Hs & Hk). eauto 10. }
  split_and!.
  - intros s k lv p Hin Hp.
    destruct (Hlevels s k lv p Hin Hp)
      as (Hprice & a & o & -> & Ho & Hl & Hs & Hk).
    split; [done|]. exists a, o. split_and!; try done.
    + apply Hl.
    + by destruct (live_remaining _ Hl).
  - apply (ok_nodup _ _ _ _ _ Hwf).
  - intros id p Hid.
    destruct (ok_index _ _ _ _ _ Hwf _ _ Hid) as (Hin & a & o & -> & Ho & Hoid).
    apply elem_of_app in Hin as [Hin | Hin];
      apply elem_of_resting in Hin as ([k lv] & Hkl & Hp); simpl in Hp.
    + destruct (Hlevels BUY k lv _ Hkl Hp)
        as (_ & a' & o' & [= <-] & Ho' & _ & Hs & Hk).
      assert (o' = o) as -> by congruence.
      exists a, o, lv. unfold Order.get_price, Order.get_side.
      rewrite Hs, Hk. by split_and!.
    + destruct (Hlevels SELL k lv _ Hkl Hp)
        as (_ & a' & o' & [= <-] & Ho' & _ & Hs & Hk).
      assert (o' = o) as -> by congruence.
      exists a, o, lv. unfold Order.get_price, Order.get_side.
      rewrite Hs, Hk. by split_and!.
Qed.

(** X9. At every point between two calls the entries of the bid ladder
    are in strictly descending order of price and those of the ask
    ladder in strictly ascending order, so that level 0 is the best
    price; [get_bid_depth_at_level] and [get_ask_depth_at_level] return
    0 for a level that the ladder does not have, and otherwise the sum of
    what remains of the orders queued at that level, modulo 2^64. *)
Theorem depth_is_the_sum_at_the_level clock ops :
  Forall valid_op ops ->
  exists evs st,
    run clock ops OrderBook.init = Ok (evs, st)
    /\ (forall i j x y,
          (i < j)%nat ->
          (OrderBook.bids_ st !! i = Some x ->
           OrderBook.bids_ st !! j = Some y -> y.1 < x.1)
          /\ (OrderBook.asks_ st !! i = Some x ->
              OrderBook.asks_ st !! j = Some y -> x.1 < y.1))
    /\ (forall level,
          (length (OrderBook.bids_ st) <= level)%nat ->
          OrderBook.get_bid_depth_at_level level st = 0)
    /\ (forall level,
          (length (OrderBook.asks_ st) <= level)%nat ->
          OrderBook.get_ask_depth_at_level level st = 0)
    /\ (forall level k lv,
          OrderBook.bids_ st !! level = Some (k, lv) ->
          OrderBook.get_bid_depth_at_level level st
          = u64 (sum_remaining (OrderBook.heap_ st) (PriceLevel.orders_ lv)))
    /\ (forall level k lv,
          OrderBook.asks_ st !! level = Some (k, lv) ->
          OrderBook.get_ask_depth_at_level level st
          = u64 (sum_remaining (OrderBook.heap_ st) (PriceLevel.orders_ lv))).
Proof.
  intros Hv.
  destruct (run_keeps clock ops OrderBook.init wf_init counters_init Hv)
    as (evs & st & Hrun & Hwf & _).
  exists evs, st. split; [done|]. split_and!.
  - intros i j x y Hij. split; intros Hi Hj.
    + pose proof (keys_sorted_lookup _ _ _ _ _ _
                    (ok_own_sorted _ _ _ _ _ Hwf) Hij Hi Hj) as H.
      simpl in H. unfold greater in H. lia.
    + pose proof (keys_sorted_lookup _ _ _ _ _ _
                    (ok_opp_sorted _ _ _ _ _ Hwf) Hij Hi Hj) as H.
      simpl in H. unfold less in H. lia.
  - intros level Hlen. unfold OrderBook.get_bid_depth_at_level.
    by destruct (length (OrderBook.bids_ st) <=? level)%nat eqn:E;
      [|apply Nat.leb_gt in E; lia].
  - intros level Hlen. unfold OrderBook.get_ask_depth_at_level.
    by destruct (length (OrderBook.asks_ st) <=? level)%nat eqn:E;
      [|apply Nat.leb_gt in E; lia].
  - intros level k lv Hl. unfold OrderBook.get_bid_depth_at_level.
    pose proof (lookup_lt_Some _ _ _ Hl) as Hlt.
    destruct (length (OrderBook.bids_ st) <=? level)%nat eqn:E;
      [apply Nat.leb_le in E; lia|].
    rewrite Hl. pose proof (ok_own _ _ _ _ _ Hwf) as Hall.
    rewrite Forall_forall in Hall.
    by destruct (Hall _ (list_elem_of_lookup_2 _ _ _ Hl)) as (_ & _ & ?).
  - intros level k lv Hl. unfold OrderBook.get_ask_depth_at_level.
    pose proof (lookup_lt_Some _ _ _ Hl) as Hlt.
    destruct (length (OrderBook.asks_ st) <=? level)%nat eqn:E;
      [apply Nat.leb_le in E; lia|].
    rewrite Hl. pose proof (ok_opp _ _ _ _ _ Hwf) as Hall.
    rewrite Forall_forall in Hall.
    by destruct (Hall _ (list_elem_of_lookup_2 _ _ _ Hl)) as (_ & _ & ?).
Qed.

Lemma depth_is_the_sum_at_the_level_witness :
  exists evs st,
    run clock0 two_sided_ops OrderBook.init = Ok (evs, st)
    /\ (forall level,
          (length (OrderBook.bids_ st) <= level)%nat ->
          OrderBook.get_bid_depth_at_level level st = 0).
Proof.
  destruct (depth_is_the_sum_at_the_level clock0 two_sided_ops)
    as (evs & st & Hrun & _ & Hout & _).
  - repeat constructor; unfold in_u64; lia.
  - exists evs, st. split; [exact Hrun | exact Hout].
Defined.

(** On integer prices, [cancel_order] touches one order at most: it
    keeps the counters of ids, of trades and of volume, it constructs no
    order, it leaves every order but the one that the index has under
    the id as it is, and of that one it changes the status only, to
    CANCELLED; [get_total_orders] is lowered by 1 when it returns true
    and stays as it is when it returns false. *)
Lemma cancel_order_frame clock order_id st :
  reachable clock st ->
  exists removed st',
    OrderBook.cancel_order order_id st = Ok (removed, st')
    /\ OrderBook.next_order_id_ st' = OrderBook.next_order_id_ st
    /\ OrderBook.next_trade_id_ st' = OrderBook.next_trade_id_ st
    /\ OrderBook.get_total_trades st' = OrderBook.get_total_trades st
    /\ OrderBook.get_total_volume st' = OrderBook.get_total_volume st
    /\ length (OrderBook.heap_ st') = length (OrderBook.heap_ st)
    /\ (S (OrderBook.get_total_orders st')
        = OrderBook.get_total_orders st /\ removed = true
        \/ OrderBook.get_total_orders st' = OrderBook.get_total_orders st
           /\ removed = false)
    /\ (forall a,
          OrderBook.order_map_ st !! order_id <> Some (Some a) ->
          OrderBook.heap_ st' !! a = OrderBook.heap_ st !! a)
    /\ (forall a o,
          OrderBook.order_map_ st !! order_id = Some (Some a) ->
          OrderBook.heap_ st !! a = Some o ->
          OrderBook.heap_ st' !! a
          = Some (Order.set_fill o (Order.filled_qty_ o) CANCELLED)).
Proof.
  intros [Hwf _]%reachable_inv.
  destruct (OrderBook.order_map_ st !! order_id) as [p|] eqn:Hlook.
  - destruct (cancel_order_spec _ _ _ Hwf Hlook)
      as (a & o & -> & Ho & Hlive & Hid & _ & Hrun & _).
    exists true, (cancel_state st order_id a o).
    destruct (cancel_state_frame st order_id a o) as (E1 & E2 & E3 & E4).
    assert (Hheap : OrderBook.heap_ (cancel_state st order_id a o)
                    = store (OrderBook.heap_ st) a (cancelled o))
      by (unfold cancel_state; by destruct (Order.side_ o)).
    assert (Hindex : OrderBook.order_map_ (cancel_state st order_id a o)
                     = delete order_id (OrderBook.order_map_ st))
      by (unfold cancel_state; by destruct (Order.side_ o)).
    split_and!; try done.
    + by rewrite Hheap, store_length.
    + left. split; [|done]. unfold OrderBook.get_total_orders.
      rewrite Hindex, map_size_delete, Hlook. simpl.
      assert (size (OrderBook.order_map_ st) <> 0%nat); [|lia].
      intros H0. apply map_size_empty_inv in H0.
      rewrite H0 in Hlook. by rewrite lookup_empty in Hlook.
    + intros a' Hne. rewrite Hheap. apply store_lookup_ne. congruence.
    + intros a' o' [= <-] Ho'. assert (o' = o) as -> by congruence.
      rewrite Hheap. apply store_lookup_eq. by eapply lookup_lt_Some.
  - exists false, st. rewrite (cancel_order_absent _ _ Hlook).
    split_and!; try done. by right.
Qed.

(** X11. At every point between two calls [get_total_orders] is at most
    the number of orders queued in the two ladders: the ids of the index
    lead to queued orders, two ids never to the same one. *)
Theorem total_orders_are_queued clock ops :
  Forall valid_op ops ->
  exists evs st,
    run clock ops OrderBook.init = Ok (evs, st)
    /\ (OrderBook.get_total_orders st
        <= length (resting (OrderBook.bids_ st)
                   ++ resting (OrderBook.asks_ st)))%nat.
Proof.
  intros Hv.
  destruct (run_keeps clock ops OrderBook.init wf_init counters_init Hv)
    as (evs & st & Hrun & Hwf & _).
  exists evs, st. split; [done|].
  unfold OrderBook.get_total_orders.
  rewrite <- length_map_to_list,
    <- (length_fmap snd (map_to_list (OrderBook.order_map_ st))).
  apply submseteq_length, NoDup_submseteq.
  - apply NoDup_fmap_2_strong; [|apply NoDup_map_to_list].
    intros [id1 p1] [id2 p2] H1%elem_of_map_to_list H2%elem_of_map_to_list
      Heq. simpl in Heq. subst p2.
    destruct (ok_index _ _ _ _ _ Hwf _ _ H1) as (_ & a & o & -> & Ho & <-).
    destruct (ok_index _ _ _ _ _ Hwf _ _ H2)
      as (_ & a' & o' & [= <-] & Ho' & <-).
    by assert (o' = o) as -> by congruence.
  - intros p ([id p'] & -> & Hin%elem_of_map_to_list)%list_elem_of_fmap.
    simpl. by destruct (ok_index _ _ _ _ _ Hwf _ _ Hin) as (? & _).
Qed.

Lemma total_orders_are_queued_witness :
  exists evs st,
    run clock0 two_sided_ops OrderBook.init = Ok (evs, st)
    /\ (OrderBook.get_total_orders st
        <= length (resting (OrderBook.bids_ st)
                   ++ resting (OrderBook.asks_ st)))%nat.
Proof.
  apply (total_orders_are_queued clock0 two_sided_ops).
  repeat constructor; unfold in_u64; lia.
Defined.

(** * Further properties: the trades of an add *)

(** A prescribed fill is made only while something remains of the
    incoming order, and of a limit order only at a price that its limit
    crosses. *)
Lemma expected_fills_lookup_cond side type limit id book :
  forall trades remaining j t,
    map trade_view trades
    = expected_fills side type limit id remaining book ->
    trades !! j = Some t ->
    exists k o,
      book !! j = Some (k, o)
      /\ Trade.price t = k
      /\ 0 < remaining - volume (take j trades)
      /\ (type = MARKET \/ OrderBook.crosses side limit k = true).
Proof.
  induction book as [|[k o] book IH]; intros trades remaining j t Hmap Hj.
  - destruct trades; [by rewrite lookup_nil in Hj | discriminate].
  - cbn [expected_fills] in Hmap.
    destruct ((remaining >? 0)
              && (OrderType_eqb type MARKET || OrderBook.crosses side limit k))
      eqn:Econd.
    + apply andb_true_iff in Econd as [Hpos Hcross].
      destruct trades as [|t0 trades]; [discriminate|].
      rewrite fmap_cons in Hmap. injection Hmap as Hb0 Hs0 Hp0 Hq0 Hmap.
      destruct j as [|j].
      * injection Hj as <-. exists k, o. split_and!; try done.
        -- simpl. unfold volume. simpl. lia.
        -- apply orb_true_iff in Hcross as [Hm | Hc]; [left | by right].
           by apply OrderType_eqb_eq.
      * destruct (IH _ _ _ _ Hmap Hj) as (k' & o' & Hb & H1 & H2 & H3).
        exists k', o'. split_and!; try done.
        cbn [take volume foldr]. fold (volume (take j trades)).
        rewrite Hq0. lia.
    + destruct trades; [by rewrite lookup_nil in Hj | discriminate].
Qed.

Lemma book_view_sorted h s m :
  keys_sorted (before_of s) m -> Forall (level_ok h s) m ->
  forall i j x y,
    (i < j)%nat ->
    book_view h m !! i = Some x -> book_view h m !! j = Some y ->
    x.1 = y.1 \/ before_of s x.1 y.1 = true.
Proof.
  intros Hs.
  induction Hs as [|[k lv] m Hs IH Hall]; intros Hok i j x y Hij Hi Hj;
    [simpl in Hi; by rewrite lookup_nil in Hi|].
  apply Forall_cons in Hok as [_ Hok]. simpl in Hi, Hj.
  pose proof (level_view_keys h k (PriceLevel.orders_ lv)) as Hk.
  rewrite Forall_forall in Hk.
  pose proof (book_view_rests _ _ _ Hok) as Hrest.
  rewrite Forall_forall in Hrest. rewrite Forall_forall in Hall.
  apply lookup_app_Some in Hi as [Hi | [Hli Hi]];
    apply lookup_app_Some in Hj as [Hj | [Hlj Hj]].
  - left. rewrite (Hk _ (list_elem_of_lookup_2 _ _ _ Hi)).
    by rewrite (Hk _ (list_elem_of_lookup_2 _ _ _ Hj)).
  - right. rewrite (Hk _ (list_elem_of_lookup_2 _ _ _ Hi)).
    destruct (Hrest _ (list_elem_of_lookup_2 _ _ _ Hj)) as (_ & _ & Hin & _).
    unfold keys in Hin. apply list_elem_of_fmap in Hin as (z & -> & Hz).
    apply (Hall z Hz).
  - apply lookup_lt_Some in Hj. lia.
  - apply (IH Hok (i - length (level_view h k (PriceLevel.orders_ lv)))%nat
             (j - length (level_view h k (PriceLevel.orders_ lv)))%nat);
      [lia | done | done].
Qed.

Section Trades.

Variable clock : nat -> Z.

(** X12. An accepted add never trades more than its order: each of its
    trades is of a quantity above 0, the quantities of its trades sum to
    at most the quantity of the order, what remains of the order
    afterwards is its quantity less that sum, and there are at most as
    many trades as there were orders queued on the opposite side.  The
    trades of a LIMIT order are all within its limit: at or below its
    price for a buy, at or above it for a sell. *)
Theorem trades_stay_within_the_order price quantity side type st :
  reachable clock st -> in_u64 quantity ->
  ~ rejected price quantity type ->
  exists id trades st' oi,
    OrderBook.add_order_body clock price quantity side type st
    = Ok (id, trades, st')
    /\ (forall t, t ∈ trades -> 0 < Trade.quantity t)
    /\ (type = LIMIT ->
        forall t, t ∈ trades ->
                  match side with
                  | BUY => Trade.price t <= price
                  | SELL => price <= Trade.price t
                  end)
    /\ volume trades <= quantity
    /\ (length trades
        <= length (resting (OrderBook.opposite side st)))%nat
    /\ OrderBook.heap_ st' !! length (OrderBook.heap_ st) = Some oi
    /\ Order.get_remaining_qty oi = quantity - volume trades
    /\ (type = MARKET -> price = 0 ->
        OrderBook.add_market_order clock quantity side st = Ok (trades, st')).
Proof.
  intros [Hwf Hc]%reachable_inv Hq Hnr.
  destruct (accepted_add_trades clock price quantity side type st)
    as (trades & st' & oi & Hrun & Hfills & Haligned & Hoi & Hsame & Hfilled
        & Hinc); try done.
  exists (OrderBook.next_order_id_ st), trades, st', oi.
  pose proof Hwf as Hbook. apply (wf_book_ok side) in Hbook.
  pose proof (book_view_zip _ _ _ (ok_opp _ _ _ _ _ Hbook)) as Hzip.
  assert (Hqty : Order.quantity_ oi = quantity)
    by (by destruct Hsame as (_ & _ & _ & -> & _)).
  destruct (incoming_remaining _ Hinc) as [Hrem Hrem0].
  assert (Heach : forall j t,
            trades !! j = Some t ->
            0 < Trade.quantity t
            /\ (type = MARKET
                \/ OrderBook.crosses side price (Trade.price t) = true)).
  { intros j t Hj.
    destruct (expected_fills_lookup _ _ _ _ _ _ _ _ _ Hfills Hj)
      as (k & o0 & Hb & _ & _ & _ & Hmin).
    destruct (expected_fills_lookup_cond _ _ _ _ _ _ _ _ _ Hfills Hj)
      as (k' & o0' & Hb' & Hpr & Hpos & Hcross).
    rewrite Hb in Hb'. injection Hb' as <- <-.
    destruct (Forall2_lookup_r _ _ _ _ _ Hzip Hb)
      as (p & _ & a & lv & _ & _ & _ & _ & _ & Hlive & _).
    simpl in Hlive. destruct (live_remaining _ Hlive) as [_ Hlpos].
    rewrite Hpr. split; [lia | done]. }
  split_and!; try done.
  - intros t (j & Hj)%list_elem_of_lookup_1. by destruct (Heach j t Hj).
  - intros -> t (j & Hj)%list_elem_of_lookup_1.
    destruct (Heach j t Hj) as [_ [? | Hcr]]; [done|].
    unfold OrderBook.crosses in Hcr. destruct side; lia.
  - rewrite <- Hfilled, <- Hqty. apply Hinc.
  - destruct (decide (length trades
                      <= length (resting (OrderBook.opposite side st)))%nat)
      as [|Hgt]; [done|].
    destruct (lookup_lt_is_Some_2 trades
                (length (resting (OrderBook.opposite side st))))
      as (t & Hj); [lia|].
    destruct (Haligned _ _ Hj) as (a & _ & _ & Hp & _).
    apply lookup_lt_Some in Hp. lia.
  - rewrite Hrem, Hqty, Hfilled. done.
  - intros -> ->.
    apply (market_as_add clock _ _ _ (OrderBook.next_order_id_ st));
      try done.
    unfold rejected in Hnr. lia.
Qed.

(** X13. Price priority: the trades of an accepted add are made at
    prices that get no better for its order as they go, rising or
    staying for a buy, falling or staying for a sell. *)
Theorem trade_prices_get_no_better price quantity side type st :
  reachable clock st -> in_u64 quantity ->
  ~ rejected price quantity type ->
  exists id trades st',
    OrderBook.add_order_body clock price quantity side type st
    = Ok (id, trades, st')
    /\ forall j1 j2 t1 t2,
         (j1 < j2)%nat ->
         trades !! j1 = Some t1 -> trades !! j2 = Some t2 ->
         not_better side (Trade.price t1) (Trade.price t2).
Proof.
  intros [Hwf Hc]%reachable_inv Hq Hnr.
  destruct (accepted_add_trades clock price quantity side type st)
    as (trades & st' & oi & Hrun & Hfills & _); try done.
  exists (OrderBook.next_order_id_ st), trades, st'. split; [done|].
  intros j1 j2 t1 t2 Hlt H1 H2.
  destruct (expected_fills_lookup _ _ _ _ _ _ _ _ _ Hfills H1)
    as (k1 & o1 & Hb1 & _ & _ & Hp1 & _).
  destruct (expected_fills_lookup _ _ _ _ _ _ _ _ _ Hfills H2)
    as (k2 & o2 & Hb2 & _ & _ & Hp2 & _).
  pose proof Hwf as Hbook. apply (wf_book_ok side) in Hbook.
  destruct (book_view_sorted _ _ _ (ok_opp_sorted _ _ _ _ _ Hbook)
              (ok_opp _ _ _ _ _ Hbook) _ _ _ _ Hlt Hb1 Hb2) as [He | Hb];
    simpl in *; rewrite Hp1, Hp2.
  - rewrite He. destruct side; simpl; lia.
  - destruct side; simpl in *; unfold less, greater in Hb; lia.
Qed.

End Trades.

Lemma trades_stay_within_the_order_witness :
  exists id trades st' oi,
    OrderBook.add_order_body clock0 101 300 BUY LIMIT
      (state_after clock0 [AddOrder 100 200 SELL LIMIT])
    = Ok (id, trades, st')
    /\ volume trades <= 300
    /\ OrderBook.heap_ st'
         !! length (OrderBook.heap_
                      (state_after clock0 [AddOrder 100 200 SELL LIMIT]))
       = Some oi
    /\ Order.get_remaining_qty oi = 300 - volume trades.
Proof.
  assert (Hq : in_u64 300) by (unfold in_u64; lia).
  assert (Hv : Forall valid_op [AddOrder 100 200 SELL LIMIT])
    by (repeat constructor; unfold in_u64; lia).
  assert (Hnr : ~ rejected 101 300 LIMIT) by (unfold rejected; lia).
  destruct (trades_stay_within_the_order clock0 101 300 BUY LIMIT
              (state_after clock0 [AddOrder 100 200 SELL LIMIT])
              (proj2 (reachable_state_after clock0 _ Hv)) Hq Hnr)
    as (id & trades & st' & oi & Hrun & _ & _ & Hvol & _ & Hoi & Hrem & _).
  exists id, trades, st', oi.
  split; [exact Hrun|]. split; [exact Hvol|]. split; [exact Hoi | exact Hrem].
Defined.

Lemma trade_prices_get_no_better_witness :
  exists id trades st',
    OrderBook.add_order_body clock0 102 300 BUY LIMIT
      (state_after clock0
         [AddOrder 101 100 SELL LIMIT; AddOrder 100 100 SELL LIMIT])
    = Ok (id, trades, st')
    /\ forall j1 j2 t1 t2,
         (j1 < j2)%nat ->
         trades !! j1 = Some t1 -> trades !! j2 = Some t2 ->
         not_better BUY (Trade.price t1) (Trade.price t2).
Proof.
  assert (Hq : in_u64 300) by (unfold in_u64; lia).
  assert (Hv : Forall valid_op
                 [AddOrder 101 100 SELL LIMIT; AddOrder 100 100 SELL LIMIT])
    by (repeat constructor; unfold in_u64; lia).
  assert (Hnr : ~ rejected 102 300 LIMIT) by (unfold rejected; lia).
  exact (trade_prices_get_no_better clock0 102 300 BUY LIMIT
           (state_after clock0
              [AddOrder 101 100 SELL LIMIT; AddOrder 100 100 SELL LIMIT])
           (proj2 (reachable_state_after clock0 _ Hv)) Hq Hnr).
Defined.

Lemma head_key_app (ma mb : ladder) k v :
  head ((ma ++ (k, v) :: mb).*1)
  = Some (match ma with [] => k | x :: _ => x.1 end).
Proof. by destruct ma. Qed.

Lemma get_best_head s st : get_best s st = head (own s st).*1.
Proof.
  destruct s; simpl;
    unfold OrderBook.get_best_bid, OrderBook.get_best_ask.
  - by destruct (OrderBook.bids_ st) as [|[??]?].
  - by destruct (OrderBook.asks_ st) as [|[??]?].
Qed.

(** X14. The best price of the side of an accepted add afterwards: when
    the order is a LIMIT order of which something remains after
    matching, it is the better of the price of the order and of the best
    price before (the higher for a buy, the lower for a sell), and the
    price of the order when the side was empty; otherwise it is what it
    was before. *)
Theorem resting_order_can_only_improve_the_best
    clock price quantity side type st :
  reachable clock st -> in_u64 quantity ->
  ~ rejected price quantity type ->
  exists id trades st' oi,
    OrderBook.add_order_body clock price quantity side type st
    = Ok (id, trades, st')
    /\ OrderBook.heap_ st' !! length (OrderBook.heap_ st) = Some oi
    /\ (type = LIMIT -> 0 < Order.get_remaining_qty oi ->
        get_best side st'
        = Some (match get_best side st with
                | Some b => better side b price
                | None => price
                end))
    /\ (type = MARKET \/ Order.get_remaining_qty oi = 0 ->
        get_best side st' = get_best side st).
Proof.
  intros [Hwf Hc]%reachable_inv Hq Hnr.
  destruct (add_order_body_spec clock price quantity side type st)
    as (trades & st2 & oi & st3 & _ & Hmd & Hdone & Hi & Hcase & Hwf3 & Hrun);
    try done.
  exists (OrderBook.next_order_id_ st), trades,
    (OrderBook.update_statistics trades st3), oi.
  split; [done|].
  pose proof (md_matching _ _ _ _ _ _ _ Hmd) as Hm.
  destruct (mt_incoming _ _ _ _ _ _ Hm) as (oi' & Hoi' & Hinc & Hside).
  assert (oi' = oi) as -> by congruence. clear Hoi'.
  destruct (incoming_remaining _ Hinc) as [_ Hrem0].
  pose proof (md_own _ _ _ _ _ _ _ Hmd) as Hown.
  replace (own side (allocated clock price quantity side type st))
    with (own side st) in Hown by (by destruct side).
  assert (Hh3 : OrderBook.heap_ st3 = OrderBook.heap_ st2).
  { destruct Hcase as [(_ & _ & own' & _ & ->) | (_ & ->)]; [|done].
    by destruct side. }
  assert (Hbest : get_best side (OrderBook.update_statistics trades st3)
                  = head (own side st3).*1).
  { rewrite get_best_head, update_statistics_spec. by destruct side. }
  rewrite Hbest, get_best_head, update_statistics_spec. simpl. rewrite Hh3.
  split_and!; try done.
  - intros -> Hpos.
    destruct Hcase as [(_ & _ & own' & Hrest & ->) | ([? | ?] & _)];
      [|done | lia].
    rewrite own_set_own.
    destruct (rest_order_spec side price _ (OrderBook.heap_ st2) oi
                (own side st2) Hi)
      as (ma & mb & lv0 & Hma & Hold & Hrest').
    rewrite Hrest' in Hrest. injection Hrest as <-.
    rewrite head_key_app, <- Hown. f_equal.
    assert (Hbetter : forall x, before_of side x price = true ->
                                better side x price = x)
      by (intros x; destruct side; simpl; unfold greater, less; lia).
    assert (Hworse : forall x, before_of side price x = true ->
                               better side x price = price)
      by (intros x; destruct side; simpl; unfold greater, less; lia).
    destruct Hold as [(_ & -> & _ & Hmb) | (_ & ->)].
    + destruct ma as [|x ma]; simpl.
      * destruct mb as [|y mb]; simpl; [done|]. by rewrite Hworse.
      * apply Forall_cons in Hma as [Hx _]. by rewrite Hbetter.
    + destruct ma as [|x ma]; simpl.
      * destruct side; simpl; lia.
      * apply Forall_cons in Hma as [Hx _]. by rewrite Hbetter.
  - intros Hnorest.
    assert (st3 = st2) as ->.
    { destruct Hcase as [(-> & Hpos & _) | (_ & ->)]; [|done].
      destruct Hnorest; [done | lia]. }
    by rewrite Hown.
Qed.

Lemma resting_order_can_only_improve_the_best_witness :
  exists id trades st' oi,
    OrderBook.add_order_body clock0 98 50 BUY LIMIT
      (state_after clock0 gap_ops)
    = Ok (id, trades, st')
    /\ OrderBook.heap_ st'
         !! length (OrderBook.heap_ (state_after clock0 gap_ops))
       = Some oi
    /\ (0 < Order.get_remaining_qty oi ->
        get_best BUY st'
        = Some (match get_best BUY (state_after clock0 gap_ops) with
                | Some b => better BUY b 98
                | None => 98
                end)).
Proof.
  assert (Hq : in_u64 50) by (unfold in_u64; lia).
  assert (Hv : Forall valid_op gap_ops)
    by (repeat constructor; unfold in_u64; lia).
  assert (Hnr : ~ rejected 98 50 LIMIT) by (unfold rejected; lia).
  destruct (resting_order_can_only_improve_the_best clock0 98 50 BUY LIMIT
              (state_after clock0 gap_ops)
              (proj2 (reachable_state_after clock0 _ Hv)) Hq Hnr)
    as (id & trades & st' & oi & Hrun & Hoi & Hbest & _).
  exists id, trades, st', oi.
  split; [exact Hrun|]. split; [exact Hoi | exact (Hbest eq_refl)].
Defined.

(** * Further properties: the levels of the book *)

Section Tidy.

Variable clock : nat -> Z.
Variable s : Side.
Variable i : nat.

(** The loop of [match_order] again, with a property [T] of the state
    that holds each time the loop tests its condition, and so when it
    ends: [T] is given on entry, it follows from [Q] once an emptied
    level is erased, and it follows from [Q] when the level at the head
    is not empty. *)
Variable Q : list Trade.t -> OrderBook.t -> Prop.
Variable T : OrderBook.t -> Prop.

Hypothesis Q_matching :
  forall trades st,
    Q trades st ->
    matching s i (OrderBook.heap_ st) (own s st) (OrderBook.opposite s st)
      (OrderBook.order_map_ st).

Hypothesis Q_match :
  forall trades st k level others r q' oi orr,
    Q trades st ->
    OrderBook.opposite s st = (k, level) :: others ->
    PriceLevel.orders_ level = Some r :: q' ->
    OrderBook.heap_ st !! i = Some oi ->
    OrderBook.heap_ st !! r = Some orr ->
    live oi -> live orr -> i <> r ->
    Order.side_ orr = other s -> Order.price_ orr = k ->
    Order.type_ oi = MARKET
    \/ OrderBook.crosses s (Order.price_ oi) k = true ->
    Q (trades ++ [match_trade clock st oi orr k])
      (OrderBook.set_opposite s (match_state st i oi r orr)
         ((k, match_level level oi orr r q') :: others)).

Hypothesis Q_erase :
  forall trades st k level others,
    Q trades st ->
    OrderBook.opposite s st = (k, level) :: others ->
    PriceLevel.orders_ level = [] ->
    Q trades (OrderBook.set_opposite s st others)
    /\ T (OrderBook.set_opposite s st others).

Hypothesis Q_stop :
  forall trades st k level others,
    Q trades st ->
    OrderBook.opposite s st = (k, level) :: others ->
    PriceLevel.orders_ level <> [] ->
    T st.

Lemma match_loop_rule_tidy fuel trades st :
  Q trades st -> T st ->
  (length (OrderBook.opposite s st) < fuel)%nat ->
  exists trades' st',
    OrderBook.match_loop clock fuel s (Some i) trades st = Ok (trades', st')
    /\ Q trades' st' /\ T st'.
Proof.
  revert trades st.
  induction fuel as [|fuel IH]; intros trades st HQ HT Hlen; [lia|].
  pose proof (Q_matching _ _ HQ) as Hm.
  destruct (mt_incoming _ _ _ _ _ _ Hm) as (oi & Hi & Hoi & Hsi).
  cbn [OrderBook.match_loop].
  destruct (OrderBook.opposite s st) as [|[k level] others] eqn:Hopp.
  { by exists trades, st. }
  rewrite (deref_Some _ _ _ Hi). cbn [bind].
  destruct (Order.get_remaining_qty oi >? 0) eqn:Erem;
    [|by exists trades, st].
  destruct (OrderType_eqb (Order.get_type oi) MARKET
            || OrderBook.crosses s (Order.get_price oi) k) eqn:Ecross;
    [|by exists trades, st].
  assert (Hcross : Order.type_ oi = MARKET
                   \/ OrderBook.crosses s (Order.price_ oi) k = true).
  { apply orb_true_iff in Ecross as [Ety | Ecr]; [left | by right].
    by apply OrderType_eqb_eq in Ety. }
  unfold OrderBook.process_matches_at_level.
  set (P := fun level' trades' st' =>
              Q trades' (OrderBook.set_opposite s st' ((k, level') :: others))
              /\ own s st' = own s st
              /\ exists oi', OrderBook.heap_ st' !! i = Some oi'
                             /\ Order.type_ oi' = Order.type_ oi
                             /\ Order.price_ oi' = Order.price_ oi).
  destruct (process_matches_loop_rule clock s i (own s st) others k P) with
    (fuel := S (length (PriceLevel.orders_ level))) (level := level)
    (trades := trades) (st := st)
    as (level' & trades' & st' & Hrun & (HQ' & Hown' & Hty') & Hexit).
  - intros lv tr st0 (HQ0 & Hown0 & _).
    pose proof (Q_matching _ _ HQ0) as Hm0.
    by rewrite (heap_set_opposite s), (own_set_opposite s),
      (opposite_set_opposite s), (order_map_set_opposite s), Hown0 in Hm0.
  - intros lv tr st0 r q' oi0 orr (HQ0 & Hown0 & oi' & Hoi' & Hty & Hpr)
      Hq Hi0 Hr Hli Hlr Hne Hside Hprice.
    assert (oi' = oi0) as -> by congruence.
    split_and!.
    + rewrite <- (match_state_set_opposite s i st0 ((k, lv) :: others)).
      rewrite <- (match_trade_set_opposite clock s st0 ((k, lv) :: others)).
      apply (Q_match tr _ k lv others r q' oi0 orr); try done.
      * by rewrite opposite_set_opposite.
      * by rewrite heap_set_opposite.
      * by rewrite heap_set_opposite.
      * by rewrite Hty, Hpr.
    + by rewrite own_match_state.
    + exists (filled_by oi0 (match_qty oi0 orr)). split_and!; [|done..].
      simpl. apply match_heap_incoming; [|done].
      eapply lookup_lt_Some; eauto.
  - unfold P. rewrite <- Hopp, set_opposite_id. split_and!; [done..|].
    exists oi. done.
  - lia.
  - rewrite Hrun. cbn [bind].
    destruct (PriceLevel.empty level') eqn:Eempty.
    + apply PriceLevel_empty_nil in Eempty.
      destruct (Q_erase _ _ k level' others HQ') as [HQe HTe];
        [by rewrite opposite_set_opposite | done |].
      rewrite set_opposite_twice in HQe, HTe.
      apply IH; [done | done |].
      rewrite opposite_set_opposite. simpl in Hlen. lia.
    + destruct Hexit as [Hnil | (oi' & Hoi' & Hrem')];
        [by apply PriceLevel_empty_nil in Hnil; congruence|].
      exists trades', (OrderBook.set_opposite s st' ((k, level') :: others)).
      split_and!; [| done |].
      * destruct fuel as [|fuel']; cbn [OrderBook.match_loop];
          rewrite opposite_set_opposite, heap_set_opposite,
            (deref_Some _ _ _ Hoi'); cbn [bind]; by rewrite Hrem'.
      * apply (Q_stop _ _ k level' others HQ');
          [by rewrite opposite_set_opposite|].
        intros Hnil. apply PriceLevel_empty_nil in Hnil. congruence.
Qed.

End Tidy.

Lemma map_erase_Forall before (P : Z * PriceLevel.t -> Prop) k m :
  Forall P m -> Forall P (map_erase before k m).
Proof.
  induction 1 as [|[k' v'] m Hx Hm IH]; simpl; [done|].
  destruct (before k' k); [by constructor|].
  destruct (before k k'); [by constructor | done].
Qed.

Lemma map_assign_Forall before (P : PriceLevel.t -> Prop) k v m :
  Forall (fun kl => P kl.2) m -> P v ->
  Forall (fun kl => P kl.2) (map_assign before k v m).
Proof.
  intros Hm Hv. induction Hm as [|[k' v'] m Hx Hm IH]; simpl.
  - by repeat constructor.
  - destruct (before k' k); [by constructor|].
    destruct (before k k'); by repeat constructor.
Qed.

Lemma no_empty_sides s st :
  no_empty_level st <->
  Forall (fun kl => PriceLevel.empty kl.2 = false) (own s st)
  /\ Forall (fun kl => PriceLevel.empty kl.2 = false)
       (OrderBook.opposite s st).
Proof.
  unfold no_empty_level. rewrite Forall_app. destruct s; simpl; tauto.
Qed.

Lemma Forall_tail {A} (P : A -> Prop) (l : list A) :
  Forall P l -> Forall P (tail l).
Proof. destruct 1; [done | done]. Qed.

Section Levels.

Variable clock : nat -> Z.

(** [match_order] leaves no empty level behind. *)
Lemma match_order_tidy s i oi0 st0 :
  matching s i (OrderBook.heap_ st0) (own s st0) (OrderBook.opposite s st0)
    (OrderBook.order_map_ st0) ->
  OrderBook.heap_ st0 !! i = Some oi0 ->
  in_u64 (OrderBook.next_trade_id_ st0) ->
  Forall (fun kl => PriceLevel.empty kl.2 = false)
    (OrderBook.opposite s st0) ->
  exists trades st,
    OrderBook.match_order clock (Some i) st0 = Ok (trades, st)
    /\ Forall (fun kl => PriceLevel.empty kl.2 = false)
         (OrderBook.opposite s st).
Proof.
  intros Hm Hi Htid Hne. unfold OrderBook.match_order.
  rewrite (deref_Some _ _ _ Hi). cbn [bind].
  destruct (mt_incoming _ _ _ _ _ _ Hm) as (oi' & Hoi' & _ & Hs).
  assert (oi' = oi0) as -> by congruence. unfold Order.get_side. rewrite Hs.
  assert (Hfresh : Some i ∉ resting (OrderBook.opposite s st0)).
  { intros Hin. apply (mt_fresh _ _ _ _ _ _ Hm), elem_of_app. by right. }
  assert (Hnd : NoDup (resting (OrderBook.opposite s st0))).
  { pose proof (ok_nodup _ _ _ _ _ (mt_book _ _ _ _ _ _ Hm)) as H.
    by apply NoDup_app in H as (_ & _ & ?). }
  destruct (match_loop_rule_tidy clock s i
              (fun trades st =>
                 matched clock s i oi0 st0 trades st
                 /\ Forall (fun kl => PriceLevel.empty kl.2 = false)
                      (tail (OrderBook.opposite s st)))
              (fun st =>
                 Forall (fun kl => PriceLevel.empty kl.2 = false)
                   (OrderBook.opposite s st)))
    with (fuel := S (length (OrderBook.opposite s st0)))
         (trades := @nil Trade.t) (st := st0)
    as (trades & st & Hrun & _ & HT).
  - intros trades st [H _]. exact (md_matching _ _ _ _ _ _ _ H).
  - intros trades st k level others r q' oi orr [HQ Ht] Hopp **.
    split; [by apply matched_match|].
    rewrite opposite_set_opposite. rewrite Hopp in Ht. done.
  - intros trades st k level others [HQ Ht] Hopp Hnil.
    rewrite opposite_set_opposite. rewrite Hopp in Ht. simpl in Ht.
    split_and!; [by eapply matched_erase | by apply Forall_tail | done].
  - intros trades st k level others [HQ Ht] Hopp Hnil.
    rewrite Hopp in Ht |- *. constructor; [|done]. simpl.
    unfold PriceLevel.empty. by destruct (PriceLevel.orders_ level).
  - split; [by apply matched_start | by apply Forall_tail].
  - done.
  - lia.
  - eauto.
Qed.

Lemma add_order_body_levels price quantity side type st id trades st' :
  wf st -> counters_ok st -> in_u64 quantity ->
  ~ rejected price quantity type ->
  no_empty_level st ->
  OrderBook.add_order_body clock price quantity side type st
  = Ok (id, trades, st') ->
  no_empty_level st'.
Proof.
  intros Hwf Hc Hq Hnr Hne Hrun.
  pose proof Hnr as (Hq0 & _)%not_rejected.
  destruct (add_order_body_spec clock price quantity side type st)
    as (trades' & st2 & oi & st3 & Hmatch & Hmd & _ & Hi & Hcase & _ & Hrun');
    try done.
  rewrite Hrun in Hrun'. injection Hrun' as -> -> ->.
  apply (no_empty_sides side) in Hne as [Hown0 Hopp0].
  destruct (match_order_tidy side (length (OrderBook.heap_ st))
              (new_order clock price quantity side type st)
              (allocated clock price quantity side type st))
    as (trades'' & st2' & Hmatch' & Hopp2).
  { replace (own side (allocated clock price quantity side type st))
      with (own side st) by (by destruct side).
    replace (OrderBook.opposite side
               (allocated clock price quantity side type st))
      with (OrderBook.opposite side st) by (by destruct side).
    exact (allocated_matching clock price quantity side type st Hwf Hq Hq0). }
  { simpl. by apply list_lookup_middle. }
  { apply Hc. }
  { by replace (OrderBook.opposite side
                  (allocated clock price quantity side type st))
      with (OrderBook.opposite side st) by (by destruct side). }
  rewrite Hmatch in Hmatch'. injection Hmatch' as <- <-.
  pose proof (md_own _ _ _ _ _ _ _ Hmd) as Hown.
  replace (own side (allocated clock price quantity side type st))
    with (own side st) in Hown by (by destruct side).
  apply (no_empty_sides side).
  rewrite update_statistics_spec.
  replace (own side (OrderBook.mk _ _ _ _ _ _ _ _ _)) with (own side st3)
    by (by destruct side).
  replace (OrderBook.opposite side (OrderBook.mk _ _ _ _ _ _ _ _ _))
    with (OrderBook.opposite side st3) by (by destruct side).
  destruct Hcase as [(_ & _ & own' & Hrest & ->) | (_ & ->)];
    [|by rewrite Hown].
  rewrite own_set_own, opposite_set_own.
  replace (OrderBook.opposite side (OrderBook.set_order_map st2 _))
    with (OrderBook.opposite side st2) by (by destruct side).
  split; [|done].
  destruct (rest_order_spec side price _ (OrderBook.heap_ st2) oi
              (own side st2) Hi)
    as (ma & mb & lv0 & _ & Hold & Hrest').
  rewrite Hrest' in Hrest. injection Hrest as <-.
  rewrite Hown in Hold.
  assert (Hparts : Forall (fun kl => PriceLevel.empty kl.2 = false) ma
                   /\ Forall (fun kl => PriceLevel.empty kl.2 = false) mb).
  { destruct Hold as [(_ & Heq & _) | (_ & Heq)]; rewrite Heq in Hown0;
      apply Forall_app in Hown0 as [? Hb]; [done|].
    by apply Forall_cons in Hb as [_ ?]. }
  destruct Hparts as [Ha Hb].
  apply Forall_app. split; [done|]. constructor; [|done]. simpl.
  unfold PriceLevel.empty. simpl. by destruct (PriceLevel.orders_ lv0).
Qed.

Lemma cancel_state_levels st order_id a o :
  no_empty_level st -> no_empty_level (cancel_state st order_id a o).
Proof.
  intros Hne. apply (no_empty_sides (Order.side_ o)) in Hne as [Hown Hopp].
  apply (no_empty_sides (Order.side_ o)). unfold cancel_state.
  replace (own (Order.side_ o) (OrderBook.set_order_map _ _))
    with (ladder_without (before_of (Order.side_ o))
            (store (OrderBook.heap_ st) a (cancelled o)) order_id
            (Order.price_ o) (own (Order.side_ o) st))
    by (by destruct (Order.side_ o)).
  replace (OrderBook.opposite (Order.side_ o) (OrderBook.set_order_map _ _))
    with (OrderBook.opposite (Order.side_ o) st)
    by (by destruct (Order.side_ o)).
  split; [|done]. unfold ladder_without.
  destruct (map_find _ _ _) as [lv|]; [|done].
  destruct (PriceLevel.empty (level_without _ order_id lv)) eqn:E.
  - by apply map_erase_Forall.
  - by apply (map_assign_Forall _ (fun lv => PriceLevel.empty lv = false)).
Qed.

(** What a call does to the state: nothing, an accepted add, a
    cancellation, or [clear]. *)
Lemma step_cases o st evs st' :
  wf st -> counters_ok st -> valid_op o ->
  step clock o st = Ok (evs, st') ->
  st' = st
  \/ (exists price quantity side type id trades,
        in_u64 quantity /\ ~ rejected price quantity type
        /\ consumes_id o = true
        /\ OrderBook.add_order_body clock price quantity side type st
           = Ok (id, trades, st'))
  \/ (exists order_id a o',
        OrderBook.order_map_ st !! order_id = Some (Some a)
        /\ OrderBook.heap_ st !! a = Some o'
        /\ st' = cancel_state st order_id a o')
  \/ st' = OrderBook.clear st.
Proof.
  intros Hwf Hc Hv Hstep.
  destruct o as [price quantity side type | quantity side | order_id |];
    simpl in Hv, Hstep.
  - destruct (rejected_dec price quantity type) as [Hr | Hnr].
    + assert (Hrun : OrderBook.add_order_body clock price quantity side type
                       st = Ok (0, [], st)).
      { unfold OrderBook.add_order_body.
        destruct Hr as [-> | [Hp | [-> Hp]]]; [done | |].
        - destruct (quantity =? 0); [done|].
          by destruct (price <? 0) eqn:E; [|lia].
        - destruct (quantity =? 0); [done|].
          destruct (price <? 0); [done|]. simpl.
          by destruct (price <=? 0) eqn:E; [|lia]. }
      rewrite Hrun in Hstep. cbn [bind] in Hstep.
      injection Hstep as <- <-. by left.
    + apply not_rejected in Hnr.
      destruct (OrderBook.add_order_body clock price quantity side type st)
        as [[[id trades] st1]|] eqn:Hrun; [|discriminate].
      cbn [bind] in Hstep. injection Hstep as <- <-.
      right. left. exists price, quantity, side, type, id, trades.
      split_and!; [done | done | by apply consumes_id_rejected | done].
  - destruct (Z.eq_dec quantity 0) as [-> | Hq0].
    + simpl in Hstep. injection Hstep as <- <-. by left.
    + destruct (add_market_order_spec clock quantity side st)
        as (trades & st2 & _ & _ & _ & _ & Hrun & Hbody); try done.
      rewrite Hrun in Hstep. cbn [bind] in Hstep.
      injection Hstep as <- <-.
      right. left.
      exists 0, quantity, side, MARKET, (OrderBook.next_order_id_ st), trades.
      split_and!; try done.
      * apply not_rejected. split_and!; [done | lia | done].
      * simpl. by destruct (quantity =? 0) eqn:E; [lia|].
  - destruct (OrderBook.order_map_ st !! order_id) as [p|] eqn:Hl.
    + destruct (cancel_order_spec _ _ _ Hwf Hl)
        as (a & o & -> & Ho & _ & _ & _ & Hrun & _).
      rewrite Hrun in Hstep. cbn [bind] in Hstep.
      injection Hstep as <- <-.
      right. right. left. by exists order_id, a, o.
    + rewrite (cancel_order_absent _ _ Hl) in Hstep. cbn [bind] in Hstep.
      injection Hstep as <- <-. by left.
  - injection Hstep as <- <-. by right; right; right.
Qed.

Lemma run_levels ops :
  Forall valid_op ops ->
  exists evs st,
    run clock ops OrderBook.init = Ok (evs, st)
    /\ wf st /\ counters_ok st /\ no_empty_level st.
Proof.
  apply (run_state clock no_empty_level); [by constructor|].
  intros o st evs st' Hwf Hc Ho Hne Hstep.
  destruct (step_cases o st evs st' Hwf Hc Ho Hstep)
    as [-> | [(price & quantity & side & type & id & trades & Hq & Hnr & _
               & Hrun)
             | [(order_id & a & o' & _ & _ & ->) | ->]]].
  - done.
  - by eapply add_order_body_levels.
  - by apply cancel_state_levels.
  - by constructor.
Qed.

Lemma reachable_levels st : reachable clock st -> no_empty_level st.
Proof.
  intros (ops & evs & Hv & Hrun).
  destruct (run_levels ops Hv) as (evs' & st' & Hrun' & _ & _ & Hne).
  rewrite Hrun in Hrun'. by injection Hrun' as _ <-.
Qed.

End Levels.

(** On integer prices, at every point between two calls no level of
    either ladder has an empty queue; so a best price that
    [get_best_bid] or [get_best_ask] returns is the price of an order
    that is queued first at the head of its ladder, of which something
    remains. *)
Lemma no_empty_level_run clock ops :
  Forall valid_op ops ->
  exists evs st,
    run clock ops OrderBook.init = Ok (evs, st)
    /\ (forall kl,
          kl ∈ OrderBook.bids_ st ++ OrderBook.asks_ st ->
          PriceLevel.empty kl.2 = false
          /\ (0 < PriceLevel.get_order_count kl.2)%nat)
    /\ (forall s b,
          get_best s st = Some b ->
          exists lv others a o,
            own s st = (b, lv) :: others
            /\ PriceLevel.get_front_order lv = Some a
            /\ OrderBook.heap_ st !! a = Some o
            /\ Order.get_side o = s /\ Order.get_price o = b
            /\ 0 < Order.get_remaining_qty o).
Proof.
  intros Hv.
  destruct (run_levels clock ops Hv) as (evs & st & Hrun & Hwf & _ & Hne).
  exists evs, st. split; [done|]. split.
  - intros kl Hin. unfold no_empty_level in Hne.
    rewrite Forall_forall in Hne. specialize (Hne kl Hin).
    split; [done|]. unfold PriceLevel.get_order_count.
    unfold PriceLevel.empty in Hne.
    destruct (PriceLevel.orders_ kl.2); [done | simpl; lia].
  - intros s b Hb. rewrite get_best_head in Hb.
    destruct (own s st) as [|[k lv] others] eqn:Hown; [done|].
    injection Hb as ->.
    pose proof (proj1 (no_empty_sides s st) Hne) as [Hne' _].
    rewrite Hown in Hne'.
    apply Forall_cons in Hne' as [Hlv _]. simpl in Hlv.
    pose proof (proj1 (wf_book_ok s st) Hwf) as Hbook.
    pose proof (ok_own _ _ _ _ _ Hbook) as Hall. rewrite Hown in Hall.
    apply Forall_cons in Hall as [(_ & Hq & _) _]. simpl in Hq.
    unfold PriceLevel.empty in Hlv.
    destruct (PriceLevel.orders_ lv) as [|p q] eqn:Eq; [done|].
    apply Forall_cons in Hq as [(a & o & -> & Ho & Hl & Hs & Hk) _].
    exists lv, others, a, o. split_and!; try done.
    + unfold PriceLevel.get_front_order. by rewrite Eq.
    + by destruct (live_remaining _ Hl).
Qed.

(** X16. An accepted add makes at least one trade exactly when the
    opposite ladder has a best price and the order is a MARKET order or
    its price crosses that best price ([price >= best ask] for a buy,
    [price <= best bid] for a sell).  For a LIMIT order this is exactly
    when [can_match] is true of the order in the book before the add;
    for a MARKET order [can_match] is always true, also when the
    opposite ladder is empty and nothing is traded. *)
Theorem an_add_trades_when_it_crosses clock price quantity side type st :
  reachable clock st -> in_u64 quantity ->
  ~ rejected price quantity type ->
  exists id trades st',
    OrderBook.add_order_body clock price quantity side type st
    = Ok (id, trades, st')
    /\ (trades <> [] <->
        exists k,
          get_best (other side) st = Some k
          /\ (type = MARKET \/ OrderBook.crosses side price k = true))
    /\ (type = LIMIT ->
        (trades <> [] <->
         OrderBook.can_match
           (new_order clock price quantity side type st) st = true))
    /\ (type = MARKET ->
        OrderBook.can_match
          (new_order clock price quantity side type st) st = true).
Proof.
  intros Hreach Hq Hnr.
  pose proof (reachable_levels clock st Hreach) as Hne.
  destruct (reachable_inv _ _ Hreach) as [Hwf Hc].
  pose proof Hnr as (Hq0 & _)%not_rejected.
  destruct (accepted_add_trades clock price quantity side type st)
    as (trades & st' & oi & Hrun & Hfills & _); try done.
  exists (OrderBook.next_order_id_ st), trades, st'. split; [done|].
  assert (Hiff : trades <> [] <->
            exists k,
              get_best (other side) st = Some k
              /\ (type = MARKET \/ OrderBook.crosses side price k = true)).
  { rewrite get_best_head, <- opposite_own.
    apply (no_empty_sides side) in Hne as [_ Hne].
    pose proof Hwf as Hb. apply (wf_book_ok side) in Hb.
    pose proof (ok_opp _ _ _ _ _ Hb) as Hall.
    destruct (OrderBook.opposite side st) as [|[k lv] others] eqn:Hopp.
    { simpl in Hfills. destruct trades; [|discriminate].
      split; [done | by intros (k & ? & _)]. }
    apply Forall_cons in Hne as [Hlv _]. simpl in Hlv.
    apply Forall_cons in Hall as [(_ & Hqu & _) _]. simpl in Hqu.
    unfold PriceLevel.empty in Hlv.
    destruct (PriceLevel.orders_ lv) as [|p q] eqn:Eq; [done|].
    apply Forall_cons in Hqu as [(a & o & -> & Ho & _) _].
    cbn [book_view level_view] in Hfills. rewrite Eq in Hfills.
    cbn [level_view] in Hfills.
    rewrite (deref_Some _ _ _ Ho) in Hfills.
    cbn [app expected_fills] in Hfills.
    assert (Hpos : (quantity >? 0) = true) by (unfold in_u64 in Hq; lia).
    rewrite Hpos in Hfills. cbn [andb] in Hfills. simpl.
    destruct (OrderType_eqb type MARKET || OrderBook.crosses side price k)
      eqn:Ecross.
    - split; [|by destruct trades]. intros _. exists k. split; [done|].
      apply orb_true_iff in Ecross as [Hm | ?]; [left | by right].
      by apply OrderType_eqb_eq.
    - destruct trades; [|discriminate]. split; [done|].
      intros (k' & [= <-] & Hcr).
      apply orb_false_iff in Ecross as [Hm Hcr'].
      destruct Hcr as [-> | Hcr]; [done | congruence]. }
  split_and!; [done | |].
  - intros ->. rewrite Hiff, get_best_head, <- opposite_own.
    unfold OrderBook.can_match, new_order, OrderBook.crosses. simpl.
    destruct side; simpl.
    + destruct (OrderBook.asks_ st) as [|[k lv] others]; simpl.
      * split; [by intros (k & ? & _) | done].
      * split; [intros (k' & [= <-] & [? | ?]); done|].
        intros Hk. exists k. split; [done | by right].
    + destruct (OrderBook.bids_ st) as [|[k lv] others]; simpl.
      * split; [by intros (k & ? & _) | done].
      * split; [intros (k' & [= <-] & [? | ?]); done|].
        intros Hk. exists k. split; [done | by right].
  - by intros ->.
Qed.

Lemma an_add_trades_when_it_crosses_witness :
  exists id trades st',
    OrderBook.add_order_body clock0 98 50 BUY LIMIT
      (state_after clock0 gap_ops)
    = Ok (id, trades, st')
    /\ (trades <> [] <->
        exists k,
          get_best (other BUY) (state_after clock0 gap_ops) = Some k
          /\ (LIMIT = MARKET \/ OrderBook.crosses BUY 98 k = true)).
Proof.
  assert (Hq : in_u64 50) by (unfold in_u64; lia).
  assert (Hv : Forall valid_op gap_ops)
    by (repeat constructor; unfold in_u64; lia).
  assert (Hnr : ~ rejected 98 50 LIMIT) by (unfold rejected; lia).
  destruct (an_add_trades_when_it_crosses clock0 98 50 BUY LIMIT
              (state_after clock0 gap_ops)
              (proj2 (reachable_state_after clock0 _ Hv)) Hq Hnr)
    as (id & trades & st' & Hrun & Hiff & _).
  exists id, trades, st'. split; [exact Hrun | exact Hiff].
Defined.

(** * Further properties: the index and the queues *)

Lemma indexed_upto_flip N h own opp index :
  indexed_upto N h own opp index -> indexed_upto N h opp own index.
Proof.
  intros H p Hp. apply H.
  apply elem_of_app in Hp as [? | ?]; apply elem_of_app; auto.
Qed.

Lemma indexed_sides s st :
  indexed st <->
  indexed_upto (OrderBook.next_order_id_ st) (OrderBook.heap_ st)
    (own s st) (OrderBook.opposite s st) (OrderBook.order_map_ st).
Proof.
  unfold indexed. destruct s; simpl; [done|].
  split; apply indexed_upto_flip.
Qed.

Lemma indexed_upto_mono N N' h own opp index :
  N <= N' -> indexed_upto N h own opp index ->
  indexed_upto N' h own opp index.
Proof.
  intros Hle H p Hp. destruct (H p Hp) as (a & o & ? & ? & ? & ?).
  exists a, o. do 3 (split; [done|]). lia.
Qed.

(** One match keeps the queued orders in the index. *)
Lemma match_step_indexed N s i h own k level others index r q' oi orr :
  matching s i h own ((k, level) :: others) index ->
  PriceLevel.orders_ level = Some r :: q' ->
  h !! i = Some oi -> h !! r = Some orr ->
  indexed_upto N h own ((k, level) :: others) index ->
  indexed_upto N (match_heap h i oi r orr) own
    ((k, match_level level oi orr r q') :: others)
    (if match_full oi orr
     then delete (Order.order_id_ orr) index else index).
Proof.
  intros Hm Hq Hi Hr HJ p Hp.
  destruct (matching_front _ _ _ _ _ _ _ _ _ _ Hm Hq)
    as (r' & orr' & [= <-] & Hr' & _ & Hne & _ & _ & Hrq & Hrown & Hrothers).
  pose proof (mt_fresh _ _ _ _ _ _ Hm) as Hfresh.
  assert (Hrin : Some r ∈ resting own ++ resting ((k, level) :: others)).
  { simpl. rewrite Hq. apply elem_of_app. right. left. }
  assert (Hold : p ∈ resting own ++ resting ((k, level) :: others)).
  { simpl in Hp |- *. rewrite Hq.
    apply elem_of_app in Hp as [Hp | Hp]; apply elem_of_app; [by left|].
    right. apply elem_of_app in Hp as [Hp | Hp];
      [|by apply elem_of_app; right].
    apply elem_of_app. left.
    destruct (match_full oi orr); [by right | done]. }
  destruct (HJ p Hold) as (a & o & -> & Ha & Hidx & Hlt).
  assert (Hai : a <> i) by (intros ->; by apply Hfresh).
  destruct (decide (a = r)) as [-> | Hnr].
  - assert (o = orr) as -> by congruence.
    destruct (match_full oi orr) eqn:Efull.
    + exfalso. simpl in Hp. rewrite Efull in Hp.
      apply elem_of_app in Hp as [Hp | Hp]; [done|].
      apply elem_of_app in Hp as [Hp | Hp]; done.
    + exists r, (filled_by orr (match_qty oi orr)).
      split_and!; try done; try (simpl; lia).
      apply match_heap_resting. by eapply lookup_lt_Some.
  - exists a, o. split_and!; try done; try (simpl; lia).
    + rewrite <- Ha. by apply match_heap_other.
    + destruct (match_full oi orr); [|done].
      rewrite lookup_delete_ne; [done|]. intros Heq.
      destruct (HJ _ Hrin) as (a' & o' & [= <-] & Ha' & Hidx' & _).
      assert (o' = orr) as -> by congruence.
      rewrite Heq, Hidx in Hidx'. congruence.
Qed.

Section Indexed.

Variable clock : nat -> Z.

Lemma match_order_indexed N s i oi0 st0 :
  matching s i (OrderBook.heap_ st0) (own s st0) (OrderBook.opposite s st0)
    (OrderBook.order_map_ st0) ->
  OrderBook.heap_ st0 !! i = Some oi0 ->
  in_u64 (OrderBook.next_trade_id_ st0) ->
  indexed_upto N (OrderBook.heap_ st0) (own s st0)
    (OrderBook.opposite s st0) (OrderBook.order_map_ st0) ->
  exists trades st,
    OrderBook.match_order clock (Some i) st0 = Ok (trades, st)
    /\ indexed_upto N (OrderBook.heap_ st) (own s st)
         (OrderBook.opposite s st) (OrderBook.order_map_ st).
Proof.
  intros Hm Hi Htid HJ. unfold OrderBook.match_order.
  rewrite (deref_Some _ _ _ Hi). cbn [bind].
  destruct (mt_incoming _ _ _ _ _ _ Hm) as (oi' & Hoi' & _ & Hs).
  assert (oi' = oi0) as -> by congruence. unfold Order.get_side. rewrite Hs.
  assert (Hfresh : Some i ∉ resting (OrderBook.opposite s st0)).
  { intros Hin. apply (mt_fresh _ _ _ _ _ _ Hm), elem_of_app. by right. }
  assert (Hnd : NoDup (resting (OrderBook.opposite s st0))).
  { pose proof (ok_nodup _ _ _ _ _ (mt_book _ _ _ _ _ _ Hm)) as H.
    by apply NoDup_app in H as (_ & _ & ?). }
  destruct (match_loop_rule clock s i
              (fun trades st =>
                 matched clock s i oi0 st0 trades st
                 /\ indexed_upto N (OrderBook.heap_ st) (own s st)
                      (OrderBook.opposite s st) (OrderBook.order_map_ st)))
    with (fuel := S (length (OrderBook.opposite s st0)))
         (trades := @nil Trade.t) (st := st0)
    as (trades & st & Hrun & [_ HJ'] & _).
  - intros trades st [H _]. exact (md_matching _ _ _ _ _ _ _ H).
  - intros trades st k level others r q' oi orr [HQ HJ0] Hopp Hq Hi0 Hr **.
    split; [by apply matched_match|].
    pose proof (md_matching _ _ _ _ _ _ _ HQ) as Hm0.
    rewrite Hopp in Hm0, HJ0.
    rewrite heap_set_opposite, own_set_opposite, opposite_set_opposite,
      order_map_set_opposite, own_match_state.
    by apply (match_step_indexed _ s i).
  - intros trades st k level others [HQ HJ0] Hopp Hnil.
    split; [by eapply matched_erase|].
    rewrite heap_set_opposite, own_set_opposite, opposite_set_opposite,
      order_map_set_opposite.
    intros p Hp. apply HJ0. rewrite Hopp. simpl. rewrite Hnil. done.
  - split; [by apply matched_start | done].
  - lia.
  - eauto.
Qed.

Lemma add_order_body_indexed price quantity side type st id trades st' :
  wf st -> counters_ok st -> in_u64 quantity ->
  ~ rejected price quantity type ->
  indexed st -> 1 <= OrderBook.next_order_id_ st < 2 ^ 64 - 1 ->
  OrderBook.add_order_body clock price quantity side type st
  = Ok (id, trades, st') ->
  indexed st'.
Proof.
  intros Hwf Hc Hq Hnr HJ Hnext Hrun.
  pose proof Hnr as (Hq0 & _)%not_rejected.
  destruct (add_order_body_spec clock price quantity side type st)
    as (trades' & st2 & oi & st3 & Hmatch & Hmd & _ & Hi & Hcase & _ & Hrun');
    try done.
  rewrite Hrun in Hrun'. injection Hrun' as -> -> ->.
  set (N := OrderBook.next_order_id_ st) in *.
  assert (HN : 0 <= N) by (destruct Hc as ((? & _) & _); done).
  destruct (match_order_indexed N side (length (OrderBook.heap_ st))
              (new_order clock price quantity side type st)
              (allocated clock price quantity side type st))
    as (trades'' & st2' & Hmatch' & HJ2).
  { replace (own side (allocated clock price quantity side type st))
      with (own side st) by (by destruct side).
    replace (OrderBook.opposite side
               (allocated clock price quantity side type st))
      with (OrderBook.opposite side st) by (by destruct side).
    exact (allocated_matching clock price quantity side type st Hwf Hq Hq0). }
  { simpl. by apply list_lookup_middle. }
  { apply Hc. }
  { replace (own side (allocated clock price quantity side type st))
      with (own side st) by (by destruct side).
    replace (OrderBook.opposite side
               (allocated clock price quantity side type st))
      with (OrderBook.opposite side st) by (by destruct side).
    apply (indexed_sides side) in HJ. simpl.
    intros p Hp. destruct (HJ p Hp) as (a & o & -> & Ha & Hidx & Hlt).
    exists a, o. split_and!; try done; try (simpl; lia).
    by apply lookup_app_l_Some. }
  rewrite Hmatch in Hmatch'. injection Hmatch' as <- <-.
  pose proof (md_next_order_id _ _ _ _ _ _ _ Hmd) as Hn2. simpl in Hn2.
  fold N in Hn2. rewrite u64_small in Hn2 by (unfold in_u64; lia).
  destruct (md_incoming _ _ _ _ _ _ _ Hmd) as (oi' & Hoi' & (Hid & _) & _).
  assert (oi' = oi) as -> by congruence. simpl in Hid. fold N in Hid.
  apply (indexed_sides side). rewrite update_statistics_spec.
  replace (own side (OrderBook.mk _ _ _ _ _ _ _ _ _)) with (own side st3)
    by (by destruct side).
  replace (OrderBook.opposite side (OrderBook.mk _ _ _ _ _ _ _ _ _))
    with (OrderBook.opposite side st3) by (by destruct side).
  cbn [OrderBook.next_order_id_ OrderBook.heap_ OrderBook.order_map_].
  destruct Hcase as [(_ & _ & own' & Hrest & ->) | (_ & ->)].
  2:{ rewrite Hn2. eapply indexed_upto_mono; [|done]. lia. }
  rewrite own_set_own, opposite_set_own.
  replace (OrderBook.opposite side (OrderBook.set_order_map st2 _))
    with (OrderBook.opposite side st2) by (by destruct side).
  replace (OrderBook.next_order_id_ (set_own side _ own')) with (N + 1)
    by (rewrite <- Hn2; by destruct side).
  replace (OrderBook.heap_ (set_own side _ own')) with (OrderBook.heap_ st2)
    by (by destruct side).
  replace (OrderBook.order_map_ (set_own side _ own'))
    with (<[N := Some (length (OrderBook.heap_ st))]>
            (OrderBook.order_map_ st2)) by (by destruct side).
  destruct (rest_order_spec side price _ (OrderBook.heap_ st2) oi
              (own side st2) Hi)
    as (ma & mb & lv0 & _ & Hold & Hrest').
  rewrite Hrest' in Hrest. injection Hrest as <-.
  intros p Hp.
  assert (Hcases : p ∈ resting (own side st2)
                         ++ resting (OrderBook.opposite side st2)
                   \/ p = Some (length (OrderBook.heap_ st))).
  { apply elem_of_app in Hp as [Hp | Hp];
      [|left; apply elem_of_app; by right].
    rewrite resting_app in Hp. simpl in Hp.
    rewrite !elem_of_app, list_elem_of_singleton in Hp.
    destruct Hold as [(_ & -> & -> & _) | (_ & ->)]; simpl in Hp |- *;
      rewrite resting_app; simpl; rewrite !elem_of_app;
      destruct Hp as [? | [[? | ?] | ?]]; try tauto; try done;
      by apply elem_of_nil in H. }
  destruct Hcases as [Hp' | ->].
  - destruct (HJ2 p Hp') as (a & o & -> & Ha & Hidx & Hlt).
    exists a, o. split_and!; try done; try (simpl; lia).
    rewrite lookup_insert_ne; [done | lia].
  - exists (length (OrderBook.heap_ st)), oi.
    split_and!; try done; try (simpl; lia).
    rewrite Hid. apply lookup_insert_eq.
Qed.

End Indexed.

Lemma cancel_state_indexed st order_id a o :
  wf st -> indexed st ->
  OrderBook.order_map_ st !! order_id = Some (Some a) ->
  OrderBook.heap_ st !! a = Some o ->
  indexed (cancel_state st order_id a o).
Proof.
  intros Hwf HJ Hlook Ho.
  assert (Hid : Order.order_id_ o = order_id).
  { destruct (ok_index _ _ _ _ _ Hwf _ _ Hlook)
      as (_ & a' & o' & [= <-] & Ho' & Hid). congruence. }
  subst order_id.
  pose proof (proj1 (wf_book_ok (Order.side_ o) st) Hwf) as Hb.
  destruct (book_ok_cancel _ _ _ _ _ _ _ Hb Hlook Ho eq_refl)
    as ((lv & Hfind & Hin & _ & _) & _ & _).
  apply (indexed_sides (Order.side_ o)) in HJ.
  apply (indexed_sides (Order.side_ o)). unfold cancel_state.
  replace (own (Order.side_ o) (OrderBook.set_order_map _ _))
    with (ladder_without (before_of (Order.side_ o))
            (store (OrderBook.heap_ st) a (cancelled o)) (Order.order_id_ o)
            (Order.price_ o) (own (Order.side_ o) st))
    by (by destruct (Order.side_ o)).
  replace (OrderBook.opposite (Order.side_ o) (OrderBook.set_order_map _ _))
    with (OrderBook.opposite (Order.side_ o) st)
    by (by destruct (Order.side_ o)).
  replace (OrderBook.heap_ (OrderBook.set_order_map _ _))
    with (store (OrderBook.heap_ st) a (cancelled o))
    by (by destruct (Order.side_ o)).
  replace (OrderBook.next_order_id_ (OrderBook.set_order_map _ _))
    with (OrderBook.next_order_id_ st) by (by destruct (Order.side_ o)).
  cbn [OrderBook.order_map_ OrderBook.set_order_map].
  assert (Hain : Some a ∈ resting (own (Order.side_ o) st)).
  { apply elem_of_resting. exists (Order.price_ o, lv).
    split; [by eapply map_find_Some | done]. }
  pose proof (ok_nodup _ _ _ _ _ Hb) as Hnd.
  apply NoDup_app in Hnd as (_ & Hdisj & _).
  (* an order that stays queued is not the cancelled one *)
  assert (Hkeep : forall a' o',
            a' <> a ->
            OrderBook.heap_ st !! a' = Some o' ->
            OrderBook.order_map_ st !! Order.order_id_ o' = Some (Some a') ->
            1 <= Order.order_id_ o' < OrderBook.next_order_id_ st ->
            exists a0 o0,
              Some a' = Some a0
              /\ store (OrderBook.heap_ st) a (cancelled o) !! a0 = Some o0
              /\ delete (Order.order_id_ o) (OrderBook.order_map_ st)
                   !! Order.order_id_ o0 = Some (Some a0)
              /\ 1 <= Order.order_id_ o0 < OrderBook.next_order_id_ st).
  { intros a' o' Hne Ha' Hidx Hlt. exists a', o'. split_and!; try done; try (simpl; lia).
    - rewrite <- Ha'. by apply store_lookup_ne.
    - rewrite lookup_delete_ne; [done|]. intros Heq.
      rewrite Heq, Hidx in Hlook. congruence. }
  intros p Hp. apply elem_of_app in Hp as [Hp | Hp].
  - rewrite resting_without in Hp by apply (ok_own_sorted _ _ _ _ _ Hb).
    apply list_elem_of_In, in_flat_map in Hp as (kl & Hkl & Hp).
    apply list_elem_of_In in Hkl. apply list_elem_of_In in Hp.
    assert (Hpin : p ∈ PriceLevel.orders_ kl.2).
    { destruct (decide (kl.1 = Order.price_ o)); [|done].
      by apply list_elem_of_filter in Hp as [_ ?]. }
    destruct (HJ p) as (a' & o' & -> & Ha' & Hidx & Hlt).
    { apply elem_of_app. left. apply elem_of_resting. eauto. }
    apply (Hkeep a' o'); try done. intros ->.
    assert (o' = o) as -> by congruence.
    pose proof (ok_own _ _ _ _ _ Hb) as Hall.
    rewrite Forall_forall in Hall.
    destruct (Hall _ Hkl) as (_ & Hq & _). rewrite Forall_forall in Hq.
    destruct (Hq _ Hpin) as (a0 & o0 & [= <-] & Ho0 & _ & _ & Hprice).
    assert (o0 = o) as -> by congruence.
    destruct (decide (kl.1 = Order.price_ o)) as [_ | Hn]; [|done].
    apply list_elem_of_filter in Hp as [Hfalse _].
    rewrite (has_id_cancelled _ _ _ Ho) in Hfalse. discriminate.
  - destruct (HJ p) as (a' & o' & -> & Ha' & Hidx & Hlt);
      [apply elem_of_app; by right|].
    apply (Hkeep a' o'); try done. intros ->. by apply (Hdisj (Some a)).
Qed.

Section IndexedRuns.

Variable clock : nat -> Z.

Lemma run_indexed ops :
  Forall valid_op ops ->
  exists evs st,
    run clock ops OrderBook.init = Ok (evs, st)
    /\ wf st /\ counters_ok st
    /\ (Z.of_nat (length (issued_ids evs)) < 2 ^ 64 - 1 -> indexed st).
Proof.
  intros Hv.
  destruct (run_keeps clock ops OrderBook.init wf_init counters_init Hv)
    as (evs & st & Hrun & Hwf & Hc).
  exists evs, st. split_and!; try done.
  intros Hlt.
  enough (HP : Z.of_nat (length (issued_ids evs)) < 2 ^ 64 - 1 ->
               indexed st
               /\ OrderBook.next_order_id_ st
                  = 1 + Z.of_nat (length (issued_ids evs)))
    by exact (proj1 (HP Hlt)).
  clear Hlt.
  refine (run_fold clock
            (fun evs st =>
               Z.of_nat (length (issued_ids evs)) < 2 ^ 64 - 1 ->
               indexed st
               /\ OrderBook.next_order_id_ st
                  = 1 + Z.of_nat (length (issued_ids evs)))
            _ ops OrderBook.init [] evs st wf_init counters_init Hv _ Hrun).
  - clear. intros o acc st evs st' Hwf Hc Ho HP Hstep Hlt.
    rewrite issued_ids_app, length_app in Hlt.
    destruct HP as [HJ Hnext]; [lia|].
    destruct (step_facts clock o st evs st' Hwf Hc Ho Hstep)
      as (Hids & Hnext' & _).
    assert (Hn' : OrderBook.next_order_id_ st'
                  = 1 + Z.of_nat (length (issued_ids (acc ++ evs)))).
    { rewrite issued_ids_app, length_app, Hnext', Hids.
      destruct (consumes_id o); simpl; [|lia].
      rewrite Hids in Hlt. simpl in Hlt.
      rewrite u64_small by (unfold in_u64; lia). lia. }
    split; [|done].
    destruct (step_cases clock o st evs st' Hwf Hc Ho Hstep)
      as [-> | [(price & quantity & side & type & id & trades & Hq & Hnr
                 & Hcons & Hrun)
               | [(order_id & a & o' & Hl & Ha & ->) | ->]]].
    + done.
    + apply (add_order_body_indexed clock price quantity side type st
               id trades st'); try done.
      rewrite Hids, Hcons in Hlt. simpl in Hlt. lia.
    + by apply cancel_state_indexed.
    + intros p Hp. simpl in Hp. by apply elem_of_nil in Hp.
  - intros _. split; [|done]. intros p Hp. simpl in Hp.
    by apply elem_of_nil in Hp.
Qed.

End IndexedRuns.

Lemma index_size_le st :
  wf st ->
  (size (OrderBook.order_map_ st)
   <= length (resting (OrderBook.bids_ st)
              ++ resting (OrderBook.asks_ st)))%nat.
Proof.
  intros Hwf.
  rewrite <- length_map_to_list,
    <- (length_fmap snd (map_to_list (OrderBook.order_map_ st))).
  apply submseteq_length, NoDup_submseteq.
  - apply NoDup_fmap_2_strong; [|apply NoDup_map_to_list].
    intros [id1 p1] [id2 p2] H1%elem_of_map_to_list H2%elem_of_map_to_list
      Heq. simpl in Heq. subst p2.
    destruct (ok_index _ _ _ _ _ Hwf _ _ H1) as (_ & a & o & -> & Ho & <-).
    destruct (ok_index _ _ _ _ _ Hwf _ _ H2)
      as (_ & a' & o' & [= <-] & Ho' & <-).
    by assert (o' = o) as -> by congruence.
  - intros p ([id p'] & -> & Hin%elem_of_map_to_list)%list_elem_of_fmap.
    simpl. by destruct (ok_index _ _ _ _ _ Hwf _ _ Hin) as (? & _).
Qed.

Lemma index_size_ge st :
  wf st -> indexed st ->
  (length (resting (OrderBook.bids_ st) ++ resting (OrderBook.asks_ st))
   <= size (OrderBook.order_map_ st))%nat.
Proof.
  intros Hwf HJ.
  set (f := fun p : ptr =>
              (match deref (OrderBook.heap_ st) p with
               | Ok o => Order.order_id_ o
               | Err _ => 0
               end, p)).
  rewrite <- length_map_to_list,
    <- (length_fmap f (resting (OrderBook.bids_ st)
                       ++ resting (OrderBook.asks_ st))).
  apply submseteq_length, NoDup_submseteq.
  - apply NoDup_fmap_2_strong; [|apply (ok_nodup _ _ _ _ _ Hwf)].
    intros x y _ _ Heq. by injection Heq.
  - intros x (p & -> & Hp)%list_elem_of_fmap.
    destruct (HJ p Hp) as (a & o & -> & Ha & Hidx & _).
    apply elem_of_map_to_list. unfold f.
    by rewrite (deref_Some _ _ _ Ha).
Qed.

(** On integer prices: as long as fewer than 2^64 - 1 order ids were
    issued, at every point between two calls every order queued in a
    ladder is in the index under its own id, an id that was issued, no
    two queued orders have the same id, [cancel_order] of the id of a
    queued order returns true, and [get_total_orders] is exactly the
    number of orders queued in the two ladders. *)
Lemma indexed_run clock ops :
  Forall valid_op ops ->
  exists evs st,
    run clock ops OrderBook.init = Ok (evs, st)
    /\ (Z.of_nat (length (issued_ids evs)) < 2 ^ 64 - 1 ->
        (forall p,
            p ∈ resting (OrderBook.bids_ st) ++ resting (OrderBook.asks_ st) ->
            exists a o st',
              p = Some a /\ OrderBook.heap_ st !! a = Some o
              /\ OrderBook.order_map_ st !! Order.get_id o = Some p
              /\ Order.get_id o ∈ issued_ids evs
              /\ OrderBook.cancel_order (Order.get_id o) st = Ok (true, st'))
        /\ (forall a1 a2 o1 o2,
              Some a1 ∈ resting (OrderBook.bids_ st)
                        ++ resting (OrderBook.asks_ st) ->
              Some a2 ∈ resting (OrderBook.bids_ st)
                        ++ resting (OrderBook.asks_ st) ->
              OrderBook.heap_ st !! a1 = Some o1 ->
              OrderBook.heap_ st !! a2 = Some o2 ->
              Order.get_id o1 = Order.get_id o2 -> a1 = a2)
        /\ OrderBook.get_total_orders st
           = length (resting (OrderBook.bids_ st)
                     ++ resting (OrderBook.asks_ st))).
Proof.
  intros Hv.
  destruct (run_indexed clock ops Hv) as (evs & st & Hrun & Hwf & Hc & HJ).
  exists evs, st. split; [done|]. intros Hlt. specialize (HJ Hlt).
  destruct (run_facts clock ops OrderBook.init evs st wf_init counters_init
              Hv Hrun) as (Hids & Hnext & _).
  change (OrderBook.next_order_id_ OrderBook.init) with 1 in Hids, Hnext.
  rewrite u64_small in Hnext by (unfold in_u64; lia).
  split_and!.
  - intros p Hp. destruct (HJ p Hp) as (a & o & -> & Ha & Hidx & Hbound).
    destruct (cancel_order_spec _ _ _ Hwf Hidx)
      as (a' & o' & _ & _ & _ & _ & _ & Hcancel & _).
    exists a, o, (cancel_state st (Order.order_id_ o) a' o').
    split_and!; try done; try (simpl; lia).
    rewrite Hids. unfold Order.get_id in *.
    apply (list_elem_of_lookup_2 _ (Z.to_nat (Order.order_id_ o - 1))).
    rewrite consecutive_lookup by lia.
    f_equal. rewrite u64_small by (unfold in_u64; lia). lia.
  - intros a1 a2 o1 o2 H1 H2 Ho1 Ho2 Heq.
    destruct (HJ _ H1) as (a & o & [= <-] & Ha & Hidx1 & _).
    destruct (HJ _ H2) as (a' & o' & [= <-] & Ha' & Hidx2 & _).
    assert (o = o1) as -> by congruence.
    assert (o' = o2) as -> by congruence.
    unfold Order.get_id in Heq. rewrite Heq in Hidx1. congruence.
  - unfold OrderBook.get_total_orders. apply Nat.le_antisymm.
    + by apply index_size_le.
    + by apply index_size_ge.
Qed.

(** * Further properties: timestamps *)

(** X18. An accepted add reads the clock once for the order that it
    constructs and then once for each trade, in the order of the trades:
    the timestamp of the order is the first reading and the timestamp of
    the [j]-th trade the reading [j + 1] places later.  With a clock
    whose readings fit 64 bits and never go back, the timestamps of the
    trades are therefore in order, and none is before the timestamp of
    the order. *)
Theorem clock_is_read_once_per_trade clock price quantity side type st :
  reachable clock st -> in_u64 quantity ->
  ~ rejected price quantity type ->
  exists id trades st' oi,
    OrderBook.add_order_body clock price quantity side type st
    = Ok (id, trades, st')
    /\ OrderBook.heap_ st' !! length (OrderBook.heap_ st) = Some oi
    /\ Order.timestamp_ oi = u64 (clock (OrderBook.clock_reads_ st))
    /\ (forall j t,
          trades !! j = Some t ->
          Trade.timestamp t
          = u64 (clock (S (OrderBook.clock_reads_ st) + j)%nat))
    /\ OrderBook.clock_reads_ st'
       = (S (OrderBook.clock_reads_ st) + length trades)%nat
    /\ ((forall n, in_u64 (clock n)) ->
        (forall n m, (n <= m)%nat -> clock n <= clock m) ->
        (forall t, t ∈ trades -> Order.timestamp_ oi <= Trade.timestamp t)
        /\ forall j1 j2 t1 t2,
             (j1 <= j2)%nat ->
             trades !! j1 = Some t1 -> trades !! j2 = Some t2 ->
             Trade.timestamp t1 <= Trade.timestamp t2).
Proof.
  intros [Hwf Hc]%reachable_inv Hq Hnr.
  destruct (add_order_body_spec clock price quantity side type st)
    as (trades & st2 & oi & st3 & _ & Hmd & _ & Hi & Hcase & _ & Hrun);
    try done.
  exists (OrderBook.next_order_id_ st), trades,
    (OrderBook.update_statistics trades st3), oi.
  split; [done|].
  destruct (md_incoming _ _ _ _ _ _ _ Hmd)
    as (oi' & Hoi' & (_ & Hts & _) & _).
  assert (oi' = oi) as -> by congruence. simpl in Hts.
  pose proof (md_clock_reads _ _ _ _ _ _ _ Hmd) as Hreads. simpl in Hreads.
  assert (H3 : OrderBook.heap_ st3 = OrderBook.heap_ st2
               /\ OrderBook.clock_reads_ st3 = OrderBook.clock_reads_ st2).
  { destruct Hcase as [(_ & _ & own' & _ & ->) | (_ & ->)]; [|done].
    by destruct side. }
  destruct H3 as [Hh3 Hr3].
  assert (Hstamp : forall j t,
            trades !! j = Some t ->
            Trade.timestamp t
            = u64 (clock (S (OrderBook.clock_reads_ st) + j)%nat)).
  { intros j t Hj.
    by destruct (md_trade_ids _ _ _ _ _ _ _ Hmd j t Hj) as [_ ?]. }
  rewrite update_statistics_spec. simpl. rewrite Hh3, Hr3.
  split_and!; try done.
  intros Hrange Hmono. split.
  - intros t (j & Hj)%list_elem_of_lookup_1.
    rewrite Hts, (Hstamp j t Hj), !u64_small by apply Hrange.
    apply Hmono. lia.
  - intros j1 j2 t1 t2 Hle H1 H2.
    rewrite (Hstamp j1 t1 H1), (Hstamp j2 t2 H2), !u64_small
      by apply Hrange.
    apply Hmono. lia.
Qed.

Lemma clock_is_read_once_per_trade_witness :
  exists id trades st' oi,
    OrderBook.add_order_body clock0 101 300 BUY LIMIT
      (state_after clock0 [AddOrder 100 200 SELL LIMIT])
    = Ok (id, trades, st')
    /\ OrderBook.heap_ st'
         !! length (OrderBook.heap_
                      (state_after clock0 [AddOrder 100 200 SELL LIMIT]))
       = Some oi
    /\ OrderBook.clock_reads_ st'
       = (S (OrderBook.clock_reads_
               (state_after clock0 [AddOrder 100 200 SELL LIMIT]))
          + length trades)%nat.
Proof.
  assert (Hq : in_u64 300) by (unfold in_u64; lia).
  assert (Hv : Forall valid_op [AddOrder 100 200 SELL LIMIT])
    by (repeat constructor; unfold in_u64; lia).
  assert (Hnr : ~ rejected 101 300 LIMIT) by (unfold rejected; lia).
  destruct (clock_is_read_once_per_trade clock0 101 300 BUY LIMIT
              (state_after clock0 [AddOrder 100 200 SELL LIMIT])
              (proj2 (reachable_state_after clock0 _ Hv)) Hq Hnr)
    as (id & trades & st' & oi & Hrun & Hoi & _ & _ & Hreads & _).
  exists id, trades, st', oi.
  split; [exact Hrun|]. split; [exact Hoi | exact Hreads].
Defined.

(** * On numbers the two embeddings run alike *)

Lemma result_map_bind {A B A' B'} (f : A -> A') (g : B -> B')
    (r : result A) (k : A -> result B) (k' : A' -> result B') :
  (forall a, k' (f a) = result_map g (k a)) ->
  bind (result_map f r) k' = result_map g (bind r k).
Proof. intros H. destruct r; simpl; [apply H | done]. Qed.

Lemma map_fmap {A B} (f : A -> B) (l : list A) : map f l = f <$> l.
Proof. induction l as [|x l IH]; [done|]. cbn. by rewrite IH. Qed.

(** ** The heap *)

Lemma lift_heap_lookup h a : lift_heap h !! a = lift_order <$> h !! a.
Proof. apply list_lookup_fmap. Qed.

Lemma lift_heap_length h : length (lift_heap h) = length h.
Proof. apply length_fmap. Qed.

Lemma lift_heap_snoc h o : lift_heap h ++ [lift_order o] = lift_heap (h ++ [o]).
Proof. unfold lift_heap. by rewrite fmap_app. Qed.

Lemma lift_deref h p :
  Ieee.deref (lift_heap h) p = result_map lift_order (deref h p).
Proof.
  destruct p as [a|]; simpl; [|done]. rewrite lift_heap_lookup.
  by destruct (h !! a).
Qed.

Lemma lift_store h a o :
  Ieee.store (lift_heap h) a (lift_order o) = lift_heap (store h a o).
Proof. unfold Ieee.store, store, lift_heap. by rewrite list_fmap_insert. Qed.

Lemma lift_order_inj o o' : lift_order o = lift_order o' -> o = o'.
Proof.
  destruct o, o'. unfold lift_order. simpl.
  by intros [= -> -> -> -> -> -> -> ->].
Qed.

Lemma lift_level_inj lv lv' : lift_level lv = lift_level lv' -> lv = lv'.
Proof. destruct lv, lv'. unfold lift_level. simpl. by intros [= -> -> ->]. Qed.

(** ** Order *)

Lemma lift_make ts id price qty side type :
  Ieee.Order.make ts id (Ieee.Num price) qty side type
  = result_map lift_order (Order.make ts id price qty side type).
Proof.
  unfold Ieee.Order.make, Order.make. cbn [Ieee.ltb Ieee.leb Ieee.zero].
  destruct (qty =? 0); [done|]. destruct (price <? 0); [done|].
  by destruct (OrderType_eqb type LIMIT && (price <=? 0)).
Qed.

Lemma lift_set_fill o filled status :
  Ieee.Order.set_fill (lift_order o) filled status
  = lift_order (Order.set_fill o filled status).
Proof. done. Qed.

Lemma lift_fill o qty :
  Ieee.Order.fill (lift_order o) qty = result_map lift_order (Order.fill o qty).
Proof.
  unfold Ieee.Order.fill, Order.fill. cbn [lift_order Ieee.Order.filled_qty_
    Ieee.Order.quantity_ Ieee.Order.status_].
  destruct (qty =? 0); [done|].
  destruct (u64 (Order.filled_qty_ o + qty) >? Order.quantity_ o); [done|].
  destruct (OrderStatus_eqb (Order.status_ o) CANCELLED
            || OrderStatus_eqb (Order.status_ o) FILLED); [done|].
  by destruct (u64 (Order.filled_qty_ o + qty) =? Order.quantity_ o).
Qed.

Lemma lift_cancel o :
  Ieee.Order.cancel (lift_order o) = lift_order (Order.cancel o).
Proof.
  unfold Ieee.Order.cancel, Order.cancel.
  cbn [lift_order Ieee.Order.status_].
  by destruct (OrderStatus_eqb (Order.status_ o) NEW
               || OrderStatus_eqb (Order.status_ o) PARTIALLY_FILLED).
Qed.

Lemma lift_get_remaining_qty o :
  Ieee.Order.get_remaining_qty (lift_order o) = Order.get_remaining_qty o.
Proof. done. Qed.

Lemma lift_get_id o : Ieee.Order.get_id (lift_order o) = Order.get_id o.
Proof. done. Qed.

Lemma lift_get_side o : Ieee.Order.get_side (lift_order o) = Order.get_side o.
Proof. done. Qed.

Lemma lift_get_type o : Ieee.Order.get_type (lift_order o) = Order.get_type o.
Proof. done. Qed.

Lemma lift_get_status o :
  Ieee.Order.get_status (lift_order o) = Order.get_status o.
Proof. done. Qed.

Lemma lift_get_price o :
  Ieee.Order.get_price (lift_order o) = Ieee.Num (Order.get_price o).
Proof. done. Qed.

Lemma lift_is_fully_filled o :
  Ieee.Order.is_fully_filled (lift_order o) = Order.is_fully_filled o.
Proof. done. Qed.

(** ** PriceLevel *)

Lemma lift_empty lv :
  Ieee.PriceLevel.empty (lift_level lv) = PriceLevel.empty lv.
Proof. done. Qed.

Lemma lift_get_front_order lv :
  Ieee.PriceLevel.get_front_order (lift_level lv)
  = PriceLevel.get_front_order lv.
Proof. done. Qed.

Lemma lift_orders lv :
  Ieee.PriceLevel.orders_ (lift_level lv) = PriceLevel.orders_ lv.
Proof. done. Qed.

Lemma lift_level_make price :
  Ieee.PriceLevel.make (Ieee.Num price) = lift_level (PriceLevel.make price).
Proof. done. Qed.

Lemma lift_level_add_order h lv p :
  Ieee.PriceLevel.add_order (lift_heap h) (lift_level lv) p
  = result_map lift_level (PriceLevel.add_order h lv p).
Proof.
  unfold Ieee.PriceLevel.add_order, PriceLevel.add_order.
  destruct p as [a|]; [|done]. rewrite lift_deref.
  by destruct (deref h (Some a)).
Qed.

Lemma lift_remove_loop h order_id orders total temp_queue found :
  Ieee.PriceLevel.remove_loop (lift_heap h) order_id orders total temp_queue
    found
  = PriceLevel.remove_loop h order_id orders total temp_queue found.
Proof.
  revert total temp_queue found.
  induction orders as [|p orders IH]; intros total temp_queue found;
    [done|].
  cbn [Ieee.PriceLevel.remove_loop PriceLevel.remove_loop].
  destruct p as [a|]; [|apply IH]. rewrite lift_deref.
  destruct (deref h (Some a)) as [o|e]; cbn [bind result_map]; [|done].
  rewrite lift_get_id, lift_get_remaining_qty.
  destruct (Order.get_id o =? order_id); apply IH.
Qed.

Lemma lift_remove_order h lv order_id :
  Ieee.PriceLevel.remove_order (lift_heap h) (lift_level lv) order_id
  = result_map (fun r => (r.1, lift_level r.2))
      (PriceLevel.remove_order h lv order_id).
Proof.
  unfold Ieee.PriceLevel.remove_order, PriceLevel.remove_order.
  rewrite lift_empty. destruct (PriceLevel.empty lv); [done|].
  cbn [lift_level Ieee.PriceLevel.orders_ Ieee.PriceLevel.total_quantity_
       Ieee.PriceLevel.price_].
  rewrite lift_remove_loop.
  by destruct (PriceLevel.remove_loop h order_id (PriceLevel.orders_ lv)
                 (PriceLevel.total_quantity_ lv) [] false)
    as [[[total temp_queue] found]|e].
Qed.

Lemma lift_pop_front_order h lv :
  Ieee.PriceLevel.pop_front_order (lift_heap h) (lift_level lv)
  = result_map lift_level (PriceLevel.pop_front_order h lv).
Proof.
  unfold Ieee.PriceLevel.pop_front_order, PriceLevel.pop_front_order.
  cbn [lift_level Ieee.PriceLevel.orders_ Ieee.PriceLevel.total_quantity_
       Ieee.PriceLevel.price_].
  destruct (PriceLevel.orders_ lv) as [|[a|] q]; [done | | done].
  rewrite lift_deref. by destruct (deref h (Some a)).
Qed.

Lemma lift_update_quantity lv old_remaining new_remaining :
  Ieee.PriceLevel.update_quantity (lift_level lv) old_remaining new_remaining
  = lift_level (PriceLevel.update_quantity lv old_remaining new_remaining).
Proof.
  unfold Ieee.PriceLevel.update_quantity, PriceLevel.update_quantity.
  by destruct (old_remaining >=? new_remaining).
Qed.

(** ** The ladders *)

Section LadderLift.

Variable before : Z -> Z -> bool.
Variable before' : Ieee.double -> Ieee.double -> bool.
Hypothesis before_num :
  forall a b, before' (Ieee.Num a) (Ieee.Num b) = before a b.

Lemma lift_map_find k m :
  Ieee.map_find before' (Ieee.Num k) (lift_ladder m)
  = lift_level <$> map_find before k m.
Proof.
  induction m as [|[k' v] m IH]; [done|].
  cbn [lift_ladder fmap list_fmap lift_entry fst snd Ieee.map_find map_find].
  rewrite !before_num. destruct (before k' k); [apply IH|].
  by destruct (before k k').
Qed.

Lemma lift_map_assign k v m :
  Ieee.map_assign before' (Ieee.Num k) (lift_level v) (lift_ladder m)
  = lift_ladder (map_assign before k v m).
Proof.
  induction m as [|[k' v'] m IH]; [done|].
  cbn [lift_ladder fmap list_fmap lift_entry fst snd Ieee.map_assign
       map_assign].
  rewrite !before_num. destruct (before k' k).
  - cbn [fmap list_fmap]. f_equal. apply IH.
  - by destruct (before k k').
Qed.

Lemma lift_map_erase k m :
  Ieee.map_erase before' (Ieee.Num k) (lift_ladder m)
  = lift_ladder (map_erase before k m).
Proof.
  induction m as [|[k' v'] m IH]; [done|].
  cbn [lift_ladder fmap list_fmap lift_entry fst snd Ieee.map_erase
       map_erase].
  rewrite !before_num. destruct (before k' k).
  - cbn [fmap list_fmap]. f_equal. apply IH.
  - by destruct (before k k').
Qed.

Lemma lift_map_subscript k m :
  Ieee.map_subscript before' (Ieee.Num k) (lift_ladder m)
  = lift_level (map_subscript before k m).
Proof.
  unfold Ieee.map_subscript, map_subscript. rewrite lift_map_find.
  by destruct (map_find before k m).
Qed.

End LadderLift.

Lemma less_num a b : Ieee.less (Ieee.Num a) (Ieee.Num b) = less a b.
Proof. done. Qed.

Lemma greater_num a b : Ieee.greater (Ieee.Num a) (Ieee.Num b) = greater a b.
Proof. done. Qed.

Lemma before_of_num s a b :
  Ieee.before_of s (Ieee.Num a) (Ieee.Num b) = before_of s a b.
Proof. by destruct s. Qed.

Lemma lift_resting m : Ieee.resting (lift_ladder m) = resting m.
Proof.
  induction m as [|[k lv] m IH]; [done|].
  cbn [lift_ladder fmap list_fmap lift_entry fst snd Ieee.resting resting].
  cbn [lift_level Ieee.PriceLevel.orders_]. f_equal. apply IH.
Qed.

Lemma lift_ladder_length m : length (lift_ladder m) = length m.
Proof. apply length_fmap. Qed.

(** ** OrderBook *)

Lemma lift_set_bids st m :
  Ieee.OrderBook.set_bids (lift_state st) (lift_ladder m)
  = lift_state (OrderBook.set_bids st m).
Proof. done. Qed.

Lemma lift_set_asks st m :
  Ieee.OrderBook.set_asks (lift_state st) (lift_ladder m)
  = lift_state (OrderBook.set_asks st m).
Proof. done. Qed.

Lemma lift_set_order_map st m :
  Ieee.OrderBook.set_order_map (lift_state st) m
  = lift_state (OrderBook.set_order_map st m).
Proof. done. Qed.

Lemma lift_set_next_order_id st n :
  Ieee.OrderBook.set_next_order_id (lift_state st) n
  = lift_state (OrderBook.set_next_order_id st n).
Proof. done. Qed.

Lemma lift_set_next_trade_id st n :
  Ieee.OrderBook.set_next_trade_id (lift_state st) n
  = lift_state (OrderBook.set_next_trade_id st n).
Proof. done. Qed.

Lemma lift_set_total_trades st n :
  Ieee.OrderBook.set_total_trades (lift_state st) n
  = lift_state (OrderBook.set_total_trades st n).
Proof. done. Qed.

Lemma lift_set_total_volume st n :
  Ieee.OrderBook.set_total_volume (lift_state st) n
  = lift_state (OrderBook.set_total_volume st n).
Proof. done. Qed.

Lemma lift_set_heap st h :
  Ieee.OrderBook.set_heap (lift_state st) (lift_heap h)
  = lift_state (OrderBook.set_heap st h).
Proof. done. Qed.

Lemma lift_set_clock_reads st n :
  Ieee.OrderBook.set_clock_reads (lift_state st) n
  = lift_state (OrderBook.set_clock_reads st n).
Proof. done. Qed.

Lemma lift_bids st :
  Ieee.OrderBook.bids_ (lift_state st) = lift_ladder (OrderBook.bids_ st).
Proof. done. Qed.

Lemma lift_asks st :
  Ieee.OrderBook.asks_ (lift_state st) = lift_ladder (OrderBook.asks_ st).
Proof. done. Qed.

Lemma lift_order_map st :
  Ieee.OrderBook.order_map_ (lift_state st) = OrderBook.order_map_ st.
Proof. done. Qed.

Lemma lift_next_order_id st :
  Ieee.OrderBook.next_order_id_ (lift_state st) = OrderBook.next_order_id_ st.
Proof. done. Qed.

Lemma lift_next_trade_id st :
  Ieee.OrderBook.next_trade_id_ (lift_state st) = OrderBook.next_trade_id_ st.
Proof. done. Qed.

Lemma lift_total_trades st :
  Ieee.OrderBook.total_trades_ (lift_state st) = OrderBook.total_trades_ st.
Proof. done. Qed.

Lemma lift_total_volume st :
  Ieee.OrderBook.total_volume_ (lift_state st) = OrderBook.total_volume_ st.
Proof. done. Qed.

Lemma lift_heap_of st :
  Ieee.OrderBook.heap_ (lift_state st) = lift_heap (OrderBook.heap_ st).
Proof. done. Qed.

Lemma lift_clock_reads st :
  Ieee.OrderBook.clock_reads_ (lift_state st) = OrderBook.clock_reads_ st.
Proof. done. Qed.

Lemma lift_opposite side st :
  Ieee.OrderBook.opposite side (lift_state st)
  = lift_ladder (OrderBook.opposite side st).
Proof. by destruct side. Qed.

Lemma lift_set_opposite side st m :
  Ieee.OrderBook.set_opposite side (lift_state st) (lift_ladder m)
  = lift_state (OrderBook.set_opposite side st m).
Proof. by destruct side. Qed.

Lemma lift_own side st :
  Ieee.own side (lift_state st) = lift_ladder (own side st).
Proof. by destruct side. Qed.

Lemma lift_crosses side price best :
  Ieee.OrderBook.crosses side (Ieee.Num price) (Ieee.Num best)
  = OrderBook.crosses side price best.
Proof. by destruct side. Qed.

Lemma lift_trades_snoc trades t :
  (lift_trade <$> trades) ++ [lift_trade t] = lift_trade <$> (trades ++ [t]).
Proof. by rewrite fmap_app. Qed.

Create Rewrite HintDb lift.

#[local] Hint Rewrite lift_deref lift_store lift_heap_length lift_heap_snoc
  lift_fill lift_cancel lift_get_remaining_qty lift_get_id lift_get_side
  lift_get_type lift_get_status lift_get_price lift_is_fully_filled
  lift_empty lift_get_front_order lift_orders lift_level_make
  lift_level_add_order lift_remove_order lift_pop_front_order
  lift_update_quantity lift_set_bids lift_set_asks lift_set_order_map
  lift_set_next_order_id lift_set_next_trade_id lift_set_total_trades
  lift_set_total_volume lift_set_heap lift_set_clock_reads lift_bids
  lift_asks lift_order_map lift_next_order_id lift_next_trade_id
  lift_total_trades lift_total_volume lift_heap_of lift_clock_reads
  lift_opposite lift_set_opposite lift_crosses lift_trades_snoc
  lift_ladder_length : lift.

Section EngineLift.

Variable clock : nat -> Z.

Ltac lift_bind :=
  autorewrite with lift; apply result_map_bind; intros ?x; cbn beta.

Ltac lift_done :=
  autorewrite with lift; cbn [result_map]; unfold lift_matched;
  cbn [fst snd]; rewrite ?fmap_app; reflexivity.

Lemma lift_match_one incoming_order level trade_price trades st :
  Ieee.OrderBook.match_one clock incoming_order (lift_level level)
    (Ieee.Num trade_price) (lift_trade <$> trades) (lift_state st)
  = result_map lift_matched
      (OrderBook.match_one clock incoming_order level trade_price trades st).
Proof.
  unfold Ieee.OrderBook.match_one, OrderBook.match_one,
    Ieee.OrderBook.get_timestamp, OrderBook.get_timestamp.
  cbn beta iota zeta. autorewrite with lift.
  destruct (PriceLevel.get_front_order level) as [r|].
  2:{ lift_bind. lift_done. }
  lift_bind. lift_bind. lift_bind.
  destruct incoming_order as [i|].
  - lift_bind. lift_bind. lift_bind. autorewrite with lift.
    destruct (Order.is_fully_filled x4); [lift_bind|]; lift_done.
  - lift_bind. lift_bind. lift_bind. autorewrite with lift.
    destruct (Order.is_fully_filled x4); [lift_bind|]; lift_done.
Qed.

Lemma lift_process_matches_loop fuel incoming_order level trade_price
    trades st :
  Ieee.OrderBook.process_matches_loop clock fuel incoming_order
    (lift_level level) (Ieee.Num trade_price) (lift_trade <$> trades)
    (lift_state st)
  = result_map lift_matched
      (OrderBook.process_matches_loop clock fuel incoming_order level
         trade_price trades st).
Proof.
  revert level trades st.
  induction fuel as [|fuel IH]; intros level trades st;
    cbn [Ieee.OrderBook.process_matches_loop OrderBook.process_matches_loop];
    autorewrite with lift.
  - destruct (PriceLevel.empty level); [lift_done|]. lift_bind.
    autorewrite with lift.
    destruct (Order.get_remaining_qty x >? 0); [done | lift_done].
  - destruct (PriceLevel.empty level); [lift_done|]. lift_bind.
    autorewrite with lift.
    destruct (Order.get_remaining_qty x >? 0); [|lift_done].
    rewrite lift_match_one. apply result_map_bind.
    intros [[level' trades'] st']. apply IH.
Qed.

Lemma lift_process_matches_at_level incoming_order level trade_price trades
    st :
  Ieee.OrderBook.process_matches_at_level clock incoming_order
    (lift_level level) (Ieee.Num trade_price) (lift_trade <$> trades)
    (lift_state st)
  = result_map lift_matched
      (OrderBook.process_matches_at_level clock incoming_order level
         trade_price trades st).
Proof.
  unfold Ieee.OrderBook.process_matches_at_level,
    OrderBook.process_matches_at_level.
  autorewrite with lift. apply lift_process_matches_loop.
Qed.

Lemma lift_match_loop fuel side incoming_order trades st :
  Ieee.OrderBook.match_loop clock fuel side incoming_order
    (lift_trade <$> trades) (lift_state st)
  = result_map lift_traded
      (OrderBook.match_loop clock fuel side incoming_order trades st).
Proof.
  revert trades st.
  induction fuel as [|fuel IH]; intros trades st;
    cbn [Ieee.OrderBook.match_loop OrderBook.match_loop];
    autorewrite with lift.
  - destruct (OrderBook.opposite side st) as [|[best_price best_level] others];
      [done|].
    cbn [lift_ladder fmap list_fmap lift_entry fst snd].
    lift_bind. autorewrite with lift.
    destruct (Order.get_remaining_qty x >? 0); [|done].
    by destruct (OrderType_eqb (Order.get_type x) MARKET
                 || OrderBook.crosses side (Order.get_price x) best_price).
  - destruct (OrderBook.opposite side st) as [|[best_price best_level] others];
      [done|].
    cbn [lift_ladder fmap list_fmap lift_entry fst snd].
    lift_bind. autorewrite with lift.
    destruct (Order.get_remaining_qty x >? 0); [|done].
    destruct (OrderType_eqb (Order.get_type x) MARKET
              || OrderBook.crosses side (Order.get_price x) best_price);
      [|done].
    rewrite lift_process_matches_at_level. apply result_map_bind.
    intros [[level' trades'] st']. unfold lift_matched. cbn [fst snd].
    autorewrite with lift.
    destruct (PriceLevel.empty level').
    + apply IH.
    + change ((Ieee.Num best_price, lift_level level')
              :: (lift_entry <$> others))
        with (lift_ladder ((best_price, level') :: others)).
      rewrite lift_set_opposite. apply IH.
Qed.

Lemma lift_match_order incoming_order st :
  Ieee.OrderBook.match_order clock incoming_order (lift_state st)
  = result_map lift_traded (OrderBook.match_order clock incoming_order st).
Proof.
  unfold Ieee.OrderBook.match_order, OrderBook.match_order.
  destruct incoming_order as [i|]; [|done]. lift_bind.
  autorewrite with lift. apply (lift_match_loop _ _ _ []).
Qed.

Lemma lift_update_statistics trades st :
  Ieee.OrderBook.update_statistics (lift_trade <$> trades) (lift_state st)
  = lift_state (OrderBook.update_statistics trades st).
Proof.
  unfold Ieee.OrderBook.update_statistics, OrderBook.update_statistics.
  rewrite length_fmap. autorewrite with lift.
  generalize (OrderBook.set_total_trades st
                (u64 (OrderBook.total_trades_ st
                      + Z.of_nat (length trades)))).
  induction trades as [|t trades IH]; intros st'; [done|].
  cbn [fmap list_fmap fold_left]. autorewrite with lift. apply IH.
Qed.

Lemma lift_make_shared_Order price qty side type st :
  Ieee.OrderBook.make_shared_Order clock (Ieee.Num price) qty side type
    (lift_state st)
  = result_map (fun r => (r.1, lift_state r.2))
      (OrderBook.make_shared_Order clock price qty side type st).
Proof.
  unfold Ieee.OrderBook.make_shared_Order, OrderBook.make_shared_Order,
    Ieee.OrderBook.get_timestamp, OrderBook.get_timestamp.
  cbn beta iota zeta. autorewrite with lift. rewrite lift_make.
  apply result_map_bind. intros o. cbn [result_map fst snd].
  by autorewrite with lift.
Qed.

Lemma lift_rest_order (before : Z -> Z -> bool)
    (before' : Ieee.double -> Ieee.double -> bool) price order h m :
  (forall a b, before' (Ieee.Num a) (Ieee.Num b) = before a b) ->
  Ieee.OrderBook.rest_order before' (Ieee.Num price) order (lift_heap h)
    (lift_ladder m)
  = result_map lift_ladder (OrderBook.rest_order before price order h m).
Proof.
  intros Hb. unfold Ieee.OrderBook.rest_order, OrderBook.rest_order.
  cbn beta iota zeta. rewrite (lift_map_find before before' Hb).
  destruct (map_find before price m) as [lv|];
    cbn [fmap option_fmap option_map].
  - rewrite (lift_map_subscript before before' Hb). lift_bind.
    cbn [result_map]. by rewrite (lift_map_assign before before' Hb).
  - rewrite lift_level_make, (lift_map_assign before before' Hb).
    rewrite (lift_map_subscript before before' Hb). lift_bind.
    cbn [result_map]. by rewrite (lift_map_assign before before' Hb).
Qed.

Lemma lift_add_order_body price quantity side type st :
  Ieee.OrderBook.add_order_body clock (Ieee.Num price) quantity side type
    (lift_state st)
  = result_map lift_added
      (OrderBook.add_order_body clock price quantity side type st).
Proof.
  unfold Ieee.OrderBook.add_order_body, OrderBook.add_order_body.
  cbn [Ieee.ltb Ieee.leb Ieee.zero].
  destruct (quantity =? 0); [done|]. destruct (price <? 0); [done|].
  destruct (OrderType_eqb type LIMIT && (price <=? 0)); [done|].
  rewrite lift_make_shared_Order. apply result_map_bind.
  intros [order st1]. cbn [fst snd]. lift_bind.
  rewrite lift_match_order. apply result_map_bind.
  intros [trades st2]. unfold lift_traded. cbn [fst snd]. lift_bind.
  autorewrite with lift.
  destruct ((Order.get_remaining_qty x0 >? 0) && OrderType_eqb type LIMIT
            && negb (OrderStatus_eqb (Order.get_status x0) CANCELLED)).
  - destruct side; autorewrite with lift.
    + rewrite (lift_rest_order greater Ieee.greater) by apply greater_num.
      destruct (OrderBook.rest_order greater price order _ _) as [m|e];
        cbn [bind result_map]; [|done].
      autorewrite with lift. by rewrite lift_update_statistics.
    + rewrite (lift_rest_order less Ieee.less) by apply less_num.
      destruct (OrderBook.rest_order less price order _ _) as [m|e];
        cbn [bind result_map]; [|done].
      autorewrite with lift. by rewrite lift_update_statistics.
  - cbn [bind result_map]. by rewrite lift_update_statistics.
Qed.

Lemma lift_add_market_order quantity side st :
  Ieee.OrderBook.add_market_order clock quantity side (lift_state st)
  = result_map lift_traded
      (OrderBook.add_market_order clock quantity side st).
Proof.
  unfold Ieee.OrderBook.add_market_order, OrderBook.add_market_order.
  destruct (quantity =? 0); [done|].
  change Ieee.zero with (Ieee.Num 0).
  rewrite lift_make_shared_Order. apply result_map_bind.
  intros [order st1]. cbn [fst snd].
  rewrite lift_match_order. apply result_map_bind.
  intros [trades st2]. unfold lift_traded. cbn [fst snd result_map].
  by rewrite lift_update_statistics.
Qed.

Lemma lift_unrest_order (before : Z -> Z -> bool)
    (before' : Ieee.double -> Ieee.double -> bool) price order_id h m :
  (forall a b, before' (Ieee.Num a) (Ieee.Num b) = before a b) ->
  Ieee.OrderBook.unrest_order before' (Ieee.Num price) order_id (lift_heap h)
    (lift_ladder m)
  = result_map (fun r => (r.1, lift_ladder r.2))
      (OrderBook.unrest_order before price order_id h m).
Proof.
  intros Hb. unfold Ieee.OrderBook.unrest_order, OrderBook.unrest_order.
  rewrite (lift_map_find before before' Hb).
  destruct (map_find before price m) as [lv|];
    cbn [fmap option_fmap option_map]; [|done].
  rewrite lift_remove_order. apply result_map_bind.
  intros [removed lv']. cbn [fst snd]. rewrite lift_empty.
  destruct (PriceLevel.empty lv'); cbn [result_map fst snd].
  - by rewrite (lift_map_erase before before' Hb).
  - by rewrite (lift_map_assign before before' Hb).
Qed.

Lemma lift_cancel_order order_id st :
  Ieee.OrderBook.cancel_order order_id (lift_state st)
  = result_map (fun r => (r.1, lift_state r.2))
      (OrderBook.cancel_order order_id st).
Proof.
  unfold Ieee.OrderBook.cancel_order, OrderBook.cancel_order.
  autorewrite with lift.
  destruct (OrderBook.order_map_ st !! order_id) as [order|]; [|done].
  lift_bind. autorewrite with lift.
  assert (Hst :
    match order with
    | Some a =>
        Ieee.OrderBook.set_heap (lift_state st)
          (Ieee.store (lift_heap (OrderBook.heap_ st)) a
             (lift_order (Order.cancel x)))
    | None => lift_state st
    end
    = lift_state
        match order with
        | Some a =>
            OrderBook.set_heap st
              (store (OrderBook.heap_ st) a (Order.cancel x))
        | None => st
        end).
  { destruct order; by autorewrite with lift. }
  rewrite Hst. clear Hst.
  generalize (match order with
              | Some a =>
                  OrderBook.set_heap st
                    (store (OrderBook.heap_ st) a (Order.cancel x))
              | None => st
              end).
  intros st1. destruct (Order.get_side (Order.cancel x));
    autorewrite with lift.
  - rewrite (lift_unrest_order greater Ieee.greater) by apply greater_num.
    destruct (OrderBook.unrest_order greater _ _ _ _) as [[removed m]|e];
      cbn [bind result_map fst snd]; [|done].
    by autorewrite with lift.
  - rewrite (lift_unrest_order less Ieee.less) by apply less_num.
    destruct (OrderBook.unrest_order less _ _ _ _) as [[removed m]|e];
      cbn [bind result_map fst snd]; [|done].
    by autorewrite with lift.
Qed.

Lemma lift_clear st :
  Ieee.OrderBook.clear (lift_state st) = lift_state (OrderBook.clear st).
Proof. done. Qed.

Lemma lift_issued_between st st' :
  Ieee.issued_between (lift_state st) (lift_state st')
  = issued_between st st'.
Proof.
  unfold Ieee.issued_between, issued_between. autorewrite with lift.
  unfold lift_heap. rewrite !map_fmap, <- fmap_drop, <- list_fmap_compose.
  done.
Qed.

Lemma lift_events ids trades :
  map Ieee.Issued ids ++ map Ieee.Traded (lift_trade <$> trades)
  = lift_event <$> (map Issued ids ++ map Traded trades).
Proof.
  rewrite !map_fmap, fmap_app, <- !list_fmap_compose. done.
Qed.

Lemma lift_step o st :
  Ieee.step clock (lift_op o) (lift_state st)
  = result_map lift_log (step clock o st).
Proof.
  destruct o as [price quantity side type | quantity side | order_id |];
    cbn [lift_op Ieee.step step].
  - rewrite lift_add_order_body. apply result_map_bind.
    intros [[id trades] st']. unfold lift_added, lift_log.
    cbn [fst snd result_map]. by rewrite lift_issued_between, lift_events.
  - rewrite lift_add_market_order. apply result_map_bind.
    intros [trades st']. unfold lift_traded, lift_log.
    cbn [fst snd result_map]. by rewrite lift_issued_between, lift_events.
  - rewrite lift_cancel_order. apply result_map_bind.
    by intros [removed st'].
  - done.
Qed.

(** A run on integer prices is, call for call, the run of the engine on
    [double] prices that is passed the same numbers. *)
Lemma run_lift ops st :
  Ieee.run clock (lift_op <$> ops) (lift_state st)
  = result_map lift_log (run clock ops st).
Proof.
  revert st. induction ops as [|o ops IH]; intros st; [done|].
  cbn [fmap list_fmap Ieee.run run]. rewrite lift_step.
  apply result_map_bind. intros [evs st1]. unfold lift_log at 1.
  cbn [fst snd]. fold (lift_op <$> ops). rewrite IH.
  apply result_map_bind. intros [evs' st2]. unfold lift_log.
  cbn [fst snd result_map]. by rewrite fmap_app.
Qed.

End EngineLift.

(** The calls that pass no NaN are the calls on integer prices. *)
Lemma without_nan_lift ops :
  Forall Ieee.without_nan ops -> exists ops0, ops = lift_op <$> ops0.
Proof.
  induction 1 as [|o ops Ho _ (ops0 & ->)]; [by exists []|].
  destruct o as [[price|] quantity side type | quantity side | order_id |].
  - by exists (AddOrder price quantity side type :: ops0).
  - done.
  - by exists (AddMarketOrder quantity side :: ops0).
  - by exists (CancelOrder order_id :: ops0).
  - by exists (Clear :: ops0).
Qed.

Lemma valid_op_lift ops :
  Forall Ieee.valid_op (lift_op <$> ops) <-> Forall valid_op ops.
Proof.
  rewrite Forall_fmap. apply Forall_iff. by intros [].
Qed.

(** The states that the engine on [double] prices reaches when it is
    passed no NaN are the states of the engine on integer prices. *)
Lemma reachable_lift clock st :
  Ieee.reachable clock st <->
  exists st0, reachable clock st0 /\ st = lift_state st0.
Proof.
  split.
  - intros (ops & evs & Hv & Hn & Hrun).
    destruct (without_nan_lift _ Hn) as (ops0 & ->).
    apply valid_op_lift in Hv.
    change Ieee.OrderBook.init with (lift_state OrderBook.init) in Hrun.
    rewrite run_lift in Hrun.
    destruct (run clock ops0 OrderBook.init) as [[evs0 st0]|e] eqn:Hrun0;
      [|done].
    injection Hrun as <- <-. exists st0. split; [|done].
    by exists ops0, evs0.
  - intros (st0 & (ops0 & evs0 & Hv & Hrun0) & ->).
    exists (lift_op <$> ops0), (lift_event <$> evs0).
    split; [by apply valid_op_lift|]. split.
    + apply Forall_fmap, Forall_true. by intros [].
    + change Ieee.OrderBook.init with (lift_state OrderBook.init).
      by rewrite run_lift, Hrun0.
Qed.

(** * The engine on [double] prices: what holds without NaN, and what NaN
      breaks *)

(** ** What is read off a state of numbers *)

Lemma lift_get_best_bid st :
  Ieee.OrderBook.get_best_bid (lift_state st)
  = Ieee.Num <$> OrderBook.get_best_bid st.
Proof.
  unfold Ieee.OrderBook.get_best_bid, OrderBook.get_best_bid.
  rewrite lift_bids. by destruct (OrderBook.bids_ st) as [|[k lv] m].
Qed.

Lemma lift_get_best_ask st :
  Ieee.OrderBook.get_best_ask (lift_state st)
  = Ieee.Num <$> OrderBook.get_best_ask st.
Proof.
  unfold Ieee.OrderBook.get_best_ask, OrderBook.get_best_ask.
  rewrite lift_asks. by destruct (OrderBook.asks_ st) as [|[k lv] m].
Qed.

Lemma lift_get_best s st :
  Ieee.get_best s (lift_state st) = Ieee.Num <$> get_best s st.
Proof. destruct s; [apply lift_get_best_bid | apply lift_get_best_ask]. Qed.

Lemma elem_of_lift_ladder k lv m :
  (k, lv) ∈ lift_ladder m <->
  exists k0 lv0, k = Ieee.Num k0 /\ lv = lift_level lv0 /\ (k0, lv0) ∈ m.
Proof.
  unfold lift_ladder. rewrite list_elem_of_fmap. split.
  - intros ([k0 lv0] & [= -> ->] & Hin). by exists k0, lv0.
  - intros (k0 & lv0 & -> & -> & Hin). by exists (k0, lv0).
Qed.

Lemma lift_heap_lookup_Some h a o :
  lift_heap h !! a = Some o <->
  exists o0, h !! a = Some o0 /\ o = lift_order o0.
Proof. rewrite lift_heap_lookup. apply fmap_Some. Qed.

Lemma lift_keys m : Ieee.keys (lift_ladder m) = Ieee.Num <$> keys m.
Proof.
  unfold Ieee.keys, keys, lift_ladder. rewrite <- !list_fmap_compose.
  by apply list_fmap_ext.
Qed.

Lemma lift_has_id h order_id p :
  Ieee.has_id (lift_heap h) order_id p = has_id h order_id p.
Proof.
  unfold Ieee.has_id, has_id. rewrite lift_deref.
  by destruct (deref h p).
Qed.

Lemma lift_remaining_at h p :
  Ieee.remaining_at (lift_heap h) p = remaining_at h p.
Proof.
  unfold Ieee.remaining_at, remaining_at. rewrite lift_deref.
  by destruct (deref h p).
Qed.

Lemma lift_sum_remaining h q :
  Ieee.sum_remaining (lift_heap h) q = sum_remaining h q.
Proof.
  induction q as [|p q IH]; [done|].
  cbn [Ieee.sum_remaining sum_remaining]. by rewrite lift_remaining_at, IH.
Qed.

Lemma lift_level_without h order_id lv :
  Ieee.level_without (lift_heap h) order_id (lift_level lv)
  = lift_level (level_without h order_id lv).
Proof.
  unfold Ieee.level_without, level_without, lift_level.
  cbn [Ieee.PriceLevel.price_ Ieee.PriceLevel.total_quantity_
       Ieee.PriceLevel.orders_ PriceLevel.price_ PriceLevel.total_quantity_
       PriceLevel.orders_].
  assert (Hex : existsb (Ieee.has_id (lift_heap h) order_id)
                  (PriceLevel.orders_ lv)
                = existsb (has_id h order_id) (PriceLevel.orders_ lv)).
  { induction (PriceLevel.orders_ lv) as [|p q IH]; [done|].
    cbn [existsb]. by rewrite lift_has_id, IH. }
  assert (Hf : forall b,
             filter (fun p => Ieee.has_id (lift_heap h) order_id p = b)
               (PriceLevel.orders_ lv)
             = filter (fun p => has_id h order_id p = b)
                 (PriceLevel.orders_ lv)).
  { intros b. apply list_filter_iff. intros p. by rewrite lift_has_id. }
  by rewrite Hex, !Hf, lift_sum_remaining.
Qed.

Lemma lift_cancelled o :
  Ieee.cancelled (lift_order o) = lift_order (cancelled o).
Proof. done. Qed.

Lemma lift_issued_ids evs :
  Ieee.issued_ids (lift_event <$> evs) = issued_ids evs.
Proof.
  induction evs as [|[id|t|] evs IH]; [done| | |];
    cbn [fmap list_fmap lift_event Ieee.issued_ids issued_ids];
    fold (lift_event <$> evs); by rewrite IH.
Qed.

Lemma lift_rejected price quantity type :
  Ieee.rejected (Ieee.Num price) quantity type <-> rejected price quantity type.
Proof.
  unfold Ieee.rejected, rejected. cbn [Ieee.ltb Ieee.leb Ieee.zero].
  rewrite Z.ltb_lt, Z.leb_le. done.
Qed.

(** A run that is passed no NaN is the run on integer prices. *)
Lemma run_without_nan clock ops
    (P : list event -> OrderBook.t -> Prop) :
  Forall Ieee.valid_op ops -> Forall Ieee.without_nan ops ->
  (forall ops0,
     Forall valid_op ops0 ->
     exists evs st, run clock ops0 OrderBook.init = Ok (evs, st) /\ P evs st) ->
  exists evs st,
    Ieee.run clock ops Ieee.OrderBook.init
    = Ok (lift_event <$> evs, lift_state st)
    /\ P evs st.
Proof.
  intros Hv Hn HP. destruct (without_nan_lift _ Hn) as (ops0 & ->).
  apply valid_op_lift in Hv.
  destruct (HP ops0 Hv) as (evs & st & Hrun & H).
  exists evs, st. split; [|done].
  change Ieee.OrderBook.init with (lift_state OrderBook.init).
  by rewrite run_lift, Hrun.
Qed.

Lemma state_after_without_nan clock ops :
  Forall Ieee.valid_op ops -> Forall Ieee.without_nan ops ->
  Ieee.reachable clock (Ieee.state_after clock ops).
Proof.
  intros Hv Hn.
  destruct (run_without_nan clock ops (fun _ _ => True) Hv Hn)
    as (evs & st & Hrun & _).
  { intros ops0 Hv0.
    destruct (run_keeps clock ops0 OrderBook.init wf_init counters_init Hv0)
      as (evs & st & Hrun & _).
    by exists evs, st. }
  exists ops, (lift_event <$> evs). split; [done|]. split; [done|].
  unfold Ieee.state_after. by rewrite Hrun.
Qed.

(** ** The book is uncrossed *)




(** ** What is left of an order after matching *)

(** Matching adds nothing to the book, whatever the book: it takes
    pointers off the ladder that it matches against and ids out of the
    index, and leaves the other ladder as it is. *)

Lemma pop_front_order_shrinks h lv lv' :
  Ieee.PriceLevel.pop_front_order h lv = Ok lv' ->
  forall p, p ∈ Ieee.PriceLevel.orders_ lv' -> p ∈ Ieee.PriceLevel.orders_ lv.
Proof.
  unfold Ieee.PriceLevel.pop_front_order.
  destruct (Ieee.PriceLevel.orders_ lv) as [|[a|] q] eqn:E.
  - intros [= <-] p. by rewrite E.
  - intros H. inv_bind H. injection H as <-. intros p Hp. by right.
  - intros [= <-] p Hp. by right.
Qed.

Lemma update_quantity_orders lv old_remaining new_remaining :
  Ieee.PriceLevel.orders_
    (Ieee.PriceLevel.update_quantity lv old_remaining new_remaining)
  = Ieee.PriceLevel.orders_ lv.
Proof.
  unfold Ieee.PriceLevel.update_quantity.
  by destruct (old_remaining >=? new_remaining).
Qed.

Section Shrinks.

Variable clock : nat -> Z.

Lemma match_one_shrinks incoming_order level trade_price trades st level'
    trades' st' :
  Ieee.OrderBook.match_one clock incoming_order level trade_price trades st
  = Ok (level', trades', st') ->
  Ieee.OrderBook.bids_ st' = Ieee.OrderBook.bids_ st
  /\ Ieee.OrderBook.asks_ st' = Ieee.OrderBook.asks_ st
  /\ Ieee.OrderBook.order_map_ st' ⊆ Ieee.OrderBook.order_map_ st
  /\ (forall p, p ∈ Ieee.PriceLevel.orders_ level' ->
                p ∈ Ieee.PriceLevel.orders_ level).
Proof.
  unfold Ieee.OrderBook.match_one, Ieee.OrderBook.get_timestamp.
  cbn beta iota zeta.
  destruct (Ieee.PriceLevel.get_front_order level) as [r|].
  2:{ intros H. inv_bind H. injection H as <- <- <-.
      split_and!; try done. exact (pop_front_order_shrinks _ _ _ Ha). }
  intros H. do 6 inv_bind H.
  destruct (Ieee.Order.is_fully_filled a4).
  - inv_bind H. injection H as <- <- <-.
    pose proof (pop_front_order_shrinks _ _ _ Ha5) as Hpop.
    split_and!.
    + by destruct incoming_order.
    + by destruct incoming_order.
    + etrans; [apply delete_subseteq|]. by destruct incoming_order.
    + intros p Hp. apply Hpop in Hp.
      by rewrite update_quantity_orders in Hp.
  - injection H as <- <- <-. split_and!.
    + by destruct incoming_order.
    + by destruct incoming_order.
    + by destruct incoming_order.
    + intros p. by rewrite update_quantity_orders.
Qed.

Lemma process_matches_loop_shrinks fuel incoming_order level trade_price
    trades st level' trades' st' :
  Ieee.OrderBook.process_matches_loop clock fuel incoming_order level
    trade_price trades st
  = Ok (level', trades', st') ->
  Ieee.OrderBook.bids_ st' = Ieee.OrderBook.bids_ st
  /\ Ieee.OrderBook.asks_ st' = Ieee.OrderBook.asks_ st
  /\ Ieee.OrderBook.order_map_ st' ⊆ Ieee.OrderBook.order_map_ st
  /\ (forall p, p ∈ Ieee.PriceLevel.orders_ level' ->
                p ∈ Ieee.PriceLevel.orders_ level).
Proof.
  revert level trades st.
  induction fuel as [|fuel IH]; intros level trades st;
    cbn [Ieee.OrderBook.process_matches_loop].
  - destruct (Ieee.PriceLevel.empty level); [by intros [= <- <- <-]|].
    intros H. inv_bind H.
    destruct (Ieee.Order.get_remaining_qty a >? 0); [done|].
    by injection H as <- <- <-.
  - destruct (Ieee.PriceLevel.empty level); [by intros [= <- <- <-]|].
    intros H. inv_bind H.
    destruct (Ieee.Order.get_remaining_qty a >? 0);
      [|by injection H as <- <- <-].
    inv_bind H. destruct a0 as [[level1 trades1] st1].
    apply match_one_shrinks in Ha0 as (Hb & Has & Hi & Ho).
    apply IH in H as (Hb' & Has' & Hi' & Ho').
    split_and!; [congruence | congruence | by etrans | auto].
Qed.

Lemma own_set_opposite_ieee side st m :
  Ieee.own side (Ieee.OrderBook.set_opposite side st m) = Ieee.own side st.
Proof. by destruct side. Qed.

Lemma opposite_set_opposite_ieee side st m :
  Ieee.OrderBook.opposite side (Ieee.OrderBook.set_opposite side st m) = m.
Proof. by destruct side. Qed.

Lemma order_map_set_opposite_ieee side st m :
  Ieee.OrderBook.order_map_ (Ieee.OrderBook.set_opposite side st m)
  = Ieee.OrderBook.order_map_ st.
Proof. by destruct side. Qed.

Lemma match_loop_shrinks fuel side incoming_order trades st trades' st' :
  Ieee.OrderBook.match_loop clock fuel side incoming_order trades st
  = Ok (trades', st') ->
  Ieee.own side st' = Ieee.own side st
  /\ Ieee.OrderBook.order_map_ st' ⊆ Ieee.OrderBook.order_map_ st
  /\ (forall p, p ∈ Ieee.resting (Ieee.OrderBook.opposite side st') ->
                p ∈ Ieee.resting (Ieee.OrderBook.opposite side st)).
Proof.
  revert trades st.
  induction fuel as [|fuel IH]; intros trades st;
    cbn [Ieee.OrderBook.match_loop];
    destruct (Ieee.OrderBook.opposite side st)
      as [|[best_price best_level] others] eqn:Eopp;
    try (intros [= <- <-]; by rewrite Eopp).
  - intros H. inv_bind H.
    destruct (Ieee.Order.get_remaining_qty a >? 0);
      [|injection H as <- <-; by rewrite Eopp].
    destruct (OrderType_eqb (Ieee.Order.get_type a) MARKET
              || Ieee.OrderBook.crosses side (Ieee.Order.get_price a)
                   best_price); [done|].
    injection H as <- <-. by rewrite Eopp.
  - intros H. inv_bind H.
    destruct (Ieee.Order.get_remaining_qty a >? 0);
      [|injection H as <- <-; by rewrite Eopp].
    destruct (OrderType_eqb (Ieee.Order.get_type a) MARKET
              || Ieee.OrderBook.crosses side (Ieee.Order.get_price a)
                   best_price);
      [|injection H as <- <-; by rewrite Eopp].
    inv_bind H. destruct a0 as [[level1 trades1] st1].
    apply process_matches_loop_shrinks in Ha0 as (Hb & Has & Hi & Ho).
    assert (Hown : Ieee.own side st1 = Ieee.own side st)
      by (by destruct side).
    destruct (Ieee.PriceLevel.empty level1);
      apply IH in H as (Hown' & Hi' & Hr');
      rewrite own_set_opposite_ieee in Hown';
      rewrite order_map_set_opposite_ieee in Hi';
      rewrite opposite_set_opposite_ieee in Hr'.
    + split_and!; [congruence | by etrans |].
      intros p Hp. cbn [Ieee.resting]. apply elem_of_app. right. auto.
    + split_and!; [congruence | by etrans |].
      intros p Hp. apply Hr' in Hp. cbn [Ieee.resting] in Hp |- *.
      apply elem_of_app in Hp as [Hp | Hp]; apply elem_of_app; auto.
Qed.

End Shrinks.

Lemma fold_volume_frame_ieee trades st :
  Ieee.OrderBook.bids_
    (fold_left
       (fun st trade =>
          Ieee.OrderBook.set_total_volume st
            (u64 (Ieee.OrderBook.total_volume_ st
                  + Ieee.Trade.quantity trade))) trades st)
  = Ieee.OrderBook.bids_ st
  /\ Ieee.OrderBook.asks_
       (fold_left
          (fun st trade =>
             Ieee.OrderBook.set_total_volume st
               (u64 (Ieee.OrderBook.total_volume_ st
                     + Ieee.Trade.quantity trade))) trades st)
     = Ieee.OrderBook.asks_ st
  /\ Ieee.OrderBook.order_map_
       (fold_left
          (fun st trade =>
             Ieee.OrderBook.set_total_volume st
               (u64 (Ieee.OrderBook.total_volume_ st
                     + Ieee.Trade.quantity trade))) trades st)
     = Ieee.OrderBook.order_map_ st.
Proof.
  revert st. induction trades as [|t trades IH]; intros st; [done|].
  cbn [fold_left].
  destruct (IH (Ieee.OrderBook.set_total_volume st
                  (u64 (Ieee.OrderBook.total_volume_ st
                        + Ieee.Trade.quantity t))))
    as (-> & -> & ->).
  done.
Qed.

Lemma update_statistics_frame_ieee trades st :
  Ieee.OrderBook.bids_ (Ieee.OrderBook.update_statistics trades st)
  = Ieee.OrderBook.bids_ st
  /\ Ieee.OrderBook.asks_ (Ieee.OrderBook.update_statistics trades st)
     = Ieee.OrderBook.asks_ st
  /\ Ieee.OrderBook.order_map_ (Ieee.OrderBook.update_statistics trades st)
     = Ieee.OrderBook.order_map_ st.
Proof.
  unfold Ieee.OrderBook.update_statistics. cbn zeta.
  destruct (fold_volume_frame_ieee trades
              (Ieee.OrderBook.set_total_trades st
                 (u64 (Ieee.OrderBook.total_trades_ st
                       + Z.of_nat (length trades)))))
    as (-> & -> & ->).
  done.
Qed.

Lemma make_shared_Order_frame_ieee clock price qty side type st order st1 :
  Ieee.OrderBook.make_shared_Order clock price qty side type st
  = Ok (order, st1) ->
  Ieee.OrderBook.bids_ st1 = Ieee.OrderBook.bids_ st
  /\ Ieee.OrderBook.asks_ st1 = Ieee.OrderBook.asks_ st
  /\ Ieee.OrderBook.order_map_ st1 = Ieee.OrderBook.order_map_ st
  /\ exists o,
       Ieee.deref (Ieee.OrderBook.heap_ st1) order = Ok o
       /\ Ieee.Order.get_side o = side.
Proof.
  unfold Ieee.OrderBook.make_shared_Order, Ieee.OrderBook.get_timestamp.
  cbn beta iota zeta. intros H. inv_bind H. injection H as <- <-.
  split_and!; try done. exists a. split.
  - cbn. by rewrite lookup_app_r, Nat.sub_diag by done.
  - unfold Ieee.Order.make in Ha.
    destruct (qty =? 0); [done|]. destruct (Ieee.ltb price Ieee.zero); [done|].
    destruct (OrderType_eqb type LIMIT && Ieee.leb price Ieee.zero); [done|].
    by injection Ha as <-.
Qed.

Lemma match_order_shrinks clock side order st trades st' o :
  Ieee.deref (Ieee.OrderBook.heap_ st) order = Ok o ->
  Ieee.Order.get_side o = side ->
  Ieee.OrderBook.match_order clock order st = Ok (trades, st') ->
  Ieee.own side st' = Ieee.own side st
  /\ Ieee.OrderBook.order_map_ st' ⊆ Ieee.OrderBook.order_map_ st
  /\ (forall p, p ∈ Ieee.resting (Ieee.OrderBook.opposite side st') ->
                p ∈ Ieee.resting (Ieee.OrderBook.opposite side st)).
Proof.
  intros Ho Hside. unfold Ieee.OrderBook.match_order.
  destruct order as [i|]; [|done]. rewrite Ho. cbn [bind].
  rewrite Hside. apply match_loop_shrinks.
Qed.

Lemma resting_both_sides side st st' :
  Ieee.own side st' = Ieee.own side st ->
  (forall p, p ∈ Ieee.resting (Ieee.OrderBook.opposite side st') ->
             p ∈ Ieee.resting (Ieee.OrderBook.opposite side st)) ->
  forall p,
    p ∈ Ieee.resting (Ieee.OrderBook.bids_ st')
        ++ Ieee.resting (Ieee.OrderBook.asks_ st') ->
    p ∈ Ieee.resting (Ieee.OrderBook.bids_ st)
        ++ Ieee.resting (Ieee.OrderBook.asks_ st).
Proof.
  intros Hown Hopp p. rewrite !elem_of_app.
  destruct side; cbn [Ieee.own Ieee.OrderBook.opposite] in Hown, Hopp.
  - rewrite Hown. intros [H | H]; auto.
  - rewrite Hown. intros [H | H]; auto.
Qed.

(** A MARKET order is never rested, whatever the book and whatever its
    price: the add, when it returns, has added no pointer to a ladder
    and no entry to the index, and has left the ladder of its side as
    it was. *)
Lemma market_add_rests_nothing clock price quantity side st id trades st' :
  Ieee.OrderBook.add_order_body clock price quantity side MARKET st
  = Ok (id, trades, st') ->
  Ieee.own side st' = Ieee.own side st
  /\ Ieee.OrderBook.order_map_ st' ⊆ Ieee.OrderBook.order_map_ st
  /\ (forall p,
        p ∈ Ieee.resting (Ieee.OrderBook.bids_ st')
            ++ Ieee.resting (Ieee.OrderBook.asks_ st') ->
        p ∈ Ieee.resting (Ieee.OrderBook.bids_ st)
            ++ Ieee.resting (Ieee.OrderBook.asks_ st)).
Proof.
  unfold Ieee.OrderBook.add_order_body.
  destruct (quantity =? 0); [by intros [= <- <- <-]|].
  destruct (Ieee.ltb price Ieee.zero); [by intros [= <- <- <-]|].
  cbn [OrderType_eqb andb]. intros H. inv_bind H. destruct a as [order st1].
  apply make_shared_Order_frame_ieee in Ha
    as (Hb1 & Ha1 & Hi1 & o & Ho & Hside).
  rewrite Ho in H. cbn [bind] in H. inv_bind H. destruct a as [trades2 st2].
  apply (match_order_shrinks _ side _ _ _ _ o Ho Hside) in Ha
    as (Hown & Hidx & Hopp).
  inv_bind H. rewrite andb_false_r in H. cbn [bind] in H.
  injection H as <- <- <-.
  destruct (update_statistics_frame_ieee trades2 st2) as (Eb & Ea & Ei).
  assert (Hown1 : Ieee.own side st1 = Ieee.own side st)
    by (by destruct side).
  assert (Hopp1 : Ieee.OrderBook.opposite side st1
                  = Ieee.OrderBook.opposite side st)
    by (by destruct side).
  split_and!.
  - transitivity (Ieee.own side st2); [by destruct side | congruence].
  - rewrite Ei, <- Hi1. exact Hidx.
  - rewrite Eb, Ea. apply (resting_both_sides side).
    + transitivity (Ieee.own side st1); [done|].
      by destruct side; cbn; rewrite ?Hb1, ?Ha1.
    + intros p Hp. apply Hopp in Hp. by rewrite Hopp1 in Hp.
Qed.

Lemma add_market_order_rests_nothing clock quantity side st trades st' :
  Ieee.OrderBook.add_market_order clock quantity side st = Ok (trades, st') ->
  Ieee.own side st' = Ieee.own side st
  /\ Ieee.OrderBook.order_map_ st' ⊆ Ieee.OrderBook.order_map_ st
  /\ (forall p,
        p ∈ Ieee.resting (Ieee.OrderBook.bids_ st')
            ++ Ieee.resting (Ieee.OrderBook.asks_ st') ->
        p ∈ Ieee.resting (Ieee.OrderBook.bids_ st)
            ++ Ieee.resting (Ieee.OrderBook.asks_ st)).
Proof.
  unfold Ieee.OrderBook.add_market_order.
  destruct (quantity =? 0); [by intros [= <- <-]|].
  intros H. inv_bind H. destruct a as [order st1].
  apply make_shared_Order_frame_ieee in Ha
    as (Hb1 & Ha1 & Hi1 & o & Ho & Hside).
  inv_bind H. destruct a as [trades2 st2].
  apply (match_order_shrinks _ side _ _ _ _ o Ho Hside) in Ha
    as (Hown & Hidx & Hopp).
  injection H as <- <-.
  destruct (update_statistics_frame_ieee trades2 st2) as (Eb & Ea & Ei).
  assert (Hown1 : Ieee.own side st1 = Ieee.own side st)
    by (by destruct side).
  assert (Hopp1 : Ieee.OrderBook.opposite side st1
                  = Ieee.OrderBook.opposite side st)
    by (by destruct side).
  split_and!.
  - transitivity (Ieee.own side st2); [by destruct side | congruence].
  - rewrite Ei, <- Hi1. exact Hidx.
  - rewrite Eb, Ea. apply (resting_both_sides side).
    + congruence.
    + intros p Hp. apply Hopp in Hp. by rewrite Hopp1 in Hp.
Qed.




(** ** Cancellation *)

Lemma lift_ladder_app ma mb :
  lift_ladder (ma ++ mb) = lift_ladder ma ++ lift_ladder mb.
Proof. apply fmap_app. Qed.

Lemma lift_ladder_mid ma k lv mb :
  lift_ladder (ma ++ (k, lv) :: mb)
  = lift_ladder ma ++ (Ieee.Num k, lift_level lv) :: lift_ladder mb.
Proof. unfold lift_ladder. by rewrite fmap_app. Qed.

Lemma elem_of_lift_keys k m :
  Ieee.Num k ∈ Ieee.keys (lift_ladder m) <-> k ∈ keys m.
Proof.
  rewrite lift_keys, list_elem_of_fmap. split.
  - by intros (k' & [= <-] & Hk).
  - intros Hk. by exists k.
Qed.




(** ** The orders in the book *)

(** X8. As long as no NaN is passed to [add_order], at every point
    between two calls every order queued in a level of a ladder is an
    order of the side of the ladder and of the price of the level, it is
    NEW or PARTIALLY_FILLED, and something remains of it: a FILLED or
    CANCELLED order is never in the book.  No order is queued twice, and
    every id of the index leads to an order of that id that is queued in
    the level of its price on its side. *)
Theorem queued_orders_are_working clock ops :
  Forall Ieee.valid_op ops -> Forall Ieee.without_nan ops ->
  exists evs st,
    Ieee.run clock ops Ieee.OrderBook.init = Ok (evs, st)
    /\ (forall s k lv p,
          (k, lv) ∈ Ieee.own s st -> p ∈ Ieee.PriceLevel.orders_ lv ->
          Ieee.PriceLevel.get_price lv = k
          /\ exists a o,
               p = Some a /\ Ieee.OrderBook.heap_ st !! a = Some o
               /\ Ieee.Order.get_side o = s /\ Ieee.Order.get_price o = k
               /\ (Ieee.Order.get_status o = NEW
                   \/ Ieee.Order.get_status o = PARTIALLY_FILLED)
               /\ 0 < Ieee.Order.get_remaining_qty o)
    /\ NoDup (Ieee.resting (Ieee.OrderBook.bids_ st)
              ++ Ieee.resting (Ieee.OrderBook.asks_ st))
    /\ (forall id p,
          Ieee.OrderBook.order_map_ st !! id = Some p ->
          exists a o lv,
            p = Some a /\ Ieee.OrderBook.heap_ st !! a = Some o
            /\ Ieee.Order.get_id o = id
            /\ (Ieee.Order.get_price o, lv)
               ∈ Ieee.own (Ieee.Order.get_side o) st
            /\ p ∈ Ieee.PriceLevel.orders_ lv).
Proof.
  intros Hv Hn.
  destruct (run_without_nan clock ops
              (fun _ st =>
                 (forall s k lv p,
                    (k, lv) ∈ own s st -> p ∈ PriceLevel.orders_ lv ->
                    PriceLevel.get_price lv = k
                    /\ exists a o,
                         p = Some a /\ OrderBook.heap_ st !! a = Some o
                         /\ Order.get_side o = s /\ Order.get_price o = k
                         /\ (Order.get_status o = NEW
                             \/ Order.get_status o = PARTIALLY_FILLED)
                         /\ 0 < Order.get_remaining_qty o)
                 /\ NoDup (resting (OrderBook.bids_ st)
                           ++ resting (OrderBook.asks_ st))
                 /\ (forall id p,
                       OrderBook.order_map_ st !! id = Some p ->
                       exists a o lv,
                         p = Some a /\ OrderBook.heap_ st !! a = Some o
                         /\ Order.get_id o = id
                         /\ (Order.get_price o, lv)
                            ∈ own (Order.get_side o) st
                         /\ p ∈ PriceLevel.orders_ lv)) Hv Hn)
    as (evs & st & Hrun & Hq & Hnd & Hidx).
  { intros ops0 Hv0.
    destruct (queued_working_run clock ops0 Hv0) as (evs & st & H).
    by exists evs, st. }
  exists (lift_event <$> evs), (lift_state st). split; [done|].
  rewrite lift_bids, lift_asks, !lift_resting, lift_heap_of, lift_order_map.
  split_and!; [|done|].
  - intros s k lv p. rewrite lift_own.
    intros (k0 & lv0 & -> & -> & Hkl)%elem_of_lift_ladder Hp.
    destruct (Hq s k0 lv0 p Hkl Hp)
      as (Hprice & a & o & -> & Ho & Hs & Hk & Hst & Hrem).
    split; [cbn; by rewrite <- Hprice|].
    exists a, (lift_order o). rewrite lift_heap_lookup, Ho.
    split_and!; try done. cbn. by rewrite <- Hk.
  - intros id p Hp.
    destruct (Hidx id p Hp) as (a & o & lv & -> & Ho & Hid & Hkl & Hin).
    exists a, (lift_order o), (lift_level lv).
    rewrite lift_heap_lookup, Ho. split_and!; try done.
    rewrite lift_get_side, lift_own. apply elem_of_lift_ladder.
    by exists (Order.get_price o), lv.
Qed.

Lemma queued_orders_are_working_witness :
  exists evs st,
    Ieee.run clock0 Ieee.two_sided_ops Ieee.OrderBook.init = Ok (evs, st)
    /\ NoDup (Ieee.resting (Ieee.OrderBook.bids_ st)
              ++ Ieee.resting (Ieee.OrderBook.asks_ st)).
Proof.
  destruct (queued_orders_are_working clock0 Ieee.two_sided_ops)
    as (evs & st & Hrun & _ & Hnd & _).
  - repeat constructor; unfold in_u64; lia.
  - repeat constructor; discriminate.
  - exists evs, st. split; [exact Hrun | exact Hnd].
Defined.

(** X10. On a book that was passed no NaN, [cancel_order] touches one
    order at most: it keeps the counters of ids, of trades and of
    volume, it constructs no order, it leaves every order but the one
    that the index has under the id as it is, and of that one it changes
    the status only, to CANCELLED; [get_total_orders] is lowered by 1
    when it returns true and stays as it is when it returns false. *)
Theorem cancel_order_touches_one_order clock order_id st :
  Ieee.reachable clock st ->
  exists removed st',
    Ieee.OrderBook.cancel_order order_id st = Ok (removed, st')
    /\ Ieee.OrderBook.next_order_id_ st' = Ieee.OrderBook.next_order_id_ st
    /\ Ieee.OrderBook.next_trade_id_ st' = Ieee.OrderBook.next_trade_id_ st
    /\ Ieee.OrderBook.get_total_trades st'
       = Ieee.OrderBook.get_total_trades st
    /\ Ieee.OrderBook.get_total_volume st'
       = Ieee.OrderBook.get_total_volume st
    /\ length (Ieee.OrderBook.heap_ st') = length (Ieee.OrderBook.heap_ st)
    /\ (S (Ieee.OrderBook.get_total_orders st')
        = Ieee.OrderBook.get_total_orders st /\ removed = true
        \/ Ieee.OrderBook.get_total_orders st'
           = Ieee.OrderBook.get_total_orders st
           /\ removed = false)
    /\ (forall a,
          Ieee.OrderBook.order_map_ st !! order_id <> Some (Some a) ->
          Ieee.OrderBook.heap_ st' !! a = Ieee.OrderBook.heap_ st !! a)
    /\ (forall a o,
          Ieee.OrderBook.order_map_ st !! order_id = Some (Some a) ->
          Ieee.OrderBook.heap_ st !! a = Some o ->
          Ieee.OrderBook.heap_ st' !! a
          = Some (Ieee.Order.set_fill o (Ieee.Order.filled_qty_ o)
                    CANCELLED)).
Proof.
  intros (st0 & Hreach & ->)%reachable_lift.
  destruct (cancel_order_frame clock order_id st0 Hreach)
    as (removed & st' & Hrun & H1 & H2 & H3 & H4 & H5 & H6 & H7 & H8).
  exists removed, (lift_state st').
  rewrite !lift_heap_of, !lift_heap_length, !lift_order_map.
  split_and!; try done.
  - by rewrite lift_cancel_order, Hrun.
  - intros a Ha. by rewrite !lift_heap_lookup, (H7 a Ha).
  - intros a o Ha (o0 & Ho0 & ->)%lift_heap_lookup_Some.
    by rewrite lift_heap_lookup, (H8 a o0 Ha Ho0).
Qed.

Lemma cancel_order_touches_one_order_witness :
  exists removed st',
    Ieee.OrderBook.cancel_order 2
      (Ieee.state_after clock0 Ieee.two_sided_ops)
    = Ok (removed, st')
    /\ Ieee.OrderBook.get_total_volume st'
       = Ieee.OrderBook.get_total_volume
           (Ieee.state_after clock0 Ieee.two_sided_ops).
Proof.
  destruct (cancel_order_touches_one_order clock0 2
              (Ieee.state_after clock0 Ieee.two_sided_ops))
    as (removed & st' & Hrun & _ & _ & _ & Hvol & _).
  - apply state_after_without_nan.
    + repeat constructor; unfold in_u64; lia.
    + repeat constructor; discriminate.
  - exists removed, st'. split; [exact Hrun | exact Hvol].
Defined.

(** X15. As long as no NaN is passed to [add_order], at every point
    between two calls no level of either ladder has an empty queue; so a
    best price that [get_best_bid] or [get_best_ask] returns is the
    price of an order that is queued first at the head of its ladder, of
    which something remains. *)
Theorem no_level_is_empty clock ops :
  Forall Ieee.valid_op ops -> Forall Ieee.without_nan ops ->
  exists evs st,
    Ieee.run clock ops Ieee.OrderBook.init = Ok (evs, st)
    /\ (forall kl,
          kl ∈ Ieee.OrderBook.bids_ st ++ Ieee.OrderBook.asks_ st ->
          Ieee.PriceLevel.empty kl.2 = false
          /\ (0 < Ieee.PriceLevel.get_order_count kl.2)%nat)
    /\ (forall s b,
          Ieee.get_best s st = Some b ->
          exists lv others a o,
            Ieee.own s st = (b, lv) :: others
            /\ Ieee.PriceLevel.get_front_order lv = Some a
            /\ Ieee.OrderBook.heap_ st !! a = Some o
            /\ Ieee.Order.get_side o = s /\ Ieee.Order.get_price o = b
            /\ 0 < Ieee.Order.get_remaining_qty o).
Proof.
  intros Hv Hn.
  destruct (run_without_nan clock ops
              (fun _ st =>
                 (forall kl,
                    kl ∈ OrderBook.bids_ st ++ OrderBook.asks_ st ->
                    PriceLevel.empty kl.2 = false
                    /\ (0 < PriceLevel.get_order_count kl.2)%nat)
                 /\ (forall s b,
                       get_best s st = Some b ->
                       exists lv others a o,
                         own s st = (b, lv) :: others
                         /\ PriceLevel.get_front_order lv = Some a
                         /\ OrderBook.heap_ st !! a = Some o
                         /\ Order.get_side o = s /\ Order.get_price o = b
                         /\ 0 < Order.get_remaining_qty o)) Hv Hn)
    as (evs & st & Hrun & Hne & Hbest).
  { intros ops0 Hv0.
    destruct (no_empty_level_run clock ops0 Hv0) as (evs & st & H).
    by exists evs, st. }
  exists (lift_event <$> evs), (lift_state st). split; [done|].
  rewrite lift_bids, lift_asks, lift_heap_of. split.
  - intros kl. rewrite <- lift_ladder_app. destruct kl as [k lv].
    intros (k0 & lv0 & -> & -> & Hkl)%elem_of_lift_ladder.
    exact (Hne _ Hkl).
  - intros s b. rewrite lift_get_best, lift_own.
    intros (b0 & Hb & ->)%fmap_Some.
    destruct (Hbest s b0 Hb) as (lv & others & a & o & Hown & Hf & Ho & Hs
                                 & Hp & Hrem).
    exists (lift_level lv), (lift_ladder others), a, (lift_order o).
    rewrite Hown, lift_heap_lookup, Ho. split_and!; try done.
    cbn. by rewrite <- Hp.
Qed.

Lemma no_level_is_empty_witness :
  exists evs st,
    Ieee.run clock0 Ieee.two_sided_ops Ieee.OrderBook.init = Ok (evs, st)
    /\ (forall kl,
          kl ∈ Ieee.OrderBook.bids_ st ++ Ieee.OrderBook.asks_ st ->
          Ieee.PriceLevel.empty kl.2 = false
          /\ (0 < Ieee.PriceLevel.get_order_count kl.2)%nat).
Proof.
  destruct (no_level_is_empty clock0 Ieee.two_sided_ops)
    as (evs & st & Hrun & Hne & _).
  - repeat constructor; unfold in_u64; lia.
  - repeat constructor; discriminate.
  - exists evs, st. split; [exact Hrun | exact Hne].
Defined.

(** X17. As long as no NaN is passed to [add_order] and fewer than
    2^64 - 1 order ids were issued, at every point between two calls
    every order queued in a ladder is in the index under its own id, an
    id that was issued, no two queued orders have the same id,
    [cancel_order] of the id of a queued order returns true, and
    [get_total_orders] is exactly the number of orders queued in the two
    ladders. *)
Theorem queued_orders_are_indexed clock ops :
  Forall Ieee.valid_op ops -> Forall Ieee.without_nan ops ->
  exists evs st,
    Ieee.run clock ops Ieee.OrderBook.init = Ok (evs, st)
    /\ (Z.of_nat (length (Ieee.issued_ids evs)) < 2 ^ 64 - 1 ->
        (forall p,
            p ∈ Ieee.resting (Ieee.OrderBook.bids_ st)
                ++ Ieee.resting (Ieee.OrderBook.asks_ st) ->
            exists a o st',
              p = Some a /\ Ieee.OrderBook.heap_ st !! a = Some o
              /\ Ieee.OrderBook.order_map_ st !! Ieee.Order.get_id o = Some p
              /\ Ieee.Order.get_id o ∈ Ieee.issued_ids evs
              /\ Ieee.OrderBook.cancel_order (Ieee.Order.get_id o) st
                 = Ok (true, st'))
        /\ (forall a1 a2 o1 o2,
              Some a1 ∈ Ieee.resting (Ieee.OrderBook.bids_ st)
                        ++ Ieee.resting (Ieee.OrderBook.asks_ st) ->
              Some a2 ∈ Ieee.resting (Ieee.OrderBook.bids_ st)
                        ++ Ieee.resting (Ieee.OrderBook.asks_ st) ->
              Ieee.OrderBook.heap_ st !! a1 = Some o1 ->
              Ieee.OrderBook.heap_ st !! a2 = Some o2 ->
              Ieee.Order.get_id o1 = Ieee.Order.get_id o2 -> a1 = a2)
        /\ Ieee.OrderBook.get_total_orders st
           = length (Ieee.resting (Ieee.OrderBook.bids_ st)
                     ++ Ieee.resting (Ieee.OrderBook.asks_ st))).
Proof.
  intros Hv Hn.
  destruct (run_without_nan clock ops
              (fun evs st =>
                 Z.of_nat (length (issued_ids evs)) < 2 ^ 64 - 1 ->
                 (forall p,
                    p ∈ resting (OrderBook.bids_ st)
                        ++ resting (OrderBook.asks_ st) ->
                    exists a o st',
                      p = Some a /\ OrderBook.heap_ st !! a = Some o
                      /\ OrderBook.order_map_ st !! Order.get_id o = Some p
                      /\ Order.get_id o ∈ issued_ids evs
                      /\ OrderBook.cancel_order (Order.get_id o) st
                         = Ok (true, st'))
                 /\ (forall a1 a2 o1 o2,
                       Some a1 ∈ resting (OrderBook.bids_ st)
                                 ++ resting (OrderBook.asks_ st) ->
                       Some a2 ∈ resting (OrderBook.bids_ st)
                                 ++ resting (OrderBook.asks_ st) ->
                       OrderBook.heap_ st !! a1 = Some o1 ->
                       OrderBook.heap_ st !! a2 = Some o2 ->
                       Order.get_id o1 = Order.get_id o2 -> a1 = a2)
                 /\ OrderBook.get_total_orders st
                    = length (resting (OrderBook.bids_ st)
                              ++ resting (OrderBook.asks_ st))) Hv Hn)
    as (evs & st & Hrun & H).
  { intros ops0 Hv0.
    destruct (indexed_run clock ops0 Hv0) as (evs & st & H).
    by exists evs, st. }
  exists (lift_event <$> evs), (lift_state st). split; [done|].
  rewrite lift_issued_ids, lift_bids, lift_asks, !lift_resting, lift_heap_of,
    lift_order_map.
  intros Hfew. destruct (H Hfew) as (Hq & Huniq & Hsize). split_and!.
  - intros p Hp.
    destruct (Hq p Hp) as (a & o & st' & -> & Ho & Hidx & Hiss & Hcancel).
    exists a, (lift_order o), (lift_state st').
    rewrite lift_heap_lookup, Ho, lift_get_id, lift_cancel_order, Hcancel.
    by split_and!.
  - intros a1 a2 o1 o2 H1 H2 (o1' & Ho1 & ->)%lift_heap_lookup_Some
      (o2' & Ho2 & ->)%lift_heap_lookup_Some Hid.
    by eapply Huniq.
  - exact Hsize.
Qed.

Lemma queued_orders_are_indexed_witness :
  exists evs st,
    Ieee.run clock0 Ieee.two_sided_ops Ieee.OrderBook.init = Ok (evs, st)
    /\ Ieee.OrderBook.get_total_orders st
       = length (Ieee.resting (Ieee.OrderBook.bids_ st)
                 ++ Ieee.resting (Ieee.OrderBook.asks_ st)).
Proof.
  destruct (queued_orders_are_indexed clock0 Ieee.two_sided_ops)
    as (evs & st & Hrun & H).
  - repeat constructor; unfold in_u64; lia.
  - repeat constructor; discriminate.
  - exists evs, st. split; [exact Hrun|].
    refine (proj2 (proj2 (H _))).
    assert (Hevs : Ieee.issued_ids evs = [1; 2]).
    { vm_compute in Hrun. injection Hrun as <- _. reflexivity. }
    rewrite Hevs. simpl. lia.
Defined.
